(** * A segregated free-list allocator (mm.c): shallow embedding and properties

    The allocator of [src/mm.c] manages one byte arena obtained from the
    host through [mem_sbrk].  Blocks carry a header and a footer word
    [(size | alloc)]; free blocks are threaded on sixteen doubly linked
    lists through the first two words of their payload.

    The embedding follows the C text function by function:
    - the arena is a byte-addressed memory [Z -> Z]; [GET] and [PUT] read
      and write one 8-byte little-endian word ([uintptr_t] on LP64);
    - [size_t] values are integers in [0, 2^64) with the wrap-around written
      out ([wrap64]); the [int] temporaries of [mm_realloc] go through
      [to_int];
    - pointers are addresses in [Z], [NULL] is [0];
    - the globals [free_lists], [heap_listp] and the arena bounds are the
      fields of a [state] record that every function threads explicitly;
    - loops that follow links stored in memory take a [fuel] argument and
      return [None] when the fuel does not suffice. *)

From Stdlib Require Import ZArith List Bool Lia Sorting.Sorted.
Import ListNotations.
Local Open Scope Z_scope.

(** ** Machine integers *)

Definition wrap64 (x : Z) : Z := x mod 2 ^ 64.

(** Conversion to the 32-bit [int] of the C code (two's complement). *)
Definition to_int (x : Z) : Z := (x + 2 ^ 31) mod 2 ^ 32 - 2 ^ 31.

(** ** Basic constants and macros *)

Definition WSIZE : Z := 8.
Definition DSIZE : Z := 2 * WSIZE.
Definition CHUNKSIZE : Z := Z.shiftl 1 7.
Definition LISTS : Z := 16.
Definition NULL : Z := 0.

Definition MAX (x y : Z) : Z := if x >? y then x else y.

Definition PACK (size alloc : Z) : Z := Z.lor size alloc.

(** ** Byte-addressed memory *)

Definition memory := Z -> Z.

Definition byte_of (v i : Z) : Z := (v / 2 ^ (8 * i)) mod 256.

Definition rd (m : memory) (a : Z) : Z := m a mod 256.

Definition GET (m : memory) (p : Z) : Z :=
  rd m p + rd m (p + 1) * 2 ^ 8 + rd m (p + 2) * 2 ^ 16
  + rd m (p + 3) * 2 ^ 24 + rd m (p + 4) * 2 ^ 32 + rd m (p + 5) * 2 ^ 40
  + rd m (p + 6) * 2 ^ 48 + rd m (p + 7) * 2 ^ 56.

Definition PUT (m : memory) (p v : Z) : memory :=
  fun a => if (p <=? a) && (a <? p + WSIZE) then byte_of v (a - p) else m a.

Definition GET_SIZE (m : memory) (p : Z) : Z :=
  Z.land (GET m p) (wrap64 (Z.lnot (DSIZE - 1))).
Definition GET_ALLOC (m : memory) (p : Z) : Z := Z.land (GET m p) 1.

Definition HDRP (bp : Z) : Z := bp - WSIZE.
Definition FTRP (m : memory) (bp : Z) : Z := bp + GET_SIZE m (HDRP bp) - DSIZE.

Definition NEXT_BLKP (m : memory) (bp : Z) : Z := bp + GET_SIZE m (bp - WSIZE).
Definition PREV_BLKP (m : memory) (bp : Z) : Z := bp - GET_SIZE m (bp - DSIZE).

Definition NEXT_FBLK (bp : Z) : Z := bp.
Definition PREV_FBLK (bp : Z) : Z := bp + WSIZE.

(** [memmove]: the bytes are read from the memory as it was before the
    call, so overlapping ranges are handled. *)
Definition memmove (m : memory) (dst src n : Z) : memory :=
  fun a => if (dst <=? a) && (a <? dst + n) then m (src + (a - dst)) else m a.

(** [memcpy]: a forward byte-by-byte copy. *)
Fixpoint memcpy_loop (k : nat) (m : memory) (dst src : Z) : memory :=
  match k with
  | O => m
  | S k' =>
      memcpy_loop k' (fun a => if a =? dst then m src else m a)
                  (dst + 1) (src + 1)
  end.

Definition memcpy (m : memory) (dst src n : Z) : memory :=
  memcpy_loop (Z.to_nat n) m dst src.

(** ** Allocator state *)

Record state := mkState {
  mem : memory;              (* contents of the arena *)
  free_lists : Z -> Z;       (* void* free_lists[LISTS] *)
  heap_listp : Z;            (* void* heap_listp *)
  mem_start_brk : Z;         (* first byte of the arena *)
  mem_brk : Z;               (* current end of the arena *)
  mem_max_addr : Z           (* largest legal end of the arena *)
}.

Definition set_mem (st : state) (m : memory) : state :=
  mkState m (free_lists st) (heap_listp st)
          (mem_start_brk st) (mem_brk st) (mem_max_addr st).

Definition set_list (st : state) (idx v : Z) : state :=
  mkState (mem st) (fun j => if j =? idx then v else free_lists st j)
          (heap_listp st) (mem_start_brk st) (mem_brk st) (mem_max_addr st).

Definition put (st : state) (p v : Z) : state := set_mem st (PUT (mem st) p v).

(** Modelled from the spec: the arena provider [memlib] is not part of the
    sources.  [mem_sbrk] returns the prior arena end and advances it by
    [incr] bytes; it fails (the C function returns [(void * )-1], here
    [None]) when the request is negative or exceeds the arena limit. *)
Definition mem_sbrk (st : state) (incr : Z) : option (Z * state) :=
  if (incr <? 0) || (mem_brk st + incr >? mem_max_addr st) then None
  else Some (mem_brk st,
             mkState (mem st) (free_lists st) (heap_listp st)
                     (mem_start_brk st) (mem_brk st + incr) (mem_max_addr st)).

(** Modelled from the spec: inclusive arena bounds used by the audit. *)
Definition mem_heap_lo (st : state) : Z := mem_start_brk st.
Definition mem_heap_hi (st : state) : Z := mem_brk st - 1.

(** ** mm_find_list_idx *)

Fixpoint find_list_idx_loop (n : nat) (idx size : Z) : Z :=
  match n with
  | O => idx
  | S n' =>
      if (idx <? LISTS - 1) && (size >? 32) then
        find_list_idx_loop n' (idx + 1)
          (if idx >? Z.quot LISTS 2 then Z.shiftr size 8 else Z.shiftr size 1)
      else idx
  end.

(** The loop counter starts at 0 and the loop stops at [LISTS - 1], so
    [LISTS] iterations are enough (see [find_list_idx_loop_fuel]). *)
Definition mm_find_list_idx (size : Z) : Z :=
  find_list_idx_loop (Z.to_nat LISTS) 0 size.

(** The same loop as a big-step relation: a derivation is a terminating
    run of the [while]. *)
Inductive idx_while : Z -> Z -> Z -> Prop :=
| idx_while_exit : forall idx size,
    (idx <? LISTS - 1) && (size >? 32) = false ->
    idx_while idx size idx
| idx_while_iter : forall idx size r,
    (idx <? LISTS - 1) && (size >? 32) = true ->
    idx_while (idx + 1)
      (if idx >? Z.quot LISTS 2 then Z.shiftr size 8 else Z.shiftr size 1) r ->
    idx_while idx size r.

(** ** mm_remove_fblock *)

Definition resolve_idx (m : memory) (bp idx : Z) : Z :=
  if idx =? -1 then mm_find_list_idx (GET_SIZE m (HDRP bp)) else idx.

Definition mm_remove_fblock (st : state) (bp idx : Z) : state :=
  let pre := GET (mem st) (PREV_FBLK bp) in
  let suc := GET (mem st) (NEXT_FBLK bp) in
  let idx := resolve_idx (mem st) bp idx in
  if negb (pre =? NULL) && negb (suc =? NULL) then
    let st := put st (NEXT_FBLK pre) suc in
    put st (PREV_FBLK suc) pre
  else if negb (pre =? NULL) && (suc =? NULL) then
    put st (NEXT_FBLK pre) NULL
  else if (pre =? NULL) && negb (suc =? NULL) then
    let st := put st (PREV_FBLK suc) NULL in
    set_list st idx suc
  else
    set_list st idx NULL.

(** ** mm_insert_fblock *)

(** [while (next && (bp > next)) { curr = next; next = GET(NEXT_FBLK(curr)); }] *)
Fixpoint insert_walk (fuel : nat) (m : memory) (bp curr next : Z)
  : option (Z * Z) :=
  if negb (next =? NULL) && (bp >? next) then
    match fuel with
    | O => None
    | S fuel' => insert_walk fuel' m bp next (GET m (NEXT_FBLK next))
    end
  else Some (curr, next).

Definition mm_insert_fblock (fuel : nat) (st : state) (bp idx : Z)
  : option state :=
  let idx := resolve_idx (mem st) bp idx in
  if idx >? Z.quot (LISTS - 1) 2 then
    let curr := free_lists st idx in
    let next := if negb (curr =? NULL) then GET (mem st) (NEXT_FBLK curr)
                else NULL in
    if negb (curr =? NULL) then
      match insert_walk fuel (mem st) bp curr next with
      | None => None
      | Some (curr, next) =>
          let prev := GET (mem st) (PREV_FBLK curr) in
          if (prev =? NULL) && (bp <? curr) then
            let st := put st (NEXT_FBLK bp) curr in
            let st := put st (PREV_FBLK curr) bp in
            let st := put st (PREV_FBLK bp) NULL in
            Some (set_list st idx bp)
          else if (next =? NULL) && (bp >? curr) then
            let st := put st (NEXT_FBLK bp) NULL in
            let st := put st (PREV_FBLK bp) curr in
            Some (put st (NEXT_FBLK curr) bp)
          else if (next =? NULL) && (bp <? curr) then
            let st := put st (NEXT_FBLK prev) bp in
            let st := put st (PREV_FBLK bp) prev in
            Some (put st (PREV_FBLK curr) bp)
          else if negb (next =? NULL) && (bp >? curr) && (bp <? next) then
            let st := put st (NEXT_FBLK bp) next in
            let st := put st (PREV_FBLK bp) curr in
            let st := put st (NEXT_FBLK curr) bp in
            Some (put st (PREV_FBLK next) bp)
          else Some st
      end
    else
      let st := put st (NEXT_FBLK bp) NULL in
      let st := put st (PREV_FBLK bp) NULL in
      Some (set_list st idx bp)
  else
    let st :=
      if negb (free_lists st idx =? NULL) then
        let st := put st (NEXT_FBLK bp) (free_lists st idx) in
        put st (PREV_FBLK (free_lists st idx)) bp
      else put st (NEXT_FBLK bp) NULL in
    let st := put st (PREV_FBLK bp) NULL in
    Some (set_list st idx bp).

(** ** mm_init *)

Definition clear_lists (st : state) : state :=
  fold_left (fun s i => set_list s (Z.of_nat i) NULL)
            (seq 0 (Z.to_nat LISTS)) st.

(** Returns the C result ([0] or [-1]) and the new state.  On failure
    [heap_listp] has already been assigned [(void * )-1]. *)
Definition mm_init (st : state) : Z * state :=
  let st := clear_lists st in
  match mem_sbrk st (4 * WSIZE) with
  | None =>
      (-1, mkState (mem st) (free_lists st) (wrap64 (-1))
                   (mem_start_brk st) (mem_brk st) (mem_max_addr st))
  | Some (p, st) =>
      let st := put st p 0 in
      let st := put st (p + 1 * WSIZE) (PACK DSIZE 1) in
      let st := put st (p + 2 * WSIZE) (PACK DSIZE 1) in
      let st := put st (p + 3 * WSIZE) (PACK 0 1) in
      (0, mkState (mem st) (free_lists st) (p + DSIZE)
                  (mem_start_brk st) (mem_brk st) (mem_max_addr st))
  end.

(** ** coalesce *)

Definition coalesce (fuel : nat) (st : state) (bp : Z) : option (Z * state) :=
  let prev_alloc := GET_ALLOC (mem st) (FTRP (mem st) (PREV_BLKP (mem st) bp)) in
  let next_alloc := GET_ALLOC (mem st) (HDRP (NEXT_BLKP (mem st) bp)) in
  let size := GET_SIZE (mem st) (HDRP bp) in
  if negb (prev_alloc =? 0) && negb (next_alloc =? 0) then       (* Case 1 *)
    match mm_insert_fblock fuel st bp (-1) with
    | None => None
    | Some st => Some (bp, st)
    end
  else if negb (prev_alloc =? 0) && (next_alloc =? 0) then       (* Case 2 *)
    let st := mm_remove_fblock st (NEXT_BLKP (mem st) bp) (-1) in
    let size := wrap64 (size + GET_SIZE (mem st) (HDRP (NEXT_BLKP (mem st) bp))) in
    let st := put st (FTRP (mem st) (NEXT_BLKP (mem st) bp)) (PACK size 0) in
    let st := put st (HDRP bp) (PACK size 0) in
    match mm_insert_fblock fuel st bp (-1) with
    | None => None
    | Some st => Some (bp, st)
    end
  else if (prev_alloc =? 0) && negb (next_alloc =? 0) then       (* Case 3 *)
    let st := mm_remove_fblock st (PREV_BLKP (mem st) bp) (-1) in
    let size := wrap64 (size + GET_SIZE (mem st) (HDRP (PREV_BLKP (mem st) bp))) in
    let st := put st (FTRP (mem st) bp) (PACK size 0) in
    let st := put st (HDRP (PREV_BLKP (mem st) bp)) (PACK size 0) in
    match mm_insert_fblock fuel st (PREV_BLKP (mem st) bp) (-1) with
    | None => None
    | Some st' => Some (PREV_BLKP (mem st') bp, st')
    end
  else                                                           (* Case 4 *)
    let st := mm_remove_fblock st (NEXT_BLKP (mem st) bp) (-1) in
    let st := mm_remove_fblock st (PREV_BLKP (mem st) bp) (-1) in
    let size :=
      wrap64 (size
              + wrap64 (GET_SIZE (mem st) (HDRP (PREV_BLKP (mem st) bp))
                        + GET_SIZE (mem st) (FTRP (mem st) (NEXT_BLKP (mem st) bp)))) in
    let st := put st (HDRP (PREV_BLKP (mem st) bp)) (PACK size 0) in
    let st := put st (FTRP (mem st) (NEXT_BLKP (mem st) bp)) (PACK size 0) in
    match mm_insert_fblock fuel st (PREV_BLKP (mem st) bp) (-1) with
    | None => None
    | Some st' => Some (PREV_BLKP (mem st') bp, st')
    end.

(** ** extend_heap *)

(** Returns [NULL] and the unchanged state when [mem_sbrk] fails. *)
Definition extend_heap (st : state) (words : Z) : Z * state :=
  let size := if negb (words mod 2 =? 0) then wrap64 ((words + 1) * WSIZE)
              else wrap64 (words * WSIZE) in
  match mem_sbrk st size with
  | None => (NULL, st)
  | Some (bp, st) =>
      let st := put st (HDRP bp) (PACK size 0) in
      let st := put st (FTRP (mem st) bp) (PACK size 0) in
      let st := put st (HDRP (NEXT_BLKP (mem st) bp)) (PACK 0 1) in
      (bp, st)
  end.

(** ** find_fit *)

(** The inner [while (bp != NULL)]: [Some NULL] when the chain holds no
    fit, [Some bp] for the first fit, [None] when the fuel runs out. *)
Fixpoint find_in_list (fuel : nat) (m : memory) (asize bp : Z) : option Z :=
  if bp =? NULL then Some NULL
  else if asize <=? GET_SIZE m (HDRP bp) then Some bp
  else match fuel with
       | O => None
       | S fuel' => find_in_list fuel' m asize (GET m bp)
       end.

(** The outer [while (idx < LISTS)], at most [n] iterations. *)
Fixpoint find_fit_loop (n fuel : nat) (st : state) (asize idx : Z)
  : option (Z * state) :=
  if idx <? LISTS then
    match n with
    | O => None
    | S n' =>
        match find_in_list fuel (mem st) asize (free_lists st idx) with
        | None => None
        | Some bp =>
            if bp =? NULL then find_fit_loop n' fuel st asize (idx + 1)
            else Some (bp, mm_remove_fblock st bp idx)
        end
    end
  else Some (NULL, st).

Definition find_fit (fuel : nat) (st : state) (asize : Z) : option (Z * state) :=
  find_fit_loop (Z.to_nat LISTS) fuel st asize (mm_find_list_idx asize).

(** ** place *)

Definition place (fuel : nat) (st : state) (bp asize : Z) : option state :=
  let bsize := GET_SIZE (mem st) (HDRP bp) in
  let remain := wrap64 (bsize - asize) in
  if remain >=? 4 * WSIZE then
    let st := put st (HDRP bp) (PACK asize 1) in
    let st := put st (FTRP (mem st) bp) (PACK asize 1) in
    let st := put st (HDRP (NEXT_BLKP (mem st) bp)) (PACK remain 0) in
    let st := put st (FTRP (mem st) (NEXT_BLKP (mem st) bp)) (PACK remain 0) in
    mm_insert_fblock fuel st (NEXT_BLKP (mem st) bp) (-1)
  else
    let st := put st (HDRP bp) (PACK bsize 1) in
    Some (put st (FTRP (mem st) bp) (PACK bsize 1)).

(** ** mm_free *)

(** The first half of [mm_free]: the allocation bit of the header and of
    the footer is cleared. *)
Definition mark_free (st : state) (bp : Z) : state :=
  let size := GET_SIZE (mem st) (HDRP bp) in
  let st := put st (HDRP bp) (PACK size 0) in
  put st (FTRP (mem st) bp) (PACK size 0).

Definition mm_free (fuel : nat) (st : state) (bp : Z) : option state :=
  if bp =? NULL then Some st
  else
    match coalesce fuel (mark_free st bp) bp with
    | None => None
    | Some (_, st) => Some st
    end.

(** ** mm_malloc *)

(** The adjusted block size shared by [mm_malloc] and [mm_realloc]. *)
Definition adjust_size (size : Z) : Z :=
  if size <=? DSIZE then 2 * DSIZE
  else wrap64 (DSIZE * (wrap64 (size + DSIZE + (DSIZE - 1)) / DSIZE)).

Definition mm_malloc (fuel : nat) (st : state) (size : Z) : option (Z * state) :=
  if size =? 0 then Some (NULL, st)
  else
    let asize := adjust_size size in
    match find_fit fuel st asize with
    | None => None
    | Some (bp, st1) =>
        if negb (bp =? NULL) then
          match place fuel st1 bp asize with
          | None => None
          | Some st2 => Some (bp, st2)
          end
        else
          let extendsize := MAX asize CHUNKSIZE in
          let '(bp, st2) := extend_heap st1 (extendsize / WSIZE) in
          if bp =? NULL then Some (NULL, st2)
          else
            match place fuel st2 bp asize with
            | None => None
            | Some st3 => Some (bp, st3)
            end
    end.

(** ** mm_realloc *)

Definition mm_realloc (fuel : nat) (st : state) (ptr size : Z)
  : option (Z * state) :=
  if size =? 0 then
    match mm_free fuel st ptr with
    | None => None
    | Some st => Some (NULL, st)
    end
  else if ptr =? NULL then mm_malloc fuel st size
  else
    let asize := adjust_size size in
    if asize <? GET_SIZE (mem st) (HDRP ptr) then
      (* shrink *)
      let remain := to_int (wrap64 (GET_SIZE (mem st) (HDRP ptr) - asize)) in
      if wrap64 remain >=? 4 * WSIZE then
        let st := put st (HDRP ptr) (PACK asize 1) in
        let st := put st (FTRP (mem st) ptr) (PACK asize 1) in
        let st := put st (HDRP (NEXT_BLKP (mem st) ptr)) (PACK remain 0) in
        let st := put st (FTRP (mem st) (NEXT_BLKP (mem st) ptr)) (PACK remain 0) in
        match mm_insert_fblock fuel st (NEXT_BLKP (mem st) ptr) (-1) with
        | None => None
        | Some st => Some (ptr, st)
        end
      else Some (ptr, st)
    else
      let cmbsize_next :=
        wrap64 (GET_SIZE (mem st) (HDRP ptr)
                + GET_SIZE (mem st) (HDRP (NEXT_BLKP (mem st) ptr))) in
      let cmbsize_prev :=
        wrap64 (GET_SIZE (mem st) (HDRP ptr)
                + GET_SIZE (mem st) (HDRP (PREV_BLKP (mem st) ptr))) in
      if (GET_ALLOC (mem st) (HDRP (NEXT_BLKP (mem st) ptr)) =? 0)
         && (cmbsize_next >=? asize) then
        (* grow into the next block *)
        let st := mm_remove_fblock st (NEXT_BLKP (mem st) ptr) (-1) in
        let remain :=
          to_int (wrap64 (GET_SIZE (mem st) (HDRP (NEXT_BLKP (mem st) ptr))
                          - wrap64 (asize - GET_SIZE (mem st) (HDRP ptr)))) in
        let st := put st (HDRP ptr) (PACK asize 1) in
        let st := put st (FTRP (mem st) ptr) (PACK asize 1) in
        let st := put st (HDRP (NEXT_BLKP (mem st) ptr)) (PACK remain 0) in
        let st := put st (FTRP (mem st) (NEXT_BLKP (mem st) ptr)) (PACK remain 0) in
        match mm_insert_fblock fuel st (NEXT_BLKP (mem st) ptr) (-1) with
        | None => None
        | Some st => Some (ptr, st)
        end
      else if GET_SIZE (mem st) (HDRP (NEXT_BLKP (mem st) ptr)) =? 0 then
        (* the next block is the epilogue: extend the heap *)
        let diff := to_int (wrap64 (asize - GET_SIZE (mem st) (HDRP ptr))) in
        let '(r, st1) := extend_heap st (wrap64 diff / WSIZE) in
        if r =? NULL then Some (NULL, st1)
        else
          let st := st1 in
          let st := put st (FTRP (mem st) (NEXT_BLKP (mem st) ptr))
                        (PACK (wrap64 (GET_SIZE (mem st) (HDRP ptr) + wrap64 diff)) 1) in
          let st := put st (HDRP ptr)
                        (PACK (wrap64 (GET_SIZE (mem st) (HDRP ptr) + wrap64 diff)) 1) in
          Some (ptr, st)
      else if (GET_ALLOC (mem st) (HDRP (PREV_BLKP (mem st) ptr)) =? 0)
              && (cmbsize_prev >=? asize) then
        (* grow into the previous block; the C code also computes an
           [int remain] here, which it never uses *)
        let newptr := PREV_BLKP (mem st) ptr in
        let cmbsize :=
          wrap64 (GET_SIZE (mem st) (HDRP newptr) + GET_SIZE (mem st) (HDRP ptr)) in
        let st := mm_remove_fblock st newptr (-1) in
        let st := set_mem st (memmove (mem st) newptr ptr
                                      (GET_SIZE (mem st) (HDRP ptr))) in
        let st := put st (HDRP newptr) (PACK cmbsize 1) in
        let st := put st (FTRP (mem st) newptr) (PACK cmbsize 1) in
        Some (newptr, st)
      else
        (* fall back to malloc, copy, free *)
        match mm_malloc fuel st size with
        | None => None
        | Some (newptr, st1) =>
            if newptr =? NULL then Some (NULL, st1)
            else
              let copySize := GET_SIZE (mem st1) (HDRP ptr) in
              let copySize := if size <? copySize then size else copySize in
              let st2 := set_mem st1 (memcpy (mem st1) newptr ptr copySize) in
              match mm_free fuel st2 ptr with
              | None => None
              | Some st3 => Some (newptr, st3)
              end
        end.

(** ** mm_check *)

(** Runs [f] on the list indices [i, i+1, ...], [n] of them, stopping at
    the first failure ([Some false]) or fuel exhaustion ([None]). *)
Fixpoint for_each_list (n : nat) (i : Z) (f : Z -> option bool) : option bool :=
  match n with
  | O => Some true
  | S n' =>
      match f i with
      | Some true => for_each_list n' (i + 1) f
      | r => r
      end
  end.

(** First loop: the audit reads the allocation bit of the word AT the
    block pointer (the forward link), as the C text does. *)
Fixpoint check_marked (fuel : nat) (m : memory) (free : Z) : option bool :=
  if free =? NULL then Some true
  else if negb (GET_ALLOC m free =? 0) then Some false
  else match fuel with
       | O => None
       | S fuel' => check_marked fuel' m (GET m (NEXT_FBLK free))
       end.

(** Second loop: contiguous free blocks. *)
Fixpoint check_contiguous (fuel : nat) (m : memory) (bp : Z) : option bool :=
  if GET_SIZE m (HDRP bp) >? 0 then
    if ((GET_ALLOC m (HDRP bp) =? 0)
        && (GET_ALLOC m (HDRP (PREV_BLKP m bp)) =? 0))
       || ((GET_ALLOC m (HDRP bp) =? 0)
           && (GET_ALLOC m (HDRP (NEXT_BLKP m bp)) =? 0))
    then Some false
    else match fuel with
         | O => None
         | S fuel' => check_contiguous fuel' m (NEXT_BLKP m bp)
         end
  else Some true.

(** Third loop, inner [while (free != NULL && !found)]. *)
Fixpoint search_list (fuel : nat) (m : memory) (bp free : Z) (found : bool)
  : option bool :=
  if negb (free =? NULL) && negb found then
    match fuel with
    | O => None
    | S fuel' =>
        search_list fuel' m bp (GET m (NEXT_FBLK free))
                    (if bp =? free then true else found)
    end
  else Some found.

(** Third loop: every free block of the heap is in its list.  [found] is
    never reset by the C code, so it is threaded through the walk. *)
Fixpoint check_listed (fuel : nat) (st : state) (bp : Z) (found : bool)
  : option bool :=
  let m := mem st in
  if GET_SIZE m (HDRP bp) >? 0 then
    match fuel with
    | O => None
    | S fuel' =>
        if GET_ALLOC m (HDRP bp) =? 0 then
          let i := mm_find_list_idx (GET_SIZE m (HDRP bp)) in
          match search_list fuel m bp (free_lists st i) found with
          | None => None
          | Some found' =>
              if negb found' then Some false
              else check_listed fuel' st (NEXT_BLKP m bp) found'
          end
        else check_listed fuel' st (NEXT_BLKP m bp) found
    end
  else Some true.

(** Fourth loop: listed blocks are free and do not overlap their
    successor in the heap. *)
Fixpoint check_valid (fuel : nat) (m : memory) (free : Z) : option bool :=
  if free =? NULL then Some true
  else if negb (GET_ALLOC m (HDRP free) =? 0) then Some false
  else
    let next := NEXT_BLKP m free in
    if negb (next =? NULL) && (next <? free + GET_SIZE m (HDRP free))
    then Some false
    else match fuel with
         | O => None
         | S fuel' => check_valid fuel' m (GET m (NEXT_FBLK free))
         end.

(** Fifth loop: walks the heap and only prints. *)
Fixpoint check_bounds (fuel : nat) (m : memory) (bp : Z) : option bool :=
  if negb (GET_SIZE m (HDRP bp) =? 0) then
    match fuel with
    | O => None
    | S fuel' => check_bounds fuel' m (NEXT_BLKP m bp)
    end
  else Some true.

(** Sixth loop: counts the elements of a list and only prints. *)
Fixpoint count_list (fuel : nat) (m : memory) (bp : Z) : option bool :=
  if bp =? NULL then Some true
  else match fuel with
       | O => None
       | S fuel' => count_list fuel' m (GET m (NEXT_FBLK bp))
       end.

Definition and_then (a : option bool) (k : option bool) : option bool :=
  match a with
  | Some true => k
  | r => r
  end.

(** [Some 1]: consistent; [Some 0]: a check failed; [None]: out of fuel.
    The diagnostics printed by the C code are not modelled. *)
Definition mm_check (fuel : nat) (st : state) : option Z :=
  let m := mem st in
  let n := Z.to_nat LISTS in
  let r :=
    and_then (for_each_list n 0 (fun i => check_marked fuel m (free_lists st i)))
   (and_then (check_contiguous fuel m (heap_listp st))
   (and_then (check_listed fuel st (heap_listp st) false)
   (and_then (for_each_list n 0 (fun i => check_valid fuel m (free_lists st i)))
   (and_then (check_bounds fuel m (heap_listp st))
             (for_each_list n 0 (fun i => count_list fuel m (free_lists st i)))))))
  in
  match r with
  | None => None
  | Some true => Some 1
  | Some false => Some 0
  end.

(** ** A concrete arena for examples *)

(** An empty arena of [cap] bytes at address [base], all bytes zero. *)
Definition fresh (base cap : Z) : state :=
  mkState (fun _ => 0) (fun _ => 0) 0 base base (base + cap).

(** ** The bucket function of the specification *)

(** The pseudocode of the specification, as a big-step relation:
[[
    idx = 0
    while idx < 15 and size > 32:
        if idx > 8: size >>= 8
        else:       size >>= 1
        idx += 1
    return idx
]]
    [bucket_while idx size r]: started with [idx] and [size], the loop
    terminates and returns [r]. *)
Inductive bucket_while : Z -> Z -> Z -> Prop :=
| bucket_exit : forall idx size,
    ~ (idx < 15 /\ size > 32) ->
    bucket_while idx size idx
| bucket_shift8 : forall idx size r,
    idx < 15 -> size > 32 -> idx > 8 ->
    bucket_while (idx + 1) (Z.shiftr size 8) r ->
    bucket_while idx size r
| bucket_shift1 : forall idx size r,
    idx < 15 -> size > 32 -> ~ idx > 8 ->
    bucket_while (idx + 1) (Z.shiftr size 1) r ->
    bucket_while idx size r.

Definition bucket_spec (size r : Z) : Prop := bucket_while 0 size r.

(** ** Free lists as mathematical lists *)

(** A block size as the allocator writes it: a multiple of the double
    word that fits a word. *)
Definition is_size (s : Z) : Prop := 0 <= s < 2 ^ 64 /\ s mod 16 = 0.

(** A stored pointer reads back unchanged when it fits a word. *)
Definition is_ptr (x : Z) : Prop := 0 < x < 2 ^ 64.

(** [dll m p h l]: in memory [m] the chain that starts at [h] consists of
    the blocks [l] in link order (each a non-null 64-bit pointer), the
    backward link of its first block is [p], every backward link points
    to the predecessor and the forward link of the last block is
    [NULL]. *)
Fixpoint dll (m : memory) (p h : Z) (l : list Z) : Prop :=
  match l with
  | [] => h = NULL
  | x :: l' =>
      h = x /\ is_ptr x /\ GET m (PREV_FBLK x) = p
      /\ dll m x (GET m (NEXT_FBLK x)) l'
  end.

(** The two link words of the blocks [x] and [y] do not overlap. *)
Definition far (x y : Z) : Prop := x + DSIZE <= y \/ y + DSIZE <= x.

(** Pairwise [far]; in particular the list has no duplicates. *)
Fixpoint separated (l : list Z) : Prop :=
  match l with
  | [] => True
  | x :: l' => Forall (far x) l' /\ separated l'
  end.

(** Byte [b] lies in the link words of a block of [l]. *)
Definition in_links (l : list Z) (b : Z) : Prop :=
  exists x, In x l /\ x <= b < x + DSIZE.

(** The sixteen buckets, as a list of blocks per index. *)
Definition buckets := Z -> list Z.

Definition all_blocks (ls : buckets) : list Z :=
  flat_map (fun i => ls (Z.of_nat i)) (seq 0 (Z.to_nat LISTS)).

Definition lists_ok (st : state) (ls : buckets) : Prop :=
  forall i, 0 <= i < LISTS -> dll (mem st) NULL (free_lists st i) (ls i).

Definition set_bucket (ls : buckets) (i : Z) (l : list Z) : buckets :=
  fun j => if j =? i then l else ls j.

(** Removal of a block from a list. *)
Fixpoint remove_block (x : Z) (l : list Z) : list Z :=
  match l with
  | [] => []
  | y :: l' => if y =? x then l' else y :: remove_block x l'
  end.

(** Address-ordered insertion: before the first block with a higher
    address. *)
Fixpoint insert_sorted (x : Z) (l : list Z) : list Z :=
  match l with
  | [] => [x]
  | y :: l' => if x <? y then x :: y :: l' else y :: insert_sorted x l'
  end.

(** The insertion policy of [mm_insert_fblock]: address order in the
    buckets above [(LISTS - 1) / 2], at the head in the others. *)
Definition insert_policy (idx x : Z) (l : list Z) : list Z :=
  if idx >? Z.quot (LISTS - 1) 2 then insert_sorted x l else x :: l.

(** The last block of [l], or [p] when [l] is empty. *)
Fixpoint lastp (p : Z) (l : list Z) : Z :=
  match l with
  | [] => p
  | a :: l' => lastp a l'
  end.

(** Separation of the buckets: inside a bucket and across buckets the
    link words of distinct blocks do not overlap. *)
Definition sep_buckets (ls : buckets) : Prop :=
  (forall i, 0 <= i < LISTS -> separated (ls i))
  /\ (forall i j a b, 0 <= i < LISTS -> 0 <= j < LISTS -> i <> j ->
                      In a (ls i) -> In b (ls j) -> far a b).

(** [m'] agrees with [m] on every byte outside the region [R]. *)
Definition same_outside (R : Z -> Prop) (m m' : memory) : Prop :=
  forall b, ~ R b -> m' b = m b.

(** The memory written by [mm_remove_fblock] for a block whose backward
    and forward links are [pre] and [suc]. *)
Definition unlink (m : memory) (pre suc : Z) : memory :=
  let m1 := if pre =? NULL then m else PUT m (NEXT_FBLK pre) suc in
  if suc =? NULL then m1 else PUT m1 (PREV_FBLK suc) pre.

(** Splits the four components of a non-empty chain. *)
Ltac dll_split := split; [|split; [|split]].

(** The memory written by [mm_insert_fblock] when [bp] becomes the head
    of a chain whose head was [h]. *)
Definition link_front (m : memory) (bp h : Z) : memory :=
  PUT (if h =? NULL then PUT m (NEXT_FBLK bp) NULL
       else PUT (PUT m (NEXT_FBLK bp) h) (PREV_FBLK h) bp)
      (PREV_FBLK bp) NULL.

(** The memory written by [mm_insert_fblock] when [bp] is linked behind
    [curr] and before [next] (cases 2 and 4 of the C function). *)
Definition link_after (m : memory) (bp curr next : Z) : memory :=
  if next =? NULL then
    PUT (PUT (PUT m (NEXT_FBLK bp) NULL) (PREV_FBLK bp) curr) (NEXT_FBLK curr) bp
  else
    PUT (PUT (PUT (PUT m (NEXT_FBLK bp) next) (PREV_FBLK bp) curr)
             (NEXT_FBLK curr) bp)
        (PREV_FBLK next) bp.

(** Strictly ascending addresses. *)
Fixpoint ascending (l : list Z) : Prop :=
  match l with
  | [] => True
  | x :: l' => Forall (Z.lt x) l' /\ ascending l'
  end.

(** The arena and the heap base are unchanged. *)
Definition same_arena (st st' : state) : Prop :=
  heap_listp st' = heap_listp st /\ mem_start_brk st' = mem_start_brk st
  /\ mem_brk st' = mem_brk st /\ mem_max_addr st' = mem_max_addr st.

(** ** Decision procedures for the representation predicates *)

Fixpoint dllb (m : memory) (p h : Z) (l : list Z) : bool :=
  match l with
  | [] => h =? NULL
  | x :: l' =>
      (h =? x) && (0 <? x) && (x <? 2 ^ 64)
      && (GET m (PREV_FBLK x) =? p) && dllb m x (GET m (NEXT_FBLK x)) l'
  end.

Definition farb (x y : Z) : bool := (x + DSIZE <=? y) || (y + DSIZE <=? x).

Fixpoint separatedb (l : list Z) : bool :=
  match l with
  | [] => true
  | x :: l' => forallb (farb x) l' && separatedb l'
  end.

Fixpoint ascendingb (l : list Z) : bool :=
  match l with
  | [] => true
  | x :: l' => forallb (Z.ltb x) l' && ascendingb l'
  end.

Definition lists_okb (st : state) (ls : buckets) : bool :=
  forallb (fun i => dllb (mem st) NULL (free_lists st (Z.of_nat i))
                         (ls (Z.of_nat i)))
          (seq 0 (Z.to_nat LISTS)).

(** ** Call traces *)

(** A call of the public interface.  Pointers are named by the position
    of the call that returned them ([Free k] frees the pointer returned
    by the [k]-th allocating call of the trace). *)
Inductive call :=
| Malloc (size : Z)
| Free (k : nat)
| Realloc (k : nat) (size : Z).

(** Runs a trace; [ptrs] collects the pointers returned so far. *)
Fixpoint run (fuel : nat) (calls : list call) (st : state) (ptrs : list Z)
  : option (state * list Z) :=
  match calls with
  | [] => Some (st, ptrs)
  | Malloc size :: rest =>
      match mm_malloc fuel st size with
      | None => None
      | Some (p, st') => run fuel rest st' (ptrs ++ [p])
      end
  | Free k :: rest =>
      match mm_free fuel st (nth k ptrs NULL) with
      | None => None
      | Some st' => run fuel rest st' ptrs
      end
  | Realloc k size :: rest =>
      match mm_realloc fuel st (nth k ptrs NULL) size with
      | None => None
      | Some (p, st') => run fuel rest st' (ptrs ++ [p])
      end
  end.

(** The state after [mm_init] on an empty zeroed arena of one megabyte
    at address 4096, followed by the calls of the trace. *)
Definition after (fuel : nat) (calls : list call) : option (state * list Z) :=
  run fuel calls (snd (mm_init (fresh 4096 1048576))) [].

(** The blocks met by a walk from [bp] to the epilogue. *)
Fixpoint heap_walk (fuel : nat) (m : memory) (bp : Z) : option (list Z) :=
  if GET_SIZE m (HDRP bp) >? 0 then
    match fuel with
    | O => None
    | S fuel' =>
        match heap_walk fuel' m (NEXT_BLKP m bp) with
        | None => None
        | Some l => Some (bp :: l)
        end
    end
  else Some [].

(** Block [bp] is free and so is its right neighbour. *)
Definition free_pair (m : memory) (bp : Z) : Prop :=
  GET_ALLOC m (HDRP bp) = 0 /\ GET_ALLOC m (HDRP (NEXT_BLKP m bp)) = 0.

(** The state a trace ends in (the empty arena if the trace does not
    run to its end). *)
Definition state_of (r : option (state * list Z)) : state :=
  match r with
  | Some (st, _) => st
  | None => fresh 0 0
  end.

(** Example heap: two blocks of 4224 bytes at 4128 and 8480, separated by
    an allocated block; the first one is free and sits in bucket 8, the
    second one has just been marked free. *)
Definition two_large_blocks : state :=
  mark_free
    (state_of (after 20 [Malloc 4200; Malloc 100; Malloc 4200; Free 0%nat]))
    8480.

Definition two_large_buckets : buckets :=
  fun i => if i =? 8 then [4128] else [].

(** Every listed block sits in the bucket of its size (invariant 4 of the
    specification, the part about listed blocks). *)
Definition sizes_ok (st : state) (ls : buckets) : Prop :=
  forall i c, 0 <= i < LISTS -> In c (ls i) ->
              mm_find_list_idx (GET_SIZE (mem st) (HDRP c)) = i.

Definition sizes_okb (st : state) (ls : buckets) : bool :=
  forallb (fun i =>
             forallb (fun c => mm_find_list_idx (GET_SIZE (mem st) (HDRP c))
                               =? Z.of_nat i)
                     (ls (Z.of_nat i)))
          (seq 0 (Z.to_nat LISTS)).

(** [ran o]: the computation [o] returned a result. *)
Definition ran {A : Type} (o : option A) : bool :=
  match o with
  | Some _ => true
  | None => false
  end.

(** Example heap: [a = mm_malloc(40)] (a block of 64 bytes at 4128,
    followed by a free block of 64 bytes), then [mm_realloc(a, 1)]. *)
Definition shrink_trace : list call := [Malloc 40; Realloc 0%nat 1].
Definition shrunk_heap : state := state_of (after 20 shrink_trace).

(** Example heap: three blocks of 32 bytes at 4128, 4160 and 4192,
    followed by a free block of 32 bytes at 4224 and the epilogue. *)
Definition exact_fit_heap : state :=
  state_of (after 20 [Malloc 1; Malloc 1; Malloc 1]).



(** Example heap: a block of 32 bytes at 4128 followed by an allocated
    block of 96 bytes at 4160 and the epilogue. *)
Definition hemmed_heap : state := state_of (after 20 [Malloc 1; Malloc 80]).

(** The link words of every listed block lie outside [lo, hi). *)
Definition clear_of (lo hi : Z) (ls : buckets) : Prop :=
  forall j a, 0 <= j < LISTS -> In a (ls j) -> a + DSIZE <= lo \/ hi <= a.

Definition clear_ofb (lo hi : Z) (ls : buckets) : bool :=
  forallb (fun a => (a + DSIZE <=? lo) || (hi <=? a)) (all_blocks ls).

(** The conditions of the grow-left path as the claim lists them: the
    block does not shrink, the right neighbour is allocated or too
    small, the left neighbour is free and large enough. *)
Definition grow_left_claimed (st : state) (ptr size : Z) : Prop :=
  let m := mem st in
  let asize := adjust_size size in
  let csize := GET_SIZE m (HDRP ptr) in
  size <> 0 /\ ptr <> NULL
  /\ csize <= asize
  /\ (GET_ALLOC m (HDRP (NEXT_BLKP m ptr)) <> 0
      \/ wrap64 (csize + GET_SIZE m (HDRP (NEXT_BLKP m ptr))) < asize)
  /\ GET_ALLOC m (HDRP (PREV_BLKP m ptr)) = 0
  /\ asize <= wrap64 (csize + GET_SIZE m (HDRP (PREV_BLKP m ptr))).

(** The path conditions of the code: in addition the right neighbour is
    not the epilogue, for which the arena is extended instead. *)
Definition grow_left_path (st : state) (ptr size : Z) : Prop :=
  grow_left_claimed st ptr size
  /\ GET_SIZE (mem st) (HDRP (NEXT_BLKP (mem st) ptr)) <> 0.

(** Example heap: a free block of 64 bytes at 4128 (in bucket 1), an
    allocated block of 64 bytes at 4192, then the epilogue. *)
Definition left_free_heap : state :=
  state_of (after 20 [Malloc 40; Malloc 40; Free 0%nat]).

(** Example heap: as [left_free_heap], with one more allocated block of
    64 bytes at 4256 before the epilogue. *)
Definition left_free_hemmed_heap : state :=
  state_of (after 20 [Malloc 40; Malloc 40; Malloc 40; Free 0%nat]).

Definition left_free_buckets : buckets :=
  fun i => if i =? 1 then [4128] else [].

Definition left_free_hemmed_buckets : buckets :=
  fun i => if i =? 1 then [4128; 4320] else [].

(** ** What coalesce computes *)

(** The block that results from a merge: the left neighbour when it is
    free, the block itself otherwise. *)
Definition merged_block (pfree : bool) (prev bp : Z) : Z :=
  if pfree then prev else bp.

(** The summed size of the block and of its free neighbours. *)
Definition merged_size (size : Z) (pfree : bool) (psize : Z)
    (nfree : bool) (nsize : Z) : Z :=
  size + (if pfree then psize else 0) + (if nfree then nsize else 0).

(** The buckets without block [x] of bucket [i], when [c] holds. *)
Definition without (c : bool) (ls : buckets) (i x : Z) : buckets :=
  if c then set_bucket ls i (remove_block x (ls i)) else ls.

(** Example heap: four blocks of 64 bytes at 4128, 4192, 4256 and 4320;
    the first and the third are free and listed in bucket 1, the second
    has just been marked free, the fourth is allocated. *)
Definition sandwich_heap : state :=
  mark_free
    (state_of (after 20 [Malloc 40; Malloc 40; Malloc 40; Malloc 40;
                         Free 0%nat; Free 2%nat]))
    4192.

Definition sandwich_buckets : buckets :=
  fun i => if i =? 1 then [4256; 4128] else [].

(** ** mm_print_flist *)

(** What [printf] shows for a pointer passed to the conversion [%x],
    which takes an [unsigned int]: the low 32 bits of the pointer. *)
Definition as_uint (x : Z) : Z := x mod 2 ^ 32.

(** The output of [mm_print_flist], as the three values that the
    [printf] of every iteration shows, in order: [PREV_FBLK(free)],
    [free] and [NEXT_FBLK(free)], each through [%x]. *)
Fixpoint mm_print_flist (fuel : nat) (m : memory) (free : Z)
  : option (list (Z * Z * Z)) :=
  if negb (free =? NULL) then
    match fuel with
    | O => None
    | S fuel' =>
        match mm_print_flist fuel' m (GET m (NEXT_FBLK free)) with
        | None => None
        | Some out =>
            Some ((as_uint (PREV_FBLK free), as_uint free,
                   as_uint (NEXT_FBLK free)) :: out)
        end
    end
  else Some [].

(** ** Size classes in closed form *)

(** The smallest size that reaches bucket [k], for [k] from 1 to 15: nine
    halvings (at the indices 0 to 8), then shifts by eight bits. *)
Definition class_lo (k : Z) : Z :=
  if k <=? 10 then 33 * 2 ^ (k - 1) else 33 * 2 ^ (8 * k - 71).

(** ** The heap as a sequence of blocks *)

(** [tiles m bp bl]: from the payload address [bp] on, the memory holds
    the blocks [bl], given by size and allocation bit, one after the
    other: each is at least four words long and carries the same word
    [(size | alloc)] as header and as footer. *)
Fixpoint tiles (m : memory) (bp : Z) (bl : list (Z * bool)) : Prop :=
  match bl with
  | [] => True
  | (s, a) :: bl' =>
      is_size s /\ 2 * DSIZE <= s
      /\ GET m (HDRP bp) = PACK s (Z.b2z a)
      /\ GET m (bp + s - DSIZE) = PACK s (Z.b2z a)
      /\ tiles m (bp + s) bl'
  end.

(** The bytes that the blocks [bl] occupy. *)
Fixpoint span (bl : list (Z * bool)) : Z :=
  match bl with
  | [] => 0
  | (s, _) :: bl' => s + span bl'
  end.

(** The payload addresses of the free blocks and of the allocated
    blocks of [bl], in address order. *)
Fixpoint frees (bp : Z) (bl : list (Z * bool)) : list Z :=
  match bl with
  | [] => []
  | (s, a) :: bl' =>
      if a then frees (bp + s) bl' else bp :: frees (bp + s) bl'
  end.

Fixpoint allocs (bp : Z) (bl : list (Z * bool)) : list Z :=
  match bl with
  | [] => []
  | (s, a) :: bl' =>
      if a then bp :: allocs (bp + s) bl' else allocs (bp + s) bl'
  end.

(** Byte [b] lies in the payload of an allocated block of [bl]. *)
Fixpoint live (bp : Z) (bl : list (Z * bool)) (b : Z) : Prop :=
  match bl with
  | [] => False
  | (s, a) :: bl' =>
      (a = true /\ bp <= b < bp + s - DSIZE) \/ live (bp + s) bl' b
  end.

(** Byte [b] lies in an allocated block of [bl], between the start of
    its header and the end of its footer. *)
Fixpoint held (bp : Z) (bl : list (Z * bool)) (b : Z) : Prop :=
  match bl with
  | [] => False
  | (s, a) :: bl' =>
      (a = true /\ bp - WSIZE <= b < bp + s - WSIZE) \/ held (bp + s) bl' b
  end.

(** No free block is followed by a free block. *)
Fixpoint no_free_pair (bl : list (Z * bool)) : Prop :=
  match bl with
  | [] => True
  | (_, a) :: bl' =>
      (a = false -> match bl' with
                    | (_, false) :: _ => False
                    | _ => True
                    end)
      /\ no_free_pair bl'
  end.

(** The allocation bit of the last and of the first block of [l],
    [true] when there is none. *)
Definition last_alloc (l : list (Z * bool)) : bool :=
  match rev l with
  | (_, a) :: _ => a
  | [] => true
  end.

Definition first_alloc (l : list (Z * bool)) : bool :=
  match l with
  | (_, a) :: _ => a
  | [] => true
  end.

(** The heap between two public calls: a prologue at an address that is
    a multiple of sixteen, the blocks [bl], the epilogue at the end of
    the arena; the free blocks are exactly the blocks linked in the
    buckets [ls], each in the bucket of its size, the buckets above
    index 7 in address order; no two free blocks are adjacent. *)
Record heap_ok (st : state) (ls : buckets) (bl : list (Z * bool)) : Prop := {
  ok_base : DSIZE <= heap_listp st;
  ok_align : heap_listp st mod DSIZE = 0;
  ok_max : mem_brk st <= mem_max_addr st < 2 ^ 64;
  ok_prologue_hdr : GET (mem st) (HDRP (heap_listp st)) = PACK DSIZE 1;
  ok_prologue_ftr : GET (mem st) (heap_listp st) = PACK DSIZE 1;
  ok_tiles : tiles (mem st) (heap_listp st + DSIZE) bl;
  ok_brk : heap_listp st + DSIZE + span bl = mem_brk st;
  ok_epilogue : GET (mem st) (mem_brk st - WSIZE) = PACK 0 1;
  ok_lists : lists_ok st ls;
  ok_sep : sep_buckets ls;
  ok_sizes : sizes_ok st ls;
  ok_asc : forall j, 7 < j -> ascending (ls j);
  ok_listed : forall x, In x (frees (heap_listp st + DSIZE) bl)
                        <-> exists i, 0 <= i < LISTS /\ In x (ls i);
  ok_pairs : no_free_pair bl
}.

(** A state [sK] with buckets [lsK] in the middle of [coalesce], which
    started in state [st] with the buckets [ls]: the memory still holds
    the blocks [bl], the buckets are well formed and hold blocks of
    [ls] only, and only link words of free blocks of [bl] have been
    written. *)
Record coalescing (fuel : nat) (st : state) (ls : buckets) (first : Z)
    (bl : list (Z * bool)) (sK : state) (lsK : buckets) : Prop := {
  co_tiles : tiles (mem sK) first bl;
  co_lists : lists_ok sK lsK;
  co_sep : sep_buckets lsK;
  co_asc : forall j, 7 < j -> ascending (lsK j);
  co_fuel : forall j, 0 <= j < LISTS -> (length (lsK j) <= fuel)%nat;
  co_sub : forall j x, 0 <= j < LISTS -> In x (lsK j) -> In x (ls j);
  co_frame : forall b, ~ in_links (frees first bl) b -> mem sK b = mem st b;
  co_arena : same_arena st sK
}.


(** ** Traces of mm_malloc and mm_free *)

(** The positions named by the [Free] calls of a trace, in order. *)
Fixpoint freed_by (calls : list call) : list nat :=
  match calls with
  | [] => []
  | Free k :: rest => k :: freed_by rest
  | _ :: rest => freed_by rest
  end.

(** A request that [mm_malloc] can round up without wrapping, or a
    call of [mm_free]. *)
Definition plain_call (c : call) : Prop :=
  match c with
  | Malloc size => 0 <= size <= 2 ^ 64 - 32
  | Free _ => True
  | Realloc _ _ => False
  end.

(** A trace of such calls that names no position in two [Free] calls. *)
Definition plain (calls : list call) : Prop :=
  Forall plain_call calls /\ NoDup (freed_by calls).

(** * Properties *)

(** ** The size-class function *)

Section FindListIdx.

Lemma loop_cond_true idx size :
  (idx <? LISTS - 1) && (size >? 32) = true <-> idx < 15 /\ size > 32.
Proof.
  unfold LISTS. rewrite andb_true_iff, Z.ltb_lt, Z.gtb_ltb, Z.ltb_lt. lia.
Qed.

Lemma loop_cond_false idx size :
  (idx <? LISTS - 1) && (size >? 32) = false <-> ~ (idx < 15 /\ size > 32).
Proof.
  rewrite <- loop_cond_true. destruct ((idx <? LISTS - 1) && (size >? 32)); split;
    congruence.
Qed.

Lemma upper_half_test idx : (idx >? Z.quot LISTS 2) = (idx >? 8).
Proof. reflexivity. Qed.

Lemma find_list_idx_loop_lower n : forall idx size,
  idx <= find_list_idx_loop n idx size.
Proof.
  induction n as [|n IH]; intros idx size; cbn [find_list_idx_loop]; [lia|].
  destruct ((idx <? LISTS - 1) && (size >? 32)); [|lia].
  specialize (IH (idx + 1)
    (if idx >? Z.quot LISTS 2 then Z.shiftr size 8 else Z.shiftr size 1)). lia.
Qed.

Lemma find_list_idx_loop_upper n : forall idx size,
  idx <= 15 -> find_list_idx_loop n idx size <= 15.
Proof.
  induction n as [|n IH]; intros idx size Hi; cbn [find_list_idx_loop]; [lia|].
  destruct ((idx <? LISTS - 1) && (size >? 32)) eqn:E; [|lia].
  apply loop_cond_true in E. apply IH. lia.
Qed.

Lemma shiftr_le a b k : 0 <= k -> a <= b -> Z.shiftr a k <= Z.shiftr b k.
Proof.
  intros Hk Hab. rewrite !Z.shiftr_div_pow2 by assumption.
  apply Z.div_le_mono; [apply Z.pow_pos_nonneg; lia | assumption].
Qed.

Lemma find_list_idx_loop_mono n : forall idx s t,
  s <= t -> find_list_idx_loop n idx s <= find_list_idx_loop n idx t.
Proof.
  induction n as [|n IH]; intros idx s t Hst; cbn [find_list_idx_loop]; [lia|].
  destruct ((idx <? LISTS - 1) && (s >? 32)) eqn:Es;
    destruct ((idx <? LISTS - 1) && (t >? 32)) eqn:Et.
  - apply IH. destruct (idx >? Z.quot LISTS 2); apply shiftr_le; lia.
  - apply loop_cond_true in Es. apply loop_cond_false in Et. lia.
  - pose proof (find_list_idx_loop_lower n (idx + 1)
      (if idx >? Z.quot LISTS 2 then Z.shiftr t 8 else Z.shiftr t 1)). lia.
  - lia.
Qed.

(** With at least [15 - idx] iterations allowed the recursion is the
    [while] loop of the C function. *)
Lemma find_list_idx_loop_fuel n : forall idx size,
  15 - idx <= Z.of_nat n ->
  idx_while idx size (find_list_idx_loop n idx size).
Proof.
  induction n as [|n IH]; intros idx size Hn; cbn [find_list_idx_loop].
  - apply idx_while_exit. apply loop_cond_false. lia.
  - destruct ((idx <? LISTS - 1) && (size >? 32)) eqn:E.
    + apply idx_while_iter; [assumption|]. apply IH. lia.
    + apply idx_while_exit. assumption.
Qed.

Lemma idx_while_deterministic idx size r1 :
  idx_while idx size r1 -> forall r2, idx_while idx size r2 -> r1 = r2.
Proof.
  induction 1 as [idx size E | idx size r E _ IH]; intros r2 H2;
    inversion H2; subst; try congruence.
  apply IH. assumption.
Qed.

Lemma idx_while_bucket_while idx size r :
  idx_while idx size r -> bucket_while idx size r.
Proof.
  induction 1 as [idx size E | idx size r E _ IH].
  - apply bucket_exit. apply loop_cond_false. assumption.
  - apply loop_cond_true in E. destruct E as [E1 E2].
    rewrite upper_half_test in IH.
    destruct (idx >? 8) eqn:E8.
    + apply bucket_shift8; try assumption. apply Z.gtb_lt in E8. lia.
    + apply bucket_shift1; try assumption.
      intro H8. apply Z.gt_lt, Z.gtb_lt in H8. congruence.
Qed.

Lemma bucket_while_deterministic idx size r1 :
  bucket_while idx size r1 -> forall r2, bucket_while idx size r2 -> r1 = r2.
Proof.
  induction 1 as [idx size E | idx size r E1 E2 E3 _ IH | idx size r E1 E2 E3 _ IH];
    intros r2 Hr2; inversion Hr2; subst;
    solve [ reflexivity | exfalso; tauto | apply IH; assumption ].
Qed.

Lemma mm_find_list_idx_runs size : idx_while 0 size (mm_find_list_idx size).
Proof. apply find_list_idx_loop_fuel. simpl. lia. Qed.

Lemma mm_find_list_idx_range size : 0 <= mm_find_list_idx size <= 15.
Proof.
  unfold mm_find_list_idx. split.
  - apply find_list_idx_loop_lower.
  - apply find_list_idx_loop_upper. lia.
Qed.

Lemma mm_find_list_idx_mono s t :
  s <= t -> mm_find_list_idx s <= mm_find_list_idx t.
Proof. apply find_list_idx_loop_mono. Qed.

End FindListIdx.

(** C6. For every size, [mm_find_list_idx] returns exactly the index that
    the pseudocode of the specification computes: the pseudocode run from
    [idx = 0] terminates with [mm_find_list_idx size], and with no other
    value. *)
Theorem mm_find_list_idx_matches_pseudocode :
  forall size,
    bucket_spec size (mm_find_list_idx size)
    /\ (forall r, bucket_spec size r -> r = mm_find_list_idx size).
Proof.
  intro size.
  assert (H : bucket_spec size (mm_find_list_idx size)).
  { apply idx_while_bucket_while, mm_find_list_idx_runs. }
  split; [exact H|].
  intros r Hr. symmetry.
  exact (bucket_while_deterministic _ _ _ H _ Hr).
Qed.

(** ** Words in a byte memory *)

Section Memory.

Lemma rd_range m a : 0 <= rd m a < 256.
Proof. unfold rd. apply Z.mod_pos_bound. lia. Qed.

Lemma GET_range m p : 0 <= GET m p < 2 ^ 64.
Proof.
  unfold GET.
  pose proof (rd_range m p). pose proof (rd_range m (p + 1)).
  pose proof (rd_range m (p + 2)). pose proof (rd_range m (p + 3)).
  pose proof (rd_range m (p + 4)). pose proof (rd_range m (p + 5)).
  pose proof (rd_range m (p + 6)). pose proof (rd_range m (p + 7)).
  change (2 ^ 8) with 256. change (2 ^ 16) with 65536.
  change (2 ^ 24) with 16777216. change (2 ^ 32) with 4294967296.
  change (2 ^ 40) with 1099511627776. change (2 ^ 48) with 281474976710656.
  change (2 ^ 56) with 72057594037927936.
  change (2 ^ 64) with 18446744073709551616. lia.
Qed.

Lemma GET_ext m m' a :
  (forall b, a <= b < a + WSIZE -> m' b = m b) -> GET m' a = GET m a.
Proof.
  intro H. unfold GET, rd, WSIZE in *.
  rewrite (H a), (H (a + 1)), (H (a + 2)), (H (a + 3)), (H (a + 4)),
    (H (a + 5)), (H (a + 6)), (H (a + 7)) by lia.
  reflexivity.
Qed.

Lemma PUT_outside m p v b : b < p \/ p + WSIZE <= b -> PUT m p v b = m b.
Proof.
  intro H. unfold PUT.
  destruct ((p <=? b) && (b <? p + WSIZE)) eqn:E; [|reflexivity].
  apply andb_true_iff in E. destruct E as [E1 E2].
  apply Z.leb_le in E1. apply Z.ltb_lt in E2. lia.
Qed.

Lemma PUT_inside m p v i :
  0 <= i < WSIZE -> PUT m p v (p + i) = byte_of v i.
Proof.
  intro H. unfold PUT.
  destruct ((p <=? p + i) && (p + i <? p + WSIZE)) eqn:E.
  - f_equal. lia.
  - apply andb_false_iff in E.
    destruct E as [E|E]; [apply Z.leb_gt in E | apply Z.ltb_ge in E]; lia.
Qed.

Lemma byte_of_range v i : 0 <= byte_of v i < 256.
Proof. unfold byte_of. apply Z.mod_pos_bound. lia. Qed.

Lemma bytes_sum v :
  byte_of v 0 + byte_of v 1 * 2 ^ 8 + byte_of v 2 * 2 ^ 16
  + byte_of v 3 * 2 ^ 24 + byte_of v 4 * 2 ^ 32 + byte_of v 5 * 2 ^ 40
  + byte_of v 6 * 2 ^ 48 + byte_of v 7 * 2 ^ 56 = wrap64 v.
Proof.
  unfold byte_of, wrap64.
  change (2 ^ (8 * 0)) with 1. change (2 ^ (8 * 1)) with 256.
  change (2 ^ (8 * 2)) with (256 * 256).
  change (2 ^ (8 * 3)) with (256 * 256 * 256).
  change (2 ^ (8 * 4)) with (256 * 256 * 256 * 256).
  change (2 ^ (8 * 5)) with (256 * 256 * 256 * 256 * 256).
  change (2 ^ (8 * 6)) with (256 * 256 * 256 * 256 * 256 * 256).
  change (2 ^ (8 * 7)) with (256 * 256 * 256 * 256 * 256 * 256 * 256).
  change (2 ^ 64) with (256 * 256 * 256 * 256 * 256 * 256 * 256 * 256).
  rewrite <- !Z.div_div by lia. rewrite Z.div_1_r.
  set (q1 := v / 256). set (q2 := q1 / 256). set (q3 := q2 / 256).
  set (q4 := q3 / 256). set (q5 := q4 / 256). set (q6 := q5 / 256).
  set (q7 := q6 / 256).
  pose proof (Z.div_mod v 256 ltac:(lia)) as H0. fold q1 in H0.
  pose proof (Z.div_mod q1 256 ltac:(lia)) as H1. fold q2 in H1.
  pose proof (Z.div_mod q2 256 ltac:(lia)) as H2. fold q3 in H2.
  pose proof (Z.div_mod q3 256 ltac:(lia)) as H3. fold q4 in H3.
  pose proof (Z.div_mod q4 256 ltac:(lia)) as H4. fold q5 in H4.
  pose proof (Z.div_mod q5 256 ltac:(lia)) as H5. fold q6 in H5.
  pose proof (Z.div_mod q6 256 ltac:(lia)) as H6. fold q7 in H6.
  pose proof (Z.div_mod q7 256 ltac:(lia)) as H7.
  pose proof (Z.mod_pos_bound v 256 ltac:(lia)).
  pose proof (Z.mod_pos_bound q1 256 ltac:(lia)).
  pose proof (Z.mod_pos_bound q2 256 ltac:(lia)).
  pose proof (Z.mod_pos_bound q3 256 ltac:(lia)).
  pose proof (Z.mod_pos_bound q4 256 ltac:(lia)).
  pose proof (Z.mod_pos_bound q5 256 ltac:(lia)).
  pose proof (Z.mod_pos_bound q6 256 ltac:(lia)).
  pose proof (Z.mod_pos_bound q7 256 ltac:(lia)).
  change (2 ^ 8) with 256. change (2 ^ 16) with 65536.
  change (2 ^ 24) with 16777216. change (2 ^ 32) with 4294967296.
  change (2 ^ 40) with 1099511627776. change (2 ^ 48) with 281474976710656.
  change (2 ^ 56) with 72057594037927936.
  apply Z.mod_unique_pos with (q := q7 / 256); lia.
Qed.

Lemma GET_PUT_same m p v : GET (PUT m p v) p = wrap64 v.
Proof.
  rewrite <- bytes_sum. unfold GET, rd.
  replace (PUT m p v p) with (PUT m p v (p + 0)) by (f_equal; lia).
  rewrite !PUT_inside by (unfold WSIZE; lia).
  rewrite !Z.mod_small by apply byte_of_range. reflexivity.
Qed.

Lemma GET_PUT_far m p v q :
  q + WSIZE <= p \/ p + WSIZE <= q -> GET (PUT m p v) q = GET m q.
Proof.
  intro H. apply GET_ext. intros b Hb. apply PUT_outside. lia.
Qed.

Lemma wrap64_small v : 0 <= v < 2 ^ 64 -> wrap64 v = v.
Proof. intro H. unfold wrap64. apply Z.mod_small. assumption. Qed.

Lemma GET_PUT_ptr m p v : 0 <= v < 2 ^ 64 -> GET (PUT m p v) p = v.
Proof. intro H. rewrite GET_PUT_same. apply wrap64_small. assumption. Qed.

End Memory.

(** ** Packed header words *)

Section PackedWords.

Lemma alloc_bit w : Z.land w 1 = w mod 2.
Proof. change 1 with (Z.ones 1) at 1. rewrite Z.land_ones by lia. reflexivity. Qed.

Lemma size_mask w :
  0 <= w < 2 ^ 64 -> Z.land w (wrap64 (Z.lnot (DSIZE - 1))) = w - w mod 16.
Proof.
  intro Hw.
  change (wrap64 (Z.lnot (DSIZE - 1))) with (Z.shiftl (Z.ones 60) 4).
  replace (w - w mod 16) with (Z.shiftl (Z.shiftr w 4) 4).
  2:{ rewrite Z.shiftl_mul_pow2, Z.shiftr_div_pow2 by lia.
      change (2 ^ 4) with 16. pose proof (Z.div_mod w 16 ltac:(lia)). lia. }
  apply Z.bits_inj'. intros n Hn.
  rewrite Z.land_spec, !Z.shiftl_spec by assumption.
  destruct (Z.ltb_spec n 4) as [H4|H4].
  - rewrite !(Z.testbit_neg_r _ (n - 4)) by lia. apply andb_false_r.
  - rewrite Z.shiftr_spec by lia. replace (n - 4 + 4) with n by lia.
    destruct (Z.ltb_spec n 64) as [H64|H64].
    + rewrite Z.ones_spec_low by lia. apply andb_true_r.
    + rewrite Z.ones_spec_high by lia. rewrite andb_false_r.
      rewrite <- (Z.mod_small w (2 ^ 64)) by assumption.
      rewrite Z.mod_pow2_bits_high by lia. reflexivity.
Qed.

Lemma PACK_add s a : s mod 2 = 0 -> a = 0 \/ a = 1 -> PACK s a = s + a.
Proof.
  intros Hs [->| ->]; unfold PACK.
  - rewrite Z.lor_0_r. lia.
  - pose proof (Z.add_lor_land s 1) as H. rewrite alloc_bit in H. lia.
Qed.

Lemma GET_SIZE_range m p : 0 <= GET_SIZE m p < 2 ^ 64.
Proof.
  unfold GET_SIZE. pose proof (GET_range m p) as H.
  rewrite size_mask by assumption.
  pose proof (Z.mod_pos_bound (GET m p) 16 ltac:(lia)).
  pose proof (Z.mod_le (GET m p) 16 ltac:(lia) ltac:(lia)). lia.
Qed.

Lemma GET_SIZE_mod m p : GET_SIZE m p mod 16 = 0.
Proof.
  unfold GET_SIZE. rewrite size_mask by apply GET_range.
  pose proof (Z.div_mod (GET m p) 16 ltac:(lia)).
  replace (GET m p - GET m p mod 16) with (GET m p / 16 * 16) by lia.
  apply Z.mod_mul. lia.
Qed.

Lemma GET_SIZE_is_size m p : is_size (GET_SIZE m p).
Proof. split; [apply GET_SIZE_range | apply GET_SIZE_mod]. Qed.

Lemma PACK_word s a : is_size s -> a = 0 \/ a = 1 -> 0 <= PACK s a < 2 ^ 64.
Proof.
  intros [Hs Hm] Ha. rewrite PACK_add; try assumption.
  - assert (s <= 2 ^ 64 - 16).
    { pose proof (Z.div_mod s 16 ltac:(lia)).
      change (2 ^ 64) with (16 * 1152921504606846976) in *. lia. }
    lia.
  - pose proof (Z.div_mod s 16 ltac:(lia)).
    replace s with (s / 16 * 8 * 2) by lia. apply Z.mod_mul. lia.
Qed.

Lemma size_of_PACK s a :
  is_size s -> a = 0 \/ a = 1 ->
  Z.land (PACK s a) (wrap64 (Z.lnot (DSIZE - 1))) = s.
Proof.
  intros Hs Ha. rewrite size_mask by (apply PACK_word; assumption).
  destruct Hs as [Hs Hm].
  pose proof (Z.div_mod s 16 ltac:(lia)) as Hd.
  rewrite PACK_add; try assumption.
  - replace (s + a) with (a + s / 16 * 16) by lia.
    rewrite Z.mod_add by lia. rewrite Z.mod_small by lia. lia.
  - replace s with (s / 16 * 8 * 2) by lia. apply Z.mod_mul. lia.
Qed.

Lemma alloc_of_PACK s a :
  is_size s -> a = 0 \/ a = 1 -> Z.land (PACK s a) 1 = a.
Proof.
  intros [Hs Hm] Ha. rewrite alloc_bit.
  pose proof (Z.div_mod s 16 ltac:(lia)) as Hd.
  rewrite PACK_add; try assumption.
  - replace (s + a) with (a + s / 16 * 8 * 2) by lia.
    rewrite Z.mod_add by lia. apply Z.mod_small. lia.
  - replace s with (s / 16 * 8 * 2) by lia. apply Z.mod_mul. lia.
Qed.

Lemma GET_SIZE_PUT m p s a :
  is_size s -> a = 0 \/ a = 1 -> GET_SIZE (PUT m p (PACK s a)) p = s.
Proof.
  intros Hs Ha. unfold GET_SIZE. rewrite GET_PUT_same.
  rewrite wrap64_small by (apply PACK_word; assumption).
  apply size_of_PACK; assumption.
Qed.

Lemma GET_ALLOC_PUT m p s a :
  is_size s -> a = 0 \/ a = 1 -> GET_ALLOC (PUT m p (PACK s a)) p = a.
Proof.
  intros Hs Ha. unfold GET_ALLOC. rewrite GET_PUT_same.
  rewrite wrap64_small by (apply PACK_word; assumption).
  apply alloc_of_PACK; assumption.
Qed.

End PackedWords.

(** ** Doubly linked chains *)

Section Chains.

Lemma far_sym x y : far x y -> far y x.
Proof. unfold far. tauto. Qed.

Lemma far_neq x y : far x y -> x <> y.
Proof. unfold far, DSIZE, WSIZE. lia. Qed.

Lemma separated_app l1 l2 :
  separated (l1 ++ l2) <->
  separated l1 /\ separated l2 /\ (forall a b, In a l1 -> In b l2 -> far a b).
Proof.
  induction l1 as [|x l1 IH]; simpl.
  - split; [intro H; repeat split; [assumption | intros a b []] | tauto].
  - rewrite IH, Forall_app, !Forall_forall. split.
    + intros [[H1 H2] [H3 [H4 H5]]]. repeat split; try assumption.
      intros a b [<-|Ha] Hb; auto.
    + intros [[H1 H2] [H3 H4]]. repeat split; try assumption.
      * intros b Hb. apply H4; auto.
      * intros a b Ha Hb. apply H4; auto.
Qed.

Lemma separated_NoDup l : separated l -> NoDup l.
Proof.
  induction l as [|x l IH]; simpl; intro H; constructor.
  - destruct H as [H _]. rewrite Forall_forall in H. intro Hin.
    apply (far_neq x x); auto.
  - apply IH. tauto.
Qed.

Lemma separated_far l a b :
  separated l -> In a l -> In b l -> a <> b -> far a b.
Proof.
  induction l as [|x l IH]; simpl; [tauto|].
  intros [H1 H2] [<-|Ha] [<-|Hb] Hab; rewrite Forall_forall in H1.
  - congruence.
  - auto.
  - apply far_sym. auto.
  - auto.
Qed.

Lemma In_remove_block x a l : In a (remove_block x l) -> In a l.
Proof.
  induction l as [|y l IH]; simpl; [tauto|].
  destruct (y =? x); simpl; tauto.
Qed.

Lemma separated_remove_block x l : separated l -> separated (remove_block x l).
Proof.
  induction l as [|y l IH]; simpl; [tauto|].
  intros [H1 H2]. destruct (y =? x); [assumption|]. simpl. split; [|auto].
  rewrite Forall_forall in *. intros a Ha. apply H1.
  eapply In_remove_block; eassumption.
Qed.

Lemma remove_block_middle x l1 l2 :
  ~ In x l1 -> remove_block x (l1 ++ x :: l2) = l1 ++ l2.
Proof.
  induction l1 as [|y l1 IH]; simpl; intro H.
  - rewrite Z.eqb_refl. reflexivity.
  - destruct (Z.eqb_spec y x) as [->|_]; [tauto|].
    rewrite IH by tauto. reflexivity.
Qed.

Lemma separated_flat_map (f : nat -> list Z) (l : list nat) :
  separated (flat_map f l) -> NoDup l ->
  (forall i, In i l -> separated (f i))
  /\ (forall i j a b, In i l -> In j l -> i <> j ->
                      In a (f i) -> In b (f j) -> far a b).
Proof.
  induction l as [|k l IH]; simpl; intros Hs Hn.
  - split; intros; tauto.
  - apply separated_app in Hs. destruct Hs as [H1 [H2 H3]].
    inversion Hn as [|? ? Hk Hn']; subst.
    destruct (IH H2 Hn') as [IH1 IH2]. split.
    + intros i [<-|Hi]; auto.
    + intros i j a b [<-|Hi] [<-|Hj] Hij Ha Hb.
      * congruence.
      * apply H3; [assumption|]. apply in_flat_map. eauto.
      * apply far_sym. apply H3; [assumption|]. apply in_flat_map. eauto.
      * apply (IH2 i j a b); assumption.
Qed.

Lemma separated_all_blocks ls : separated (all_blocks ls) -> sep_buckets ls.
Proof.
  intro H. unfold all_blocks in H.
  apply separated_flat_map in H; [|apply seq_NoDup].
  destruct H as [H1 H2].
  assert (R : forall i, 0 <= i < LISTS -> In (Z.to_nat i) (seq 0 (Z.to_nat LISTS))).
  { intros i Hi. apply in_seq. unfold LISTS in *. lia. }
  split.
  - intros i Hi. specialize (H1 _ (R i Hi)).
    rewrite Z2Nat.id in H1 by lia. assumption.
  - intros i j a b Hi Hj Hij Ha Hb.
    apply (H2 (Z.to_nat i) (Z.to_nat j)); try (apply R; assumption).
    + lia.
    + rewrite Z2Nat.id by lia. assumption.
    + rewrite Z2Nat.id by lia. assumption.
Qed.

Lemma lastp_In p l : l <> [] -> In (lastp p l) l.
Proof.
  revert p. induction l as [|a l IH]; intros p H; [congruence|].
  simpl. destruct l as [|b l]; [left; reflexivity|].
  right. apply IH. discriminate.
Qed.

Lemma dll_is_ptr m l : forall p h, dll m p h l -> Forall is_ptr l.
Proof.
  induction l as [|x l IH]; intros p h H; constructor; simpl in H.
  - tauto.
  - destruct H as [_ [_ [_ H]]]. eapply IH. eassumption.
Qed.

Lemma dll_head m p h l : dll m p h l -> h = hd NULL l.
Proof. destruct l; simpl; tauto. Qed.

(** A chain only depends on the link words of its own blocks. *)
Lemma dll_frame m m' l : forall p h,
  (forall x, In x l ->
     GET m' (NEXT_FBLK x) = GET m (NEXT_FBLK x)
     /\ GET m' (PREV_FBLK x) = GET m (PREV_FBLK x)) ->
  dll m p h l -> dll m' p h l.
Proof.
  induction l as [|x l IH]; intros p h Hf H; simpl in *; [assumption|].
  destruct H as [H1 [H2 [H3 H4]]].
  destruct (Hf x (or_introl eq_refl)) as [Hn Hp].
  dll_split; try assumption; [congruence|].
  rewrite Hn. apply IH; auto.
Qed.

Lemma dll_same_outside R m m' l p h :
  same_outside R m m' ->
  (forall x b, In x l -> x <= b < x + DSIZE -> ~ R b) ->
  dll m p h l -> dll m' p h l.
Proof.
  intros Hs HR. apply dll_frame. intros x Hx.
  unfold NEXT_FBLK, PREV_FBLK, DSIZE, WSIZE in *.
  split; apply GET_ext; intros b Hb; apply Hs; apply (HR x); auto;
    unfold WSIZE in *; lia.
Qed.

(** The links around a block of the chain. *)
Lemma dll_links m x l2 l1 : forall p h,
  dll m p h (l1 ++ x :: l2) ->
  GET m (PREV_FBLK x) = lastp p l1 /\ GET m (NEXT_FBLK x) = hd NULL l2
  /\ h = hd x l1.
Proof.
  induction l1 as [|a l1 IH]; intros p h H; simpl in H.
  - destruct H as [H1 [H2 [H3 H4]]]. simpl.
    split; [assumption|]. split; [|assumption].
    apply dll_head in H4. assumption.
  - destruct H as [H1 [H2 [H3 H4]]]. apply IH in H4.
    simpl. tauto.
Qed.

(** Unlinking [x]: any memory whose links around [x] are short-circuited
    and whose other links are those of [m] holds the chain without [x]. *)
Lemma dll_unlink m m' x l2 l1 : forall p h,
  dll m p h (l1 ++ x :: l2) ->
  NoDup (l1 ++ x :: l2) ->
  (l1 <> [] -> GET m' (NEXT_FBLK (lastp p l1)) = hd NULL l2) ->
  (forall y, hd_error l2 = Some y -> GET m' (PREV_FBLK y) = lastp p l1) ->
  (forall q, In q l1 -> q <> lastp p l1 ->
             GET m' (NEXT_FBLK q) = GET m (NEXT_FBLK q)) ->
  (forall q, In q l1 -> GET m' (PREV_FBLK q) = GET m (PREV_FBLK q)) ->
  (forall q, In q l2 -> GET m' (NEXT_FBLK q) = GET m (NEXT_FBLK q)) ->
  (forall q, In q l2 -> hd_error l2 <> Some q ->
             GET m' (PREV_FBLK q) = GET m (PREV_FBLK q)) ->
  dll m' p (hd (hd NULL l2) l1) (l1 ++ l2).
Proof.
  induction l1 as [|a l1 IH]; intros p h H Hnd Hlast Hhd Hn1 Hp1 Hn2 Hp2.
  - simpl in *. destruct H as [_ [_ [Hxp Hrest]]].
    destruct l2 as [|y l2]; simpl in *; [reflexivity|].
    destruct Hrest as [Hy [Hyp [_ Hrest]]].
    dll_split; try assumption; try reflexivity.
    + apply Hhd. reflexivity.
    + rewrite Hn2 by auto.
      apply dll_frame with (m := m); [|assumption].
      intros q Hq. split; [apply Hn2; auto|]. apply Hp2; [auto|].
      intro E. inversion E; subst.
      inversion Hnd as [|? ? _ Hnd']; subst.
      inversion Hnd' as [|? ? Hq' _]; subst. tauto.
  - simpl in H. destruct H as [Hh [Ha [Hap Hrest]]].
    inversion Hnd as [|? ? Hanot Hnd']; subst.
    simpl. dll_split; try assumption; try reflexivity.
    + apply Hp1. left; reflexivity.
    + assert (E : GET m' (NEXT_FBLK a) = hd (hd NULL l2) l1).
      { destruct l1 as [|b l1].
        - simpl. apply (Hlast ltac:(discriminate)).
        - rewrite Hn1.
          + apply dll_head in Hrest. exact Hrest.
          + left; reflexivity.
          + intro E. apply Hanot. rewrite E. apply in_or_app. left.
            apply (lastp_In a (b :: l1)). discriminate. }
      rewrite E. apply (IH a (GET m (NEXT_FBLK a))); try assumption.
      * intro Hne. apply Hlast. discriminate.
      * intros q Hq Hne. apply Hn1; [right; assumption | assumption].
      * intros q Hq. apply Hp1. right; assumption.
Qed.

(** The chain behind a new predecessor [bp]. *)
Lemma dll_after m m' bp l2 : forall p h,
  dll m p h l2 ->
  NoDup l2 ->
  (forall y, hd_error l2 = Some y -> GET m' (PREV_FBLK y) = bp) ->
  (forall q, In q l2 -> GET m' (NEXT_FBLK q) = GET m (NEXT_FBLK q)) ->
  (forall q, In q l2 -> hd_error l2 <> Some q ->
             GET m' (PREV_FBLK q) = GET m (PREV_FBLK q)) ->
  dll m' bp (hd NULL l2) l2.
Proof.
  intros p h H Hnd Hhd Hn2 Hp2.
  destruct l2 as [|y l2]; simpl in *; [reflexivity|].
  destruct H as [_ [Hy [_ Hrest]]].
  dll_split; try assumption; try reflexivity.
  - apply Hhd. reflexivity.
  - rewrite Hn2 by auto.
    apply dll_frame with (m := m); [|assumption].
    intros q Hq. split; [apply Hn2; auto|]. apply Hp2; [auto|].
    intro E. inversion E; subst.
    inversion Hnd as [|? ? Hq' _]; subst. tauto.
Qed.

(** Splicing [bp] between [l1] and [l2]. *)
Lemma dll_splice m m' bp l2 l1 : forall p h,
  dll m p h (l1 ++ l2) ->
  NoDup (l1 ++ l2) ->
  is_ptr bp ->
  GET m' (NEXT_FBLK bp) = hd NULL l2 ->
  GET m' (PREV_FBLK bp) = lastp p l1 ->
  (l1 <> [] -> GET m' (NEXT_FBLK (lastp p l1)) = bp) ->
  (forall y, hd_error l2 = Some y -> GET m' (PREV_FBLK y) = bp) ->
  (forall q, In q l1 -> q <> lastp p l1 ->
             GET m' (NEXT_FBLK q) = GET m (NEXT_FBLK q)) ->
  (forall q, In q l1 -> GET m' (PREV_FBLK q) = GET m (PREV_FBLK q)) ->
  (forall q, In q l2 -> GET m' (NEXT_FBLK q) = GET m (NEXT_FBLK q)) ->
  (forall q, In q l2 -> hd_error l2 <> Some q ->
             GET m' (PREV_FBLK q) = GET m (PREV_FBLK q)) ->
  dll m' p (hd bp l1) (l1 ++ bp :: l2).
Proof.
  induction l1 as [|a l1 IH];
    intros p h H Hnd Hbp Hbn Hbpv Hlast Hhd Hn1 Hp1 Hn2 Hp2.
  - simpl in *. dll_split; try assumption; try reflexivity.
    rewrite Hbn. eapply dll_after; eassumption.
  - simpl in H. destruct H as [Hh [Ha [Hap Hrest]]].
    inversion Hnd as [|? ? Hanot Hnd']; subst.
    simpl. dll_split; try assumption; try reflexivity.
    + apply Hp1. left; reflexivity.
    + assert (E : GET m' (NEXT_FBLK a) = hd bp l1).
      { destruct l1 as [|b l1].
        - simpl. apply (Hlast ltac:(discriminate)).
        - rewrite Hn1.
          + apply dll_head in Hrest. exact Hrest.
          + left; reflexivity.
          + intro E. apply Hanot. rewrite E. apply in_or_app. left.
            apply (lastp_In a (b :: l1)). discriminate. }
      rewrite E. apply (IH a (GET m (NEXT_FBLK a))); try assumption.
      * intro Hne. apply Hlast. discriminate.
      * intros q Hq Hne. apply Hn1; [right; assumption | assumption].
      * intros q Hq. apply Hp1. right; assumption.
Qed.

(** The walk of [mm_insert_fblock] stops at the first block with a higher
    address, wherever the chain is. *)
Lemma insert_walk_spec m bp l2 : forall fuel curr p,
  dll m p curr (curr :: l2) ->
  ~ In bp l2 ->
  (length l2 <= fuel)%nat ->
  exists la lb,
    l2 = la ++ lb
    /\ insert_walk fuel m bp curr (GET m (NEXT_FBLK curr))
       = Some (lastp curr la, hd NULL lb)
    /\ Forall (fun y => y < bp) la
    /\ (forall y, hd_error lb = Some y -> bp < y).
Proof.
  induction l2 as [|y l2 IH]; intros fuel curr p H Hnin Hfuel.
  - exists [], []. simpl in H. destruct H as [_ [_ [_ H]]].
    rewrite H. split; [reflexivity|]. split.
    + destruct fuel; reflexivity.
    + split; [constructor | discriminate].
  - simpl in H. destruct H as [_ [_ [_ [Hy [Hyp [Hyprev Hrest]]]]]].
    rewrite Hy.
    assert (H : dll m curr y (y :: l2)).
    { simpl. dll_split; auto. }
    destruct (Z.ltb_spec y bp) as [Hlt|Hge].
    + destruct fuel as [|fuel]; [simpl in Hfuel; lia|].
      destruct (IH fuel y curr) as [la [lb [E [Hw [Hla Hlb]]]]].
      * exact H.
      * simpl in Hnin. tauto.
      * simpl in Hfuel. lia.
      * exists (y :: la), lb. split; [simpl; congruence|]. split.
        -- simpl. unfold is_ptr, NULL in *.
           replace (y =? 0) with false by (symmetry; apply Z.eqb_neq; lia).
           replace (bp >? y) with true
             by (symmetry; rewrite Z.gtb_ltb; apply Z.ltb_lt; lia).
           simpl. exact Hw.
        -- split; [constructor; assumption|assumption].
    + exists [], (y :: l2). split; [reflexivity|]. split.
      * replace (insert_walk fuel m bp curr y) with (Some (curr, y)).
        -- reflexivity.
        -- destruct fuel; simpl;
             (replace (bp >? y) with false
                by (symmetry; rewrite Z.gtb_ltb; apply Z.ltb_ge; lia));
             rewrite andb_false_r; reflexivity.
      * split; [constructor|]. intros y' E. inversion E; subst.
        simpl in Hnin. lia.
Qed.

Lemma insert_sorted_app x la lb :
  Forall (fun y => y < x) la ->
  (forall y, hd_error lb = Some y -> x < y) ->
  insert_sorted x (la ++ lb) = la ++ x :: lb.
Proof.
  intros Hla Hlb. induction Hla as [|a la Ha _ IH]; simpl.
  - destruct lb as [|y lb]; [reflexivity|]. simpl.
    specialize (Hlb y eq_refl).
    replace (x <? y) with true by (symmetry; apply Z.ltb_lt; assumption).
    reflexivity.
  - replace (x <? a) with false by (symmetry; apply Z.ltb_ge; lia).
    rewrite IH. reflexivity.
Qed.

(** The search of [find_fit] inside one bucket returns the first block of
    the chain that is large enough. *)
Lemma find_in_list_spec m asize l : forall p h fuel,
  dll m p h l ->
  (length l <= fuel)%nat ->
  find_in_list fuel m asize h
  = Some (match find (fun b => asize <=? GET_SIZE m (HDRP b)) l with
          | Some b => b
          | None => NULL
          end).
Proof.
  induction l as [|x l IH]; intros p h fuel H Hfuel; simpl in H.
  - subst h. destruct fuel; reflexivity.
  - destruct H as [-> [Hx [_ Hrest]]].
    assert (Ex : (x =? NULL) = false) by (apply Z.eqb_neq; unfold is_ptr, NULL in *; lia).
    simpl find. destruct (asize <=? GET_SIZE m (HDRP x)) eqn:E.
    + destruct fuel; simpl; rewrite Ex, E; reflexivity.
    + destruct fuel as [|fuel]; [simpl in Hfuel; lia|].
      simpl. rewrite Ex, E. apply (IH x); [exact Hrest|]. simpl in Hfuel. lia.
Qed.

End Chains.

(** ** mm_remove_fblock on a well-formed bucket *)

Section Remove.

Lemma mm_remove_fblock_mem st bp idx :
  mem (mm_remove_fblock st bp idx)
  = unlink (mem st) (GET (mem st) (PREV_FBLK bp)) (GET (mem st) (NEXT_FBLK bp)).
Proof.
  unfold mm_remove_fblock, unlink.
  destruct (GET (mem st) (PREV_FBLK bp) =? NULL) eqn:Ep;
    destruct (GET (mem st) (NEXT_FBLK bp) =? NULL) eqn:Es; simpl; try reflexivity.
  - apply Z.eqb_eq in Ep. rewrite Ep. reflexivity.
  - apply Z.eqb_eq in Es. rewrite Es. reflexivity.
Qed.

Lemma mm_remove_fblock_lists st bp idx j :
  free_lists (mm_remove_fblock st bp idx) j
  = if (GET (mem st) (PREV_FBLK bp) =? NULL)
       && (j =? resolve_idx (mem st) bp idx)
    then GET (mem st) (NEXT_FBLK bp) else free_lists st j.
Proof.
  unfold mm_remove_fblock.
  destruct (GET (mem st) (PREV_FBLK bp) =? NULL) eqn:Ep;
    destruct (GET (mem st) (NEXT_FBLK bp) =? NULL) eqn:Es; simpl; try reflexivity.
  destruct (j =? resolve_idx (mem st) bp idx); [|reflexivity].
  apply Z.eqb_eq in Es. rewrite Es. reflexivity.
Qed.

Lemma unlink_outside m pre suc b :
  (pre = NULL \/ b < pre \/ pre + WSIZE <= b) ->
  (suc = NULL \/ b < suc + WSIZE \/ suc + DSIZE <= b) ->
  unlink m pre suc b = m b.
Proof.
  intros Hp Hs. unfold unlink, NEXT_FBLK, PREV_FBLK, DSIZE, WSIZE in *.
  destruct (Z.eqb_spec suc NULL) as [Es|Es];
    destruct (Z.eqb_spec pre NULL) as [Ep|Ep];
    rewrite ?PUT_outside; try reflexivity; unfold WSIZE; lia.
Qed.

Lemma unlink_GET_other m pre suc a :
  (pre = NULL \/ a + WSIZE <= pre \/ pre + WSIZE <= a) ->
  (suc = NULL \/ a <= suc \/ suc + DSIZE <= a) ->
  GET (unlink m pre suc) a = GET m a.
Proof.
  intros Hp Hs. apply GET_ext. intros b Hb. apply unlink_outside;
    unfold DSIZE, WSIZE in *; lia.
Qed.

Lemma unlink_GET_pre m pre suc :
  pre <> NULL -> 0 <= suc < 2 ^ 64 ->
  (suc = NULL \/ far pre suc) ->
  GET (unlink m pre suc) (NEXT_FBLK pre) = suc.
Proof.
  intros Hp Hs Hf. unfold unlink, NEXT_FBLK, PREV_FBLK.
  destruct (Z.eqb_spec pre NULL) as [Ep|Ep]; [contradiction|].
  destruct (Z.eqb_spec suc NULL) as [Es|Es].
  - apply GET_PUT_ptr. assumption.
  - rewrite GET_PUT_far.
    + apply GET_PUT_ptr. assumption.
    + destruct Hf as [Hf|Hf]; [contradiction|].
      unfold far, DSIZE, WSIZE in *. lia.
Qed.

Lemma unlink_GET_suc m pre suc :
  suc <> NULL -> 0 <= pre < 2 ^ 64 ->
  GET (unlink m pre suc) (PREV_FBLK suc) = pre.
Proof.
  intros Hs Hp. unfold unlink.
  destruct (Z.eqb_spec suc NULL) as [Es|Es]; [contradiction|].
  apply GET_PUT_ptr. assumption.
Qed.

Lemma is_ptr_word x : is_ptr x -> 0 <= x < 2 ^ 64.
Proof. unfold is_ptr. lia. Qed.

Lemma is_ptr_nonnull x : is_ptr x -> x <> NULL.
Proof. unfold is_ptr, NULL. lia. Qed.

Lemma lastp_word p l : 0 <= p < 2 ^ 64 -> Forall is_ptr l -> 0 <= lastp p l < 2 ^ 64.
Proof.
  revert p. induction l as [|a l IH]; intros p Hp Hl; simpl; [assumption|].
  inversion Hl; subst. apply IH; [apply is_ptr_word|]; assumption.
Qed.

Lemma hd_word l : Forall is_ptr l -> 0 <= hd NULL l < 2 ^ 64.
Proof.
  intro H. destruct H; simpl; [unfold NULL; lia | apply is_ptr_word; assumption].
Qed.

(** Unlinking a block of a well-formed chain leaves the chain without
    the block, and changes link words of the remaining blocks only. *)
Lemma unlink_chain m h x l1 l2 :
  dll m NULL h (l1 ++ x :: l2) ->
  separated (l1 ++ x :: l2) ->
  dll (unlink m (lastp NULL l1) (hd NULL l2)) NULL
      (hd (hd NULL l2) l1) (l1 ++ l2)
  /\ same_outside (in_links (l1 ++ l2)) m
                  (unlink m (lastp NULL l1) (hd NULL l2)).
Proof.
  intros H Hsep.
  pose proof (dll_is_ptr _ _ _ _ H) as Hptr.
  pose proof (separated_NoDup _ Hsep) as Hnd.
  apply Forall_app in Hptr. destruct Hptr as [Hp1 Hp2].
  inversion Hp2 as [|? ? Hx Hp2']; subst. clear Hp2.
  set (pre := lastp NULL l1). set (suc := hd NULL l2).
  assert (Hpre : l1 = [] /\ pre = NULL \/ In pre l1).
  { destruct l1 as [|a l1]; [left; split; reflexivity|].
    right. apply lastp_In. discriminate. }
  assert (Hsuc : l2 = [] /\ suc = NULL \/ In suc l2 /\ hd_error l2 = Some suc).
  { destruct l2 as [|y l2]; [left; split; reflexivity|].
    right. split; [left|]; reflexivity. }
  assert (Hin1 : forall q, In q l1 -> In q (l1 ++ x :: l2))
    by (intros; apply in_or_app; auto).
  assert (Hin2 : forall q, In q l2 -> In q (l1 ++ x :: l2))
    by (intros; apply in_or_app; simpl; auto).
  assert (Hfar : forall a b, In a (l1 ++ x :: l2) -> In b (l1 ++ x :: l2) ->
                             a <> b -> far a b)
    by (intros; eapply separated_far; eassumption).
  assert (H12 : forall a b, In a l1 -> In b l2 -> a <> b).
  { intros a b Ha Hb E. subst b.
    apply separated_app in Hsep. destruct Hsep as [_ [_ Hs]].
    apply (far_neq a a); [|reflexivity]. apply Hs; simpl; auto. }
  assert (Wpre : 0 <= pre < 2 ^ 64)
    by (apply lastp_word; [unfold NULL; lia | assumption]).
  assert (Wsuc : 0 <= suc < 2 ^ 64) by (apply hd_word; assumption).
  assert (Npre : In pre l1 -> pre <> NULL).
  { intro Hi. apply is_ptr_nonnull. rewrite Forall_forall in Hp1. auto. }
  assert (Nsuc : In suc l2 -> suc <> NULL).
  { intro Hi. apply is_ptr_nonnull. rewrite Forall_forall in Hp2'. auto. }
  (* distance of a remaining block to [pre] and to [suc] *)
  assert (Dpre : forall q, In q (l1 ++ l2) -> q <> pre -> pre = NULL \/ far q pre).
  { intros q Hq Hne. destruct Hpre as [[_ E]|Hi]; [left; assumption|].
    right. apply Hfar; auto.
    apply in_app_or in Hq. destruct Hq; auto. }
  assert (Dsuc : forall q, In q (l1 ++ l2) -> q <> suc -> suc = NULL \/ far q suc).
  { intros q Hq Hne. destruct Hsuc as [[_ E]|[Hi _]]; [left; assumption|].
    right. apply Hfar; auto.
    apply in_app_or in Hq. destruct Hq; auto. }
  split.
  - apply dll_unlink with (m := m) (x := x) (h := h); try assumption.
    + intro Hne. apply unlink_GET_pre; try assumption.
      * destruct Hpre as [[E _]|Hi]; [contradiction|auto].
      * destruct Hsuc as [[_ E]|[Hi _]]; [left; assumption|].
        destruct Hpre as [[E _]|Hi']; [contradiction|].
        right. apply Hfar; auto.
    + intros y Hy. destruct Hsuc as [[E _]|[Hi Hs]]; [subst; discriminate|].
      rewrite Hs in Hy. inversion Hy; subst y.
      apply unlink_GET_suc; auto.
    + intros q Hq Hne. unfold NEXT_FBLK.
      assert (Hq' : In q (l1 ++ l2)) by (apply in_or_app; auto).
      assert (q <> suc).
      { destruct Hsuc as [[_ E]|[Hi _]]; [|auto].
        rewrite E. apply is_ptr_nonnull. rewrite Forall_forall in Hp1. auto. }
      apply unlink_GET_other.
      * destruct (Dpre q Hq' Hne) as [E|F]; [auto|].
        unfold far, DSIZE, WSIZE in *. lia.
      * destruct (Dsuc q Hq' ltac:(assumption)) as [E|F]; [auto|].
        unfold far, DSIZE, WSIZE in *. lia.
    + intros q Hq. unfold PREV_FBLK.
      assert (Hq' : In q (l1 ++ l2)) by (apply in_or_app; auto).
      assert (q <> suc).
      { destruct Hsuc as [[_ E]|[Hi _]]; [|auto].
        rewrite E. apply is_ptr_nonnull. rewrite Forall_forall in Hp1. auto. }
      apply unlink_GET_other.
      * destruct (Z.eq_dec q pre) as [E|Hne];
          [subst q; unfold WSIZE; lia|].
        destruct (Dpre q Hq' Hne) as [E|F]; [auto|].
        unfold far, DSIZE, WSIZE in *. lia.
      * destruct (Dsuc q Hq' ltac:(assumption)) as [E|F]; [auto|].
        unfold far, DSIZE, WSIZE in *. lia.
    + intros q Hq. unfold NEXT_FBLK.
      assert (Hq' : In q (l1 ++ l2)) by (apply in_or_app; auto).
      assert (q <> pre).
      { destruct Hpre as [[_ E]|Hi]; [|intro; subst; eapply H12; eauto].
        rewrite E. apply is_ptr_nonnull. rewrite Forall_forall in Hp2'. auto. }
      apply unlink_GET_other.
      * destruct (Dpre q Hq' ltac:(assumption)) as [E|F]; [auto|].
        unfold far, DSIZE, WSIZE in *. lia.
      * destruct (Z.eq_dec q suc) as [E|Hne];
          [subst q; unfold WSIZE; lia|].
        destruct (Dsuc q Hq' Hne) as [E|F]; [auto|].
        unfold far, DSIZE, WSIZE in *. lia.
    + intros q Hq Hnh. unfold PREV_FBLK.
      assert (Hq' : In q (l1 ++ l2)) by (apply in_or_app; auto).
      assert (q <> pre).
      { destruct Hpre as [[_ E]|Hi]; [|intro; subst; eapply H12; eauto].
        rewrite E. apply is_ptr_nonnull. rewrite Forall_forall in Hp2'. auto. }
      assert (q <> suc).
      { destruct Hsuc as [[E _]|[_ Hs]]; [subst l2; contradiction|].
        congruence. }
      apply unlink_GET_other.
      * destruct (Dpre q Hq' ltac:(assumption)) as [E|F]; [auto|].
        unfold far, DSIZE, WSIZE in *. lia.
      * destruct (Dsuc q Hq' ltac:(assumption)) as [E|F]; [auto|].
        unfold far, DSIZE, WSIZE in *. lia.
  - intros b Hb. apply unlink_outside.
    + destruct Hpre as [[_ E]|Hi]; [auto|]. right.
      destruct (Z.ltb_spec b pre); [auto|]. right.
      destruct (Z.leb_spec (pre + WSIZE) b); [assumption|].
      exfalso. apply Hb. exists pre. split; [apply in_or_app; auto|].
      unfold DSIZE, WSIZE in *. lia.
    + destruct Hsuc as [[_ E]|[Hi _]]; [auto|]. right.
      destruct (Z.ltb_spec b (suc + WSIZE)); [auto|]. right.
      destruct (Z.leb_spec (suc + DSIZE) b); [assumption|].
      exfalso. apply Hb. exists suc. split; [apply in_or_app; auto|].
      unfold DSIZE, WSIZE in *. lia.
Qed.

End Remove.

Section RemoveSpec.

Lemma set_bucket_same ls i l : set_bucket ls i l i = l.
Proof. unfold set_bucket. rewrite Z.eqb_refl. reflexivity. Qed.

Lemma set_bucket_other ls i l j : j <> i -> set_bucket ls i l j = ls j.
Proof.
  intro H. unfold set_bucket.
  destruct (Z.eqb_spec j i); [contradiction|reflexivity].
Qed.

Lemma sep_buckets_remove ls i x :
  sep_buckets ls -> sep_buckets (set_bucket ls i (remove_block x (ls i))).
Proof.
  intros [H1 H2]. split.
  - intros j Hj. unfold set_bucket. destruct (Z.eqb_spec j i) as [->|_]; auto.
    apply separated_remove_block. auto.
  - intros j k a b Hj Hk Hjk Ha Hb. apply (H2 j k); try assumption.
    + unfold set_bucket in Ha. destruct (Z.eqb_spec j i) as [->|_]; auto.
      eapply In_remove_block; eassumption.
    + unfold set_bucket in Hb. destruct (Z.eqb_spec k i) as [->|_]; auto.
      eapply In_remove_block; eassumption.
Qed.

(** Two regions of link words that belong to far blocks are disjoint. *)
Lemma far_links_disjoint x z b :
  far x z -> x <= b < x + DSIZE -> ~ (z <= b < z + DSIZE).
Proof. unfold far, DSIZE, WSIZE. lia. Qed.

(** [mm_remove_fblock] on a block of bucket [i]: the bucket loses the
    block, the other buckets are untouched, and only link words of the
    remaining blocks of the bucket are written. *)
Lemma remove_spec st ls i x idx :
  lists_ok st ls -> sep_buckets ls -> 0 <= i < LISTS ->
  In x (ls i) -> resolve_idx (mem st) x idx = i ->
  lists_ok (mm_remove_fblock st x idx)
           (set_bucket ls i (remove_block x (ls i)))
  /\ same_outside (in_links (remove_block x (ls i)))
                  (mem st) (mem (mm_remove_fblock st x idx)).
Proof.
  intros Hok [Hsep1 Hsep2] Hi Hx Hidx.
  destruct (in_split _ _ Hx) as [l1 [l2 E]].
  pose proof (Hok i Hi) as Hd. rewrite E in Hd.
  pose proof (Hsep1 i Hi) as Hs. rewrite E in Hs.
  assert (Hxl1 : ~ In x l1).
  { intro Hin. apply separated_app in Hs. destruct Hs as [_ [_ Hs]].
    apply (far_neq x x); [|reflexivity]. apply Hs; simpl; auto. }
  rewrite E, remove_block_middle by assumption.
  destruct (dll_links _ _ _ _ _ _ Hd) as [Hpre [Hsuc Hh]].
  destruct (unlink_chain _ _ _ _ _ Hd Hs) as [Hd' Hout].
  rewrite mm_remove_fblock_mem, Hpre, Hsuc.
  split; [|exact Hout].
  intros j Hj. rewrite mm_remove_fblock_mem, mm_remove_fblock_lists.
  rewrite Hpre, Hsuc, Hidx.
  destruct (Z.eqb_spec j i) as [->|Hji].
  - rewrite set_bucket_same.
    destruct l1 as [|a l1].
    + simpl lastp. simpl in Hd'. rewrite Z.eqb_refl. simpl. exact Hd'.
    + assert (Hne : (lastp NULL (a :: l1) =? NULL) = false).
      { apply Z.eqb_neq. apply is_ptr_nonnull.
        pose proof (dll_is_ptr _ _ _ _ Hd) as Hp.
        rewrite Forall_forall in Hp. apply Hp. apply in_or_app. left.
        apply lastp_In. discriminate. }
      rewrite Hne. simpl andb. cbv iota. rewrite Hh. exact Hd'.
  - rewrite set_bucket_other by assumption. rewrite andb_false_r.
    apply dll_same_outside with (R := in_links (l1 ++ l2)) (m := mem st);
      [exact Hout| |apply Hok; assumption].
    intros y b Hy Hb [z [Hz Hzb]].
    assert (Hzi : In z (ls i)).
    { rewrite E. apply in_app_or in Hz. apply in_or_app. simpl. tauto. }
    exact (far_links_disjoint y z b (Hsep2 j i y z Hj Hi Hji Hy Hzi) Hb Hzb).
Qed.

End RemoveSpec.

(** ** mm_insert_fblock on a well-formed bucket *)

Section Insert.

(** Rewrites reads over the writes of an insertion; [far] facts about the
    addresses involved must be in the context. *)
Ltac far_lia := unfold far, is_ptr, NULL, DSIZE, WSIZE in *; lia.
Ltac get_put :=
  unfold NEXT_FBLK, PREV_FBLK;
  repeat first
    [ rewrite GET_PUT_ptr by far_lia
    | rewrite GET_PUT_far by far_lia ];
  try reflexivity.

Lemma link_front_outside m bp h b :
  ~ (bp <= b < bp + DSIZE) -> (h = NULL \/ ~ (h <= b < h + DSIZE)) ->
  link_front m bp h b = m b.
Proof.
  intros Hb Hh. unfold link_front, NEXT_FBLK, PREV_FBLK.
  destruct (Z.eqb_spec h NULL) as [E|E];
    rewrite ?PUT_outside; try reflexivity; far_lia.
Qed.

Lemma link_after_outside m bp curr next b :
  ~ (bp <= b < bp + DSIZE) -> ~ (curr <= b < curr + DSIZE) ->
  (next = NULL \/ ~ (next <= b < next + DSIZE)) ->
  link_after m bp curr next b = m b.
Proof.
  intros Hb Hc Hn. unfold link_after, NEXT_FBLK, PREV_FBLK.
  destruct (Z.eqb_spec next NULL) as [E|E];
    rewrite ?PUT_outside; try reflexivity; far_lia.
Qed.

Lemma NoDup_app_disjoint (l1 l2 : list Z) x :
  NoDup (l1 ++ l2) -> In x l1 -> In x l2 -> False.
Proof.
  induction l1 as [|a l1 IH]; simpl; intros Hnd H1 H2; [contradiction|].
  inversion Hnd as [|? ? Ha Hnd']; subst. destruct H1 as [->|H1].
  - apply Ha. apply in_or_app. auto.
  - auto.
Qed.

(** [bp] becomes the head of the chain. *)
Lemma link_front_chain m h bp l :
  dll m NULL h l -> separated (bp :: l) -> is_ptr bp ->
  dll (link_front m bp h) NULL bp (bp :: l)
  /\ same_outside (in_links (bp :: l)) m (link_front m bp h).
Proof.
  intros H Hsep Hbp.
  pose proof (dll_is_ptr _ _ _ _ H) as Hptr.
  pose proof (dll_head _ _ _ _ H) as Hh.
  assert (Hnd : NoDup l) by (apply separated_NoDup; simpl in Hsep; tauto).
  assert (HF : forall a, In a l -> far bp a).
  { simpl in Hsep. destruct Hsep as [Hs _]. rewrite Forall_forall in Hs. exact Hs. }
  assert (HL : forall a b, In a l -> In b l -> a <> b -> far a b).
  { intros a b Ha Hb Hab. apply (separated_far l a b); auto.
    simpl in Hsep. tauto. }
  split.
  - change (bp :: l) with ([] ++ bp :: l). change bp with (hd bp []) at 2.
    apply dll_splice with (m := m) (h := h); try assumption;
      try (intros q Hq; contradiction); unfold link_front.
    + destruct l as [|y l]; simpl in Hh; subst h.
      * rewrite Z.eqb_refl. simpl. get_put.
      * inversion Hptr; subst.
        replace (y =? NULL) with false by (symmetry; apply Z.eqb_neq; far_lia).
        pose proof (HF y (or_introl eq_refl)). simpl. get_put.
    + simpl. get_put.
    + intro Hne. congruence.
    + intros y Hy. destruct l as [|y' l]; [discriminate|].
      simpl in Hy, Hh. inversion Hy; subst y' h. inversion Hptr; subst.
      replace (y =? NULL) with false by (symmetry; apply Z.eqb_neq; far_lia).
      pose proof (HF y (or_introl eq_refl)). get_put.
    + intros q Hq.
      pose proof (HF q Hq).
      assert (is_ptr q) by (rewrite Forall_forall in Hptr; auto).
      destruct l as [|y l]; [contradiction|]. simpl in Hh; subst h.
      inversion Hptr; subst.
      replace (y =? NULL) with false by (symmetry; apply Z.eqb_neq; far_lia).
      pose proof (HF y (or_introl eq_refl)).
      destruct (Z.eq_dec q y) as [->|Hqy]; [get_put|].
      pose proof (HL q y Hq (or_introl eq_refl) Hqy). get_put.
    + intros q Hq Hnh.
      pose proof (HF q Hq).
      destruct l as [|y l]; [contradiction|]. simpl in Hh; subst h.
      inversion Hptr; subst.
      replace (y =? NULL) with false by (symmetry; apply Z.eqb_neq; far_lia).
      pose proof (HF y (or_introl eq_refl)).
      assert (Hqy : q <> y) by (simpl in Hnh; congruence).
      pose proof (HL q y Hq (or_introl eq_refl) Hqy). get_put.
  - intros b Hb. apply link_front_outside.
    + intro Hr. apply Hb. exists bp. simpl. auto.
    + destruct l as [|y l]; simpl in Hh; subst h; [left; reflexivity|].
      right. intro Hr. apply Hb. exists y. simpl. auto.
Qed.

(** [bp] is linked behind the last block of [l1] and before [l2]. *)
Lemma link_after_chain m h bp l1 l2 :
  dll m NULL h (l1 ++ l2) -> l1 <> [] ->
  separated (bp :: l1 ++ l2) -> is_ptr bp ->
  dll (link_after m bp (lastp NULL l1) (hd NULL l2)) NULL h (l1 ++ bp :: l2)
  /\ same_outside (in_links (bp :: l1 ++ l2)) m
                  (link_after m bp (lastp NULL l1) (hd NULL l2)).
Proof.
  intros H Hne Hsep Hbp.
  pose proof (dll_is_ptr _ _ _ _ H) as Hptr.
  rewrite Forall_forall in Hptr.
  assert (Hnd : NoDup (l1 ++ l2)) by (apply separated_NoDup; simpl in Hsep; tauto).
  assert (HF : forall a, In a (l1 ++ l2) -> far bp a).
  { simpl in Hsep. destruct Hsep as [Hs _]. rewrite Forall_forall in Hs. exact Hs. }
  assert (HL : forall a b, In a (l1 ++ l2) -> In b (l1 ++ l2) -> a <> b -> far a b).
  { intros a b Ha Hb Hab. apply (separated_far (l1 ++ l2) a b); auto.
    simpl in Hsep. tauto. }
  set (curr := lastp NULL l1). set (next := hd NULL l2).
  assert (Hc : In curr (l1 ++ l2)) by (apply in_or_app; left; apply lastp_In; assumption).
  assert (Hc1 : In curr l1) by (apply lastp_In; assumption).
  pose proof (Hptr _ Hc) as Pc. pose proof (HF _ Hc) as Fc.
  assert (Hn : l2 = [] /\ next = NULL
               \/ In next l2 /\ hd_error l2 = Some next /\ is_ptr next
                  /\ far bp next /\ far curr next).
  { destruct l2 as [|y l2]; [left; split; reflexivity|]. right.
    assert (Hy : In y (l1 ++ y :: l2)) by (apply in_or_app; simpl; auto).
    split; [left; reflexivity|]. split; [reflexivity|].
    split; [apply Hptr; assumption|]. split; [apply HF; assumption|].
    apply HL; try assumption. intro E.
    apply (NoDup_app_disjoint _ _ _ Hnd Hc1). subst next. simpl in E.
    rewrite E. left; reflexivity. }
  assert (Hh : h = hd bp l1).
  { apply dll_head in H. destruct l1; [congruence|]. exact H. }
  split.
  - rewrite Hh. apply dll_splice with (m := m) (h := h); try assumption;
      fold curr; fold next; unfold link_after.
    + destruct Hn as [[_ E]|[_ [_ [Pn [Fn Fcn]]]]].
      * rewrite E, Z.eqb_refl. get_put.
      * replace (next =? NULL) with false by (symmetry; apply Z.eqb_neq; far_lia).
        get_put.
    + destruct Hn as [[_ E]|[_ [_ [Pn [Fn Fcn]]]]].
      * rewrite E, Z.eqb_refl. get_put.
      * replace (next =? NULL) with false by (symmetry; apply Z.eqb_neq; far_lia).
        get_put.
    + intros _. destruct Hn as [[_ E]|[_ [_ [Pn [Fn Fcn]]]]].
      * rewrite E, Z.eqb_refl. get_put.
      * replace (next =? NULL) with false by (symmetry; apply Z.eqb_neq; far_lia).
        get_put.
    + intros y Hy. destruct Hn as [[E _]|[_ [Hs [Pn [Fn Fcn]]]]];
        [subst l2; discriminate|].
      rewrite Hs in Hy. inversion Hy; subst y.
      replace (next =? NULL) with false by (symmetry; apply Z.eqb_neq; far_lia).
      get_put.
    + intros q Hq Hqc.
      assert (Hq' : In q (l1 ++ l2)) by (apply in_or_app; auto).
      pose proof (HF q Hq'). pose proof (HL q curr Hq' Hc Hqc).
      destruct Hn as [[_ E]|[Hi [_ [Pn [Fn Fcn]]]]].
      * rewrite E, Z.eqb_refl. get_put.
      * replace (next =? NULL) with false by (symmetry; apply Z.eqb_neq; far_lia).
        assert (q <> next).
        { intro E. rewrite E in Hq.
          exact (NoDup_app_disjoint _ _ _ Hnd Hq Hi). }
        pose proof (HL q next Hq' ltac:(apply in_or_app; auto) ltac:(assumption)).
        get_put.
    + intros q Hq.
      assert (Hq' : In q (l1 ++ l2)) by (apply in_or_app; auto).
      pose proof (HF q Hq').
      assert (q = curr \/ far q curr).
      { destruct (Z.eq_dec q curr); [auto|right; apply HL; auto]. }
      destruct Hn as [[_ E]|[Hi [_ [Pn [Fn Fcn]]]]].
      * rewrite E, Z.eqb_refl. get_put.
      * replace (next =? NULL) with false by (symmetry; apply Z.eqb_neq; far_lia).
        assert (q <> next).
        { intro E. rewrite E in Hq.
          exact (NoDup_app_disjoint _ _ _ Hnd Hq Hi). }
        pose proof (HL q next Hq' ltac:(apply in_or_app; auto) ltac:(assumption)).
        get_put.
    + intros q Hq.
      assert (Hq' : In q (l1 ++ l2)) by (apply in_or_app; auto).
      pose proof (HF q Hq').
      assert (Hqc : q <> curr).
      { intro E. rewrite E in Hq.
        exact (NoDup_app_disjoint _ _ _ Hnd Hc1 Hq). }
      pose proof (HL q curr Hq' Hc Hqc).
      destruct Hn as [[E _]|[Hi [_ [Pn [Fn Fcn]]]]]; [subst l2; contradiction|].
      replace (next =? NULL) with false by (symmetry; apply Z.eqb_neq; far_lia).
      assert (q = next \/ far q next).
      { destruct (Z.eq_dec q next); [auto|right; apply HL; auto].
        apply in_or_app; auto. }
      get_put.
    + intros q Hq Hnh.
      assert (Hq' : In q (l1 ++ l2)) by (apply in_or_app; auto).
      pose proof (HF q Hq').
      assert (Hqc : q <> curr).
      { intro E. rewrite E in Hq.
        exact (NoDup_app_disjoint _ _ _ Hnd Hc1 Hq). }
      pose proof (HL q curr Hq' Hc Hqc).
      destruct Hn as [[E _]|[Hi [Hs [Pn [Fn Fcn]]]]]; [subst l2; contradiction|].
      replace (next =? NULL) with false by (symmetry; apply Z.eqb_neq; far_lia).
      assert (Hqn : q <> next) by congruence.
      pose proof (HL q next Hq' ltac:(apply in_or_app; auto) Hqn).
      get_put.
  - intros b Hb. apply link_after_outside.
    + intro Hr. apply Hb. exists bp. simpl. auto.
    + intro Hr. apply Hb. exists curr. simpl. auto.
    + destruct Hn as [[_ E]|[Hi _]]; [left; assumption|].
      right. intro Hr. apply Hb. exists next. split; [|assumption].
      right. apply in_or_app. auto.
Qed.

End Insert.

Section InsertSpec.

Ltac far_lia := unfold far, is_ptr, NULL, DSIZE, WSIZE in *; lia.

Lemma insert_walk_stop fuel m bp curr next :
  negb (next =? NULL) && (bp >? next) = false ->
  insert_walk fuel m bp curr next = Some (curr, next).
Proof. intro H. destruct fuel; simpl; rewrite H; reflexivity. Qed.

Lemma lastp_lt bp h la :
  h < bp -> Forall (fun y => y < bp) la -> lastp h la < bp.
Proof.
  intros Hh Hla. revert h Hh. induction Hla as [|a la Ha _ IH]; intros h Hh; simpl; auto.
Qed.

(** Control flow of [mm_insert_fblock] on a well-formed chain [l] of
    bucket [i]: the function returns, the chain becomes
    [insert_policy i bp l], and only link words of [bp] and of blocks of
    [l] are written. *)
Lemma insert_chain fuel st bp idx i l :
  resolve_idx (mem st) bp idx = i ->
  dll (mem st) NULL (free_lists st i) l ->
  separated (bp :: l) -> is_ptr bp ->
  (i > Z.quot (LISTS - 1) 2 -> ascending l) ->
  (length l <= fuel)%nat ->
  exists st',
    mm_insert_fblock fuel st bp idx = Some st'
    /\ dll (mem st') NULL (free_lists st' i) (insert_policy i bp l)
    /\ same_outside (in_links (bp :: l)) (mem st) (mem st')
    /\ (forall j, j <> i -> free_lists st' j = free_lists st j)
    /\ same_arena st st'.
Proof.
  intros Hidx Hd Hsep Hbp Hasc Hfuel.
  pose proof (dll_head _ _ _ _ Hd) as Hh.
  pose proof (dll_is_ptr _ _ _ _ Hd) as Hptr.
  assert (Hset : forall (s : state) v j, j <> i ->
            (if j =? i then v else free_lists s j) = free_lists s j).
  { intros s v j Hj. destruct (Z.eqb_spec j i); [contradiction|reflexivity]. }
  unfold mm_insert_fblock, insert_policy. rewrite Hidx.
  destruct (i >? Z.quot (LISTS - 1) 2) eqn:Ei.
  - (* address order *)
    destruct l as [|h l].
    + simpl in Hh. rewrite Hh. rewrite Z.eqb_refl. simpl negb. cbv iota.
      destruct (link_front_chain _ _ bp [] Hd Hsep Hbp) as [H1 H2].
      rewrite Hh in H1, H2.
      eexists. split; [reflexivity|]. simpl. rewrite Z.eqb_refl.
      split; [exact H1|]. split; [exact H2|].
      split; [intros j Hj; apply (Hset st); assumption | repeat split].
    + simpl in Hh. rewrite Hh.
      apply Forall_cons_iff in Hptr. destruct Hptr as [Ph Pl].
      assert (Eh : (h =? NULL) = false) by (apply Z.eqb_neq; far_lia).
      rewrite Eh. simpl negb. cbv iota.
      assert (Fh : far bp h).
      { simpl in Hsep. destruct Hsep as [Hs _]. inversion Hs; assumption. }
      assert (Hprev : GET (mem st) (PREV_FBLK h) = NULL) by (simpl in Hd; tauto).
      destruct (Z.ltb_spec bp h) as [Hlt|Hge].
      * (* case 1: new head *)
        assert (Hstop : negb (GET (mem st) (NEXT_FBLK h) =? NULL)
                        && (bp >? GET (mem st) (NEXT_FBLK h)) = false).
        { simpl in Hd. destruct Hd as [_ [_ [_ Hd]]].
          apply dll_head in Hd.
          destruct l as [|y l]; simpl in Hd; rewrite Hd; [reflexivity|].
          assert (h < y).
          { assert (Ha : ascending (h :: y :: l))
              by (apply Hasc; apply Z.gtb_lt in Ei; lia).
            simpl in Ha. destruct Ha as [Ha _]. inversion Ha; assumption. }
          replace (bp >? y) with false
            by (symmetry; rewrite Z.gtb_ltb; apply Z.ltb_ge; lia).
          apply andb_false_r. }
        rewrite (insert_walk_stop _ _ _ _ _ Hstop).
        rewrite Hprev, Z.eqb_refl.
        replace (bp <? h) with true by (symmetry; apply Z.ltb_lt; assumption).
        simpl andb. cbv iota.
        destruct (link_front_chain _ _ bp (h :: l) Hd Hsep Hbp) as [H1 H2].
        rewrite Hh in H1, H2. unfold link_front in H1, H2. rewrite Eh in H1, H2.
        eexists. split; [reflexivity|]. simpl. rewrite Z.eqb_refl.
        replace (bp <? h) with true by (symmetry; apply Z.ltb_lt; assumption).
        split; [exact H1|]. split; [exact H2|].
        split; [intros j Hj; apply (Hset st); assumption | repeat split].
      * (* cases 2 and 4: behind the last lower block *)
        assert (Hgt : h < bp) by far_lia.
        assert (Hd0 := Hd). rewrite Hh in Hd0.
        destruct (insert_walk_spec (mem st) bp l fuel h NULL Hd0)
          as [la [lb [El [Hw [Hla Hlb]]]]].
        { simpl in Hsep. destruct Hsep as [Hs _]. rewrite Forall_forall in Hs.
          intro Hin. apply (far_neq bp bp); [|reflexivity]. apply Hs. right; assumption. }
        { simpl in Hfuel. lia. }
        rewrite Hw.
        pose proof (lastp_lt bp h la Hgt Hla) as Hcurr.
        replace (bp <? lastp h la) with false
          by (symmetry; apply Z.ltb_ge; lia).
        replace (bp >? lastp h la) with true
          by (symmetry; rewrite Z.gtb_ltb; apply Z.ltb_lt; lia).
        rewrite !andb_false_r, !andb_true_r.
        assert (Hd1 : dll (mem st) NULL (free_lists st i) ((h :: la) ++ lb))
          by (simpl; rewrite <- El; exact Hd).
        assert (Hsep1 : separated (bp :: (h :: la) ++ lb))
          by (simpl app; rewrite <- El; exact Hsep).
        destruct (link_after_chain _ _ bp (h :: la) lb Hd1 ltac:(discriminate) Hsep1 Hbp)
          as [H1 H2].
        simpl lastp in H1, H2.
        assert (Eins : insert_sorted bp (h :: l) = (h :: la) ++ bp :: lb).
        { rewrite El. change (h :: la ++ lb) with ((h :: la) ++ lb).
          apply insert_sorted_app; [constructor; assumption | assumption]. }
        rewrite Eins. simpl app in H2. rewrite <- El in H2.
        unfold link_after in H1, H2.
        destruct lb as [|y lb].
        -- simpl hd in *. rewrite Z.eqb_refl in *. simpl andb. cbv iota.
           eexists. split; [reflexivity|]. simpl.
           split; [exact H1|]. split; [exact H2|].
           split; [intros; reflexivity | repeat split].
        -- simpl hd in *.
           assert (Py : is_ptr y).
           { rewrite El in Pl. apply Forall_app in Pl. destruct Pl as [_ Pl].
             inversion Pl; assumption. }
           assert (Ey : (y =? NULL) = false) by (apply Z.eqb_neq; far_lia).
           rewrite Ey in *. simpl negb.
           replace (bp <? y) with true
             by (symmetry; apply Z.ltb_lt; apply Hlb; reflexivity).
           cbv iota.
           eexists. split; [reflexivity|]. simpl.
           split; [exact H1|]. split; [exact H2|].
           split; [intros; reflexivity | repeat split].
  - (* head insertion *)
    destruct (link_front_chain _ _ bp l Hd Hsep Hbp) as [H1 H2].
    unfold link_front in H1, H2.
    destruct (free_lists st i =? NULL); simpl negb; cbv iota;
      (eexists; split; [reflexivity|]); simpl; rewrite Z.eqb_refl;
      (split; [exact H1|]); (split; [exact H2|]);
      (split; [intros j Hj; apply (Hset st); assumption | repeat split]).
Qed.

End InsertSpec.

(** ** Soundness of the decision procedures *)

Section Checkers.

Lemma dllb_sound m l : forall p h, dllb m p h l = true -> dll m p h l.
Proof.
  induction l as [|x l IH]; intros p h H; simpl in *.
  - apply Z.eqb_eq. assumption.
  - repeat (apply andb_true_iff in H; destruct H as [H ?]).
    apply Z.eqb_eq in H.
    repeat match goal with
           | E : (_ <? _) = true |- _ => apply Z.ltb_lt in E
           | E : (_ =? _) = true |- _ => apply Z.eqb_eq in E
           end.
    dll_split; auto. unfold is_ptr. lia.
Qed.

Lemma farb_sound x y : farb x y = true -> far x y.
Proof.
  unfold farb, far. intro H. apply orb_true_iff in H.
  destruct H as [H|H]; apply Z.leb_le in H; auto.
Qed.

Lemma separatedb_sound l : separatedb l = true -> separated l.
Proof.
  induction l as [|x l IH]; simpl; intro H; [exact I|].
  apply andb_true_iff in H. destruct H as [H1 H2]. split; [|auto].
  rewrite forallb_forall in H1. apply Forall_forall.
  intros y Hy. apply farb_sound. auto.
Qed.

Lemma ascendingb_sound l : ascendingb l = true -> ascending l.
Proof.
  induction l as [|x l IH]; simpl; intro H; [exact I|].
  apply andb_true_iff in H. destruct H as [H1 H2]. split; [|auto].
  rewrite forallb_forall in H1. apply Forall_forall.
  intros y Hy. apply Z.ltb_lt. auto.
Qed.

Lemma range_in_seq i : 0 <= i < LISTS -> In (Z.to_nat i) (seq 0 (Z.to_nat LISTS)).
Proof. intro H. apply in_seq. unfold LISTS in *. lia. Qed.

Lemma lists_okb_sound st ls : lists_okb st ls = true -> lists_ok st ls.
Proof.
  unfold lists_okb. rewrite forallb_forall. intros H i Hi.
  specialize (H _ (range_in_seq i Hi)).
  rewrite Z2Nat.id in H by lia. apply dllb_sound. assumption.
Qed.

Lemma in_all_blocks ls j a :
  0 <= j < LISTS -> In a (ls j) -> In a (all_blocks ls).
Proof.
  intros Hj Ha. unfold all_blocks. apply in_flat_map.
  exists (Z.to_nat j). split; [apply range_in_seq; assumption|].
  rewrite Z2Nat.id by lia. assumption.
Qed.

Lemma separatedb_buckets bp ls :
  separatedb (bp :: all_blocks ls) = true ->
  sep_buckets ls
  /\ (forall j a, 0 <= j < LISTS -> In a (ls j) -> far bp a).
Proof.
  intro H. apply separatedb_sound in H. simpl in H. destruct H as [H1 H2].
  split; [apply separated_all_blocks; assumption|].
  intros j a Hj Ha. rewrite Forall_forall in H1. apply H1.
  eapply in_all_blocks; eassumption.
Qed.

End Checkers.

(** ** mm_insert_fblock and mm_remove_fblock on the sixteen buckets *)

Section Buckets.

Lemma In_insert_sorted x a l : In a (insert_sorted x l) <-> a = x \/ In a l.
Proof.
  induction l as [|y l IH]; simpl; [intuition|].
  destruct (x <? y); simpl; [intuition|]. rewrite IH. intuition.
Qed.

Lemma In_insert_policy i x a l : In a (insert_policy i x l) <-> a = x \/ In a l.
Proof.
  unfold insert_policy. destruct (i >? _); [apply In_insert_sorted|].
  simpl. intuition.
Qed.

Lemma separated_insert_sorted x l :
  separated (x :: l) -> separated (insert_sorted x l).
Proof.
  induction l as [|y l IH]; simpl; intro H; [exact H|].
  destruct (x <? y); [exact H|].
  destruct H as [Hx [Hy Hl]]. inversion Hx as [|? ? Hxy Hxl]; subst.
  simpl. split.
  - apply Forall_forall. intros a Ha. apply In_insert_sorted in Ha.
    destruct Ha as [->|Ha]; [apply far_sym; assumption|].
    rewrite Forall_forall in Hy. auto.
  - apply IH. simpl. auto.
Qed.

Lemma separated_insert_policy i x l :
  separated (x :: l) -> separated (insert_policy i x l).
Proof.
  unfold insert_policy. destruct (i >? _); [apply separated_insert_sorted|auto].
Qed.

Lemma ascending_insert_sorted x l :
  ascending l -> ~ In x l -> ascending (insert_sorted x l).
Proof.
  induction l as [|y l IH]; simpl; intros H Hn; [auto|].
  destruct (Z.ltb_spec x y) as [Hlt|Hge].
  - simpl. destruct H as [Hy Hl]. repeat split; auto.
    constructor; [assumption|]. rewrite Forall_forall in *.
    intros a Ha. specialize (Hy a Ha). lia.
  - destruct H as [Hy Hl]. simpl. split; [|apply IH; tauto].
    apply Forall_forall. intros a Ha. apply In_insert_sorted in Ha.
    destruct Ha as [->|Ha]; [lia|]. rewrite Forall_forall in Hy. auto.
Qed.

Lemma sep_buckets_insert ls i x :
  sep_buckets ls -> 0 <= i < LISTS ->
  (forall j a, 0 <= j < LISTS -> In a (ls j) -> far x a) ->
  sep_buckets (set_bucket ls i (insert_policy i x (ls i))).
Proof.
  intros [H1 H2] Hi Hx. split.
  - intros j Hj. unfold set_bucket. destruct (Z.eqb_spec j i) as [->|_]; auto.
    apply separated_insert_policy. simpl. split; [|auto].
    apply Forall_forall. intros a Ha. eapply Hx; eassumption.
  - intros j k a b Hj Hk Hjk Ha Hb. unfold set_bucket in Ha, Hb.
    destruct (Z.eqb_spec j i) as [->|Hji]; destruct (Z.eqb_spec k i) as [->|Hki].
    + congruence.
    + apply In_insert_policy in Ha. destruct Ha as [->|Ha]; [eauto|].
      apply (H2 i k); assumption.
    + apply In_insert_policy in Hb. destruct Hb as [->|Hb];
        [apply far_sym; eauto|]. apply (H2 j i); assumption.
    + apply (H2 j k); assumption.
Qed.

(** [mm_insert_fblock] on the buckets: bucket [i] receives [bp] according
    to the insertion policy, the other buckets are untouched. *)
Lemma insert_spec fuel st ls i bp idx :
  lists_ok st ls -> sep_buckets ls -> 0 <= i < LISTS ->
  resolve_idx (mem st) bp idx = i -> is_ptr bp ->
  (forall j a, 0 <= j < LISTS -> In a (ls j) -> far bp a) ->
  (i > Z.quot (LISTS - 1) 2 -> ascending (ls i)) ->
  (length (ls i) <= fuel)%nat ->
  exists st',
    mm_insert_fblock fuel st bp idx = Some st'
    /\ lists_ok st' (set_bucket ls i (insert_policy i bp (ls i)))
    /\ same_outside (in_links (bp :: ls i)) (mem st) (mem st')
    /\ same_arena st st'.
Proof.
  intros Hok [Hs1 Hs2] Hi Hidx Hbp Hfar Hasc Hfuel.
  assert (Hsep : separated (bp :: ls i)).
  { simpl. split; [|auto]. apply Forall_forall. intros a Ha. eapply Hfar; eassumption. }
  destruct (insert_chain fuel st bp idx i (ls i) Hidx (Hok i Hi) Hsep Hbp Hasc Hfuel)
    as [st' [E [Hd [Hout [Hfl Har]]]]].
  exists st'. split; [exact E|]. split; [|split; assumption].
  intros j Hj. destruct (Z.eq_dec j i) as [->|Hji].
  - rewrite set_bucket_same. exact Hd.
  - rewrite set_bucket_other by assumption. rewrite Hfl by assumption.
    apply dll_same_outside with (R := in_links (bp :: ls i)) (m := mem st);
      [exact Hout| |apply Hok; assumption].
    intros y b Hy Hb [z [[<-|Hz] Hzb]].
    + exact (far_links_disjoint y bp b (far_sym _ _ (Hfar j y Hj Hy)) Hb Hzb).
    + exact (far_links_disjoint y z b (Hs2 j i y z Hj Hi Hji Hy Hz) Hb Hzb).
Qed.

End Buckets.

(** ** Insertion policy *)

Lemma insert_sorted_split x l :
  ascending l -> ~ In x l ->
  exists la lb,
    l = la ++ lb /\ Forall (fun y => y < x) la /\ Forall (fun y => x < y) lb
    /\ insert_sorted x l = la ++ x :: lb.
Proof.
  induction l as [|y l IH]; simpl; intros Ha Hn.
  - exists [], []. repeat split; constructor.
  - destruct Ha as [Hy Hl]. destruct (Z.ltb_spec x y) as [Hlt|Hge].
    + exists [], (y :: l). repeat split; try constructor; try assumption.
      rewrite Forall_forall in *. intros a Hin. specialize (Hy a Hin). lia.
    + destruct (IH Hl ltac:(tauto)) as [la [lb [E [H1 [H2 H3]]]]].
      exists (y :: la), lb. repeat split; try assumption.
      * simpl. congruence.
      * constructor; [lia | assumption].
      * simpl. congruence.
Qed.

(** C4 (amended). A free-block insertion into bucket [i]: when [i] is
    greater than 7 (the upper half, indices 8 to 15) the block is spliced
    into the ascending chain before the first block with a higher
    address, and the chain stays ascending; when [i] is at most 7 the
    block becomes the head of its bucket.  The other buckets are
    unchanged and the call returns. *)
Theorem mm_insert_fblock_policy fuel st ls bp idx i :
  resolve_idx (mem st) bp idx = i ->
  lists_ok st ls -> sep_buckets ls -> 0 <= i < LISTS -> is_ptr bp ->
  (forall j a, 0 <= j < LISTS -> In a (ls j) -> far bp a) ->
  (7 < i -> ascending (ls i)) ->
  (length (ls i) <= fuel)%nat ->
  exists st',
    mm_insert_fblock fuel st bp idx = Some st'
    /\ (7 < i ->
        exists la lb,
          ls i = la ++ lb
          /\ Forall (fun y => y < bp) la /\ Forall (fun y => bp < y) lb
          /\ lists_ok st' (set_bucket ls i (la ++ bp :: lb))
          /\ ascending (la ++ bp :: lb))
    /\ (i <= 7 -> lists_ok st' (set_bucket ls i (bp :: ls i))).
Proof.
  intros Hidx Hok Hsep Hi Hbp Hfar Hasc Hfuel.
  assert (Hasc' : i > Z.quot (LISTS - 1) 2 -> ascending (ls i)).
  { intro H. apply Hasc. change (Z.quot (LISTS - 1) 2) with 7 in H. lia. }
  destruct (insert_spec fuel st ls i bp idx Hok Hsep Hi Hidx Hbp Hfar Hasc' Hfuel)
    as [st' [E [Hok' _]]].
  exists st'. split; [exact E|]. unfold insert_policy in Hok'.
  change (Z.quot (LISTS - 1) 2) with 7 in Hok'.
  assert (Hnin : ~ In bp (ls i)).
  { intro Hin. apply (far_neq bp bp); [|reflexivity]. apply (Hfar i); assumption. }
  split.
  - intro H7.
    replace (i >? 7) with true in Hok'
      by (symmetry; rewrite Z.gtb_ltb; apply Z.ltb_lt; assumption).
    destruct (insert_sorted_split bp (ls i) (Hasc H7) Hnin)
      as [la [lb [El [H1 [H2 H3]]]]].
    exists la, lb. repeat split; try assumption.
    + rewrite <- H3. exact Hok'.
    + rewrite <- H3. apply ascending_insert_sorted; auto.
  - intro H7.
    replace (i >? 7) with false in Hok'
      by (symmetry; rewrite Z.gtb_ltb; apply Z.ltb_ge; assumption).
    exact Hok'.
Qed.

Lemma mm_insert_fblock_policy_witness :
  exists st',
    mm_insert_fblock 20 two_large_blocks 8480 (-1) = Some st'
    /\ (7 < 8 ->
        exists la lb,
          two_large_buckets 8 = la ++ lb
          /\ Forall (fun y => y < 8480) la /\ Forall (fun y => 8480 < y) lb
          /\ lists_ok st' (set_bucket two_large_buckets 8 (la ++ 8480 :: lb))
          /\ ascending (la ++ 8480 :: lb))
    /\ (8 <= 7 -> lists_ok st' (set_bucket two_large_buckets 8
                                           (8480 :: two_large_buckets 8))).
Proof.
  apply (mm_insert_fblock_policy 20 two_large_blocks two_large_buckets 8480 (-1) 8).
  - vm_compute. reflexivity.
  - apply lists_okb_sound. vm_compute. reflexivity.
  - apply (separatedb_buckets 8480). vm_compute. reflexivity.
  - unfold LISTS. lia.
  - unfold is_ptr. lia.
  - apply (separatedb_buckets 8480). vm_compute. reflexivity.
  - intros _. apply ascendingb_sound. vm_compute. reflexivity.
  - simpl. lia.
Defined.

(** C4 as stated fails at bucket index 8: a block whose size class is 8
    is linked behind the lower-addressed block of its bucket, not at the
    head. *)
Lemma insert_at_index_8_is_address_ordered :
  resolve_idx (mem two_large_blocks) 8480 (-1) = 8
  /\ lists_ok two_large_blocks two_large_buckets
  /\ exists st',
       mm_insert_fblock 20 two_large_blocks 8480 (-1) = Some st'
       /\ lists_ok st' (set_bucket two_large_buckets 8 [4128; 8480])
       /\ ~ lists_ok st' (set_bucket two_large_buckets 8
                                     (8480 :: two_large_buckets 8)).
Proof.
  split; [vm_compute; reflexivity|].
  split; [apply lists_okb_sound; vm_compute; reflexivity|].
  assert (R : ran (mm_insert_fblock 20 two_large_blocks 8480 (-1)) = true)
    by (vm_compute; reflexivity).
  destruct (mm_insert_fblock 20 two_large_blocks 8480 (-1)) as [st'|] eqn:E;
    [|discriminate].
  exists st'. split; [reflexivity|].
  assert (Hh : free_lists st' 8 = 4128).
  { assert (H : option_map (fun s => free_lists s 8)
                  (mm_insert_fblock 20 two_large_blocks 8480 (-1)) = Some 4128)
      by (vm_compute; reflexivity).
    rewrite E in H. simpl in H. congruence. }
  split.
  - apply lists_okb_sound.
    assert (H : option_map (fun s => lists_okb s
                  (set_bucket two_large_buckets 8 [4128; 8480]))
                  (mm_insert_fblock 20 two_large_blocks 8480 (-1)) = Some true)
      by (vm_compute; reflexivity).
    rewrite E in H. simpl in H. congruence.
  - intro H. specialize (H 8 ltac:(unfold LISTS; lia)).
    apply dll_head in H. simpl in H. rewrite Hh in H. discriminate.
Qed.

(** ** find_fit *)

Section FindFit.

Lemma find_split (f : Z -> bool) l b :
  find f l = Some b ->
  exists l1 l2, l = l1 ++ b :: l2 /\ f b = true /\ Forall (fun c => f c = false) l1.
Proof.
  induction l as [|x l IH]; simpl; [discriminate|].
  destruct (f x) eqn:E.
  - intro H. inversion H; subst. exists [], l. repeat split; [assumption|constructor].
  - intro H. destruct (IH H) as [l1 [l2 [E1 [E2 E3]]]].
    exists (x :: l1), l2. subst l. repeat split; [assumption|].
    constructor; assumption.
Qed.

Lemma find_none_all (f : Z -> bool) l :
  find f l = None -> Forall (fun c => f c = false) l.
Proof.
  intro H. apply Forall_forall. intros x Hx. exact (find_none f l H x Hx).
Qed.

(** The outer loop of [find_fit], started at bucket [idx]. *)
Lemma find_fit_loop_spec fuel st ls asize n : forall idx,
  lists_ok st ls -> sep_buckets ls ->
  (forall i, 0 <= i < LISTS -> (length (ls i) <= fuel)%nat) ->
  0 <= idx -> idx + Z.of_nat n = LISTS ->
  (exists i b l1 l2 st',
      idx <= i < LISTS /\ ls i = l1 ++ b :: l2
      /\ asize <= GET_SIZE (mem st) (HDRP b)
      /\ Forall (fun c => GET_SIZE (mem st) (HDRP c) < asize) l1
      /\ (forall j, idx <= j < i ->
                    Forall (fun c => GET_SIZE (mem st) (HDRP c) < asize) (ls j))
      /\ find_fit_loop n fuel st asize idx = Some (b, st')
      /\ b <> NULL
      /\ st' = mm_remove_fblock st b i
      /\ lists_ok st' (set_bucket ls i (l1 ++ l2)))
  \/ ((forall j, idx <= j < LISTS ->
                 Forall (fun c => GET_SIZE (mem st) (HDRP c) < asize) (ls j))
      /\ find_fit_loop n fuel st asize idx = Some (NULL, st)).
Proof.
  set (f := fun b => asize <=? GET_SIZE (mem st) (HDRP b)).
  assert (Hsmall : forall l, Forall (fun c => f c = false) l ->
             Forall (fun c => GET_SIZE (mem st) (HDRP c) < asize) l).
  { intros l H. rewrite Forall_forall in *. intros c Hc.
    specialize (H c Hc). unfold f in H. apply Z.leb_gt in H. assumption. }
  induction n as [|n IH]; intros idx Hok Hsep Hfuel H0 Hn.
  - right. split; [intros j Hj; lia|].
    simpl. replace (idx <? LISTS) with false
      by (symmetry; apply Z.ltb_ge; lia). reflexivity.
  - assert (Hi : 0 <= idx < LISTS) by lia.
    simpl. replace (idx <? LISTS) with true
      by (symmetry; apply Z.ltb_lt; lia).
    rewrite (find_in_list_spec _ asize (ls idx) NULL _ fuel (Hok idx Hi) (Hfuel idx Hi)).
    fold f. destruct (find f (ls idx)) as [b|] eqn:Ef.
    + left. destruct (find_split f _ _ Ef) as [l1 [l2 [E [Hb Hl1]]]].
      assert (Hin : In b (ls idx)) by (rewrite E; apply in_or_app; simpl; auto).
      assert (Pb : is_ptr b).
      { pose proof (dll_is_ptr _ _ _ _ (Hok idx Hi)) as Hp.
        rewrite Forall_forall in Hp. auto. }
      assert (Eb : (b =? NULL) = false) by (apply Z.eqb_neq, is_ptr_nonnull; assumption).
      rewrite Eb.
      assert (Hres : resolve_idx (mem st) b idx = idx).
      { unfold resolve_idx. destruct (Z.eqb_spec idx (-1)); [lia|reflexivity]. }
      destruct (remove_spec st ls idx b idx Hok Hsep Hi Hin Hres) as [Hok' _].
      assert (Hnot : ~ In b l1).
      { destruct Hsep as [Hs _]. specialize (Hs idx Hi). rewrite E in Hs.
        intro Hb1. apply separated_app in Hs. destruct Hs as [_ [_ Hs]].
        apply (far_neq b b); [|reflexivity]. apply Hs; simpl; auto. }
      rewrite E, remove_block_middle in Hok' by assumption.
      exists idx, b, l1, l2, (mm_remove_fblock st b idx).
      split; [lia|]. split; [exact E|].
      split; [unfold f in Hb; apply Z.leb_le in Hb; exact Hb|].
      split; [apply Hsmall; assumption|].
      split; [intros j Hj; lia|].
      split; [reflexivity|]. split; [apply is_ptr_nonnull; assumption|].
      split; [reflexivity | exact Hok'].
    + rewrite Z.eqb_refl.
      pose proof (Hsmall _ (find_none_all f _ Ef)) as Hnone.
      destruct (IH (idx + 1) Hok Hsep Hfuel ltac:(lia) ltac:(lia))
        as [[i [b [l1 [l2 [st' [Hi' [E [Hb [Hl1 [Hj [Hf R]]]]]]]]]]]|[Hall Hf]].
      * left. exists i, b, l1, l2, st'.
        split; [lia|]. split; [exact E|]. split; [exact Hb|].
        split; [exact Hl1|]. split; [|split; [exact Hf | exact R]].
        intros j Hjr. destruct (Z.eq_dec j idx) as [->|Hne]; [exact Hnone|].
        apply Hj. lia.
      * right. split; [|exact Hf].
        intros j Hjr. destruct (Z.eq_dec j idx) as [->|Hne]; [exact Hnone|].
        apply Hall. lia.
Qed.

(** More iterations of the outer loop do not change a result. *)
Lemma find_fit_loop_more fuel st asize n e : forall idx r,
  find_fit_loop n fuel st asize idx = Some r ->
  find_fit_loop (n + e) fuel st asize idx = Some r.
Proof.
  induction n as [|n IH]; intros idx r H.
  - simpl in H. destruct (idx <? LISTS) eqn:Ek; [discriminate|].
    destruct e; simpl; rewrite Ek; exact H.
  - simpl in H. simpl. destruct (idx <? LISTS) eqn:Ek; [|exact H].
    destruct (find_in_list fuel (mem st) asize (free_lists st idx)) as [x|];
      [|discriminate].
    destruct (x =? NULL) eqn:Er; [|exact H].
    apply IH. exact H.
Qed.

End FindFit.

(** C7. [find_fit asize] on well-formed buckets: the search starts at
    bucket [mm_find_list_idx asize]; it returns the first block, in link
    order, of the first bucket from there on that holds a block of size at
    least [asize] (every block before it in that bucket and every block
    of the buckets skipped is smaller), and the returned block is removed
    from its bucket; when no bucket up to index 15 holds such a block it
    returns [NULL] and changes nothing. *)
Theorem find_fit_first_fit fuel st ls asize :
  lists_ok st ls -> sep_buckets ls ->
  (forall i, 0 <= i < LISTS -> (length (ls i) <= fuel)%nat) ->
  let small := fun c => GET_SIZE (mem st) (HDRP c) < asize in
  let k := mm_find_list_idx asize in
  (exists i b l1 l2 st',
      k <= i < LISTS /\ ls i = l1 ++ b :: l2
      /\ asize <= GET_SIZE (mem st) (HDRP b)
      /\ Forall small l1
      /\ (forall j, k <= j < i -> Forall small (ls j))
      /\ find_fit fuel st asize = Some (b, st')
      /\ b <> NULL
      /\ st' = mm_remove_fblock st b i
      /\ lists_ok st' (set_bucket ls i (l1 ++ l2)))
  \/ ((forall j, k <= j < LISTS -> Forall small (ls j))
      /\ find_fit fuel st asize = Some (NULL, st)).
Proof.
  intros Hok Hsep Hfuel small k. unfold find_fit. fold k.
  pose proof (mm_find_list_idx_range asize) as Hk. fold k in Hk.
  assert (En : Z.to_nat LISTS = (Z.to_nat (LISTS - k) + Z.to_nat k)%nat)
    by (unfold LISTS in *; lia).
  rewrite En.
  destruct (find_fit_loop_spec fuel st ls asize (Z.to_nat (LISTS - k)) k
              Hok Hsep Hfuel ltac:(lia) ltac:(unfold LISTS in *; lia)) as [H|H].
  - left.
    destruct H as [i [b [l1 [l2 [st' [H1 [H2 [H3 [H4 [H5 [H6 H7]]]]]]]]]]].
    exists i, b, l1, l2, st'. repeat (split; [assumption|]).
    split; [|exact H7]. apply find_fit_loop_more. exact H6.
  - right. destruct H as [H1 H2]. split; [exact H1|].
    apply find_fit_loop_more. exact H2.
Qed.

Lemma separatedb_all_blocks ls :
  separatedb (all_blocks ls) = true -> sep_buckets ls.
Proof. intro H. apply separated_all_blocks, separatedb_sound. exact H. Qed.

Lemma two_large_buckets_short i : (length (two_large_buckets i) <= 20)%nat.
Proof. unfold two_large_buckets. destruct (i =? 8); simpl; lia. Qed.

Lemma find_fit_first_fit_witness :
  let st := two_large_blocks in
  let ls := two_large_buckets in
  let small := fun c => GET_SIZE (mem st) (HDRP c) < 64 in
  let k := mm_find_list_idx 64 in
  (exists i b l1 l2 st',
      k <= i < LISTS /\ ls i = l1 ++ b :: l2
      /\ 64 <= GET_SIZE (mem st) (HDRP b)
      /\ Forall small l1
      /\ (forall j, k <= j < i -> Forall small (ls j))
      /\ find_fit 20 st 64 = Some (b, st')
      /\ b <> NULL
      /\ st' = mm_remove_fblock st b i
      /\ lists_ok st' (set_bucket ls i (l1 ++ l2)))
  \/ ((forall j, k <= j < LISTS -> Forall small (ls j))
      /\ find_fit 20 st 64 = Some (NULL, st)).
Proof.
  apply (find_fit_first_fit 20 two_large_blocks two_large_buckets 64).
  - apply lists_okb_sound. vm_compute. reflexivity.
  - apply separatedb_all_blocks. vm_compute. reflexivity.
  - intros i _. apply two_large_buckets_short.
Defined.

(** On the example heap the search for 64 bytes starts at bucket 1 and
    ends in bucket 8. *)
Example find_fit_example :
  mm_find_list_idx 64 = 1
  /\ option_map fst (find_fit 20 two_large_blocks 64) = Some 4128.
Proof. split; vm_compute; reflexivity. Qed.

(** ** Size classes and the completeness of the search *)

Lemma sizes_okb_sound st ls : sizes_okb st ls = true -> sizes_ok st ls.
Proof.
  unfold sizes_okb. rewrite forallb_forall. intros H i c Hi Hc.
  specialize (H _ (range_in_seq i Hi)). rewrite Z2Nat.id in H by lia.
  rewrite forallb_forall in H. apply Z.eqb_eq. auto.
Qed.

(** A listed block that is large enough is found: the buckets below
    [mm_find_list_idx asize] hold smaller blocks only. *)
Lemma find_fit_complete fuel st ls asize i b :
  lists_ok st ls -> sep_buckets ls ->
  (forall j, 0 <= j < LISTS -> (length (ls j) <= fuel)%nat) ->
  sizes_ok st ls ->
  0 <= i < LISTS -> In b (ls i) -> asize <= GET_SIZE (mem st) (HDRP b) ->
  mm_find_list_idx asize <= i
  /\ exists r st', find_fit fuel st asize = Some (r, st') /\ r <> NULL.
Proof.
  intros Hok Hsep Hfuel Hsz Hi Hb Hfit.
  assert (Hk : mm_find_list_idx asize <= i).
  { rewrite <- (Hsz i b Hi Hb). apply mm_find_list_idx_mono. assumption. }
  split; [exact Hk|].
  pose proof (mm_find_list_idx_range asize) as Hr.
  set (k := mm_find_list_idx asize) in *.
  unfold find_fit. fold k.
  replace (Z.to_nat LISTS) with (Z.to_nat (LISTS - k) + Z.to_nat k)%nat
    by (unfold LISTS in *; lia).
  destruct (find_fit_loop_spec fuel st ls asize (Z.to_nat (LISTS - k)) k
              Hok Hsep Hfuel ltac:(lia) ltac:(unfold LISTS in *; lia))
    as [[i' [b' [l1 [l2 [st' [_ [_ [_ [_ [_ [Hf [Hn _]]]]]]]]]]]]|[Hall _]].
  - exists b', st'. split; [|exact Hn]. apply find_fit_loop_more. exact Hf.
  - exfalso. specialize (Hall i ltac:(lia)).
    rewrite Forall_forall in Hall. specialize (Hall b Hb). simpl in Hall. lia.
Qed.

(** C10. [mm_find_list_idx] is total (its loop terminates on every size),
    returns an index between 0 and 15, and is monotone; consequently a
    free block listed in the bucket of its size, whose size is at least
    [asize], sits in a bucket with index at least
    [mm_find_list_idx asize], and [find_fit asize] finds a block. *)
Theorem mm_find_list_idx_total_bounded_monotone :
  (forall s, idx_while 0 s (mm_find_list_idx s))
  /\ (forall s, 0 <= mm_find_list_idx s <= 15)
  /\ (forall s t, s <= t -> mm_find_list_idx s <= mm_find_list_idx t)
  /\ (forall fuel st ls asize i b,
        lists_ok st ls -> sep_buckets ls ->
        (forall j, 0 <= j < LISTS -> (length (ls j) <= fuel)%nat) ->
        sizes_ok st ls ->
        0 <= i < LISTS -> In b (ls i) -> asize <= GET_SIZE (mem st) (HDRP b) ->
        mm_find_list_idx asize <= i
        /\ exists r st', find_fit fuel st asize = Some (r, st') /\ r <> NULL).
Proof.
  split; [exact mm_find_list_idx_runs|].
  split; [exact mm_find_list_idx_range|].
  split; [exact mm_find_list_idx_mono|].
  exact find_fit_complete.
Qed.

Lemma mm_find_list_idx_total_bounded_monotone_witness :
  mm_find_list_idx 64 <= mm_find_list_idx 4224
  /\ (mm_find_list_idx 64 <= 8
      /\ exists r st', find_fit 20 two_large_blocks 64 = Some (r, st') /\ r <> NULL).
Proof.
  destruct mm_find_list_idx_total_bounded_monotone as [_ [_ [Hmono Hfit]]].
  split.
  - apply Hmono. lia.
  - apply (Hfit 20%nat two_large_blocks two_large_buckets 64 8 4128).
    + apply lists_okb_sound. vm_compute. reflexivity.
    + apply separatedb_all_blocks. vm_compute. reflexivity.
    + intros j _. apply two_large_buckets_short.
    + apply sizes_okb_sound. vm_compute. reflexivity.
    + unfold LISTS. lia.
    + simpl. auto.
    + vm_compute. discriminate.
Defined.

(** ** The shrinking path of mm_realloc *)

(** C1 (the code departs from the claim). After [mm_init],
    [a = mm_malloc(40)] and [mm_realloc(a, 1)] the heap holds the blocks
    4128 (allocated, 32 bytes), 4160 (free, 32 bytes) and 4192 (free, 64
    bytes): the remainder split off by the shrinking path is not merged
    with its free right neighbour, so two free blocks are adjacent. *)
Theorem shrink_leaves_adjacent_free_blocks :
  option_map snd (after 20 shrink_trace) = Some [4128; 4128]
  /\ heap_walk 20 (mem shrunk_heap) (heap_listp shrunk_heap)
     = Some [4112; 4128; 4160; 4192]
  /\ NEXT_BLKP (mem shrunk_heap) 4160 = 4192
  /\ free_pair (mem shrunk_heap) 4160.
Proof.
  split; [vm_compute; reflexivity|].
  split; [vm_compute; reflexivity|].
  split; [vm_compute; reflexivity|].
  split; vm_compute; reflexivity.
Qed.

(** C3 (the code departs from the claim). On the heap reached by
    [mm_init], [a = mm_malloc(40)], [mm_realloc(a, 1)] the audit
    [mm_check] returns 0, whatever the fuel: it finds the two adjacent
    free blocks left by the shrinking path. *)
Theorem mm_check_fails_after_shrink :
  ran (after 20 shrink_trace) = true
  /\ (forall fuel, mm_check fuel shrunk_heap <> Some 1)
  /\ (forall fuel, mm_check (3 + fuel) shrunk_heap = Some 0).
Proof.
  split; [vm_compute; reflexivity|]. split.
  - intros [|[|[|fuel]]]; vm_compute; discriminate.
  - intro fuel. vm_compute. reflexivity.
Qed.

(** ** The grow-right path of mm_realloc with an exact fit *)

(** C2 (the code departs from the claim). Block 4192 has 32 bytes, its
    right neighbour 4224 is free with 32 bytes, and [mm_realloc(4192, 40)]
    needs exactly 64 bytes, so no byte remains.  The code still forms a
    remainder of size 0 at the next-block position 4256: it overwrites
    the epilogue header and the footer of the grown block with 0 and
    inserts the block 4256, which lies at the end of the arena, into
    bucket 0. *)
Theorem grow_right_exact_fit_inserts_empty_remainder :
  let st := exact_fit_heap in
  GET (mem st) (HDRP 4192) = PACK 32 1
  /\ GET (mem st) (HDRP (NEXT_BLKP (mem st) 4192)) = PACK 32 0
  /\ adjust_size 40 = 64
  /\ GET (mem st) (HDRP 4256) = PACK 0 1
  /\ mem_brk st = 4256
  /\ option_map fst (mm_realloc 20 st 4192 40) = Some 4192
  /\ option_map (fun r => free_lists (snd r) 0) (mm_realloc 20 st 4192 40)
     = Some 4256
  /\ option_map (fun r => GET (mem (snd r)) (HDRP 4256)) (mm_realloc 20 st 4192 40)
     = Some 0
  /\ option_map (fun r => GET (mem (snd r)) (HDRP 4192)) (mm_realloc 20 st 4192 40)
     = Some (PACK 64 1)
  /\ option_map (fun r => GET (mem (snd r)) (FTRP (mem (snd r)) 4192))
                (mm_realloc 20 st 4192 40)
     = Some 0.
Proof.
  cbv zeta.
  repeat match goal with
         | |- _ /\ _ => split
         end; vm_compute; reflexivity.
Qed.

(** ** The copy fallback of mm_realloc *)

Section Fallback.

Lemma find_fit_loop_null n fuel st asize : forall idx st',
  find_fit_loop n fuel st asize idx = Some (NULL, st') -> st' = st.
Proof.
  induction n as [|n IH]; intros idx st' H; simpl in H.
  - destruct (idx <? LISTS); [discriminate|]. congruence.
  - destruct (idx <? LISTS); [|congruence].
    destruct (find_in_list fuel (mem st) asize (free_lists st idx)) as [b|];
      [|discriminate].
    destruct (b =? NULL) eqn:Eb; [eapply IH; eassumption|].
    inversion H; subst. rewrite Z.eqb_refl in Eb. discriminate.
Qed.

Lemma find_fit_null fuel st asize st' :
  find_fit fuel st asize = Some (NULL, st') -> st' = st.
Proof. apply find_fit_loop_null. Qed.

Lemma extend_heap_null st words st' :
  mem_brk st <> NULL -> extend_heap st words = (NULL, st') -> st' = st.
Proof.
  intros Hbrk. unfold extend_heap, mem_sbrk.
  destruct ((_ <? 0) || (_ >? mem_max_addr st)); [congruence|].
  intro H. inversion H. contradiction.
Qed.

(** A failing [mm_malloc] leaves the state as it was. *)
Lemma mm_malloc_null fuel st size st' :
  mem_brk st <> NULL ->
  mm_malloc fuel st size = Some (NULL, st') -> st' = st.
Proof.
  intros Hbrk. unfold mm_malloc.
  destruct (size =? 0); [congruence|].
  destruct (find_fit fuel st (adjust_size size)) as [[bp st1]|] eqn:Ef;
    [|discriminate].
  destruct (Z.eqb_spec bp NULL) as [->|Hbp]; simpl negb; cbv iota.
  - apply find_fit_null in Ef. subst st1.
    destruct (extend_heap st (MAX (adjust_size size) CHUNKSIZE / WSIZE))
      as [q st2] eqn:Ee.
    destruct (Z.eqb_spec q NULL) as [->|Hq].
    + intro H. inversion H; subst. eapply extend_heap_null; eassumption.
    + destruct (place fuel st2 q (adjust_size size)); [|discriminate].
      intro H. inversion H. contradiction.
  - destruct (place fuel st1 bp (adjust_size size)); [|discriminate].
    intro H. inversion H. contradiction.
Qed.




End Fallback.



(** ** Frames: writes inside a block that holds no listed block *)

Section Frames.

Lemma clear_ofb_sound lo hi ls : clear_ofb lo hi ls = true -> clear_of lo hi ls.
Proof.
  unfold clear_ofb. rewrite forallb_forall. intros H j a Hj Ha.
  specialize (H a (in_all_blocks ls j a Hj Ha)).
  apply orb_true_iff in H. destruct H as [H|H]; apply Z.leb_le in H; auto.
Qed.

Lemma In_remove_block_neq x a l :
  separated l -> In a (remove_block x l) -> a <> x.
Proof.
  induction l as [|y l IH]; simpl; [tauto|].
  intros [Hy Hl]. destruct (Z.eqb_spec y x) as [->|Hne].
  - intros Ha E. subst a. rewrite Forall_forall in Hy.
    apply (far_neq x x); auto.
  - simpl. intros [<-|Ha]; auto.
Qed.

Lemma In_remove_block_other x a l :
  In a l -> a <> x -> In a (remove_block x l).
Proof.
  induction l as [|y l IH]; simpl; [tauto|].
  destruct (Z.eqb_spec y x) as [->|Hne]; simpl; intuition congruence.
Qed.

(** Removing the only listed block of a region clears the region. *)
Lemma clear_of_remove lo hi ls i x :
  sep_buckets ls -> 0 <= i < LISTS -> In x (ls i) ->
  (forall j a, 0 <= j < LISTS -> In a (ls j) -> a <> x ->
               a + DSIZE <= lo \/ hi <= a) ->
  clear_of lo hi (set_bucket ls i (remove_block x (ls i))).
Proof.
  intros [Hs Hc] Hi Hx H j a Hj Ha. unfold set_bucket in Ha.
  destruct (Z.eqb_spec j i) as [->|Hji].
  - apply (H i); auto.
    + eapply In_remove_block; eassumption.
    + eapply In_remove_block_neq; [apply Hs|]; eassumption.
  - apply (H j); auto. apply far_neq. apply (Hc j i); assumption.
Qed.

(** A state that differs from [st] inside a clear region only holds the
    same buckets. *)
Lemma lists_ok_frame lo hi st st' ls :
  lists_ok st ls -> clear_of lo hi ls ->
  (forall b, ~ (lo <= b < hi) -> mem st' b = mem st b) ->
  (forall j, free_lists st' j = free_lists st j) ->
  lists_ok st' ls.
Proof.
  intros Hok Hc Hm Hf j Hj. rewrite Hf.
  apply dll_same_outside with (R := fun b => lo <= b < hi) (m := mem st);
    [exact Hm| |apply Hok; assumption].
  intros a b Ha Hb Hr. destruct (Hc j a Hj Ha); lia.
Qed.

Lemma lists_ok_put lo hi st ls p v :
  lists_ok st ls -> clear_of lo hi ls -> lo <= p -> p + WSIZE <= hi ->
  lists_ok (put st p v) ls.
Proof.
  intros Hok Hc Hlo Hhi. apply (lists_ok_frame lo hi st); auto.
  intros b Hb. simpl. apply PUT_outside. lia.
Qed.

Lemma GET_SIZE_PUT_far m p v q :
  q + WSIZE <= p \/ p + WSIZE <= q -> GET_SIZE (PUT m p v) q = GET_SIZE m q.
Proof. intro H. unfold GET_SIZE. rewrite GET_PUT_far by assumption. reflexivity. Qed.

End Frames.

(** ** The grow-left path of mm_realloc *)

(** C9 (amended). [mm_realloc(p, n)] with [p] non-null, [n > 0], the
    adjusted size at least the current block size, the right neighbour
    allocated or too small AND not the epilogue, the left neighbour free
    and the combined size sufficient: the left neighbour is removed from
    its bucket, the payload is moved down by the size of the left block
    (an overlap-safe move), header and footer of the combined block are
    written as [(combined size, 1)] with no tail split, no block is
    inserted, and the payload pointer of the left block is returned. *)
Theorem mm_realloc_grows_left fuel st ls ptr size :
  grow_left_path st ptr size ->
  let m := mem st in
  let prev := PREV_BLKP m ptr in
  let psize := GET_SIZE m (HDRP prev) in
  let csize := GET_SIZE m (HDRP ptr) in
  let k := mm_find_list_idx psize in
  GET_SIZE m (ptr - DSIZE) = psize ->
  2 * DSIZE <= psize -> DSIZE <= csize -> psize + csize < 2 ^ 64 ->
  lists_ok st ls -> sep_buckets ls -> In prev (ls k) ->
  (forall j a, 0 <= j < LISTS -> In a (ls j) -> a <> prev ->
               a + DSIZE <= prev - WSIZE \/ ptr + csize - WSIZE <= a) ->
  exists st',
    mm_realloc fuel st ptr size = Some (prev, st')
    /\ lists_ok st' (set_bucket ls k (remove_block prev (ls k)))
    /\ GET (mem st') (HDRP prev) = PACK (psize + csize) 1
    /\ FTRP (mem st') prev = ptr + csize - DSIZE
    /\ GET (mem st') (FTRP (mem st') prev) = PACK (psize + csize) 1
    /\ (forall i, 0 <= i < csize - DSIZE -> mem st' (prev + i) = mem st (ptr + i)).
Proof.
  intros [[Hsize [Hptr [Hgrow [Hnext [Hpfree Hpfit]]]]] Hepi]
         m prev psize csize k Hftr Hps Hcs Hsum Hok Hsep Hin Hclear.
  assert (Hk : 0 <= k < LISTS).
  { pose proof (mm_find_list_idx_range psize). unfold k, LISTS. lia. }
  assert (Eprev : prev = ptr - psize) by (unfold prev, PREV_BLKP; fold m; congruence).
  assert (Wp : 0 <= psize < 2 ^ 64) by apply GET_SIZE_range.
  assert (Wc : 0 <= csize < 2 ^ 64) by apply GET_SIZE_range.
  assert (Mp : psize mod 16 = 0) by apply GET_SIZE_mod.
  assert (Mc : csize mod 16 = 0) by apply GET_SIZE_mod.
  assert (Scmb : is_size (psize + csize)).
  { split; [lia|]. rewrite Z.add_mod, Mp, Mc by lia. reflexivity. }
  assert (Ecmb : wrap64 (psize + csize) = psize + csize) by (apply wrap64_small; lia).
  (* the removal of the left neighbour *)
  assert (Hres : resolve_idx m prev (-1) = k) by reflexivity.
  destruct (remove_spec st ls k prev (-1) Hok Hsep Hk Hin Hres) as [Hok1 Hout1].
  set (st1 := mm_remove_fblock st prev (-1)) in *.
  set (ls1 := set_bucket ls k (remove_block prev (ls k))) in *.
  assert (Hc1 : clear_of (prev - WSIZE) (ptr + csize - WSIZE) ls1)
    by (apply clear_of_remove; assumption).
  assert (Hkeep : forall b, prev - WSIZE <= b < ptr + csize - WSIZE ->
                            mem st1 b = m b).
  { intros b Hb. apply Hout1. intros [a [Ha Hab]].
    assert (Ha' : In a (ls1 k)) by (unfold ls1; rewrite set_bucket_same; exact Ha).
    destruct (Hc1 k a Hk Ha'); unfold DSIZE, WSIZE in *; lia. }
  assert (Ec1 : GET_SIZE (mem st1) (HDRP ptr) = csize).
  { unfold csize, GET_SIZE. f_equal. apply GET_ext. intros b Hb. apply Hkeep.
    fold (GET_SIZE m (HDRP ptr)). fold csize.
    unfold HDRP, DSIZE, WSIZE in *. lia. }
  (* control flow *)
  unfold mm_realloc.
  destruct (Z.eqb_spec size 0) as [|_]; [contradiction|].
  destruct (Z.eqb_spec ptr NULL) as [|_]; [contradiction|].
  fold m. fold csize.
  replace (adjust_size size <? csize) with false
    by (symmetry; apply Z.ltb_ge; assumption).
  replace ((GET_ALLOC m (HDRP (NEXT_BLKP m ptr)) =? 0)
           && (wrap64 (csize + GET_SIZE m (HDRP (NEXT_BLKP m ptr)))
               >=? adjust_size size)) with false.
  2:{ symmetry. apply andb_false_iff. destruct Hnext as [H|H].
      - left. apply Z.eqb_neq. assumption.
      - right. rewrite Z.geb_leb. apply Z.leb_gt. assumption. }
  replace (GET_SIZE m (HDRP (NEXT_BLKP m ptr)) =? 0) with false
    by (symmetry; apply Z.eqb_neq; assumption).
  fold prev. fold psize.
  replace ((GET_ALLOC m (HDRP prev) =? 0)
           && (wrap64 (csize + psize) >=? adjust_size size)) with true.
  2:{ symmetry. apply andb_true_iff. split.
      - apply Z.eqb_eq. assumption.
      - rewrite Z.geb_leb. apply Z.leb_le. assumption. }
  fold st1. rewrite Ec1, Ecmb.
  eexists. split; [reflexivity|].
  set (m2 := memmove (mem st1) prev ptr csize).
  set (m3 := PUT m2 (HDRP prev) (PACK (psize + csize) 1)).
  assert (Eh3 : GET_SIZE m3 (HDRP prev) = psize + csize).
  { unfold m3. apply GET_SIZE_PUT; auto. }
  assert (Ef : FTRP m3 prev = ptr + csize - DSIZE).
  { unfold FTRP. rewrite Eh3. lia. }
  simpl mem. fold m2. fold m3. rewrite Ef.
  set (m4 := PUT m3 (ptr + csize - DSIZE) (PACK (psize + csize) 1)).
  assert (Eh4 : GET m4 (HDRP prev) = PACK (psize + csize) 1).
  { unfold m4. rewrite GET_PUT_far
      by (unfold HDRP, DSIZE, WSIZE in *; lia).
    unfold m3. apply GET_PUT_ptr. apply PACK_word; auto. }
  assert (Ef4 : FTRP m4 prev = ptr + csize - DSIZE).
  { unfold FTRP, GET_SIZE. rewrite Eh4.
    rewrite size_of_PACK by auto. lia. }
  split; [|split; [exact Eh4|split; [exact Ef4|split]]].
  - (* the buckets *)
    apply (lists_ok_frame (prev - WSIZE) (ptr + csize - WSIZE) st1);
      [exact Hok1 | exact Hc1 | | intro j; reflexivity].
    intros b Hb. simpl. unfold m4, m3, m2.
    rewrite !PUT_outside by (unfold HDRP, DSIZE, WSIZE in *; lia).
    unfold memmove.
    destruct ((prev <=? b) && (b <? prev + csize)) eqn:E; [|reflexivity].
    apply andb_true_iff in E. destruct E as [E1 E2].
    apply Z.leb_le in E1. apply Z.ltb_lt in E2.
    unfold DSIZE, WSIZE in *. lia.
  - rewrite Ef4. unfold m4. apply GET_PUT_ptr. apply PACK_word; auto.
  - (* the payload *)
    intros i Hi. unfold m4, m3, m2.
    rewrite !PUT_outside by (unfold HDRP, DSIZE, WSIZE in *; lia).
    unfold memmove.
    replace ((prev <=? prev + i) && (prev + i <? prev + csize)) with true.
    2:{ symmetry. apply andb_true_iff. split;
          [apply Z.leb_le | apply Z.ltb_lt]; unfold DSIZE, WSIZE in *; lia. }
    replace (prev + i - prev) with i by lia.
    apply Hkeep. unfold DSIZE, WSIZE in *. lia.
Qed.

Lemma mm_realloc_grows_left_witness :
  let st := left_free_hemmed_heap in
  let ls := left_free_hemmed_buckets in
  exists st',
    mm_realloc 20 st 4192 100 = Some (4128, st')
    /\ lists_ok st' (set_bucket ls 1 (remove_block 4128 (ls 1)))
    /\ GET (mem st') (HDRP 4128) = PACK 128 1
    /\ FTRP (mem st') 4128 = 4240
    /\ GET (mem st') (FTRP (mem st') 4128) = PACK 128 1
    /\ (forall i, 0 <= i < 48 -> mem st' (4128 + i) = mem st (4192 + i)).
Proof.
  apply (mm_realloc_grows_left 20 left_free_hemmed_heap left_free_hemmed_buckets
                               4192 100).
  - unfold grow_left_path, grow_left_claimed. cbv zeta.
    split; [|vm_compute; discriminate].
    split; [discriminate|]. split; [discriminate|].
    split; [vm_compute; discriminate|].
    split; [left; vm_compute; discriminate|].
    split; [vm_compute; reflexivity|].
    vm_compute; discriminate.
  - vm_compute. reflexivity.
  - vm_compute. discriminate.
  - vm_compute. discriminate.
  - vm_compute. reflexivity.
  - apply lists_okb_sound. vm_compute. reflexivity.
  - apply separatedb_all_blocks. vm_compute. reflexivity.
  - vm_compute. left. reflexivity.
  - intros j a Hj Ha Hne. unfold left_free_hemmed_buckets in Ha.
    destruct (j =? 1); [|contradiction].
    destruct Ha as [<-|[<-|[]]].
    + exfalso. apply Hne. vm_compute. reflexivity.
    + right. vm_compute. discriminate.
Defined.

(** C9 as stated fails when the right neighbour is the epilogue: it is
    allocated, the left neighbour 4128 is free and the combined size 128
    suffices for [mm_realloc(4192, 100)], yet the code extends the arena
    and returns 4192; the left neighbour stays in its bucket. *)
Lemma realloc_before_epilogue_extends_arena :
  let st := left_free_heap in
  grow_left_claimed st 4192 100
  /\ PREV_BLKP (mem st) 4192 = 4128
  /\ GET (mem st) (HDRP (NEXT_BLKP (mem st) 4192)) = PACK 0 1
  /\ free_lists st 1 = 4128
  /\ mem_brk st = 4256
  /\ option_map fst (mm_realloc 20 st 4192 100) = Some 4192
  /\ option_map (fun r => free_lists (snd r) 1) (mm_realloc 20 st 4192 100)
     = Some 4128
  /\ option_map (fun r => mem_brk (snd r)) (mm_realloc 20 st 4192 100)
     = Some 4320.
Proof.
  cbv zeta. split.
  - unfold grow_left_claimed. cbv zeta.
    split; [discriminate|]. split; [discriminate|].
    split; [vm_compute; discriminate|].
    split; [left; vm_compute; discriminate|].
    split; [vm_compute; reflexivity|].
    vm_compute; discriminate.
  - repeat match goal with
           | |- _ /\ _ => split
           end; vm_compute; reflexivity.
Qed.

(** ** coalesce *)

Section Coalesce.

Lemma ascending_remove_block x l : ascending l -> ascending (remove_block x l).
Proof.
  induction l as [|y l IH]; simpl; [tauto|].
  intros [Hy Hl]. destruct (y =? x); [assumption|]. simpl. split; [|auto].
  rewrite Forall_forall in *. intros a Ha. apply Hy.
  eapply In_remove_block; eassumption.
Qed.

Lemma length_remove_block x l : (length (remove_block x l) <= length l)%nat.
Proof.
  induction l as [|y l IH]; simpl; [lia|].
  destruct (y =? x); simpl; lia.
Qed.

Lemma GET_keep m m' p :
  (forall b, p <= b < p + WSIZE -> m' b = m b) -> GET m' p = GET m p.
Proof. apply GET_ext. Qed.

Lemma GET_SIZE_keep m m' p :
  (forall b, p <= b < p + WSIZE -> m' b = m b) -> GET_SIZE m' p = GET_SIZE m p.
Proof. intro H. unfold GET_SIZE. rewrite (GET_ext m m' p H). reflexivity. Qed.

(** The last step of every case of [coalesce]: the merged block [r] of
    [total] bytes, whose boundary tags are written, is inserted into the
    bucket of its size; the tags and every byte outside the link words
    of [r] and of listed blocks stay as they are. *)
Lemma coalesce_finish fuel s ls r total :
  lists_ok s ls -> sep_buckets ls ->
  clear_of (r - WSIZE) (r + total - WSIZE) ls ->
  is_ptr r -> is_size total -> 2 * DSIZE <= total ->
  GET (mem s) (HDRP r) = PACK total 0 ->
  GET (mem s) (r + total - DSIZE) = PACK total 0 ->
  (forall j, 7 < j -> ascending (ls j)) ->
  (forall j, 0 <= j < LISTS -> (length (ls j) <= fuel)%nat) ->
  let k := mm_find_list_idx total in
  exists st',
    mm_insert_fblock fuel s r (-1) = Some st'
    /\ lists_ok st' (set_bucket ls k (insert_policy k r (ls k)))
    /\ GET (mem st') (HDRP r) = PACK total 0
    /\ FTRP (mem st') r = r + total - DSIZE
    /\ GET (mem st') (FTRP (mem st') r) = PACK total 0
    /\ (forall b, r - WSIZE <= b < r + total - WSIZE ->
                  ~ (r <= b < r + DSIZE) -> mem st' b = mem s b).
Proof.
  intros Hok Hsep Hclear Hr Htot H32 Hhdr Hftr Hasc Hfuel k.
  assert (Hk : 0 <= k < LISTS).
  { pose proof (mm_find_list_idx_range total). unfold k, LISTS. lia. }
  assert (Hsz : GET_SIZE (mem s) (HDRP r) = total).
  { unfold GET_SIZE. rewrite Hhdr. apply size_of_PACK; auto. }
  assert (Hidx : resolve_idx (mem s) r (-1) = k).
  { unfold resolve_idx. simpl. rewrite Hsz. reflexivity. }
  assert (Hfar : forall j a, 0 <= j < LISTS -> In a (ls j) -> far r a).
  { intros j a Hj Ha. destruct (Hclear j a Hj Ha);
      unfold far, DSIZE, WSIZE in *; lia. }
  destruct (insert_spec fuel s ls k r (-1) Hok Hsep Hk Hidx Hr Hfar
              ltac:(intro H; apply Hasc; change (Z.quot (LISTS - 1) 2) with 7 in H; lia)
              (Hfuel k Hk))
    as [st' [E [Hok' [Hout _]]]].
  assert (Hkeep : forall b, r - WSIZE <= b < r + total - WSIZE ->
                            ~ (r <= b < r + DSIZE) -> mem st' b = mem s b).
  { intros b Hb Hnr. apply Hout. intros [a [[<-|Ha] Hab]]; [tauto|].
    destruct (Hclear k a Hk Ha); unfold DSIZE, WSIZE in *; lia. }
  assert (Hhdr' : GET (mem st') (HDRP r) = PACK total 0).
  { rewrite <- Hhdr. apply GET_keep. intros b Hb. apply Hkeep;
      unfold HDRP, DSIZE, WSIZE in *; lia. }
  assert (Hf' : FTRP (mem st') r = r + total - DSIZE).
  { unfold FTRP, GET_SIZE. rewrite Hhdr'. rewrite size_of_PACK by auto. lia. }
  exists st'. split; [exact E|]. split; [exact Hok'|].
  split; [exact Hhdr'|]. split; [exact Hf'|]. split; [|exact Hkeep].
  rewrite Hf', <- Hftr. apply GET_keep. intros b Hb. apply Hkeep;
    unfold DSIZE, WSIZE in *; lia.
Qed.

End Coalesce.

Section CoalesceCases.

Variables (fuel : nat) (st : state) (ls : buckets) (bp : Z).

Let m := mem st.
Let size := GET_SIZE m (HDRP bp).
Let prev := PREV_BLKP m bp.
Let next := NEXT_BLKP m bp.
Let psize := GET_SIZE m (HDRP prev).
Let nsize := GET_SIZE m (HDRP next).
Let pfree := GET_ALLOC m (FTRP m prev) =? 0.
Let nfree := GET_ALLOC m (HDRP next) =? 0.
Let r := merged_block pfree prev bp.
Let total := merged_size size pfree psize nfree nsize.
Let ls1 := without nfree ls (mm_find_list_idx nsize) next.
Let ls2 := without pfree ls1 (mm_find_list_idx psize) prev.
Let k := mm_find_list_idx total.

(* mm_free has cleared the allocation bit of both boundary tags *)
Hypothesis Htag : GET m (HDRP bp) = PACK size 0.
Hypothesis Hftag : GET m (FTRP m bp) = PACK size 0.
Hypothesis Hsize : 2 * DSIZE <= size.
(* a free neighbour is a block of at least four words whose footer
   agrees with its header *)
Hypothesis Hprev :
  pfree = true -> GET_SIZE m (bp - DSIZE) = psize /\ 2 * DSIZE <= psize.
Hypothesis Hnext :
  nfree = true -> GET_SIZE m (FTRP m next) = nsize /\ 2 * DSIZE <= nsize.
Hypothesis Htotal : total < 2 ^ 64.
Hypothesis Hr : is_ptr r.
(* the buckets: well formed, each free neighbour in the bucket of its
   size, every other listed block outside the merged block *)
Hypothesis Hok : lists_ok st ls.
Hypothesis Hsep : sep_buckets ls.
Hypothesis Hin_next : nfree = true -> In next (ls (mm_find_list_idx nsize)).
Hypothesis Hin_prev : pfree = true -> In prev (ls (mm_find_list_idx psize)).
Hypothesis Hclear :
  forall j a, 0 <= j < LISTS -> In a (ls j) ->
    (nfree = true /\ a = next) \/ (pfree = true /\ a = prev)
    \/ a + DSIZE <= r - WSIZE \/ r + total - WSIZE <= a.
Hypothesis Hasc : forall j, 7 < j -> ascending (ls j).
Hypothesis Hfuel : forall j, 0 <= j < LISTS -> (length (ls j) <= fuel)%nat.

Let Wsize : is_size size := GET_SIZE_is_size m (HDRP bp).
Let Wpsize : is_size psize := GET_SIZE_is_size m (HDRP prev).
Let Wnsize : is_size nsize := GET_SIZE_is_size m (HDRP next).

Lemma resolve_idx_auto (m0 : memory) (b : Z) :
  resolve_idx m0 b (-1) = mm_find_list_idx (GET_SIZE m0 (HDRP b)).
Proof. reflexivity. Qed.

Lemma next_is : next = bp + size.
Proof. reflexivity. Qed.

Lemma idx_in_range s : 0 <= mm_find_list_idx s < LISTS.
Proof. pose proof (mm_find_list_idx_range s). unfold LISTS. lia. Qed.

Lemma is_size_add a b : is_size a -> is_size b -> a + b < 2 ^ 64 -> is_size (a + b).
Proof.
  intros [Ha Ma] [Hb Mb] H. split; [lia|].
  rewrite Z.add_mod, Ma, Mb by lia. reflexivity.
Qed.

(** Case 1: both neighbours allocated. *)
Lemma coalesce_case1 :
  pfree = false -> nfree = false ->
  exists st',
    coalesce fuel st bp = Some (r, st')
    /\ GET (mem st') (HDRP r) = PACK total 0
    /\ FTRP (mem st') r = r + total - DSIZE
    /\ GET (mem st') (FTRP (mem st') r) = PACK total 0
    /\ lists_ok st' (set_bucket ls2 k (insert_policy k r (ls2 k))).
Proof.
  intros Ep En.
  assert (Er : r = bp) by (unfold r; rewrite Ep; reflexivity).
  assert (Et : total = size)
    by (unfold total, merged_size; rewrite Ep, En; lia).
  assert (El : ls2 = ls) by (unfold ls2, ls1; rewrite Ep, En; reflexivity).
  rewrite Er, Et, El. unfold k. rewrite Et.
  assert (Hc : clear_of (bp - WSIZE) (bp + size - WSIZE) ls).
  { intros j a Hj Ha. destruct (Hclear j a Hj Ha) as [[H _]|[[H _]|H]];
      [congruence | congruence | rewrite Er, Et in H; exact H]. }
  destruct (coalesce_finish fuel st ls bp size Hok Hsep Hc
              ltac:(rewrite <- Er; exact Hr) Wsize Hsize Htag Hftag Hasc Hfuel)
    as [st' [E [H1 [H2 [H3 [H4 _]]]]]].
  exists st'. unfold coalesce. fold m. fold prev. fold next.
  fold pfree. fold nfree. rewrite Ep, En. simpl andb. cbv iota.
  rewrite E. auto.
Qed.

(** Case 2: only the right neighbour is free. *)
Lemma coalesce_case2 :
  pfree = false -> nfree = true ->
  exists st',
    coalesce fuel st bp = Some (r, st')
    /\ GET (mem st') (HDRP r) = PACK total 0
    /\ FTRP (mem st') r = r + total - DSIZE
    /\ GET (mem st') (FTRP (mem st') r) = PACK total 0
    /\ lists_ok st' (set_bucket ls2 k (insert_policy k r (ls2 k))).
Proof.
  intros Ep En.
  destruct (Hnext En) as [Hnf Hn32].
  assert (Er : r = bp) by (unfold r; rewrite Ep; reflexivity).
  assert (Et : total = size + nsize)
    by (unfold total, merged_size; rewrite Ep, En; lia).
  set (i := mm_find_list_idx nsize).
  assert (El : ls2 = set_bucket ls i (remove_block next (ls i)))
    by (unfold ls2, ls1; rewrite Ep, En; reflexivity).
  rewrite Er, El. unfold k. rewrite Et. rewrite Et in Htotal.
  assert (Wt : is_size (size + nsize)) by (apply is_size_add; auto).
  pose proof (idx_in_range nsize) as Hi. fold i in Hi.
  destruct (remove_spec st ls i next (-1) Hok Hsep Hi (Hin_next En)
              (resolve_idx_auto m next))
    as [Hok1 Hout1].
  set (st1 := mm_remove_fblock st next (-1)) in *.
  set (l1 := set_bucket ls i (remove_block next (ls i))) in *.
  assert (Hc1 : clear_of (bp - WSIZE) (bp + (size + nsize) - WSIZE) l1).
  { apply clear_of_remove; [exact Hsep | exact Hi | exact (Hin_next En) |].
    intros j a Hj Ha Hne. destruct (Hclear j a Hj Ha) as [[_ H]|[[H _]|H]];
      [contradiction | congruence | rewrite Er, Et in H; exact H]. }
  assert (Hkeep : forall b, bp - WSIZE <= b < bp + (size + nsize) - WSIZE ->
                            mem st1 b = m b).
  { intros b Hb. apply Hout1. intros [a [Ha Hab]].
    assert (Ha' : In a (l1 i)) by (unfold l1; rewrite set_bucket_same; exact Ha).
    destruct (Hc1 i a Hi Ha'); unfold HDRP, DSIZE, WSIZE in *; lia. }
  assert (E1 : GET_SIZE (mem st1) (bp - WSIZE) = size).
  { apply GET_SIZE_keep. intros b Hb. apply Hkeep. unfold HDRP, DSIZE, WSIZE in *. lia. }
  assert (E2 : NEXT_BLKP (mem st1) bp = next).
  { unfold NEXT_BLKP. rewrite E1. reflexivity. }
  assert (E3 : GET_SIZE (mem st1) (HDRP next) = nsize).
  { apply GET_SIZE_keep. intros b Hb. apply Hkeep.
    rewrite next_is in Hb. unfold HDRP, DSIZE, WSIZE in *. lia. }
  assert (E4 : FTRP (mem st1) next = bp + (size + nsize) - DSIZE).
  { unfold FTRP. rewrite E3, next_is. lia. }
  set (v := PACK (size + nsize) 0).
  set (st3 := put (put st1 (bp + (size + nsize) - DSIZE) v) (HDRP bp) v).
  assert (Hok3 : lists_ok st3 l1).
  { unfold st3.
    apply (lists_ok_put (bp - WSIZE) (bp + (size + nsize) - WSIZE));
      [|exact Hc1| |]; [|unfold HDRP, DSIZE, WSIZE in *; lia|unfold HDRP, DSIZE, WSIZE in *; lia].
    apply (lists_ok_put (bp - WSIZE) (bp + (size + nsize) - WSIZE));
      [exact Hok1|exact Hc1| |]; unfold HDRP, DSIZE, WSIZE in *; lia. }
  assert (Hh3 : GET (mem st3) (HDRP bp) = v).
  { simpl. apply GET_PUT_ptr. apply PACK_word; auto. }
  assert (Hf3 : GET (mem st3) (bp + (size + nsize) - DSIZE) = v).
  { simpl. rewrite GET_PUT_far by (unfold HDRP, DSIZE, WSIZE in *; lia).
    apply GET_PUT_ptr. apply PACK_word; auto. }
  destruct (coalesce_finish fuel st3 l1 bp (size + nsize) Hok3
              (sep_buckets_remove ls i next Hsep) Hc1
              ltac:(rewrite <- Er; exact Hr) Wt
              ltac:(unfold DSIZE, WSIZE in *; lia) Hh3 Hf3)
    as [st' [E [H1 [H2 [H3 [H4 _]]]]]].
  { intros j Hj. unfold l1, set_bucket.
    destruct (Z.eqb_spec j i) as [Eji|_]; auto.
    apply ascending_remove_block. apply Hasc. rewrite <- Eji. exact Hj. }
  { intros j Hj. unfold l1, set_bucket. destruct (j =? i); auto.
    pose proof (length_remove_block next (ls i)).
    pose proof (Hfuel i Hi). lia. }
  exists st'. unfold coalesce. fold m. fold prev. fold next.
  fold pfree. fold nfree. rewrite Ep, En. simpl andb. cbv iota.
  fold size. fold st1. rewrite E2, E3, E4.
  rewrite (wrap64_small (size + nsize)) by (destruct Wt; assumption).
  fold v. change (mem (put st1 (bp + (size + nsize) - DSIZE) v))
    with (PUT (mem st1) (bp + (size + nsize) - DSIZE) v).
  fold st3. rewrite E. auto.
Qed.

Ltac addr_lia := unfold HDRP, DSIZE, WSIZE in *; lia.

Lemma prev_is : pfree = true -> prev = bp - psize /\ 2 * DSIZE <= psize.
Proof.
  intro Ep. destruct (Hprev Ep) as [H1 H2]. split; [|exact H2].
  unfold prev at 1, PREV_BLKP. fold m. rewrite H1. reflexivity.
Qed.

(** Case 3: only the left neighbour is free. *)
Lemma coalesce_case3 :
  pfree = true -> nfree = false ->
  exists st',
    coalesce fuel st bp = Some (r, st')
    /\ GET (mem st') (HDRP r) = PACK total 0
    /\ FTRP (mem st') r = r + total - DSIZE
    /\ GET (mem st') (FTRP (mem st') r) = PACK total 0
    /\ lists_ok st' (set_bucket ls2 k (insert_policy k r (ls2 k))).
Proof.
  intros Ep En.
  destruct (prev_is Ep) as [Eprev Hp32].
  destruct (Hprev Ep) as [Hpf _].
  assert (Er : r = prev) by (unfold r; rewrite Ep; reflexivity).
  assert (Et : total = size + psize)
    by (unfold total, merged_size; rewrite Ep, En; lia).
  set (i := mm_find_list_idx psize).
  assert (El : ls2 = set_bucket ls i (remove_block prev (ls i)))
    by (unfold ls2, ls1; rewrite Ep, En; reflexivity).
  rewrite Er, El. unfold k. rewrite Et. rewrite Et in Htotal.
  assert (Wt : is_size (size + psize)) by (apply is_size_add; auto).
  pose proof (idx_in_range psize) as Hi. fold i in Hi.
  destruct (remove_spec st ls i prev (-1) Hok Hsep Hi (Hin_prev Ep)
              (resolve_idx_auto m prev))
    as [Hok1 Hout1].
  set (st1 := mm_remove_fblock st prev (-1)) in *.
  set (l1 := set_bucket ls i (remove_block prev (ls i))) in *.
  assert (Hc1 : clear_of (prev - WSIZE) (prev + (size + psize) - WSIZE) l1).
  { apply clear_of_remove; [exact Hsep | exact Hi | exact (Hin_prev Ep) |].
    intros j a Hj Ha Hne. destruct (Hclear j a Hj Ha) as [[H _]|[[_ H]|H]];
      [congruence | contradiction | rewrite Er, Et in H; exact H]. }
  assert (Hkeep : forall b, prev - WSIZE <= b < prev + (size + psize) - WSIZE ->
                            mem st1 b = m b).
  { intros b Hb. apply Hout1. intros [a [Ha Hab]].
    assert (Ha' : In a (l1 i)) by (unfold l1; rewrite set_bucket_same; exact Ha).
    destruct (Hc1 i a Hi Ha'); addr_lia. }
  assert (P1 : GET_SIZE (mem st1) (bp - DSIZE) = psize).
  { rewrite <- Hpf. apply GET_SIZE_keep. intros b Hb. apply Hkeep. addr_lia. }
  assert (S1 : GET_SIZE (mem st1) (HDRP prev) = psize).
  { apply GET_SIZE_keep. intros b Hb. apply Hkeep. addr_lia. }
  assert (C1 : GET_SIZE (mem st1) (HDRP bp) = size).
  { apply GET_SIZE_keep. intros b Hb. apply Hkeep. addr_lia. }
  set (v := PACK (size + psize) 0).
  set (ftr := prev + (size + psize) - DSIZE).
  set (st2 := put st1 ftr v).
  set (st3 := put st2 (HDRP prev) v).
  assert (P2 : GET_SIZE (mem st2) (bp - DSIZE) = psize).
  { simpl. rewrite GET_SIZE_PUT_far by (unfold ftr; addr_lia). exact P1. }
  assert (P3 : GET_SIZE (mem st3) (bp - DSIZE) = psize).
  { simpl. rewrite GET_SIZE_PUT_far by addr_lia.
    rewrite GET_SIZE_PUT_far by (unfold ftr; addr_lia). exact P1. }
  assert (Hok3 : lists_ok st3 l1).
  { unfold st3, st2.
    apply (lists_ok_put (prev - WSIZE) (prev + (size + psize) - WSIZE));
      [|exact Hc1|addr_lia|addr_lia].
    apply (lists_ok_put (prev - WSIZE) (prev + (size + psize) - WSIZE));
      [exact Hok1|exact Hc1| |]; unfold ftr; addr_lia. }
  assert (Hh3 : GET (mem st3) (HDRP prev) = v).
  { simpl. apply GET_PUT_ptr. apply PACK_word; auto. }
  assert (Hf3 : GET (mem st3) (prev + (size + psize) - DSIZE) = v).
  { simpl. rewrite GET_PUT_far by (unfold ftr; addr_lia).
    apply GET_PUT_ptr. apply PACK_word; auto. }
  destruct (coalesce_finish fuel st3 l1 prev (size + psize) Hok3
              (sep_buckets_remove ls i prev Hsep) Hc1
              ltac:(rewrite <- Er; exact Hr) Wt
              ltac:(unfold DSIZE, WSIZE in *; lia) Hh3 Hf3)
    as [st' [E [H1 [H2 [H3 [H4 Hk']]]]]].
  { intros j Hj. unfold l1, set_bucket.
    destruct (Z.eqb_spec j i) as [Eji|_]; auto.
    apply ascending_remove_block. apply Hasc. rewrite <- Eji. exact Hj. }
  { intros j Hj. unfold l1, set_bucket. destruct (j =? i); auto.
    pose proof (length_remove_block prev (ls i)).
    pose proof (Hfuel i Hi). lia. }
  assert (P4 : GET_SIZE (mem st') (bp - DSIZE) = psize).
  { rewrite <- P3. apply GET_SIZE_keep. intros b Hb. apply Hk'; addr_lia. }
  exists st'. unfold coalesce. fold m. fold prev. fold next.
  fold pfree. fold nfree. rewrite Ep, En. simpl andb. cbv iota.
  fold size. fold st1.
  assert (Q1 : PREV_BLKP (mem st1) bp = prev)
    by (unfold PREV_BLKP; rewrite P1; lia).
  rewrite Q1, S1.
  rewrite (wrap64_small (size + psize)) by (destruct Wt; assumption).
  fold v.
  assert (F1 : FTRP (mem st1) bp = ftr)
    by (unfold FTRP, ftr; rewrite C1; lia).
  rewrite F1. fold st2.
  assert (Q2 : PREV_BLKP (mem st2) bp = prev)
    by (unfold PREV_BLKP; rewrite P2; lia).
  rewrite Q2. fold st3.
  assert (Q3 : PREV_BLKP (mem st3) bp = prev)
    by (unfold PREV_BLKP; rewrite P3; lia).
  rewrite Q3, E.
  assert (Q4 : PREV_BLKP (mem st') bp = prev)
    by (unfold PREV_BLKP; rewrite P4; lia).
  rewrite Q4. auto.
Qed.

(** Case 4: both neighbours are free. *)
Lemma coalesce_case4 :
  pfree = true -> nfree = true ->
  exists st',
    coalesce fuel st bp = Some (r, st')
    /\ GET (mem st') (HDRP r) = PACK total 0
    /\ FTRP (mem st') r = r + total - DSIZE
    /\ GET (mem st') (FTRP (mem st') r) = PACK total 0
    /\ lists_ok st' (set_bucket ls2 k (insert_policy k r (ls2 k))).
Proof.
  intros Ep En.
  destruct (prev_is Ep) as [Eprev Hp32].
  destruct (Hprev Ep) as [Hpf _].
  destruct (Hnext En) as [Hnf Hn32].
  assert (Er : r = prev) by (unfold r; rewrite Ep; reflexivity).
  assert (Et : total = size + psize + nsize)
    by (unfold total, merged_size; rewrite Ep, En; lia).
  set (i := mm_find_list_idx nsize).
  set (ip := mm_find_list_idx psize).
  set (l1 := set_bucket ls i (remove_block next (ls i))).
  set (l2 := set_bucket l1 ip (remove_block prev (l1 ip))).
  assert (El1 : ls1 = l1) by (unfold ls1; rewrite En; reflexivity).
  assert (El : ls2 = l2) by (unfold ls2; rewrite Ep, El1; reflexivity).
  rewrite Er, El. unfold k. rewrite Et. rewrite Et in Htotal.
  assert (Wt : is_size (size + psize + nsize)).
  { apply is_size_add; auto. apply is_size_add; auto.
    destruct Wnsize. lia. }
  pose proof (idx_in_range nsize) as Hi. fold i in Hi.
  pose proof (idx_in_range psize) as Hip. fold ip in Hip.
  set (lo := prev - WSIZE). set (hi := prev + (size + psize + nsize) - WSIZE).
  assert (Hpn : prev <> next) by (rewrite next_is; addr_lia).
  (* the removal of the right neighbour *)
  destruct (remove_spec st ls i next (-1) Hok Hsep Hi (Hin_next En)
              (resolve_idx_auto m next))
    as [Hok1 Hout1].
  set (st1 := mm_remove_fblock st next (-1)) in *.
  fold l1 in Hok1.
  assert (Hsep1 : sep_buckets l1) by (apply sep_buckets_remove; exact Hsep).
  assert (Hkeep1 : forall b, lo <= b < hi -> ~ (prev <= b < prev + DSIZE) ->
                             mem st1 b = m b).
  { intros b Hb Hnp. apply Hout1. intros [a [Ha Hab]].
    pose proof (In_remove_block _ _ _ Ha) as Ha0.
    pose proof (In_remove_block_neq _ _ _ (proj1 Hsep i Hi) Ha) as Hne.
    destruct (Hclear i a Hi Ha0) as [[_ H]|[[_ H]|H]];
      [contradiction | subst a; lia | rewrite Er, Et in H; unfold lo, hi in *; addr_lia]. }
  assert (Hin1 : In prev (l1 ip)).
  { unfold l1, set_bucket. destruct (Z.eqb_spec ip i) as [Eq|_].
    - apply In_remove_block_other; [|exact Hpn].
      rewrite <- Eq. exact (Hin_prev Ep).
    - exact (Hin_prev Ep). }
  assert (S1 : GET_SIZE (mem st1) (HDRP prev) = psize).
  { apply GET_SIZE_keep. intros b Hb. apply Hkeep1; unfold lo, hi; addr_lia. }
  assert (P1 : GET_SIZE (mem st1) (bp - DSIZE) = psize).
  { rewrite <- Hpf. apply GET_SIZE_keep. intros b Hb.
    apply Hkeep1; unfold lo, hi; addr_lia. }
  assert (Q1 : PREV_BLKP (mem st1) bp = prev)
    by (unfold PREV_BLKP; rewrite P1; lia).
  assert (Hres1 : resolve_idx (mem st1) prev (-1) = ip).
  { rewrite resolve_idx_auto, S1. reflexivity. }
  (* the removal of the left neighbour *)
  destruct (remove_spec st1 l1 ip prev (-1) Hok1 Hsep1 Hip Hin1 Hres1)
    as [Hok2 Hout2].
  set (st2 := mm_remove_fblock st1 prev (-1)) in *.
  fold l2 in Hok2.
  assert (Hsep2 : sep_buckets l2) by (apply sep_buckets_remove; exact Hsep1).
  assert (Hc2 : clear_of lo hi l2).
  { apply clear_of_remove; [exact Hsep1 | exact Hip | exact Hin1 |].
    intros j a Hj Ha Hne.
    assert (Ha0 : In a (ls j) /\ a <> next).
    { unfold l1, set_bucket in Ha. destruct (Z.eqb_spec j i) as [->|Hji].
      - split; [eapply In_remove_block; eassumption|].
        eapply In_remove_block_neq; [apply (proj1 Hsep i Hi)|eassumption].
      - split; [exact Ha|]. apply far_neq.
        apply (proj2 Hsep j i); auto. }
    destruct Ha0 as [Ha0 Hnn].
    destruct (Hclear j a Hj Ha0) as [[_ H]|[[_ H]|H]];
      [contradiction | contradiction | rewrite Er, Et in H; exact H]. }
  assert (Hkeep2 : forall b, lo <= b < hi -> mem st2 b = mem st1 b).
  { intros b Hb. apply Hout2. intros [a [Ha Hab]].
    assert (Ha' : In a (l2 ip)) by (unfold l2; rewrite set_bucket_same; exact Ha).
    destruct (Hc2 ip a Hip Ha'); unfold lo, hi in *; addr_lia. }
  assert (Hkeep : forall b, lo <= b < hi -> ~ (prev <= b < prev + DSIZE) ->
                            mem st2 b = m b).
  { intros b Hb Hnp. rewrite Hkeep2 by assumption. apply Hkeep1; assumption. }
  assert (S2 : GET_SIZE (mem st2) (HDRP prev) = psize).
  { apply GET_SIZE_keep. intros b Hb. apply Hkeep; unfold lo, hi; addr_lia. }
  assert (P2 : GET_SIZE (mem st2) (bp - DSIZE) = psize).
  { rewrite <- Hpf. apply GET_SIZE_keep. intros b Hb.
    apply Hkeep; unfold lo, hi; addr_lia. }
  assert (C2 : GET_SIZE (mem st2) (bp - WSIZE) = size).
  { apply GET_SIZE_keep. intros b Hb. apply Hkeep; unfold lo, hi; addr_lia. }
  assert (N2 : GET_SIZE (mem st2) (HDRP next) = nsize).
  { apply GET_SIZE_keep. intros b Hb. rewrite next_is in Hb.
    apply Hkeep; unfold lo, hi; addr_lia. }
  assert (Fn : FTRP m next = next + nsize - DSIZE) by reflexivity.
  assert (NF2 : GET_SIZE (mem st2) (next + nsize - DSIZE) = nsize).
  { rewrite <- Hnf at 2. rewrite Fn. apply GET_SIZE_keep. intros b Hb.
    rewrite next_is in Hb. apply Hkeep; unfold lo, hi; addr_lia. }
  set (v := PACK (size + psize + nsize) 0).
  set (ftr := prev + (size + psize + nsize) - DSIZE).
  set (st3 := put st2 (HDRP prev) v).
  set (st4 := put st3 ftr v).
  assert (C3 : GET_SIZE (mem st3) (bp - WSIZE) = size).
  { simpl. rewrite GET_SIZE_PUT_far by addr_lia. exact C2. }
  assert (N3 : GET_SIZE (mem st3) (HDRP next) = nsize).
  { simpl. rewrite GET_SIZE_PUT_far by (rewrite next_is; addr_lia). exact N2. }
  assert (P4 : GET_SIZE (mem st4) (bp - DSIZE) = psize).
  { simpl. rewrite GET_SIZE_PUT_far by (unfold ftr; addr_lia).
    rewrite GET_SIZE_PUT_far by addr_lia. exact P2. }
  assert (Hok4 : lists_ok st4 l2).
  { unfold st4, st3.
    apply (lists_ok_put lo hi); [|exact Hc2| |]; [|unfold lo, hi, ftr; addr_lia ..].
    apply (lists_ok_put lo hi); [exact Hok2|exact Hc2| |]; unfold lo, hi; addr_lia. }
  assert (Hh4 : GET (mem st4) (HDRP prev) = v).
  { simpl. rewrite GET_PUT_far by (unfold ftr; addr_lia).
    apply GET_PUT_ptr. apply PACK_word; auto. }
  assert (Hf4 : GET (mem st4) (prev + (size + psize + nsize) - DSIZE) = v).
  { simpl. apply GET_PUT_ptr. apply PACK_word; auto. }
  destruct (coalesce_finish fuel st4 l2 prev (size + psize + nsize) Hok4
              Hsep2 Hc2 ltac:(rewrite <- Er; exact Hr) Wt
              ltac:(unfold DSIZE, WSIZE in *; lia) Hh4 Hf4)
    as [st' [E [H1 [H2 [H3 [H4 Hk']]]]]].
  { intros j Hj. unfold l2, l1, set_bucket.
    destruct (Z.eqb_spec j ip) as [Ej|_].
    - apply ascending_remove_block.
      destruct (Z.eqb_spec ip i) as [Ei|_].
      + apply ascending_remove_block. apply Hasc. rewrite <- Ei, <- Ej. exact Hj.
      + apply Hasc. rewrite <- Ej. exact Hj.
    - destruct (Z.eqb_spec j i) as [Ei|_]; auto.
      apply ascending_remove_block. apply Hasc. rewrite <- Ei. exact Hj. }
  { intros j Hj. unfold l2, l1, set_bucket.
    pose proof (Hfuel i Hi). pose proof (Hfuel ip Hip). pose proof (Hfuel j Hj).
    pose proof (length_remove_block next (ls i)).
    destruct (j =? ip).
    - destruct (ip =? i).
      + pose proof (length_remove_block prev (remove_block next (ls i))). lia.
      + pose proof (length_remove_block prev (ls ip)). lia.
    - destruct (j =? i); lia. }
  assert (P5 : GET_SIZE (mem st') (bp - DSIZE) = psize).
  { rewrite <- P4. apply GET_SIZE_keep. intros b Hb. apply Hk'; addr_lia. }
  exists st'. unfold coalesce. fold m. fold prev. fold next.
  fold pfree. fold nfree. rewrite Ep, En. simpl andb. cbv iota.
  fold size. fold st1. rewrite Q1. fold st2.
  assert (Q2 : PREV_BLKP (mem st2) bp = prev)
    by (unfold PREV_BLKP; rewrite P2; lia).
  assert (X2 : NEXT_BLKP (mem st2) bp = next)
    by (unfold NEXT_BLKP; rewrite C2; reflexivity).
  assert (F2 : FTRP (mem st2) next = next + nsize - DSIZE)
    by (unfold FTRP; rewrite N2; reflexivity).
  rewrite Q2, X2, S2, F2, NF2.
  rewrite (wrap64_small (psize + nsize))
    by (destruct Wt; unfold DSIZE, WSIZE in *; lia).
  replace (size + (psize + nsize)) with (size + psize + nsize) by lia.
  rewrite (wrap64_small (size + psize + nsize)) by (destruct Wt; assumption).
  fold v. fold st3.
  assert (X3 : NEXT_BLKP (mem st3) bp = next)
    by (unfold NEXT_BLKP; rewrite C3; reflexivity).
  assert (F3 : FTRP (mem st3) next = ftr)
    by (unfold FTRP, ftr; rewrite N3, next_is; addr_lia).
  rewrite X3, F3. fold st4.
  assert (Q4 : PREV_BLKP (mem st4) bp = prev)
    by (unfold PREV_BLKP; rewrite P4; lia).
  rewrite Q4, E.
  assert (Q5 : PREV_BLKP (mem st') bp = prev)
    by (unfold PREV_BLKP; rewrite P5; lia).
  rewrite Q5. auto.
Qed.

(** C8. [coalesce] on a block that [mm_free] has just marked free, in a
    heap whose free neighbours are well-formed listed blocks: each free
    immediate neighbour is removed from its bucket, header and footer
    of the merged block carry the summed size with the allocation bit
    clear, the result is the address of the left neighbour when that
    one was free and of the block itself otherwise, and the merged
    block is inserted into the bucket computed from the merged size. *)
Theorem coalesce_merges :
  exists st',
    coalesce fuel st bp = Some (r, st')
    /\ GET (mem st') (HDRP r) = PACK total 0
    /\ FTRP (mem st') r = r + total - DSIZE
    /\ GET (mem st') (FTRP (mem st') r) = PACK total 0
    /\ lists_ok st' (set_bucket ls2 k (insert_policy k r (ls2 k))).
Proof.
  destruct (sumbool_of_bool pfree) as [Ep|Ep];
    destruct (sumbool_of_bool nfree) as [En|En].
  - exact (coalesce_case4 Ep En).
  - exact (coalesce_case3 Ep En).
  - exact (coalesce_case2 Ep En).
  - exact (coalesce_case1 Ep En).
Qed.

End CoalesceCases.

Lemma coalesce_merges_witness :
  exists st',
    coalesce 20 sandwich_heap 4192 = Some (4128, st')
    /\ GET (mem st') (HDRP 4128) = PACK 192 0
    /\ GET (mem st') (FTRP (mem st') 4128) = PACK 192 0.
Proof.
  destruct (coalesce_merges 20 sandwich_heap sandwich_buckets 4192)
    as [st' [E [H1 [_ [H3 _]]]]].
  - vm_compute. reflexivity.
  - vm_compute. reflexivity.
  - vm_compute. discriminate.
  - intros _. split; [vm_compute; reflexivity | vm_compute; discriminate].
  - intros _. split; [vm_compute; reflexivity | vm_compute; discriminate].
  - vm_compute. reflexivity.
  - vm_compute. split; reflexivity.
  - apply lists_okb_sound. vm_compute. reflexivity.
  - apply separatedb_all_blocks. vm_compute. reflexivity.
  - intros _. vm_compute. left. reflexivity.
  - intros _. vm_compute. right. left. reflexivity.
  - intros j a Hj Ha. unfold sandwich_buckets in Ha.
    destruct (j =? 1); [|contradiction].
    destruct Ha as [<-|[<-|[]]].
    + left. split; vm_compute; reflexivity.
    + right. left. split; vm_compute; reflexivity.
  - intros j Hj. unfold sandwich_buckets.
    destruct (Z.eqb_spec j 1); [lia | exact I].
  - intros j Hj. unfold sandwich_buckets. destruct (j =? 1); simpl; lia.
  - match type of E with
    | _ = Some (?r, _) =>
        assert (Er : r = 4128) by (vm_compute; reflexivity); rewrite Er in *
    end.
    match type of H1 with
    | _ = PACK ?t 0 =>
        assert (Et : t = 192) by (vm_compute; reflexivity); rewrite Et in *
    end.
    exists st'. split; [exact E|]. split; [exact H1 | exact H3].
Defined.

(** * Further properties *)

(** ** The adjusted block size *)

Lemma adjust_size_spec size :
  0 < size <= 2 ^ 64 - 32 ->
  adjust_size size mod 16 = 0
  /\ 2 * DSIZE <= adjust_size size
  /\ size + DSIZE <= adjust_size size < size + 2 * DSIZE.
Proof.
  intro H. unfold adjust_size, DSIZE, WSIZE.
  change (2 * 8) with 16. change (2 * 16) with 32. change (16 - 1) with 15.
  destruct (Z.leb_spec size 16) as [Hs|Hs].
  - split; [reflexivity|lia].
  - replace (size + 16 + 15) with (size + 31) by lia.
    change (2 ^ 64) with 18446744073709551616 in *.
    rewrite (wrap64_small (size + 31))
      by (change (2 ^ 64) with 18446744073709551616; lia).
    pose proof (Z.div_mod (size + 31) 16 ltac:(lia)) as Hd.
    pose proof (Z.mod_pos_bound (size + 31) 16 ltac:(lia)) as Hm.
    rewrite wrap64_small
      by (change (2 ^ 64) with 18446744073709551616; lia).
    split; [|lia].
    rewrite Z.mul_comm. apply Z.mod_mul. lia.
Qed.

(** X1. For a request of [size] bytes, [0 < size <= 2^64 - 32], the
    adjusted block size of [mm_malloc] and [mm_realloc] is a multiple of
    sixteen, at least 32, and holds the request plus header and footer
    with less than sixteen bytes of padding. *)
Theorem adjust_size_bounds size :
  0 < size <= 2 ^ 64 - 32 ->
  adjust_size size mod 16 = 0
  /\ 2 * DSIZE <= adjust_size size
  /\ size + DSIZE <= adjust_size size < size + 2 * DSIZE.
Proof. exact (adjust_size_spec size). Qed.

Lemma adjust_size_bounds_witness :
  adjust_size 40 mod 16 = 0
  /\ 2 * DSIZE <= adjust_size 40
  /\ 40 + DSIZE <= adjust_size 40 < 40 + 2 * DSIZE.
Proof. apply (adjust_size_bounds 40). lia. Defined.

(** X2. For a request above [2^64 - 32] bytes the sum
    [size + DSIZE + (DSIZE - 1)] wraps around: the adjusted block size
    is 0 or 16, below the request; it is 16 exactly for the requests
    above [2^64 - 16]. *)
Theorem adjust_size_wraps size :
  2 ^ 64 - 32 < size < 2 ^ 64 ->
  (adjust_size size = 0 \/ adjust_size size = DSIZE)
  /\ adjust_size size < size
  /\ (adjust_size size = DSIZE <-> 2 ^ 64 - DSIZE < size).
Proof.
  intro H. unfold adjust_size, DSIZE, WSIZE.
  change (2 * 8) with 16. change (16 - 1) with 15.
  change (2 ^ 64) with 18446744073709551616 in *.
  destruct (Z.leb_spec size 16) as [Hs|Hs]; [lia|].
  assert (E : wrap64 (size + 16 + 15) = size + 31 - 18446744073709551616).
  { unfold wrap64. change (2 ^ 64) with 18446744073709551616.
    symmetry. apply Z.mod_unique_pos with (q := 1); lia. }
  rewrite E.
  set (r := size + 31 - 18446744073709551616).
  assert (Hr : 0 <= r < 31) by (unfold r; lia).
  pose proof (Z.div_mod r 16 ltac:(lia)) as Hd.
  pose proof (Z.mod_pos_bound r 16 ltac:(lia)) as Hm.
  assert (Hq : r / 16 = 0 \/ r / 16 = 1) by lia.
  destruct Hq as [Hq|Hq]; rewrite Hq; cbn [Z.mul Pos.mul];
    rewrite wrap64_small by (change (2 ^ 64) with 18446744073709551616; lia);
    unfold r in *; lia.
Qed.

Lemma adjust_size_wraps_witness :
  (adjust_size (2 ^ 64 - 1) = 0 \/ adjust_size (2 ^ 64 - 1) = DSIZE)
  /\ adjust_size (2 ^ 64 - 1) < 2 ^ 64 - 1
  /\ (adjust_size (2 ^ 64 - 1) = DSIZE <-> 2 ^ 64 - DSIZE < 2 ^ 64 - 1).
Proof. apply (adjust_size_wraps (2 ^ 64 - 1)). lia. Defined.

(** ** Size classes in closed form *)

Lemma class_lo_reached k :
  1 <= k <= 15 ->
  mm_find_list_idx (class_lo k) = k /\ mm_find_list_idx (class_lo k - 1) = k - 1.
Proof.
  intro H.
  assert (E : k = 1 \/ k = 2 \/ k = 3 \/ k = 4 \/ k = 5 \/ k = 6 \/ k = 7
              \/ k = 8 \/ k = 9 \/ k = 10 \/ k = 11 \/ k = 12 \/ k = 13
              \/ k = 14 \/ k = 15) by lia.
  repeat (destruct E as [->|E]; [split; vm_compute; reflexivity|]).
  subst k. split; vm_compute; reflexivity.
Qed.

(** X3. The buckets in closed form: a size reaches bucket [k] or a higher
    one exactly when it is at least [33 * 2^(k-1)] for [k] up to 10 and
    [33 * 2^(8k-71)] for [k] from 11 to 15.  So bucket 0 holds the sizes
    up to 32, bucket [k] the sizes from [class_lo k] to
    [class_lo (k+1) - 1], and bucket 15 every size from [33 * 2^49]
    on. *)
Theorem mm_find_list_idx_classes size k :
  1 <= k <= 15 ->
  (k <= mm_find_list_idx size <-> class_lo k <= size).
Proof.
  intro Hk. destruct (class_lo_reached k Hk) as [E1 E2]. split; intro H.
  - destruct (Z.le_gt_cases (class_lo k) size) as [Hle|Hgt]; [exact Hle|].
    pose proof (mm_find_list_idx_mono size (class_lo k - 1) ltac:(lia)). lia.
  - rewrite <- E1. apply mm_find_list_idx_mono. exact H.
Qed.

Lemma mm_find_list_idx_classes_witness :
  9 <= mm_find_list_idx 8448 <-> class_lo 9 <= 8448.
Proof. apply (mm_find_list_idx_classes 8448 9). lia. Defined.

(** ** mm_print_flist *)

(** X4. On a well-formed chain [mm_print_flist] terminates and prints one
    line per block, in link order.  The three fields of a line are the
    low 32 bits (the conversion is [%x]) of the addresses of the two
    link words of the block, [free + WSIZE] and [free], and of [free]
    again: the first and the third field are not the neighbours that
    these words point to. *)
Theorem mm_print_flist_lines m l : forall p h fuel,
  dll m p h l -> (length l <= fuel)%nat ->
  mm_print_flist fuel m h
  = Some (map (fun x => (as_uint (x + WSIZE), as_uint x, as_uint x)) l).
Proof.
  induction l as [|x l IH]; intros p h fuel H Hfuel; simpl in H.
  - subst h. destruct fuel; reflexivity.
  - destruct H as [-> [Hx [_ Hrest]]].
    assert (Ex : (x =? NULL) = false)
      by (apply Z.eqb_neq; unfold is_ptr, NULL in *; lia).
    destruct fuel as [|fuel]; [simpl in Hfuel; lia|].
    cbn [mm_print_flist map]. rewrite Ex. cbn [negb].
    rewrite (IH x _ fuel Hrest) by (simpl in Hfuel; lia). reflexivity.
Qed.

Lemma mm_print_flist_lines_witness :
  mm_print_flist 20 (mem sandwich_heap) (free_lists sandwich_heap 1)
  = Some [(4264, 4256, 4256); (4136, 4128, 4128)].
Proof.
  rewrite (mm_print_flist_lines _ [4256; 4128] NULL).
  - reflexivity.
  - apply dllb_sound. vm_compute. reflexivity.
  - simpl. lia.
Defined.

(** ** The loops of mm_check *)

Section Audit.

Lemma for_each_list_all n f : forall i,
  (forall j, i <= j < i + Z.of_nat n -> f j = Some true) ->
  for_each_list n i f = Some true.
Proof.
  induction n as [|n IH]; intros i H; [reflexivity|].
  cbn [for_each_list]. rewrite (H i) by lia. apply IH. intros j Hj. apply H. lia.
Qed.

Lemma for_each_list_true n f : forall i,
  for_each_list n i f = Some true ->
  forall j, i <= j < i + Z.of_nat n -> f j = Some true.
Proof.
  induction n as [|n IH]; intros i H j Hj; [lia|].
  cbn [for_each_list] in H.
  destruct (f i) as [[|]|] eqn:E; try discriminate.
  destruct (Z.eq_dec j i) as [->|Hne]; [exact E|].
  apply (IH (i + 1) H). lia.
Qed.

Lemma and_then_true a k :
  and_then a k = Some true -> a = Some true /\ k = Some true.
Proof. destruct a as [[|]|]; simpl; intro H; try discriminate. auto. Qed.

Lemma check_valid_sound m l : forall p h fuel,
  dll m p h l -> check_valid fuel m h = Some true ->
  Forall (fun a => GET_ALLOC m (HDRP a) = 0) l.
Proof.
  induction l as [|x l IH]; intros p h fuel H Hc; [constructor|].
  simpl in H. destruct H as [-> [Hx [_ Hrest]]].
  assert (Ex : (x =? NULL) = false)
    by (apply Z.eqb_neq; unfold is_ptr, NULL in *; lia).
  destruct fuel as [|fuel]; simpl in Hc; rewrite Ex in Hc;
    destruct (Z.eqb_spec (GET_ALLOC m (HDRP x)) 0) as [E0|E0];
    simpl in Hc; try discriminate;
    destruct (negb (NEXT_BLKP m x =? NULL)
              && (NEXT_BLKP m x <? x + GET_SIZE m (HDRP x))); try discriminate.
  constructor; [exact E0|]. exact (IH x _ fuel Hrest Hc).
Qed.

Lemma check_contiguous_sound m : forall fuel bp,
  check_contiguous fuel m bp = Some true ->
  exists l,
    heap_walk fuel m bp = Some l
    /\ forall b, In b l -> GET_ALLOC m (HDRP b) = 0 ->
         GET_ALLOC m (HDRP (PREV_BLKP m b)) <> 0
         /\ GET_ALLOC m (HDRP (NEXT_BLKP m b)) <> 0.
Proof.
  induction fuel as [|fuel IH]; intros bp H; simpl in H; simpl.
  - destruct (GET_SIZE m (HDRP bp) >? 0).
    + destruct (_ || _); discriminate.
    + exists []. split; [reflexivity|]. intros b [].
  - destruct (GET_SIZE m (HDRP bp) >? 0).
    + destruct ((GET_ALLOC m (HDRP bp) =? 0)
                && (GET_ALLOC m (HDRP (PREV_BLKP m bp)) =? 0)
                || (GET_ALLOC m (HDRP bp) =? 0)
                   && (GET_ALLOC m (HDRP (NEXT_BLKP m bp)) =? 0)) eqn:E;
        [discriminate|].
      destruct (IH _ H) as [l [Hw Hl]]. rewrite Hw.
      exists (bp :: l). split; [reflexivity|].
      intros b [<-|Hb] Hfree; [|auto].
      apply orb_false_iff in E. destruct E as [E1 E2].
      apply Z.eqb_eq in Hfree. rewrite Hfree in E1, E2. simpl in E1, E2.
      apply Z.eqb_neq in E1. apply Z.eqb_neq in E2. auto.
    + exists []. split; [reflexivity|]. intros b [].
Qed.

(** Once [found] is set the third loop accepts every block. *)
Lemma check_listed_found fuel st : forall bp,
  check_bounds fuel (mem st) bp = Some true ->
  check_listed fuel st bp true = Some true.
Proof.
  induction fuel as [|fuel IH]; intros bp H; simpl in H.
  - simpl. pose proof (GET_SIZE_range (mem st) (HDRP bp)) as Hr.
    destruct (Z.eqb_spec (GET_SIZE (mem st) (HDRP bp)) 0) as [E|E];
      simpl in H; [|discriminate].
    rewrite E. reflexivity.
  - cbn [check_listed].
    pose proof (GET_SIZE_range (mem st) (HDRP bp)) as Hr.
    destruct (Z.eqb_spec (GET_SIZE (mem st) (HDRP bp)) 0) as [E|E]; simpl in H.
    + rewrite E. reflexivity.
    + replace (GET_SIZE (mem st) (HDRP bp) >? 0) with true
        by (symmetry; rewrite Z.gtb_ltb; apply Z.ltb_lt; lia).
      destruct (GET_ALLOC (mem st) (HDRP bp) =? 0); [|apply IH; exact H].
      replace (search_list (S fuel) (mem st) bp
                 (free_lists st (mm_find_list_idx (GET_SIZE (mem st) (HDRP bp))))
                 true) with (Some true).
      * simpl. apply IH. exact H.
      * simpl. rewrite andb_false_r. reflexivity.
Qed.

Lemma search_list_found m bp l : forall p h fuel,
  dll m p h l -> In bp l -> (length l <= fuel)%nat ->
  search_list fuel m bp h false = Some true.
Proof.
  induction l as [|x l IH]; intros p h fuel H Hin Hfuel; [destruct Hin|].
  simpl in H. destruct H as [-> [Hx [_ Hrest]]].
  assert (Ex : (x =? NULL) = false)
    by (apply Z.eqb_neq; unfold is_ptr, NULL in *; lia).
  destruct fuel as [|fuel]; [simpl in Hfuel; lia|].
  simpl. rewrite Ex. simpl.
  destruct (Z.eqb_spec bp x) as [->|Hne].
  - destruct fuel; simpl; rewrite andb_false_r; reflexivity.
  - apply (IH x); [exact Hrest| |simpl in Hfuel; lia].
    destruct Hin as [E|Hin]; [congruence|exact Hin].
Qed.

Lemma check_bounds_walk m : forall fuel bp l,
  heap_walk fuel m bp = Some l -> check_bounds fuel m bp = Some true.
Proof.
  induction fuel as [|fuel IH]; intros bp l H; simpl in H; simpl;
    pose proof (GET_SIZE_range m (HDRP bp)) as Hr;
    destruct (Z.eqb_spec (GET_SIZE m (HDRP bp)) 0) as [E|E]; simpl;
      try reflexivity.
  - replace (GET_SIZE m (HDRP bp) >? 0) with true in H
      by (symmetry; rewrite Z.gtb_ltb; apply Z.ltb_lt; lia).
    discriminate.
  - replace (GET_SIZE m (HDRP bp) >? 0) with true in H
      by (symmetry; rewrite Z.gtb_ltb; apply Z.ltb_lt; lia).
    destruct (heap_walk fuel m (NEXT_BLKP m bp)) as [l'|] eqn:E'; [|discriminate].
    eapply IH. exact E'.
Qed.

Lemma heap_walk_app m l1 : forall fuel bp b l2,
  heap_walk fuel m bp = Some (l1 ++ b :: l2) ->
  exists fuel', fuel = (length l1 + fuel')%nat
                /\ heap_walk fuel' m b = Some (b :: l2).
Proof.
  induction l1 as [|x l1 IH]; intros fuel bp b l2 H.
  - exists fuel. split; [reflexivity|].
    destruct fuel; simpl in H; destruct (GET_SIZE m (HDRP bp) >? 0) eqn:E;
      try discriminate.
    destruct (heap_walk fuel m (NEXT_BLKP m bp)) as [l'|] eqn:E'; [|discriminate].
    simpl in H. inversion H; subst. simpl. rewrite E, E'. reflexivity.
  - destruct fuel; simpl in H; destruct (GET_SIZE m (HDRP bp) >? 0) eqn:E;
      try discriminate.
    destruct (heap_walk fuel m (NEXT_BLKP m bp)) as [l'|] eqn:E'; [|discriminate].
    simpl in H. inversion H; subst.
    destruct (IH _ _ _ _ E') as [fuel' [-> Hw]].
    exists fuel'. split; [reflexivity|exact Hw].
Qed.

Lemma check_listed_skip st l1 : forall fuel bp b l2,
  heap_walk (length l1 + fuel) (mem st) bp = Some (l1 ++ b :: l2) ->
  Forall (fun c => GET_ALLOC (mem st) (HDRP c) <> 0) l1 ->
  check_listed (length l1 + fuel) st bp false = check_listed fuel st b false.
Proof.
  induction l1 as [|x l1 IH]; intros fuel bp b l2 H Ha.
  - simpl in *. destruct fuel; simpl in H;
      destruct (GET_SIZE (mem st) (HDRP bp) >? 0); try discriminate.
    destruct (heap_walk fuel (mem st) (NEXT_BLKP (mem st) bp)); [|discriminate].
    inversion H; subst. reflexivity.
  - cbn [length Nat.add] in *. cbn [heap_walk] in H. cbn [check_listed].
    destruct (GET_SIZE (mem st) (HDRP bp) >? 0); [|discriminate].
    destruct (heap_walk (length l1 + fuel) (mem st) (NEXT_BLKP (mem st) bp))
      as [l'|] eqn:E'; [|discriminate].
    simpl in H. inversion H; subst.
    inversion Ha as [|? ? Hx Hl1]; subst.
    apply Z.eqb_neq in Hx. rewrite Hx.
    apply (IH _ _ _ _ E' Hl1).
Qed.

End Audit.

(** X5. The third loop of [mm_check] never resets [found]: it looks up
    the first free block of the heap only.  When the blocks before
    block [b] are allocated and [b] is free and linked in the bucket of
    its size, the loop succeeds whatever the blocks behind [b] are, a
    free block that is in no list included. *)
Theorem mm_check_looks_up_first_free_block_only fuel st ls bp l1 b l2 :
  heap_walk (length l1 + fuel) (mem st) bp = Some (l1 ++ b :: l2) ->
  Forall (fun c => GET_ALLOC (mem st) (HDRP c) <> 0) l1 ->
  GET_ALLOC (mem st) (HDRP b) = 0 ->
  let i := mm_find_list_idx (GET_SIZE (mem st) (HDRP b)) in
  dll (mem st) NULL (free_lists st i) (ls i) -> In b (ls i) ->
  (length (ls i) <= fuel)%nat ->
  check_listed (length l1 + fuel) st bp false = Some true.
Proof.
  intros Hw Ha Hfree i Hd Hin Hfuel.
  rewrite (check_listed_skip st l1 fuel bp b l2 Hw Ha).
  destruct (heap_walk_app _ _ _ _ _ _ Hw) as [fuel' [Ef Hb]].
  assert (fuel' = fuel) by lia. subst fuel'.
  destruct fuel as [|fuel]; simpl in Hb;
    destruct (GET_SIZE (mem st) (HDRP b) >? 0) eqn:Es; try discriminate.
  destruct (heap_walk fuel (mem st) (NEXT_BLKP (mem st) b)) as [l'|] eqn:E';
    [|discriminate].
  cbn [check_listed]. rewrite Es.
  apply Z.eqb_eq in Hfree. rewrite Hfree.
  fold i. rewrite (search_list_found _ _ _ _ _ _ Hd Hin Hfuel).
  simpl. apply check_listed_found. eapply check_bounds_walk. exact E'.
Qed.

Lemma mm_check_looks_up_first_free_block_only_witness :
  GET_ALLOC (mem two_large_blocks) (HDRP 8480) = 0
  /\ (forall i, 0 <= i < LISTS -> ~ In 8480 (two_large_buckets i))
  /\ check_listed (length [4112] + 19) two_large_blocks 4112 false = Some true.
Proof.
  split; [vm_compute; reflexivity|]. split.
  - intros i Hi. unfold two_large_buckets.
    destruct (i =? 8); simpl; intuition discriminate.
  - apply (mm_check_looks_up_first_free_block_only
             19 two_large_blocks two_large_buckets 4112 [4112] 4128 [8352; 8480]).
    + vm_compute. reflexivity.
    + constructor; [vm_compute; discriminate|constructor].
    + vm_compute. reflexivity.
    + apply dllb_sound. vm_compute. reflexivity.
    + vm_compute. left. reflexivity.
    + vm_compute. lia.
Defined.

Lemma check_marked_even m l : forall p h fuel,
  dll m p h l -> Forall (fun x => x mod 2 = 0) l -> (length l <= fuel)%nat ->
  check_marked fuel m h = Some true.
Proof.
  induction l as [|x l IH]; intros p h fuel H He Hfuel; simpl in H.
  - subst h. destruct fuel; reflexivity.
  - destruct H as [-> [Hx [_ Hrest]]].
    assert (Ex : (x =? NULL) = false)
      by (apply Z.eqb_neq; unfold is_ptr, NULL in *; lia).
    inversion He as [|? ? Hxe Hle]; subst.
    assert (Ea : GET_ALLOC m x = 0).
    { unfold GET_ALLOC. rewrite alloc_bit.
      pose proof (dll_head _ _ _ _ Hrest) as Hh. unfold NEXT_FBLK in Hh.
      rewrite Hh. destruct l as [|y l']; [reflexivity|].
      inversion Hle; subst. assumption. }
    destruct fuel as [|fuel]; [simpl in Hfuel; lia|].
    simpl. rewrite Ex, Ea. simpl.
    apply (IH x); [exact Hrest|exact Hle|simpl in Hfuel; lia].
Qed.

(** X6. The first loop of [mm_check] reads the allocation bit at the
    block pointer itself, which is the low bit of the forward link, not
    of the header: on a well-formed chain of even addresses it succeeds
    whether or not the listed blocks are marked free. *)
Theorem mm_check_first_loop_reads_the_link m l p h fuel :
  dll m p h l -> Forall (fun x => x mod 2 = 0) l -> (length l <= fuel)%nat ->
  check_marked fuel m h = Some true.
Proof. apply check_marked_even. Qed.

Lemma mm_check_first_loop_reads_the_link_witness :
  GET_ALLOC (mem hemmed_heap) (HDRP 4128) = 1
  /\ check_marked 20 (PUT (PUT (mem hemmed_heap) 4128 0) 4136 0) 4128 = Some true.
Proof.
  split; [vm_compute; reflexivity|].
  apply (mm_check_first_loop_reads_the_link _ [4128] NULL).
  - apply dllb_sound. vm_compute. reflexivity.
  - constructor; [reflexivity|constructor].
  - simpl. lia.
Defined.

(** X7. What a successful audit guarantees.  When [mm_check] returns 1:
    the walk over the heap from [heap_listp] ends at a header of size 0,
    no free block met by the walk has a free left or right neighbour,
    and every block linked in a free list has its allocation bit
    clear. *)
Theorem mm_check_sound fuel st ls :
  mm_check fuel st = Some 1 -> lists_ok st ls ->
  (exists l,
      heap_walk fuel (mem st) (heap_listp st) = Some l
      /\ forall b, In b l -> GET_ALLOC (mem st) (HDRP b) = 0 ->
           GET_ALLOC (mem st) (HDRP (PREV_BLKP (mem st) b)) <> 0
           /\ GET_ALLOC (mem st) (HDRP (NEXT_BLKP (mem st) b)) <> 0)
  /\ (forall i a, 0 <= i < LISTS -> In a (ls i) ->
                  GET_ALLOC (mem st) (HDRP a) = 0).
Proof.
  unfold mm_check. intros H Hok.
  match type of H with
  | match ?r with _ => _ end = _ => destruct r as [[|]|] eqn:E; try discriminate
  end.
  apply and_then_true in E. destruct E as [_ E].
  apply and_then_true in E. destruct E as [E2 E].
  apply and_then_true in E. destruct E as [_ E].
  apply and_then_true in E. destruct E as [E4 _].
  split; [apply check_contiguous_sound; exact E2|].
  intros i a Hi Ha.
  pose proof (for_each_list_true _ _ _ E4 i ltac:(unfold LISTS in *; simpl; lia)) as Hv.
  pose proof (check_valid_sound _ _ _ _ _ (Hok i Hi) Hv) as Hall.
  rewrite Forall_forall in Hall. apply Hall. exact Ha.
Qed.

Lemma mm_check_sound_witness :
  (exists l,
      heap_walk 20 (mem left_free_heap) (heap_listp left_free_heap) = Some l
      /\ forall b, In b l -> GET_ALLOC (mem left_free_heap) (HDRP b) = 0 ->
           GET_ALLOC (mem left_free_heap)
                     (HDRP (PREV_BLKP (mem left_free_heap) b)) <> 0
           /\ GET_ALLOC (mem left_free_heap)
                        (HDRP (NEXT_BLKP (mem left_free_heap) b)) <> 0)
  /\ (forall i a, 0 <= i < LISTS -> In a (left_free_buckets i) ->
                  GET_ALLOC (mem left_free_heap) (HDRP a) = 0).
Proof.
  apply (mm_check_sound 20 left_free_heap left_free_buckets).
  - vm_compute. reflexivity.
  - apply lists_okb_sound. vm_compute. reflexivity.
Defined.

(** ** mm_init *)

Lemma clear_lists_spec st :
  mem (clear_lists st) = mem st
  /\ heap_listp (clear_lists st) = heap_listp st
  /\ mem_start_brk (clear_lists st) = mem_start_brk st
  /\ mem_brk (clear_lists st) = mem_brk st
  /\ mem_max_addr (clear_lists st) = mem_max_addr st
  /\ forall i, 0 <= i < LISTS -> free_lists (clear_lists st) i = NULL.
Proof.
  unfold clear_lists. simpl. repeat (split; [reflexivity|]).
  intros i Hi. unfold LISTS in Hi.
  assert (E : i = 0 \/ i = 1 \/ i = 2 \/ i = 3 \/ i = 4 \/ i = 5 \/ i = 6
              \/ i = 7 \/ i = 8 \/ i = 9 \/ i = 10 \/ i = 11 \/ i = 12
              \/ i = 13 \/ i = 14 \/ i = 15) by lia.
  repeat (destruct E as [->|E]; [reflexivity|]). subst i. reflexivity.
Qed.

Lemma init_words m p :
  let m' := PUT (PUT (PUT (PUT m p 0) (p + 1 * WSIZE) (PACK DSIZE 1))
                     (p + 2 * WSIZE) (PACK DSIZE 1))
                (p + 3 * WSIZE) (PACK 0 1) in
  GET m' p = 0
  /\ GET m' (p + WSIZE) = PACK DSIZE 1
  /\ GET m' (p + DSIZE) = PACK DSIZE 1
  /\ GET m' (p + 3 * WSIZE) = PACK 0 1
  /\ (forall b, b < p \/ p + 4 * WSIZE <= b -> m' b = m b).
Proof.
  assert (E17 : PACK DSIZE 1 = 17) by reflexivity.
  assert (E1 : PACK 0 1 = 1) by reflexivity.
  assert (W : WSIZE = 8) by reflexivity.
  assert (D : DSIZE = 16) by reflexivity.
  intro m'. unfold m'. rewrite E17, E1, D, W.
  split; [|split; [|split; [|split]]].
  - rewrite !GET_PUT_far by (rewrite W; lia). apply GET_PUT_ptr. lia.
  - rewrite !GET_PUT_far by (rewrite W; lia).
    replace (p + 8) with (p + 1 * 8) by lia. apply GET_PUT_ptr. lia.
  - rewrite !GET_PUT_far by (rewrite W; lia).
    replace (p + 16) with (p + 2 * 8) by lia. apply GET_PUT_ptr. lia.
  - apply GET_PUT_ptr. lia.
  - intros b Hb. rewrite !PUT_outside by (rewrite W; lia). reflexivity.
Qed.

Lemma mm_init_success st :
  mem_brk st + 4 * WSIZE <= mem_max_addr st ->
  let p := mem_brk st in
  exists st',
    mm_init st = (0, st')
    /\ heap_listp st' = p + DSIZE
    /\ mem_start_brk st' = mem_start_brk st
    /\ mem_brk st' = p + 4 * WSIZE
    /\ mem_max_addr st' = mem_max_addr st
    /\ (forall i, 0 <= i < LISTS -> free_lists st' i = NULL)
    /\ GET (mem st') p = 0
    /\ GET (mem st') (p + WSIZE) = PACK DSIZE 1
    /\ GET (mem st') (p + DSIZE) = PACK DSIZE 1
    /\ GET (mem st') (p + 3 * WSIZE) = PACK 0 1
    /\ (forall b, b < p \/ p + 4 * WSIZE <= b -> mem st' b = mem st b).
Proof.
  intros Hroom p.
  pose proof (clear_lists_spec st) as Hc. unfold mm_init.
  revert Hc. generalize (clear_lists st).
  intros s0 [Em [Eh [Es [Eb [Ea Ef]]]]].
  unfold mem_sbrk. rewrite Eb, Ea. fold p.
  replace ((4 * WSIZE <? 0) || (p + 4 * WSIZE >? mem_max_addr st)) with false.
  2:{ symmetry. apply orb_false_iff. split; [reflexivity|].
      rewrite Z.gtb_ltb. apply Z.ltb_ge. exact Hroom. }
  eexists. split; [reflexivity|].
  cbn [mem free_lists heap_listp mem_start_brk mem_brk mem_max_addr put set_mem].
  rewrite Em, Es.
  do 4 (split; [reflexivity|]). split; [exact Ef|].
  exact (init_words (mem st) p).
Qed.

(** X8. [mm_init] on an arena with room for four words returns 0 and
    builds the empty heap at the old end [p] of the arena: a padding
    word, the prologue header and footer [(DSIZE, 1)], the epilogue
    header [(0, 1)], [heap_listp] at the prologue footer, sixteen empty
    free lists; the arena grows by four words and no other byte
    changes.  Without room it returns -1, leaves the arena as it was,
    and [heap_listp] holds [(void * )-1]. *)
Theorem mm_init_builds_the_empty_heap st :
  (mem_brk st + 4 * WSIZE <= mem_max_addr st ->
   let p := mem_brk st in
   let st' := snd (mm_init st) in
   fst (mm_init st) = 0
   /\ heap_listp st' = p + DSIZE
   /\ mem_brk st' = p + 4 * WSIZE
   /\ (forall i, 0 <= i < LISTS -> free_lists st' i = NULL)
   /\ GET (mem st') p = 0
   /\ GET (mem st') (HDRP (heap_listp st')) = PACK DSIZE 1
   /\ GET (mem st') (FTRP (mem st') (heap_listp st')) = PACK DSIZE 1
   /\ GET (mem st') (HDRP (NEXT_BLKP (mem st') (heap_listp st'))) = PACK 0 1
   /\ (forall b, b < p \/ p + 4 * WSIZE <= b -> mem st' b = mem st b))
  /\ (mem_max_addr st < mem_brk st + 4 * WSIZE ->
      let st' := snd (mm_init st) in
      fst (mm_init st) = -1
      /\ heap_listp st' = 2 ^ 64 - 1
      /\ mem_brk st' = mem_brk st
      /\ (forall i, 0 <= i < LISTS -> free_lists st' i = NULL)
      /\ (forall b, mem st' b = mem st b)).
Proof.
  split.
  - intros Hroom p st'.
    destruct (mm_init_success st Hroom)
      as [s [E [Eh [_ [Eb [_ [Ef [G0 [G1 [G2 [G3 Hout]]]]]]]]]]].
    unfold st'. rewrite E. simpl. fold p in Eh, Eb, G0, G1, G2, G3, Hout.
    assert (Es : GET_SIZE (mem s) (HDRP (heap_listp s)) = DSIZE).
    { unfold GET_SIZE. rewrite Eh.
      replace (HDRP (p + DSIZE)) with (p + WSIZE) by (unfold HDRP, DSIZE; lia).
      rewrite G1. reflexivity. }
    split; [reflexivity|]. split; [exact Eh|]. split; [exact Eb|].
    split; [exact Ef|]. split; [exact G0|]. split; [|split; [|split]].
    + rewrite Eh.
      replace (HDRP (p + DSIZE)) with (p + WSIZE) by (unfold HDRP, DSIZE; lia).
      exact G1.
    + unfold FTRP. rewrite Es, Eh.
      replace (p + DSIZE + DSIZE - DSIZE) with (p + DSIZE) by lia. exact G2.
    + unfold NEXT_BLKP. fold (HDRP (heap_listp s)). rewrite Es, Eh.
      replace (HDRP (p + DSIZE + DSIZE)) with (p + 3 * WSIZE)
        by (unfold HDRP, DSIZE; lia).
      exact G3.
    + exact Hout.
  - intros Hfull st'. unfold st', mm_init.
    pose proof (clear_lists_spec st) as Hc.
    revert Hc. generalize (clear_lists st).
    intros s0 [Em [Eh [Es [Eb [Ea Ef]]]]].
    unfold mem_sbrk. rewrite Eb, Ea.
    replace ((4 * WSIZE <? 0) || (mem_brk st + 4 * WSIZE >? mem_max_addr st))
      with true.
    2:{ symmetry. apply orb_true_iff. right.
        rewrite Z.gtb_ltb. apply Z.ltb_lt. exact Hfull. }
    cbn [fst snd mem free_lists heap_listp mem_brk]. rewrite Em.
    split; [reflexivity|]. split; [reflexivity|]. split; [reflexivity|].
    split; [exact Ef|]. reflexivity.
Qed.

(** X9. The heap that [mm_init] builds passes the audit: on every arena
    with room for four words, [mm_check] returns 1 right after
    [mm_init]. *)
Theorem mm_check_accepts_the_empty_heap st fuel :
  mem_brk st + 4 * WSIZE <= mem_max_addr st ->
  mm_check (S fuel) (snd (mm_init st)) = Some 1.
Proof.
  intro Hroom.
  destruct (mm_init_success st Hroom)
    as [s [E [Eh [_ [Eb [_ [Ef [G0 [G1 [G2 [G3 Hout]]]]]]]]]]].
  rewrite E. simpl snd. set (p := mem_brk st) in *.
  assert (H1 : GET (mem s) (HDRP (heap_listp s)) = 17).
  { rewrite Eh.
    replace (HDRP (p + DSIZE)) with (p + WSIZE) by (unfold HDRP, DSIZE; lia).
    exact G1. }
  assert (S1 : GET_SIZE (mem s) (HDRP (heap_listp s)) = 16)
    by (unfold GET_SIZE; rewrite H1; reflexivity).
  assert (A1 : GET_ALLOC (mem s) (HDRP (heap_listp s)) = 1)
    by (unfold GET_ALLOC; rewrite H1; reflexivity).
  assert (N1 : NEXT_BLKP (mem s) (heap_listp s) = heap_listp s + 16).
  { unfold NEXT_BLKP. fold (HDRP (heap_listp s)). rewrite S1. reflexivity. }
  assert (S2 : GET_SIZE (mem s) (HDRP (heap_listp s + 16)) = 0).
  { unfold GET_SIZE. rewrite Eh.
    replace (HDRP (p + DSIZE + 16)) with (p + 3 * WSIZE)
      by (unfold HDRP, DSIZE, WSIZE; lia).
    rewrite G3. reflexivity. }
  assert (L : forall f, (forall g, f g NULL = Some true) ->
              for_each_list (Z.to_nat LISTS) 0
                (fun i => f (mem s) (free_lists s i)) = Some true).
  { intros f Hf. apply for_each_list_all. intros j Hj.
    rewrite Ef by (unfold LISTS in *; simpl in Hj; lia). apply Hf. }
  unfold mm_check.
  rewrite (L (check_marked (S fuel))) by reflexivity.
  rewrite (L (check_valid (S fuel))) by reflexivity.
  rewrite (L (count_list (S fuel))) by reflexivity.
  assert (C2 : check_contiguous (S fuel) (mem s) (heap_listp s) = Some true).
  { cbn [check_contiguous]. rewrite S1, A1, N1. simpl.
    destruct fuel; simpl; rewrite S2; reflexivity. }
  assert (C3 : check_listed (S fuel) s (heap_listp s) false = Some true).
  { cbn [check_listed]. rewrite S1, A1, N1. simpl.
    destruct fuel; simpl; rewrite S2; reflexivity. }
  assert (C5 : check_bounds (S fuel) (mem s) (heap_listp s) = Some true).
  { cbn [check_bounds]. rewrite S1, N1. simpl.
    destruct fuel; simpl; rewrite S2; reflexivity. }
  rewrite C2, C3, C5. reflexivity.
Qed.

Lemma mm_check_accepts_the_empty_heap_witness :
  mm_check 1 (snd (mm_init (fresh 4096 1048576))) = Some 1.
Proof.
  apply (mm_check_accepts_the_empty_heap (fresh 4096 1048576) 0).
  vm_compute. intro H. discriminate H.
Defined.

Lemma mm_init_builds_the_empty_heap_witness :
  fst (mm_init (fresh 4096 1048576)) = 0
  /\ heap_listp (snd (mm_init (fresh 4096 1048576))) = 4096 + DSIZE.
Proof.
  destruct (proj1 (mm_init_builds_the_empty_heap (fresh 4096 1048576)))
    as [H1 [H2 _]].
  - vm_compute. intro H. discriminate H.
  - split; [exact H1|exact H2].
Defined.

(** ** extend_heap *)

Section ExtendHeap.

Variables (st : state) (words : Z).
Hypothesis Hwords : 0 < words.

Let size := WSIZE * (words + words mod 2).
Let bp := mem_brk st.

Hypothesis Hsmall : size < 2 ^ 64.

Lemma extend_size_even : is_size size /\ DSIZE <= size.
Proof.
  pose proof Hsmall as Hlt.
  unfold size, is_size, DSIZE, WSIZE in *.
  pose proof (Z.mod_pos_bound words 2 ltac:(lia)) as Hm.
  pose proof (Z.div_mod words 2 ltac:(lia)) as Hd.
  split; [split; [lia|]|lia].
  replace (8 * (words + words mod 2))
    with ((words / 2 + words mod 2) * 16) by lia.
  apply Z.mod_mul. lia.
Qed.

Lemma extend_size_code :
  (if negb (words mod 2 =? 0) then wrap64 ((words + 1) * WSIZE)
   else wrap64 (words * WSIZE)) = size.
Proof.
  pose proof (Z.mod_pos_bound words 2 ltac:(lia)) as Hm.
  destruct extend_size_even as [[Hr _] _]. unfold size, WSIZE in *.
  destruct (Z.eqb_spec (words mod 2) 0) as [E|E]; cbn [negb].
  - rewrite E in *. rewrite wrap64_small; [lia|].
    replace (words * 8) with (8 * (words + 0)) by lia. exact Hr.
  - assert (E1 : words mod 2 = 1) by lia. rewrite E1 in *.
    rewrite wrap64_small; [lia|].
    replace ((words + 1) * 8) with (8 * (words + 1)) by lia. exact Hr.
Qed.

Lemma extend_heap_spec :
  bp + size <= mem_max_addr st ->
  exists st',
    extend_heap st words = (bp, st')
    /\ GET (mem st') (HDRP bp) = PACK size 0
    /\ GET (mem st') (bp + size - DSIZE) = PACK size 0
    /\ GET (mem st') (bp + size - WSIZE) = PACK 0 1
    /\ mem_brk st' = bp + size
    /\ mem_start_brk st' = mem_start_brk st
    /\ mem_max_addr st' = mem_max_addr st
    /\ heap_listp st' = heap_listp st
    /\ (forall i, free_lists st' i = free_lists st i)
    /\ (forall b, ~ (bp - WSIZE <= b < bp) ->
                  ~ (bp + size - DSIZE <= b < bp + size) ->
                  mem st' b = mem st b).
Proof.
  intro Hroom. destruct extend_size_even as [Hs H16].
  unfold extend_heap. rewrite extend_size_code. unfold mem_sbrk. fold bp.
  replace ((size <? 0) || (bp + size >? mem_max_addr st)) with false.
  2:{ symmetry. apply orb_false_iff. destruct Hs as [Hs _]. split.
      - apply Z.ltb_ge. lia.
      - rewrite Z.gtb_ltb. apply Z.ltb_ge. exact Hroom. }
  eexists. split; [reflexivity|].
  cbn [mem free_lists heap_listp mem_start_brk mem_brk mem_max_addr put set_mem].
  set (m1 := PUT (mem st) (HDRP bp) (PACK size 0)).
  assert (S1 : GET_SIZE m1 (HDRP bp) = size)
    by (unfold m1; apply GET_SIZE_PUT; auto).
  assert (F1 : FTRP m1 bp = bp + size - DSIZE) by (unfold FTRP; rewrite S1; lia).
  rewrite F1.
  set (m2 := PUT m1 (bp + size - DSIZE) (PACK size 0)).
  assert (W : WSIZE = 8) by reflexivity.
  assert (D : DSIZE = 16) by reflexivity.
  assert (S2 : GET_SIZE m2 (bp - WSIZE) = size).
  { unfold m2. rewrite GET_SIZE_PUT_far by (rewrite W, D in *; lia). exact S1. }
  assert (N2 : HDRP (NEXT_BLKP m2 bp) = bp + size - WSIZE).
  { unfold NEXT_BLKP. rewrite S2. unfold HDRP. lia. }
  rewrite N2.
  assert (P0 : 0 <= PACK size 0 < 2 ^ 64) by (apply PACK_word; auto).
  assert (P1 : PACK 0 1 = 1) by reflexivity.
  split; [|split; [|split; [|split; [reflexivity|split; [reflexivity|
          split; [reflexivity|split; [reflexivity|split; [reflexivity|]]]]]]]].
  - rewrite GET_PUT_far by (unfold HDRP; rewrite W, D in *; lia).
    unfold m2. rewrite GET_PUT_far by (unfold HDRP; rewrite W, D in *; lia).
    unfold m1. apply GET_PUT_ptr. exact P0.
  - rewrite GET_PUT_far by (rewrite W, D in *; lia).
    unfold m2. apply GET_PUT_ptr. exact P0.
  - rewrite P1. apply GET_PUT_ptr. lia.
  - intros b Hb1 Hb2. unfold m2, m1.
    rewrite !PUT_outside by (unfold HDRP; rewrite W, D in *; lia). reflexivity.
Qed.

Lemma extend_heap_full :
  mem_max_addr st < bp + size -> extend_heap st words = (NULL, st).
Proof.
  intro Hfull. unfold extend_heap. rewrite extend_size_code.
  unfold mem_sbrk. fold bp.
  replace ((size <? 0) || (bp + size >? mem_max_addr st)) with true;
    [reflexivity|].
  symmetry. apply orb_true_iff. right. rewrite Z.gtb_ltb. apply Z.ltb_lt. lia.
Qed.

End ExtendHeap.

(** X10. [extend_heap(words)], [0 < words < 2^60], rounds the request up
    to an even number of words.  When the arena has room it returns the
    old end [bp] of the arena, which becomes a free block of that size:
    the old epilogue header is its header, its footer and the new
    epilogue header [(0, 1)] are the last two words of the grown arena;
    the free lists are not touched (the block is not inserted and not
    merged with a free block before it) and no other byte changes.
    Without room it returns [NULL] and changes nothing. *)
Theorem extend_heap_appends_a_free_block st words :
  0 < words < 2 ^ 60 ->
  let size := WSIZE * (words + words mod 2) in
  let bp := mem_brk st in
  size mod DSIZE = 0
  /\ (bp + size <= mem_max_addr st ->
      let st' := snd (extend_heap st words) in
      fst (extend_heap st words) = bp
      /\ GET (mem st') (HDRP bp) = PACK size 0
      /\ GET (mem st') (FTRP (mem st') bp) = PACK size 0
      /\ NEXT_BLKP (mem st') bp = bp + size
      /\ GET (mem st') (HDRP (NEXT_BLKP (mem st') bp)) = PACK 0 1
      /\ mem_brk st' = bp + size
      /\ (forall i, free_lists st' i = free_lists st i)
      /\ (forall b, ~ (bp - WSIZE <= b < bp) ->
                    ~ (bp + size - DSIZE <= b < bp + size) ->
                    mem st' b = mem st b))
  /\ (mem_max_addr st < bp + size -> extend_heap st words = (NULL, st)).
Proof.
  intros Hw size bp.
  assert (Hw0 : 0 < words) by lia.
  assert (Hlt : WSIZE * (words + words mod 2) < 2 ^ 64).
  { pose proof (Z.mod_pos_bound words 2 ltac:(lia)).
    change (2 ^ 60) with 1152921504606846976 in Hw.
    change (2 ^ 64) with 18446744073709551616. unfold WSIZE. lia. }
  destruct (extend_size_even st words Hw0 Hlt) as [Hs H16]. fold size in Hs, H16.
  split; [exact (proj2 Hs)|]. split; [|apply extend_heap_full; assumption].
  intros Hroom st'.
  destruct (extend_heap_spec st words Hw0 Hlt Hroom)
    as [s [E [G1 [G2 [G3 [Eb [_ [_ [_ [Ef Hout]]]]]]]]]].
  fold size in E, G1, G2, G3, Eb, Hout. fold bp in E, G1, G2, G3, Eb, Hout.
  unfold st'. rewrite E. simpl fst. simpl snd.
  assert (S1 : GET_SIZE (mem s) (HDRP bp) = size).
  { unfold GET_SIZE. rewrite G1. apply size_of_PACK; auto. }
  assert (F1 : FTRP (mem s) bp = bp + size - DSIZE)
    by (unfold FTRP; rewrite S1; lia).
  assert (N1 : NEXT_BLKP (mem s) bp = bp + size).
  { unfold NEXT_BLKP. fold (HDRP bp). rewrite S1. reflexivity. }
  rewrite F1, N1.
  replace (HDRP (bp + size)) with (bp + size - WSIZE) by (unfold HDRP; lia).
  repeat match goal with |- _ /\ _ => split end; auto.
Qed.

Lemma extend_heap_appends_a_free_block_witness :
  fst (extend_heap (snd (mm_init (fresh 4096 1048576))) 15) = 4128
  /\ mem_brk (snd (extend_heap (snd (mm_init (fresh 4096 1048576))) 15))
     = 4128 + WSIZE * 16.
Proof.
  destruct (extend_heap_appends_a_free_block
              (snd (mm_init (fresh 4096 1048576))) 15) as [_ [H _]].
  - lia.
  - destruct H as [H1 [_ [_ [_ [_ [H6 _]]]]]].
    + vm_compute. intro H. discriminate H.
    + split; [exact H1|exact H6].
Defined.

(** ** place *)

Section Place.

(** A block [r] whose header carries the size [total], lying in a region
    that holds no listed block, is inserted into the bucket of its size;
    only its two link words and link words of that bucket change. *)
Lemma insert_tagged fuel s ls r total :
  lists_ok s ls -> sep_buckets ls ->
  clear_of (r - WSIZE) (r + total - WSIZE) ls ->
  is_ptr r -> 2 * DSIZE <= total ->
  GET_SIZE (mem s) (HDRP r) = total ->
  (forall j, 7 < j -> ascending (ls j)) ->
  (forall j, 0 <= j < LISTS -> (length (ls j) <= fuel)%nat) ->
  let k := mm_find_list_idx total in
  exists st',
    mm_insert_fblock fuel s r (-1) = Some st'
    /\ lists_ok st' (set_bucket ls k (insert_policy k r (ls k)))
    /\ same_outside (in_links (r :: ls k)) (mem s) (mem st')
    /\ same_arena s st'.
Proof.
  intros Hok Hsep Hclear Hr H32 Hsz Hasc Hfuel k.
  assert (Hk : 0 <= k < LISTS).
  { pose proof (mm_find_list_idx_range total). unfold k, LISTS. lia. }
  assert (Hidx : resolve_idx (mem s) r (-1) = k).
  { unfold resolve_idx. simpl. rewrite Hsz. reflexivity. }
  assert (Hfar : forall j a, 0 <= j < LISTS -> In a (ls j) -> far r a).
  { intros j a Hj Ha. destruct (Hclear j a Hj Ha);
      unfold far, DSIZE, WSIZE in *; lia. }
  apply (insert_spec fuel s ls k r (-1) Hok Hsep Hk Hidx Hr Hfar); [|auto].
  intro H. apply Hasc. change (Z.quot (LISTS - 1) 2) with 7 in H. lia.
Qed.

Variables (fuel : nat) (st : state) (ls : buckets) (bp asize : Z).

Let m := mem st.
Let bsize := GET_SIZE m (HDRP bp).

Hypothesis Hok : lists_ok st ls.
Hypothesis Hsep : sep_buckets ls.
Hypothesis Hclear : clear_of (bp - WSIZE) (bp + bsize - WSIZE) ls.
Hypothesis Hbp : is_ptr bp.
Hypothesis Hend : bp + bsize < 2 ^ 64.
Hypothesis Hasize : is_size asize.
Hypothesis Hfit : DSIZE <= asize <= bsize.
Hypothesis Hasc : forall j, 7 < j -> ascending (ls j).
Hypothesis Hfuel : forall j, 0 <= j < LISTS -> (length (ls j) <= fuel)%nat.

Let Wb : is_size bsize := GET_SIZE_is_size m (HDRP bp).

Lemma place_remain : wrap64 (bsize - asize) = bsize - asize.
Proof. apply wrap64_small. destruct Wb, Hasize. lia. Qed.

Lemma place_remain_size : is_size (bsize - asize).
Proof.
  destruct Wb as [Hb Mb], Hasize as [Ha Ma]. split; [lia|].
  rewrite Zminus_mod, Mb, Ma. reflexivity.
Qed.

(** The split: the block keeps [asize] bytes, the rest becomes a free
    block that is inserted into the bucket of its size. *)
Lemma place_split :
  4 * WSIZE <= bsize - asize ->
  let r := bp + asize in
  let k := mm_find_list_idx (bsize - asize) in
  exists st',
    place fuel st bp asize = Some st'
    /\ same_arena st st'
    /\ GET (mem st') (HDRP bp) = PACK asize 1
    /\ GET (mem st') (bp + asize - DSIZE) = PACK asize 1
    /\ GET (mem st') (HDRP r) = PACK (bsize - asize) 0
    /\ GET (mem st') (bp + bsize - DSIZE) = PACK (bsize - asize) 0
    /\ lists_ok st' (set_bucket ls k (insert_policy k r (ls k)))
    /\ (forall b, ~ in_links (ls k) b ->
                  ~ (bp - WSIZE <= b < bp + bsize - WSIZE) ->
                  mem st' b = m b)
    /\ (forall b, bp <= b < bp + asize - DSIZE -> mem st' b = m b).
Proof.
  intros Hrem r k.
  assert (W : WSIZE = 8) by reflexivity.
  assert (D : DSIZE = 16) by reflexivity.
  pose proof place_remain as Er. pose proof place_remain_size as Sr.
  unfold place. fold m. fold bsize. rewrite Er.
  replace (bsize - asize >=? 4 * WSIZE) with true
    by (symmetry; rewrite Z.geb_leb; apply Z.leb_le; exact Hrem).
  set (s1 := put st (HDRP bp) (PACK asize 1)).
  assert (S1 : GET_SIZE (mem s1) (HDRP bp) = asize)
    by (apply GET_SIZE_PUT; auto).
  assert (F1 : FTRP (mem s1) bp = bp + asize - DSIZE)
    by (unfold FTRP; rewrite S1; lia).
  rewrite F1.
  set (s2 := put s1 (bp + asize - DSIZE) (PACK asize 1)).
  assert (S2 : GET_SIZE (mem s2) (bp - WSIZE) = asize).
  { unfold s2. simpl mem. rewrite GET_SIZE_PUT_far by (rewrite W, D in *; lia).
    exact S1. }
  assert (N2 : NEXT_BLKP (mem s2) bp = r) by (unfold NEXT_BLKP; rewrite S2; reflexivity).
  rewrite N2.
  set (s3 := put s2 (HDRP r) (PACK (bsize - asize) 0)).
  assert (S3 : GET_SIZE (mem s3) (HDRP r) = bsize - asize)
    by (apply GET_SIZE_PUT; auto).
  assert (S3' : GET_SIZE (mem s3) (bp - WSIZE) = asize).
  { unfold s3. simpl mem.
    rewrite GET_SIZE_PUT_far by (unfold r, HDRP; rewrite W, D in *; lia).
    exact S2. }
  assert (N3 : NEXT_BLKP (mem s3) bp = r) by (unfold NEXT_BLKP; rewrite S3'; reflexivity).
  rewrite N3.
  assert (F3 : FTRP (mem s3) r = bp + bsize - DSIZE)
    by (unfold FTRP; rewrite S3; unfold r; lia).
  rewrite F3.
  set (s4 := put s3 (bp + bsize - DSIZE) (PACK (bsize - asize) 0)).
  assert (S4' : GET_SIZE (mem s4) (bp - WSIZE) = asize).
  { unfold s4. simpl mem. rewrite GET_SIZE_PUT_far by (rewrite W, D in *; lia).
    exact S3'. }
  assert (N4 : NEXT_BLKP (mem s4) bp = r) by (unfold NEXT_BLKP; rewrite S4'; reflexivity).
  rewrite N4.
  assert (S4 : GET_SIZE (mem s4) (HDRP r) = bsize - asize).
  { unfold s4. simpl mem.
    rewrite GET_SIZE_PUT_far by (unfold r, HDRP; rewrite W, D in *; lia).
    exact S3. }
  (* the four tags lie inside the block, which holds no listed block *)
  assert (Hok4 : lists_ok s4 ls).
  { unfold s4, s3, s2, s1.
    repeat apply (lists_ok_put (bp - WSIZE) (bp + bsize - WSIZE));
      try assumption; unfold r, HDRP; rewrite ?W, ?D in *; lia. }
  assert (Hc4 : clear_of (r - WSIZE) (r + (bsize - asize) - WSIZE) ls).
  { intros j a Hj Ha. destruct (Hclear j a Hj Ha); unfold r; rewrite W, D in *; lia. }
  destruct (insert_tagged fuel s4 ls r (bsize - asize) Hok4 Hsep Hc4
              ltac:(unfold is_ptr, r in *; rewrite D in *; lia)
              ltac:(rewrite W, D in *; lia) S4 Hasc Hfuel)
    as [st' [E [Hok' [Hout Har]]]].
  fold k in Hok', Hout.
  exists st'. split; [exact E|].
  assert (Hin : forall b, bp - WSIZE <= b < bp + bsize - WSIZE ->
                          ~ (r <= b < r + DSIZE) -> mem st' b = mem s4 b).
  { intros b Hb Hnr. apply Hout. intros [a [[<-|Ha] Hab]]; [tauto|].
    assert (Hkk : 0 <= k < LISTS).
    { pose proof (mm_find_list_idx_range (bsize - asize)). unfold k, LISTS. lia. }
    destruct (Hclear k a Hkk Ha); rewrite W, D in *; lia. }
  split; [exact Har|].
  assert (G : forall q v, bp - WSIZE <= q -> q + WSIZE <= bp + bsize - WSIZE ->
                (q + WSIZE <= r \/ r + DSIZE <= q) ->
                GET (mem s4) q = v -> GET (mem st') q = v).
  { intros q v H1 H2 H3 <-. apply GET_keep. intros b Hb. apply Hin;
      rewrite W, D in *; lia. }
  split; [|split; [|split; [|split; [|split; [exact Hok'|split]]]]].
  - apply G; try (unfold r, HDRP; rewrite W, D in *; lia).
    unfold s4, s3, s2. simpl mem.
    rewrite !GET_PUT_far by (unfold r, HDRP; rewrite W, D in *; lia).
    apply GET_PUT_ptr. apply PACK_word; auto.
  - apply G; try (unfold r, HDRP; rewrite W, D in *; lia).
    unfold s4, s3. simpl mem.
    rewrite !GET_PUT_far by (unfold r, HDRP; rewrite W, D in *; lia).
    apply GET_PUT_ptr. apply PACK_word; auto.
  - apply G; try (unfold r, HDRP; rewrite W, D in *; lia).
    unfold s4. simpl mem.
    rewrite !GET_PUT_far by (unfold r, HDRP; rewrite W, D in *; lia).
    apply GET_PUT_ptr. apply PACK_word; auto.
  - apply G; try (unfold r, HDRP; rewrite W, D in *; lia).
    apply GET_PUT_ptr. apply PACK_word; auto.
  - intros b Hnl Hb. rewrite Hout.
    + unfold s4, s3, s2, s1. simpl mem.
      rewrite !PUT_outside by (unfold r, HDRP; rewrite W, D in *; lia).
      reflexivity.
    + intros [a [[<-|Ha] Hab]]; [unfold r in *; rewrite W, D in *; lia|].
      apply Hnl. exists a. auto.
  - intros b Hb. rewrite Hin by (unfold r; rewrite W, D in *; lia).
    unfold s4, s3, s2, s1. simpl mem.
    rewrite !PUT_outside by (unfold r, HDRP; rewrite W, D in *; lia).
    reflexivity.
Qed.

(** No split: the whole block is marked allocated. *)
Lemma place_whole :
  bsize - asize < 4 * WSIZE ->
  exists st',
    place fuel st bp asize = Some st'
    /\ same_arena st st'
    /\ GET (mem st') (HDRP bp) = PACK bsize 1
    /\ GET (mem st') (bp + bsize - DSIZE) = PACK bsize 1
    /\ lists_ok st' ls
    /\ (forall i, free_lists st' i = free_lists st i)
    /\ (forall b, ~ (bp - WSIZE <= b < bp) ->
                  ~ (bp + bsize - DSIZE <= b < bp + bsize - WSIZE) ->
                  mem st' b = m b).
Proof.
  intros Hrem.
  assert (W : WSIZE = 8) by reflexivity.
  assert (D : DSIZE = 16) by reflexivity.
  pose proof place_remain as Er.
  unfold place. fold m. fold bsize. rewrite Er.
  replace (bsize - asize >=? 4 * WSIZE) with false
    by (symmetry; rewrite Z.geb_leb; apply Z.leb_gt; exact Hrem).
  set (s1 := put st (HDRP bp) (PACK bsize 1)).
  assert (S1 : GET_SIZE (mem s1) (HDRP bp) = bsize)
    by (apply GET_SIZE_PUT; auto).
  assert (F1 : FTRP (mem s1) bp = bp + bsize - DSIZE)
    by (unfold FTRP; rewrite S1; lia).
  rewrite F1.
  eexists. split; [reflexivity|].
  split; [repeat split|].
  split; [|split; [|split; [|split; [intro i; reflexivity|]]]].
  - simpl mem. rewrite GET_PUT_far by (unfold HDRP; rewrite W, D in *; lia).
    apply GET_PUT_ptr. apply PACK_word; auto.
  - simpl mem. apply GET_PUT_ptr. apply PACK_word; auto.
  - unfold s1.
    repeat apply (lists_ok_put (bp - WSIZE) (bp + bsize - WSIZE));
      try assumption; unfold HDRP; rewrite ?W, ?D in *; lia.
  - intros b H1 H2. simpl mem.
    rewrite !PUT_outside by (unfold HDRP; rewrite W, D in *; lia). reflexivity.
Qed.

End Place.

(** ** Sequences of blocks *)

Section Blocks.

Lemma span_app l1 l2 : span (l1 ++ l2) = span l1 + span l2.
Proof.
  induction l1 as [|[s a] l1 IH]; simpl; [reflexivity|]. rewrite IH. lia.
Qed.

Lemma tiles_span m bl : forall bp, tiles m bp bl -> 0 <= span bl.
Proof.
  induction bl as [|[s a] bl IH]; simpl; intros bp H; [lia|].
  destruct H as [_ [H32 [_ [_ H]]]]. specialize (IH _ H).
  unfold DSIZE, WSIZE in *. lia.
Qed.

Lemma tiles_span_mod m l : forall bp, tiles m bp l -> span l mod DSIZE = 0.
Proof.
  induction l as [|[s a] l IH]; simpl; intros bp Ht; [reflexivity|].
  destruct Ht as [[_ Ms] [_ [_ [_ Ht]]]]. specialize (IH _ Ht).
  change DSIZE with 16 in *. rewrite Z.add_mod, Ms, IH by lia. reflexivity.
Qed.

Lemma tiles_app m l1 l2 : forall bp,
  tiles m bp (l1 ++ l2) <-> tiles m bp l1 /\ tiles m (bp + span l1) l2.
Proof.
  induction l1 as [|[s a] l1 IH]; simpl; intro bp.
  - rewrite Z.add_0_r. tauto.
  - rewrite IH. replace (bp + s + span l1) with (bp + (s + span l1)) by lia.
    tauto.
Qed.

Lemma frees_app l1 l2 : forall bp,
  frees bp (l1 ++ l2) = frees bp l1 ++ frees (bp + span l1) l2.
Proof.
  induction l1 as [|[s a] l1 IH]; simpl; intro bp.
  - rewrite Z.add_0_r. reflexivity.
  - rewrite IH. replace (bp + s + span l1) with (bp + (s + span l1)) by lia.
    destruct a; reflexivity.
Qed.

Lemma allocs_app l1 l2 : forall bp,
  allocs bp (l1 ++ l2) = allocs bp l1 ++ allocs (bp + span l1) l2.
Proof.
  induction l1 as [|[s a] l1 IH]; simpl; intro bp.
  - rewrite Z.add_0_r. reflexivity.
  - rewrite IH. replace (bp + s + span l1) with (bp + (s + span l1)) by lia.
    destruct a; reflexivity.
Qed.

Lemma live_app l1 l2 b : forall bp,
  live bp (l1 ++ l2) b <-> live bp l1 b \/ live (bp + span l1) l2 b.
Proof.
  induction l1 as [|[s a] l1 IH]; simpl; intro bp.
  - rewrite Z.add_0_r. tauto.
  - rewrite IH. replace (bp + s + span l1) with (bp + (s + span l1)) by lia.
    tauto.
Qed.

(** Every block of a tiling lies inside the span. *)
Lemma frees_bounds m bl : forall bp x,
  tiles m bp bl -> In x (frees bp bl) ->
  bp <= x /\ x + 2 * DSIZE <= bp + span bl.
Proof.
  induction bl as [|[s a] bl IH]; simpl; intros bp x H Hx; [destruct Hx|].
  destruct H as [_ [H32 [_ [_ H]]]].
  pose proof (tiles_span _ _ _ H) as Hs.
  assert (Hrec : In x (frees (bp + s) bl) ->
                 bp <= x /\ x + 2 * DSIZE <= bp + (s + span bl)).
  { intro Hin. destruct (IH _ _ H Hin). unfold DSIZE, WSIZE in *. lia. }
  destruct a; [auto|]. destruct Hx as [<-|Hx]; [|auto].
  unfold DSIZE, WSIZE in *. lia.
Qed.

Lemma allocs_bounds m bl : forall bp x,
  tiles m bp bl -> In x (allocs bp bl) ->
  bp <= x /\ x + 2 * DSIZE <= bp + span bl.
Proof.
  induction bl as [|[s a] bl IH]; simpl; intros bp x H Hx; [destruct Hx|].
  destruct H as [_ [H32 [_ [_ H]]]].
  pose proof (tiles_span _ _ _ H) as Hs.
  assert (Hrec : In x (allocs (bp + s) bl) ->
                 bp <= x /\ x + 2 * DSIZE <= bp + (s + span bl)).
  { intro Hin. destruct (IH _ _ H Hin). unfold DSIZE, WSIZE in *. lia. }
  destruct a; [|auto]. destruct Hx as [<-|Hx]; [|auto].
  unfold DSIZE, WSIZE in *. lia.
Qed.

Lemma live_bounds m bl b : forall bp,
  tiles m bp bl -> live bp bl b -> bp <= b < bp + span bl - DSIZE.
Proof.
  induction bl as [|[s a] bl IH]; simpl; intros bp H Hb; [destruct Hb|].
  destruct H as [_ [H32 [_ [_ H]]]].
  pose proof (tiles_span _ _ _ H) as Hs.
  destruct Hb as [[_ Hb]|Hb].
  - unfold DSIZE, WSIZE in *. lia.
  - specialize (IH _ H Hb). unfold DSIZE, WSIZE in *. lia.
Qed.

(** The payload of an allocated block holds no link word of a free
    block of the same tiling. *)
Lemma live_not_links m bl b : forall bp,
  tiles m bp bl -> live bp bl b -> ~ in_links (frees bp bl) b.
Proof.
  induction bl as [|[s a] bl IH]; simpl; intros bp H Hb; [destruct Hb|].
  destruct H as [_ [H32 [_ [_ H]]]].
  intros [x [Hx Hxb]].
  destruct Hb as [[-> Hb]|Hb].
  - destruct (frees_bounds _ _ _ _ H Hx). unfold DSIZE, WSIZE in *. lia.
  - destruct a.
    + apply (IH _ H Hb). exists x. auto.
    + destruct Hx as [<-|Hx].
      * pose proof (live_bounds _ _ _ _ H Hb). unfold DSIZE, WSIZE in *. lia.
      * apply (IH _ H Hb). exists x. auto.
Qed.

Lemma held_app l1 l2 b : forall bp,
  held bp (l1 ++ l2) b <-> held bp l1 b \/ held (bp + span l1) l2 b.
Proof.
  induction l1 as [|[s a] l1 IH]; simpl; intro bp.
  - rewrite Z.add_0_r. tauto.
  - rewrite IH. replace (bp + s + span l1) with (bp + (s + span l1)) by lia.
    tauto.
Qed.

Lemma live_held bl b : forall bp, live bp bl b -> held bp bl b.
Proof.
  induction bl as [|[s a] bl IH]; simpl; intros bp Hb; [exact Hb|].
  destruct Hb as [[Ha Hb]|Hb]; [left|right; auto].
  split; [exact Ha|]. unfold DSIZE, WSIZE in *. lia.
Qed.

Lemma held_bounds m bl b : forall bp,
  tiles m bp bl -> held bp bl b -> bp - WSIZE <= b < bp + span bl - WSIZE.
Proof.
  induction bl as [|[s a] bl IH]; simpl; intros bp H Hb; [destruct Hb|].
  destruct H as [_ [H32 [_ [_ H]]]].
  pose proof (tiles_span _ _ _ H) as Hs.
  destruct Hb as [[_ Hb]|Hb].
  - unfold DSIZE, WSIZE in *. lia.
  - specialize (IH _ H Hb). unfold DSIZE, WSIZE in *. lia.
Qed.

(** An allocated block, tags included, holds no link word of a free
    block of the same tiling. *)
Lemma held_not_links m bl b : forall bp,
  tiles m bp bl -> held bp bl b -> ~ in_links (frees bp bl) b.
Proof.
  induction bl as [|[s a] bl IH]; simpl; intros bp H Hb; [destruct Hb|].
  destruct H as [_ [H32 [_ [_ H]]]].
  intros [x [Hx Hxb]].
  destruct Hb as [[-> Hb]|Hb].
  - destruct (frees_bounds _ _ _ _ H Hx). unfold DSIZE, WSIZE in *. lia.
  - destruct a.
    + apply (IH _ H Hb). exists x. auto.
    + destruct Hx as [<-|Hx].
      * pose proof (held_bounds _ _ _ _ H Hb). unfold DSIZE, WSIZE in *. lia.
      * apply (IH _ H Hb). exists x. auto.
Qed.

(** A tiling only depends on the boundary tags: it survives every write
    to the link words of its free blocks and every write outside its
    span. *)
Lemma tiles_frame m m' bl : forall bp,
  tiles m bp bl ->
  (forall b, bp - WSIZE <= b < bp + span bl - WSIZE ->
             ~ in_links (frees bp bl) b -> m' b = m b) ->
  tiles m' bp bl.
Proof.
  induction bl as [|[s a] bl IH]; simpl; intros bp H Hm; [exact I|].
  destruct H as [Hs [H32 [Hh [Hf H]]]].
  pose proof (tiles_span _ _ _ H) as Hsp.
  assert (Hnl : forall b, (bp - WSIZE <= b < bp \/
                           bp + s - DSIZE <= b < bp + s - WSIZE) ->
                          ~ in_links (if a then frees (bp + s) bl
                                      else bp :: frees (bp + s) bl) b).
  { intros b Hb [x [Hx Hxb]].
    assert (Hrec : In x (frees (bp + s) bl) -> False).
    { intro Hin. destruct (frees_bounds _ _ _ _ H Hin).
      unfold DSIZE, WSIZE in *. lia. }
    destruct a; [auto|]. destruct Hx as [<-|Hx]; [|auto].
    unfold DSIZE, WSIZE in *. lia. }
  split; [exact Hs|]. split; [exact H32|]. split; [|split].
  - rewrite <- Hh. apply GET_keep. intros b Hb. apply Hm.
    + unfold HDRP, DSIZE, WSIZE in *. lia.
    + apply Hnl. unfold HDRP, DSIZE, WSIZE in *. lia.
  - rewrite <- Hf. apply GET_keep. intros b Hb. apply Hm.
    + unfold HDRP, DSIZE, WSIZE in *. lia.
    + apply Hnl. unfold HDRP, DSIZE, WSIZE in *. lia.
  - apply IH; [exact H|]. intros b Hb Hn. apply Hm.
    + unfold HDRP, DSIZE, WSIZE in *. lia.
    + intros [x [Hx Hxb]]. destruct a.
      * apply Hn. exists x. auto.
      * destruct Hx as [<-|Hx]; [unfold DSIZE, WSIZE in *; lia|].
        apply Hn. exists x. auto.
Qed.

Lemma no_free_pair_app l1 l2 :
  no_free_pair (l1 ++ l2) -> no_free_pair l1 /\ no_free_pair l2.
Proof.
  induction l1 as [|[s a] l1 IH]; simpl; [tauto|].
  intros [H1 H2]. destruct (IH H2) as [H3 H4]. split; [|exact H4].
  split; [|exact H3]. intro Ea. specialize (H1 Ea).
  destruct l1 as [|[s' [|]] l1]; simpl in *; auto.
Qed.

Lemma last_alloc_snoc l s a : last_alloc (l ++ [(s, a)]) = a.
Proof. unfold last_alloc. rewrite rev_app_distr. reflexivity. Qed.

Lemma no_free_pair_join l1 l2 :
  no_free_pair l1 -> no_free_pair l2 ->
  (last_alloc l1 = true \/ first_alloc l2 = true) ->
  no_free_pair (l1 ++ l2).
Proof.
  induction l1 as [|[s a] l1 IH]; simpl; intros H1 H2 Hj; [exact H2|].
  destruct H1 as [H1 H1'].
  assert (Hj' : l1 <> [] -> last_alloc l1 = true \/ first_alloc l2 = true).
  { intro Hne. destruct Hj as [Hj|Hj]; [left|right; exact Hj].
    unfold last_alloc in *. simpl in Hj.
    destruct (rev l1) as [|[s' a'] r] eqn:Er.
    - apply (f_equal (@rev _)) in Er. rewrite rev_involutive in Er.
      simpl in Er. contradiction.
    - simpl in Hj. exact Hj. }
  split.
  - intro Ea. specialize (H1 Ea). destruct l1 as [|[s' a'] l1]; simpl.
    + destruct l2 as [|[s2 [|]] l2]; auto.
      destruct Hj as [Hj|Hj]; [|discriminate].
      unfold last_alloc in Hj. simpl in Hj. congruence.
    + exact H1.
  - destruct l1 as [|x l1]; [exact H2|].
    apply IH; auto. apply Hj'. discriminate.
Qed.

Lemma no_free_pair_split l1 s a l2 :
  no_free_pair (l1 ++ (s, a) :: l2) ->
  a = false -> last_alloc l1 = true /\ first_alloc l2 = true.
Proof.
  intros H ->. split.
  - induction l1 as [|[s1 a1] l1 IH]; [reflexivity|].
    simpl in H. destruct H as [H1 H2].
    destruct l1 as [|[s2 a2] l1].
    + simpl in H1. unfold last_alloc. simpl. destruct a1; auto.
    + specialize (IH H2). unfold last_alloc in *. simpl in *.
      destruct (rev l1 ++ [(s2, a2)]) as [|[s3 a3] r] eqn:Er.
      * destruct (rev l1); discriminate.
      * simpl. exact IH.
  - apply no_free_pair_app in H. destruct H as [_ H]. simpl in H.
    destruct H as [H _]. specialize (H eq_refl).
    destruct l2 as [|[s2 [|]] l2]; simpl; auto.
Qed.

Lemma last_block (l : list (Z * bool)) :
  l = [] \/ exists l' s a, l = l' ++ [(s, a)].
Proof.
  destruct l as [|x l] using rev_ind; [left; reflexivity|].
  right. destruct x as [s a]. exists l, s, a. reflexivity.
Qed.

Lemma first_block (l : list (Z * bool)) :
  l = [] \/ exists s a l', l = (s, a) :: l'.
Proof.
  destruct l as [|[s a] l]; [left; reflexivity|].
  right. exists s, a, l. reflexivity.
Qed.

Lemma first_alloc_false l :
  first_alloc l = false -> exists s l', l = (s, false) :: l'.
Proof.
  destruct l as [|[s [|]] l]; simpl; intro E; try discriminate E.
  exists s, l. reflexivity.
Qed.

Lemma last_alloc_false l :
  last_alloc l = false -> exists l' s, l = l' ++ [(s, false)].
Proof.
  destruct (last_block l) as [->|[l' [s [a ->]]]]; [discriminate|].
  unfold last_alloc. rewrite rev_app_distr. simpl. intros ->.
  exists l', s. reflexivity.
Qed.

Lemma last_alloc_app l s a : last_alloc (l ++ [(s, a)]) = a.
Proof. unfold last_alloc. rewrite rev_app_distr. reflexivity. Qed.

(** The tags of a block inside a tiling. *)
Lemma tiles_at m la s a lb bp :
  tiles m bp (la ++ (s, a) :: lb) ->
  let x := bp + span la in
  is_size s /\ 2 * DSIZE <= s
  /\ GET m (HDRP x) = PACK s (Z.b2z a)
  /\ GET m (x + s - DSIZE) = PACK s (Z.b2z a).
Proof.
  intros Ht x. apply tiles_app in Ht. destruct Ht as [_ Ht]. simpl in Ht.
  tauto.
Qed.

End Blocks.

(** ** Facts about a well-formed heap *)

Section HeapFacts.

Lemma frees_In_split bl : forall bp x,
  In x (frees bp bl) ->
  exists l1 s l2, bl = l1 ++ (s, false) :: l2 /\ x = bp + span l1.
Proof.
  induction bl as [|[s a] bl IH]; simpl; intros bp x Hx; [destruct Hx|].
  assert (Hrec : In x (frees (bp + s) bl) ->
                 exists l1 s0 l2, (s, a) :: bl = l1 ++ (s0, false) :: l2
                                  /\ x = bp + span l1).
  { intro Hin. destruct (IH _ _ Hin) as [l1 [s0 [l2 [E1 E2]]]].
    exists ((s, a) :: l1), s0, l2. simpl. split; [congruence|lia]. }
  destruct a; [auto|]. destruct Hx as [<-|Hx]; [|auto].
  exists [], s, bl. simpl. split; [reflexivity|lia].
Qed.

Lemma allocs_In_split bl : forall bp x,
  In x (allocs bp bl) ->
  exists l1 s l2, bl = l1 ++ (s, true) :: l2 /\ x = bp + span l1.
Proof.
  induction bl as [|[s a] bl IH]; simpl; intros bp x Hx; [destruct Hx|].
  assert (Hrec : In x (allocs (bp + s) bl) ->
                 exists l1 s0 l2, (s, a) :: bl = l1 ++ (s0, true) :: l2
                                  /\ x = bp + span l1).
  { intro Hin. destruct (IH _ _ Hin) as [l1 [s0 [l2 [E1 E2]]]].
    exists ((s, a) :: l1), s0, l2. simpl. split; [congruence|lia]. }
  destruct a; [|auto]. destruct Hx as [<-|Hx]; [|auto].
  exists [], s, bl. simpl. split; [reflexivity|lia].
Qed.

Lemma frees_length bl : forall bp, (length (frees bp bl) <= length bl)%nat.
Proof.
  induction bl as [|[s a] bl IH]; simpl; intro bp; [lia|].
  specialize (IH (bp + s)). destruct a; simpl; lia.
Qed.

(** The boundary tags of a free block hold no link word. *)
Lemma free_tags_not_links m bl : forall bp l1 s a l2 b,
  tiles m bp bl -> bl = l1 ++ (s, a) :: l2 ->
  let x := bp + span l1 in
  (x - WSIZE <= b < x \/ x + s - DSIZE <= b < x + s - WSIZE) ->
  ~ in_links (frees bp bl) b.
Proof.
  intros bp l1 s a l2 b Ht -> x Hb [y [Hy Hyb]].
  apply tiles_app in Ht. destruct Ht as [Ht1 Ht2]. fold x in Ht2.
  simpl in Ht2. destruct Ht2 as [_ [H32 [_ [_ Ht3]]]].
  rewrite frees_app in Hy. fold x in Hy. apply in_app_or in Hy.
  destruct Hy as [Hy|Hy].
  - destruct (frees_bounds _ _ _ _ Ht1 Hy). unfold x, DSIZE, WSIZE in *. lia.
  - simpl in Hy.
    assert (Hrec : In y (frees (x + s) l2) -> False).
    { intro Hin. destruct (frees_bounds _ _ _ _ Ht3 Hin).
      unfold DSIZE, WSIZE in *. lia. }
    destruct a; [auto|]. destruct Hy as [<-|Hy]; [|auto].
    unfold DSIZE, WSIZE in *. lia.
Qed.

Variables (st : state) (ls : buckets) (bl : list (Z * bool)).
Hypothesis H : heap_ok st ls bl.

Let first := heap_listp st + DSIZE.

Lemma heap_listed i x : 0 <= i < LISTS -> In x (ls i) -> In x (frees first bl).
Proof. intros Hi Hx. apply (ok_listed _ _ _ H). exists i. auto. Qed.

Lemma heap_block_ptr x :
  In x (frees first bl) \/ In x (allocs first bl) ->
  is_ptr x /\ x + 2 * DSIZE <= mem_brk st.
Proof.
  pose proof (ok_base _ _ _ H) as Hb. pose proof (ok_max _ _ _ H) as Hm.
  pose proof (ok_brk _ _ _ H) as Hk. fold first in Hk.
  intros [Hx|Hx];
    [destruct (frees_bounds _ _ _ _ (ok_tiles _ _ _ H) Hx)
    |destruct (allocs_bounds _ _ _ _ (ok_tiles _ _ _ H) Hx)];
    unfold is_ptr, first, DSIZE, WSIZE in *; lia.
Qed.

(** Payload addresses are multiples of sixteen. *)
Lemma heap_block_aligned l1 l2 :
  bl = l1 ++ l2 -> (first + span l1) mod DSIZE = 0.
Proof.
  intro E. pose proof (ok_tiles _ _ _ H) as Ht. rewrite E in Ht.
  apply tiles_app in Ht. destruct Ht as [Ht _].
  pose proof (tiles_span_mod _ _ _ Ht) as Ms.
  pose proof (ok_align _ _ _ H) as Ma. unfold first.
  change DSIZE with 16 in *.
  pose proof (Z.div_mod (heap_listp st) 16 ltac:(lia)) as D1.
  pose proof (Z.div_mod (span l1) 16 ltac:(lia)) as D2.
  replace (heap_listp st + 16 + span l1)
    with ((heap_listp st / 16 + 1 + span l1 / 16) * 16) by lia.
  apply Z.mod_mul. lia.
Qed.

Lemma heap_bucket_length i :
  0 <= i < LISTS -> (length (ls i) <= length bl)%nat.
Proof.
  intro Hi. pose proof (frees_length bl first).
  assert (length (ls i) <= length (frees first bl))%nat; [|lia].
  apply NoDup_incl_length.
  - apply separated_NoDup. apply (proj1 (ok_sep _ _ _ H)). exact Hi.
  - intros x Hx. eapply heap_listed; eassumption.
Qed.

Lemma heap_listed_size i x l1 s l2 :
  0 <= i < LISTS -> In x (ls i) ->
  bl = l1 ++ (s, false) :: l2 -> x = first + span l1 ->
  GET_SIZE (mem st) (HDRP x) = s /\ mm_find_list_idx s = i.
Proof.
  intros Hi Hx E Ex.
  pose proof (ok_tiles _ _ _ H) as Ht. fold first in Ht. rewrite E in Ht.
  apply tiles_app in Ht. destruct Ht as [_ Ht]. rewrite <- Ex in Ht.
  simpl in Ht. destruct Ht as [Hs [_ [Hh _]]].
  assert (Es : GET_SIZE (mem st) (HDRP x) = s)
    by (unfold GET_SIZE; rewrite Hh; apply size_of_PACK; auto).
  split; [exact Es|]. rewrite <- Es. apply (ok_sizes _ _ _ H); assumption.
Qed.

End HeapFacts.

(** ** Rebuilding the heap after a local change *)

Section Rebuild.

Variables (st st' : state) (ls ls' : buckets) (l1 B B' l2 : list (Z * bool)).
Hypothesis H : heap_ok st ls (l1 ++ B ++ l2).

Let first := heap_listp st + DSIZE.
Let x0 := first + span l1.

Hypothesis Hhl : heap_listp st' = heap_listp st.
Hypothesis Hmax : mem_max_addr st' = mem_max_addr st.
Hypothesis Hbrk : mem_brk st' = mem_brk st + span B' - span B.
Hypothesis Hroom : mem_brk st' <= mem_max_addr st'.
Hypothesis Hspan : span B' = span B \/ l2 = [].
Hypothesis Hepi :
  span B' <> span B -> GET (mem st') (x0 + span B' - WSIZE) = PACK 0 1.
(* outside the rebuilt blocks only link words of free blocks change *)
Hypothesis Hframe :
  forall b, ~ (x0 - WSIZE <= b < x0 + span B' - WSIZE) ->
            (span B' <> span B -> b < x0 - WSIZE) ->
            ~ in_links (frees first l1 ++ frees (x0 + span B) l2) b ->
            mem st' b = mem st b.
Hypothesis Htiles : tiles (mem st') x0 B'.
Hypothesis Hok : lists_ok st' ls'.
Hypothesis Hsep : sep_buckets ls'.
Hypothesis Hasc : forall j, 7 < j -> ascending (ls' j).
Hypothesis Hmem :
  forall x, (exists i, 0 <= i < LISTS /\ In x (ls' i))
            <-> In x (frees first l1) \/ In x (frees x0 B')
                \/ In x (frees (x0 + span B) l2).
Hypothesis Hsizes :
  forall j c, 0 <= j < LISTS -> In c (ls' j) ->
    (In c (frees x0 B')
     /\ mm_find_list_idx (GET_SIZE (mem st') (HDRP c)) = j)
    \/ (~ In c (frees x0 B') /\ In c (ls j)).
Hypothesis Hpairs : no_free_pair (l1 ++ B' ++ l2).

Let T1 : tiles (mem st) first l1.
Proof.
  pose proof (ok_tiles _ _ _ H) as Ht. apply tiles_app in Ht. tauto.
Qed.

Let TB : tiles (mem st) x0 B.
Proof.
  pose proof (ok_tiles _ _ _ H) as Ht. apply tiles_app in Ht.
  destruct Ht as [_ Ht]. apply tiles_app in Ht. tauto.
Qed.

Let T2 : tiles (mem st) (x0 + span B) l2.
Proof.
  pose proof (ok_tiles _ _ _ H) as Ht. apply tiles_app in Ht.
  destruct Ht as [_ Ht]. apply tiles_app in Ht. tauto.
Qed.

Let Ebrk : x0 + span B + span l2 = mem_brk st.
Proof.
  pose proof (ok_brk _ _ _ H) as Hk. rewrite !span_app in Hk.
  unfold x0, first. lia.
Qed.

Lemma rebuild_frame_low b :
  b < x0 - WSIZE -> ~ in_links (frees first l1) b -> mem st' b = mem st b.
Proof.
  intros Hb Hn. apply Hframe; [lia|auto|].
  intros [y [Hy Hyb]]. apply in_app_or in Hy. destruct Hy as [Hy|Hy].
  - apply Hn. exists y. auto.
  - destruct (frees_bounds _ _ _ _ T2 Hy).
    pose proof (tiles_span _ _ _ TB). unfold DSIZE, WSIZE in *. lia.
Qed.

Lemma rebuild_frame_high b :
  span B' = span B -> x0 + span B - WSIZE <= b ->
  ~ in_links (frees (x0 + span B) l2) b -> mem st' b = mem st b.
Proof.
  intros Hb Hb' Hn. apply Hframe; [lia|tauto|].
  intros [y [Hy Hyb]]. apply in_app_or in Hy. destruct Hy as [Hy|Hy].
  - destruct (frees_bounds _ _ _ _ T1 Hy).
    pose proof (tiles_span _ _ _ TB). unfold x0, DSIZE, WSIZE in *. lia.
  - apply Hn. exists y. auto.
Qed.

(** The payloads of the allocated blocks outside the rebuilt part. *)
Lemma rebuild_live q :
  live first l1 q \/ live (x0 + span B) l2 q -> mem st' q = mem st q.
Proof.
  pose proof (tiles_span _ _ _ TB) as HsB.
  intros [Hq|Hq].
  - pose proof (live_bounds _ _ _ _ T1 Hq) as Hb.
    apply rebuild_frame_low; [unfold x0, DSIZE, WSIZE in *; lia|].
    apply (live_not_links _ _ _ _ T1 Hq).
  - pose proof (live_bounds _ _ _ _ T2 Hq) as Hb.
    destruct Hspan as [Es|El2]; [|rewrite El2 in Hq; destruct Hq].
    apply rebuild_frame_high; [exact Es|unfold DSIZE, WSIZE in *; lia|].
    apply (live_not_links _ _ _ _ T2 Hq).
Qed.

(** The allocated blocks outside the rebuilt part, tags included. *)
Lemma rebuild_held q :
  held first l1 q \/ held (x0 + span B) l2 q -> mem st' q = mem st q.
Proof.
  pose proof (tiles_span _ _ _ TB) as HsB.
  intros [Hq|Hq].
  - pose proof (held_bounds _ _ _ _ T1 Hq) as Hb.
    apply rebuild_frame_low; [unfold x0, DSIZE, WSIZE in *; lia|].
    apply (held_not_links _ _ _ _ T1 Hq).
  - pose proof (held_bounds _ _ _ _ T2 Hq) as Hb.
    destruct Hspan as [Es|El2]; [|rewrite El2 in Hq; destruct Hq].
    apply rebuild_frame_high; [exact Es|unfold DSIZE, WSIZE in *; lia|].
    apply (held_not_links _ _ _ _ T2 Hq).
Qed.

Lemma rebuild_tiles : tiles (mem st') first (l1 ++ B' ++ l2).
Proof.
  apply tiles_app. split.
  - apply (tiles_frame (mem st)); [exact T1|].
    intros b Hb Hn. apply rebuild_frame_low; [|exact Hn].
    unfold x0. lia.
  - fold x0. apply tiles_app. split; [exact Htiles|].
    destruct Hspan as [E| ->]; [|exact I]. rewrite E.
    apply (tiles_frame (mem st)); [exact T2|].
    intros b Hb Hn. apply rebuild_frame_high; [exact E|lia|exact Hn].
Qed.

Lemma rebuild_sizes : sizes_ok st' ls'.
Proof.
  intros j c Hj Hc. destruct (Hsizes j c Hj Hc) as [[_ E]|[Hn Hin]]; [exact E|].
  rewrite <- (ok_sizes _ _ _ H j c Hj Hin).
  f_equal. apply GET_SIZE_keep. intros b Hb.
  assert (Hc' : In c (frees first l1) \/ In c (frees (x0 + span B) l2)).
  { destruct (proj1 (Hmem c)) as [Hl|[Hl|Hl]]; [exists j; auto|auto|tauto|auto]. }
  pose proof (tiles_span _ _ _ TB) as HsB.
  destruct Hc' as [Hl|Hl].
  - destruct (frees_bounds _ _ _ _ T1 Hl) as [Hlo Hhi].
    apply rebuild_frame_low;
      [unfold x0, HDRP, DSIZE, WSIZE in *; lia|].
    destruct (frees_In_split _ _ _ Hl) as [la [s [lb [E Ex]]]].
    apply (free_tags_not_links (mem st) l1 first la s false lb b T1 E).
    left. unfold HDRP, WSIZE in *. lia.
  - destruct (frees_bounds _ _ _ _ T2 Hl) as [Hlo Hhi].
    destruct (frees_In_split _ _ _ Hl) as [la [s [lb [E Ex]]]].
    assert (Hnl : ~ in_links (frees (x0 + span B) l2) b).
    { apply (free_tags_not_links (mem st) l2 (x0 + span B) la s false lb b T2 E).
      left. unfold HDRP, WSIZE in *. lia. }
    destruct Hspan as [Es|El2]; [|rewrite El2 in Hl; destruct Hl].
    apply rebuild_frame_high; [exact Es| |exact Hnl].
    unfold HDRP, DSIZE, WSIZE in *. lia.
Qed.

Lemma heap_rebuild : heap_ok st' ls' (l1 ++ B' ++ l2).
Proof.
  pose proof (ok_base _ _ _ H) as Hb. pose proof (ok_max _ _ _ H) as Hm.
  pose proof (tiles_span _ _ _ T1) as Hs1.
  pose proof (tiles_span _ _ _ TB) as HsB.
  pose proof (tiles_span _ _ _ T2) as Hs2.
  pose proof (tiles_span _ _ _ Htiles) as HsB'.
  assert (Hlow : forall q, q + WSIZE <= first - WSIZE ->
                           GET (mem st') q = GET (mem st) q).
  { intros q Hq. apply GET_keep. intros b Hbq. apply rebuild_frame_low.
    - unfold x0, DSIZE, WSIZE in *. lia.
    - intros [y [Hy Hyb]]. destruct (frees_bounds _ _ _ _ T1 Hy).
      unfold DSIZE, WSIZE in *. lia. }
  constructor.
  - rewrite Hhl. exact Hb.
  - rewrite Hhl. apply (ok_align _ _ _ H).
  - rewrite Hmax. split; [rewrite <- Hmax; exact Hroom|apply Hm].
  - rewrite Hhl, Hlow; [apply (ok_prologue_hdr _ _ _ H)|].
    unfold first, HDRP, DSIZE, WSIZE in *. lia.
  - rewrite Hhl, Hlow; [apply (ok_prologue_ftr _ _ _ H)|].
    unfold first, HDRP, DSIZE, WSIZE in *. lia.
  - rewrite Hhl. exact rebuild_tiles.
  - rewrite Hhl, Hbrk, !span_app. fold first.
    pose proof Ebrk. unfold x0 in *. lia.
  - pose proof Ebrk as E. destruct (Z.eq_dec (span B') (span B)) as [Es|Es].
    + assert (Eb : mem_brk st' = mem_brk st) by lia. rewrite Eb.
      rewrite <- (ok_epilogue _ _ _ H). apply GET_keep. intros b Hbq.
      apply rebuild_frame_high; [exact Es|lia|].
      intros [y [Hy Hyb]]. destruct (frees_bounds _ _ _ _ T2 Hy).
      unfold DSIZE, WSIZE in *. lia.
    + destruct Hspan as [Es'|El2]; [contradiction|].
      rewrite <- (Hepi Es). f_equal. rewrite Hbrk.
      rewrite El2 in E. simpl in E. lia.
  - exact Hok.
  - exact Hsep.
  - exact rebuild_sizes.
  - exact Hasc.
  - intro x. rewrite Hhl. fold first. rewrite !frees_app. fold x0.
    rewrite Hmem, !in_app_iff.
    destruct Hspan as [Es| ->]; [rewrite Es; tauto|simpl; tauto].
  - exact Hpairs.
Qed.

End Rebuild.

(** ** mm_malloc on a well-formed heap *)

Section ListUpdates.

Lemma mm_remove_fblock_arena st bp idx :
  same_arena st (mm_remove_fblock st bp idx).
Proof.
  unfold mm_remove_fblock, same_arena.
  destruct (negb _ && negb _); [simpl; auto|].
  destruct (negb _ && _); [simpl; auto|].
  destruct (_ && negb _); simpl; auto.
Qed.

Lemma resolve_idx_explicit m b i : 0 <= i -> resolve_idx m b i = i.
Proof.
  intro Hi. unfold resolve_idx. destruct (Z.eqb_spec i (-1)); [lia|reflexivity].
Qed.

Lemma removed_listed ls i b :
  sep_buckets ls -> 0 <= i < LISTS -> In b (ls i) ->
  forall j x, 0 <= j < LISTS ->
    (In x (set_bucket ls i (remove_block b (ls i)) j) <-> In x (ls j) /\ x <> b).
Proof.
  intros [Hs Hc] Hi Hb j x Hj. unfold set_bucket.
  destruct (Z.eqb_spec j i) as [->|Hji].
  - split.
    + intro Hx. split; [eapply In_remove_block; eassumption|].
      eapply In_remove_block_neq; [apply Hs|]; eassumption.
    + intros [Hx Hne]. apply In_remove_block_other; assumption.
  - split; [|tauto]. intro Hx. split; [exact Hx|].
    apply far_neq. apply (Hc j i); assumption.
Qed.

Lemma inserted_listed ls k r j x :
  In x (set_bucket ls k (insert_policy k r (ls k)) j)
  <-> (j = k /\ x = r) \/ In x (ls j).
Proof.
  unfold set_bucket. destruct (Z.eqb_spec j k) as [->|Hjk].
  - rewrite In_insert_policy. tauto.
  - tauto.
Qed.

Lemma ascending_insert_policy k r l :
  (7 < k -> ascending l) -> ~ In r l -> 7 < k -> ascending (insert_policy k r l).
Proof.
  intros Ha Hn Hk. unfold insert_policy.
  change (Z.quot (LISTS - 1) 2) with 7.
  replace (k >? 7) with true by (symmetry; rewrite Z.gtb_ltb; apply Z.ltb_lt; lia).
  apply ascending_insert_sorted; auto.
Qed.

End ListUpdates.

Section Fit.

Variables (fuel : nat) (st : state) (ls : buckets).
Variables (l1 l2 : list (Z * bool)) (s i asize : Z).
Hypothesis H : heap_ok st ls (l1 ++ [(s, false)] ++ l2).

Let first := heap_listp st + DSIZE.
Let b := first + span l1.

Hypothesis Hi : 0 <= i < LISTS.
Hypothesis Hb : In b (ls i).
Hypothesis Hasize : is_size asize.
Hypothesis Hfit : 2 * DSIZE <= asize <= s.
Hypothesis Hfuel : (length (l1 ++ [(s, false)] ++ l2) <= fuel)%nat.

Let st1 := mm_remove_fblock st b i.
Let ls1 := set_bucket ls i (remove_block b (ls i)).

Let T1 : tiles (mem st) first l1.
Proof.
  pose proof (ok_tiles _ _ _ H) as Ht. apply tiles_app in Ht. tauto.
Qed.

Let Tb : is_size s /\ 2 * DSIZE <= s
         /\ GET (mem st) (HDRP b) = PACK s 0
         /\ GET (mem st) (b + s - DSIZE) = PACK s 0
         /\ tiles (mem st) (b + s) l2.
Proof.
  pose proof (ok_tiles _ _ _ H) as Ht. apply tiles_app in Ht.
  destruct Ht as [_ Ht]. simpl in Ht. exact Ht.
Qed.

Lemma fit_block_end : is_ptr b /\ b + s <= mem_brk st /\ mem_brk st < 2 ^ 64.
Proof.
  pose proof (ok_base _ _ _ H) as Hbase. pose proof (ok_max _ _ _ H) as Hm.
  pose proof (ok_brk _ _ _ H) as Hk. rewrite !span_app in Hk. simpl in Hk.
  destruct Tb as [_ [_ [_ [_ T2]]]].
  pose proof (tiles_span _ _ _ T1). pose proof (tiles_span _ _ _ T2).
  unfold is_ptr, b, first, DSIZE, WSIZE in *. lia.
Qed.

(** Every other listed block lies before or behind the block. *)
Lemma fit_others j a :
  0 <= j < LISTS -> In a (ls j) -> a <> b ->
  In a (frees first l1 ++ frees (b + s) l2)
  /\ (a + 2 * DSIZE <= b \/ b + s <= a).
Proof.
  intros Hj Ha Hne. destruct Tb as [_ [_ [_ [_ T2]]]].
  pose proof (heap_listed _ _ _ H j a Hj Ha) as Hf. fold first in Hf.
  rewrite frees_app in Hf. fold b in Hf. simpl in Hf.
  apply in_app_or in Hf. destruct Hf as [Hf|[Hf|Hf]].
  - split; [apply in_or_app; auto|].
    destruct (frees_bounds _ _ _ _ T1 Hf). left. unfold b. lia.
  - congruence.
  - split; [apply in_or_app; auto|].
    destruct (frees_bounds _ _ _ _ T2 Hf). right. lia.
Qed.

Lemma fit_removed :
  lists_ok st1 ls1 /\ sep_buckets ls1
  /\ clear_of (b - WSIZE) (b + s - WSIZE) ls1
  /\ (forall j a, 0 <= j < LISTS -> In a (ls1 j) ->
        In a (frees first l1 ++ frees (b + s) l2))
  /\ (forall q, ~ in_links (frees first l1 ++ frees (b + s) l2) q ->
                mem st1 q = mem st q)
  /\ (forall j, 7 < j -> ascending (ls1 j))
  /\ (forall j, 0 <= j < LISTS -> (length (ls1 j) <= fuel)%nat)
  /\ GET_SIZE (mem st1) (HDRP b) = s.
Proof.
  pose proof (ok_lists _ _ _ H) as Hok. pose proof (ok_sep _ _ _ H) as Hsep.
  destruct (remove_spec st ls i b i Hok Hsep Hi Hb
              (resolve_idx_explicit _ _ _ (proj1 Hi))) as [Hok1 Hout1].
  fold st1 in Hok1, Hout1. fold ls1 in Hok1.
  assert (Hin1 : forall j a, 0 <= j < LISTS -> In a (ls1 j) ->
                   In a (frees first l1 ++ frees (b + s) l2)
                   /\ (a + 2 * DSIZE <= b \/ b + s <= a)).
  { intros j a Hj Ha. apply (removed_listed ls i b Hsep Hi Hb j a Hj) in Ha.
    destruct Ha as [Ha Hne]. apply (fit_others j); assumption. }
  assert (Hfr : forall q, ~ in_links (frees first l1 ++ frees (b + s) l2) q ->
                          mem st1 q = mem st q).
  { intros q Hq. apply Hout1. intros [a [Ha Haq]]. apply Hq. exists a.
    split; [|exact Haq].
    assert (Ha' : In a (ls1 i)) by (unfold ls1; rewrite set_bucket_same; exact Ha).
    apply (Hin1 i a Hi Ha'). }
  split; [exact Hok1|]. split; [apply sep_buckets_remove; exact Hsep|].
  split; [|split; [|split; [exact Hfr|split; [|split]]]].
  - intros j a Hj Ha. destruct (Hin1 j a Hj Ha) as [_ Hd].
    unfold DSIZE, WSIZE in *. lia.
  - intros j a Hj Ha. apply (Hin1 j a Hj Ha).
  - intros j Hj. unfold ls1, set_bucket.
    destruct (Z.eqb_spec j i) as [->|_]; [|apply (ok_asc _ _ _ H); exact Hj].
    apply ascending_remove_block. apply (ok_asc _ _ _ H). exact Hj.
  - intros j Hj. pose proof (heap_bucket_length _ _ _ H j Hj) as Hl.
    unfold ls1, set_bucket. destruct (Z.eqb_spec j i) as [->|_]; [|lia].
    pose proof (length_remove_block b (ls i)). lia.
  - destruct Tb as [Hs [_ [Hh _]]].
    assert (E : GET (mem st1) (HDRP b) = PACK s 0).
    { rewrite <- Hh. apply GET_keep. intros q Hq. apply Hfr.
      intros [a [Ha Haq]].
      destruct Tb as [_ [_ [_ [_ T2]]]].
      apply in_app_or in Ha. destruct Ha as [Ha|Ha].
      - destruct (frees_bounds _ _ _ _ T1 Ha).
        unfold b, HDRP, DSIZE, WSIZE in *. lia.
      - destruct (frees_bounds _ _ _ _ T2 Ha).
        unfold HDRP, DSIZE, WSIZE in *. lia. }
    unfold GET_SIZE. rewrite E. apply size_of_PACK; auto.
Qed.

Lemma fit_frame st2 (R : Z -> Prop) :
  same_outside R (mem st1) (mem st2) ->
  (forall q, R q -> b - WSIZE <= q < b + s - WSIZE
                    \/ exists j a, 0 <= j < LISTS /\ In a (ls1 j)
                                    /\ a <= q < a + DSIZE) ->
  forall q, ~ (b - WSIZE <= q < b + s - WSIZE) ->
            ~ in_links (frees first l1 ++ frees (b + s) l2) q ->
            mem st2 q = mem st q.
Proof.
  intros Hout HR q Hq Hl.
  destruct fit_removed as [_ [_ [_ [Hin1 [Hfr1 _]]]]].
  rewrite Hout; [apply Hfr1; exact Hl|].
  intro Hr. destruct (HR q Hr) as [Hreg|[j [a [Hj [Ha Haq]]]]]; [tauto|].
  apply Hl. exists a. split; [apply (Hin1 j a Hj Ha)|exact Haq].
Qed.

Lemma fit_listed x :
  In x (frees first l1) \/ In x (frees (b + s) l2) ->
  exists j, 0 <= j < LISTS /\ In x (ls1 j).
Proof.
  intro Hx. destruct Tb as [_ [_ [_ [_ T2]]]].
  assert (Hf : In x (frees first (l1 ++ [(s, false)] ++ l2))).
  { rewrite frees_app. fold b. simpl. apply in_or_app.
    destruct Hx as [Hx|Hx]; [left; exact Hx|right; right; exact Hx]. }
  apply (ok_listed _ _ _ H) in Hf. destruct Hf as [j [Hj Hin]].
  exists j. split; [exact Hj|].
  apply (removed_listed ls i b (ok_sep _ _ _ H) Hi Hb j x Hj).
  split; [exact Hin|].
  destruct Hx as [Hx|Hx].
  - destruct (frees_bounds _ _ _ _ T1 Hx). unfold b, DSIZE, WSIZE in *. lia.
  - destruct (frees_bounds _ _ _ _ T2 Hx).
    destruct Tb as [_ [H32 _]]. unfold DSIZE, WSIZE in *. lia.
Qed.

Lemma fit_pairs B' :
  first_alloc B' = true -> last_alloc B' = true \/ first_alloc l2 = true ->
  no_free_pair B' -> no_free_pair (l1 ++ B' ++ l2).
Proof.
  intros Hf Hl HB.
  pose proof (ok_pairs _ _ _ H) as Hp.
  destruct (no_free_pair_app _ _ Hp) as [P1 P2].
  destruct (no_free_pair_app [(s, false)] l2 P2) as [_ P3].
  apply no_free_pair_join; [exact P1| |right].
  - apply no_free_pair_join; assumption.
  - destruct B' as [|[s' a'] B']; [|exact Hf].
    simpl. apply (no_free_pair_split l1 s false l2 Hp eq_refl).
Qed.

Lemma fit_neighbours : last_alloc l1 = true /\ first_alloc l2 = true.
Proof.
  apply (no_free_pair_split l1 s false l2 (ok_pairs _ _ _ H) eq_refl).
Qed.

(** The block is split: [asize] bytes are allocated, the rest is a new
    free block. *)
Lemma fit_split :
  4 * WSIZE <= s - asize ->
  exists st2 ls2,
    place fuel st1 b asize = Some st2
    /\ heap_ok st2 ls2 (l1 ++ [(asize, true); (s - asize, false)] ++ l2)
    /\ (forall q, live first l1 q \/ live (b + s) l2 q ->
                  mem st2 q = mem st q)
    /\ (forall q, held first l1 q \/ held (b + s) l2 q ->
                  mem st2 q = mem st q).
Proof.
  intro Hrem.
  assert (W : WSIZE = 8) by reflexivity.
  assert (D : DSIZE = 16) by reflexivity.
  destruct fit_removed as [Hok1 [Hsep1 [Hc1 [Hin1 [Hfr1 [Hasc1 [Hfuel1 S1]]]]]]].
  destruct fit_block_end as [Pb [Hend Hlt]].
  destruct Tb as [Hs [H32 [Hh [Hf T2]]]].
  destruct (mm_remove_fblock_arena st b i) as [A1 [A2 [A3 A4]]]. fold st1 in A1, A2, A3, A4.
  destruct (place_split fuel st1 ls1 b asize Hok1 Hsep1
              ltac:(rewrite S1; exact Hc1) Pb ltac:(rewrite S1; lia) Hasize
              ltac:(rewrite S1; rewrite D in *; lia) Hasc1 Hfuel1
              ltac:(rewrite S1; exact Hrem))
    as [st2 [E [[B1 [B2 [B3 B4]]] [G1 [G2 [G3 [G4 [Hok2 [Hfr2 _]]]]]]]]].
  rewrite S1 in G3, G4, Hok2, Hfr2.
  set (r := b + asize) in *. set (k := mm_find_list_idx (s - asize)) in *.
  set (ls2 := set_bucket ls1 k (insert_policy k r (ls1 k))) in *.
  assert (Hk : 0 <= k < LISTS).
  { pose proof (mm_find_list_idx_range (s - asize)). unfold k, LISTS. lia. }
  assert (Sr : is_size (s - asize)).
  { destruct Hs as [Hs Ms], Hasize as [Ha Ma]. split; [lia|].
    rewrite Zminus_mod, Ms, Ma. reflexivity. }
  assert (Hfar : forall j a, 0 <= j < LISTS -> In a (ls1 j) -> far r a).
  { intros j a Hj Ha. destruct (Hc1 j a Hj Ha);
      unfold far, r; rewrite W, D in *; lia. }
  assert (Hframe : forall q, ~ (b - WSIZE <= q < b + s - WSIZE) ->
             ~ in_links (frees first l1 ++ frees (b + s) l2) q ->
             mem st2 q = mem st q).
  { apply (fit_frame st2 (fun q => in_links (ls1 k) q
                                   \/ b - WSIZE <= q < b + s - WSIZE)).
    - intros q Hq. apply Hfr2; tauto.
    - intros q [[a [Ha Haq]]|Hq]; [right|left; exact Hq].
      exists k, a. auto. }
  exists st2, ls2. split; [exact E|].
  assert (Espan : span [(asize, true); (s - asize, false)] = span [(s, false)])
    by (simpl; lia).
  assert (Hframe' : forall q,
             ~ (first + span l1 - WSIZE <= q
                < first + span l1 + span [(asize, true); (s - asize, false)] - WSIZE) ->
             (span [(asize, true); (s - asize, false)] <> span [(s, false)] ->
              q < first + span l1 - WSIZE) ->
             ~ in_links (frees first l1
                         ++ frees (first + span l1 + span [(s, false)]) l2) q ->
             mem st2 q = mem st q).
  { intros q Hq _ Hl. apply Hframe.
    - fold b in Hq. simpl in Hq. lia.
    - fold b in Hl. simpl in Hl. replace (b + (s + 0)) with (b + s) in Hl by lia.
      exact Hl. }
  split; [|split].
  - apply (heap_rebuild st st2 ls ls2 l1 [(s, false)]
             [(asize, true); (s - asize, false)] l2 H).
    + congruence.
    + congruence.
    + rewrite Espan. lia.
    + pose proof (ok_max _ _ _ H). lia.
    + left. exact Espan.
    + intro Hne. contradiction.
    + exact Hframe'.
    + fold first. fold b. simpl. fold r.
      replace (r + (s - asize) - DSIZE) with (b + s - DSIZE) by (unfold r; lia).
      repeat split; first [assumption | rewrite D in *; lia | apply Hasize | apply Sr].
    + exact Hok2.
    + apply sep_buckets_insert; assumption.
    + intros j Hj. unfold ls2, set_bucket.
      destruct (Z.eqb_spec j k) as [->|_]; [|apply Hasc1; exact Hj].
      apply ascending_insert_policy; [intros _; apply Hasc1; exact Hj| |exact Hj].
      intro Hin. apply (far_neq r r); [|reflexivity]. apply (Hfar k); assumption.
    + intro x. fold first. fold b. simpl frees. fold r.
      simpl span. replace (b + (s + 0)) with (b + s) by lia.
      split.
      * intros [j [Hj Hx]]. apply inserted_listed in Hx.
        destruct Hx as [[_ ->]|Hx]; [right; left; simpl; auto|].
        pose proof (Hin1 j x Hj Hx) as Hin. apply in_app_or in Hin. tauto.
      * intros [Hx|[[<-|[]]|Hx]].
        -- destruct (fit_listed x (or_introl Hx)) as [j [Hj Hin]].
           exists j. split; [exact Hj|]. apply inserted_listed. auto.
        -- exists k. split; [exact Hk|]. apply inserted_listed. auto.
        -- destruct (fit_listed x (or_intror Hx)) as [j [Hj Hin]].
           exists j. split; [exact Hj|]. apply inserted_listed. auto.
    + intros j c Hj Hc. fold first. fold b. simpl frees. fold r.
      apply inserted_listed in Hc. destruct Hc as [[-> ->]|Hc].
      * left. split; [simpl; auto|].
        unfold GET_SIZE. rewrite G3, size_of_PACK by auto. reflexivity.
      * right. split.
        -- intros [Er|[]]. apply (far_neq r c); [|exact Er].
           apply (Hfar j); assumption.
        -- apply (removed_listed ls i b (ok_sep _ _ _ H) Hi Hb j c Hj) in Hc.
           tauto.
    + apply fit_pairs; [reflexivity|right; apply fit_neighbours|].
      simpl. repeat split; auto; discriminate.
  - intros q Hq.
    apply (rebuild_live st st2 ls l1 [(s, false)]
             [(asize, true); (s - asize, false)] l2 H (or_introl Espan) Hframe').
    fold first. fold b. simpl span.
    replace (b + (s + 0)) with (b + s) by lia. exact Hq.  - intros q Hq.
    apply (rebuild_held st st2 ls l1 [(s, false)]
             [(asize, true); (s - asize, false)] l2 H (or_introl Espan) Hframe').
    fold first. fold b. simpl span.
    replace (b + (s + 0)) with (b + s) by lia. exact Hq.
Qed.

(** The block is allocated as a whole. *)
Lemma fit_whole :
  s - asize < 4 * WSIZE ->
  exists st2,
    place fuel st1 b asize = Some st2
    /\ heap_ok st2 ls1 (l1 ++ [(s, true)] ++ l2)
    /\ (forall q, live first l1 q \/ live (b + s) l2 q ->
                  mem st2 q = mem st q)
    /\ (forall q, held first l1 q \/ held (b + s) l2 q ->
                  mem st2 q = mem st q).
Proof.
  intro Hrem.
  assert (W : WSIZE = 8) by reflexivity.
  assert (D : DSIZE = 16) by reflexivity.
  destruct fit_removed as [Hok1 [Hsep1 [Hc1 [Hin1 [Hfr1 [Hasc1 [Hfuel1 S1]]]]]]].
  destruct fit_block_end as [Pb [Hend Hlt]].
  destruct Tb as [Hs [H32 [Hh [Hf T2]]]].
  destruct (mm_remove_fblock_arena st b i) as [A1 [A2 [A3 A4]]]. fold st1 in A1, A2, A3, A4.
  destruct (place_whole fuel st1 ls1 b asize Hok1
              ltac:(rewrite S1; exact Hc1) Hasize
              ltac:(rewrite S1; rewrite D in *; lia)
              ltac:(rewrite S1; exact Hrem))
    as [st2 [E [[B1 [B2 [B3 B4]]] [G1 [G2 [Hok2 [_ Hfr2]]]]]]].
  rewrite S1 in G1, G2, Hfr2.
  assert (Hframe : forall q, ~ (b - WSIZE <= q < b + s - WSIZE) ->
             ~ in_links (frees first l1 ++ frees (b + s) l2) q ->
             mem st2 q = mem st q).
  { apply (fit_frame st2 (fun q => b - WSIZE <= q < b + s - WSIZE)).
    - intros q Hq. apply Hfr2; rewrite W, D in *; lia.
    - intros q Hq. left. exact Hq. }
  exists st2. split; [exact E|].
  assert (Espan : span [(s, true)] = span [(s, false)]) by reflexivity.
  assert (Hframe' : forall q,
             ~ (first + span l1 - WSIZE <= q
                < first + span l1 + span [(s, true)] - WSIZE) ->
             (span [(s, true)] <> span [(s, false)] ->
              q < first + span l1 - WSIZE) ->
             ~ in_links (frees first l1
                         ++ frees (first + span l1 + span [(s, false)]) l2) q ->
             mem st2 q = mem st q).
  { intros q Hq _ Hl. apply Hframe.
    - fold b in Hq. simpl in Hq. lia.
    - fold b in Hl. simpl in Hl. replace (b + (s + 0)) with (b + s) in Hl by lia.
      exact Hl. }
  split; [|split].
  - apply (heap_rebuild st st2 ls ls1 l1 [(s, false)] [(s, true)] l2 H).
    + congruence.
    + congruence.
    + rewrite Espan. lia.
    + pose proof (ok_max _ _ _ H). lia.
    + left. exact Espan.
    + intro Hne. contradiction.
    + exact Hframe'.
    + fold first. fold b. simpl.
      repeat split; first [assumption | apply Hs].
    + exact Hok2.
    + exact Hsep1.
    + exact Hasc1.
    + intro x. fold first. fold b. simpl frees.
      simpl span. replace (b + (s + 0)) with (b + s) by lia.
      split.
      * intros [j [Hj Hx]].
        pose proof (Hin1 j x Hj Hx) as Hin. apply in_app_or in Hin. tauto.
      * intros [Hx|[[]|Hx]].
        -- apply (fit_listed x (or_introl Hx)).
        -- apply (fit_listed x (or_intror Hx)).
    + intros j c Hj Hc. fold first. fold b. simpl frees.
      right. split; [intros []|].
      apply (removed_listed ls i b (ok_sep _ _ _ H) Hi Hb j c Hj) in Hc. tauto.
    + apply fit_pairs; [reflexivity|left; reflexivity|].
      simpl. repeat split; auto; discriminate.
  - intros q Hq.
    apply (rebuild_live st st2 ls l1 [(s, false)] [(s, true)] l2 H
             (or_introl Espan) Hframe').
    fold first. fold b. simpl span.
    replace (b + (s + 0)) with (b + s) by lia. exact Hq.  - intros q Hq.
    apply (rebuild_held st st2 ls l1 [(s, false)] [(s, true)] l2 H
             (or_introl Espan) Hframe').
    fold first. fold b. simpl span.
    replace (b + (s + 0)) with (b + s) by lia. exact Hq.
Qed.

End Fit.

Section Grow.

Variables (fuel : nat) (st : state) (ls : buckets) (bl : list (Z * bool)).
Variable asize : Z.
Hypothesis H : heap_ok st ls bl.

Let first := heap_listp st + DSIZE.
Let bp := mem_brk st.
Let E := MAX asize CHUNKSIZE.

Hypothesis Hasize : is_size asize.
Hypothesis H32 : 2 * DSIZE <= asize.
Hypothesis Hfuel : (length bl <= fuel)%nat.

Lemma grow_size :
  is_size E /\ asize <= E /\ 0 < E / WSIZE
  /\ WSIZE * (E / WSIZE + (E / WSIZE) mod 2) = E.
Proof.
  assert (HE : is_size E /\ asize <= E /\ 128 <= E).
  { unfold E, MAX. change CHUNKSIZE with 128.
    destruct (Z.gtb_spec asize 128); [split; [exact Hasize|lia]|].
    split; [|lia]. split; [|reflexivity].
    change (2 ^ 64) with 18446744073709551616. lia. }
  destruct HE as [[HE ME] [Ha Hc]]. split; [split; assumption|].
  split; [exact Ha|]. unfold WSIZE.
  pose proof (Z.div_mod E 16 ltac:(lia)) as Hd. rewrite ME in Hd.
  assert (Eq : E / 8 = E / 16 * 2).
  { replace E with (E / 16 * 2 * 8) at 1 by lia. apply Z.div_mul. lia. }
  rewrite Eq, Z.mod_mul by lia. lia.
Qed.

Let Ebrk : first + span bl = bp.
Proof. exact (ok_brk _ _ _ H). Qed.

Let Hbelow : forall j a, 0 <= j < LISTS -> In a (ls j) ->
               In a (frees first bl) /\ a + 2 * DSIZE <= bp.
Proof.
  intros j a Hj Ha. pose proof (heap_listed _ _ _ H j a Hj Ha) as Hf.
  split; [exact Hf|].
  destruct (frees_bounds _ _ _ _ (ok_tiles _ _ _ H) Hf) as [_ Hhi].
  pose proof Ebrk. unfold first in *. lia.
Qed.

Lemma grow_full :
  mem_max_addr st < bp + E -> extend_heap st (E / WSIZE) = (NULL, st).
Proof.
  destruct grow_size as [[HE _] [_ [Hw Es]]].
  intro Hfull. apply extend_heap_full; [exact Hw|lia|].
  rewrite Es. exact Hfull.
Qed.

Lemma grow_extended :
  bp + E <= mem_max_addr st ->
  exists st1,
    extend_heap st (E / WSIZE) = (bp, st1)
    /\ lists_ok st1 ls
    /\ GET_SIZE (mem st1) (HDRP bp) = E
    /\ GET (mem st1) (bp + E - WSIZE) = PACK 0 1
    /\ mem_brk st1 = bp + E
    /\ mem_max_addr st1 = mem_max_addr st
    /\ heap_listp st1 = heap_listp st
    /\ (forall q, q < bp - WSIZE -> mem st1 q = mem st q).
Proof.
  destruct grow_size as [HE [HaE [Hw Es]]].
  intro Hroom.
  destruct (extend_heap_spec st (E / WSIZE) Hw
              ltac:(rewrite Es; apply HE) ltac:(rewrite Es; exact Hroom))
    as [st1 [X [G1 [G2 [G3 [B1 [B2 [B3 [B4 [Fl Hout]]]]]]]]]].
  rewrite Es in G1, G2, G3, B1, Hout. fold bp in X, G1, G2, G3, B1, Hout.
  exists st1. split; [exact X|].
  assert (W : WSIZE = 8) by reflexivity.
  assert (D : DSIZE = 16) by reflexivity.
  destruct HE as [HE ME].
  split; [|split; [|split; [exact G3|split; [exact B1|split; [exact B3|
          split; [exact B4|]]]]]].
  - apply (lists_ok_frame (bp - WSIZE) (bp + E) st);
      [apply (ok_lists _ _ _ H)| | |exact Fl].
    + intros j a Hj Ha. destruct (Hbelow j a Hj Ha). rewrite W, D in *. lia.
    + intros q Hq. apply Hout; rewrite W, D in *; lia.
  - unfold GET_SIZE. rewrite G1. apply size_of_PACK; [split; assumption|auto].
  - intros q Hq. apply Hout; rewrite W, D in *; lia.
Qed.

Let H' : heap_ok st ls (bl ++ [] ++ []).
Proof. simpl. rewrite app_nil_r. exact H. Qed.

Lemma grow_pairs B' :
  first_alloc B' = true -> no_free_pair B' -> no_free_pair (bl ++ B' ++ []).
Proof.
  intros Hf HB. rewrite app_nil_r.
  apply no_free_pair_join; [apply (ok_pairs _ _ _ H)|exact HB|right; exact Hf].
Qed.

Lemma grow_split :
  bp + E <= mem_max_addr st -> 4 * WSIZE <= E - asize ->
  exists st1 st2 ls2,
    extend_heap st (E / WSIZE) = (bp, st1)
    /\ place fuel st1 bp asize = Some st2
    /\ heap_ok st2 ls2 (bl ++ [(asize, true); (E - asize, false)])
    /\ (forall q, live first bl q -> mem st2 q = mem st q)
    /\ (forall q, held first bl q -> mem st2 q = mem st q).
Proof.
  intros Hroom Hrem.
  assert (W : WSIZE = 8) by reflexivity.
  assert (D : DSIZE = 16) by reflexivity.
  destruct grow_size as [HE [HaE _]].
  destruct (grow_extended Hroom) as [st1 [X [Hok1 [S1 [G3 [B1 [B3 [B4 Hout]]]]]]]].
  pose proof (ok_base _ _ _ H) as Hbase. pose proof (ok_max _ _ _ H) as Hm.
  pose proof (tiles_span _ _ _ (ok_tiles _ _ _ H)) as Hsp.
  assert (Pb : is_ptr bp) by (unfold is_ptr; rewrite D in *; unfold first in *; lia).
  assert (Hc1 : clear_of (bp - WSIZE) (bp + E - WSIZE) ls).
  { intros j a Hj Ha. destruct (Hbelow j a Hj Ha). rewrite W, D in *. lia. }
  assert (Hfuel1 : forall j, 0 <= j < LISTS -> (length (ls j) <= fuel)%nat).
  { intros j Hj. pose proof (heap_bucket_length _ _ _ H j Hj). lia. }
  destruct (place_split fuel st1 ls bp asize Hok1 (ok_sep _ _ _ H)
              ltac:(rewrite S1; exact Hc1) Pb ltac:(rewrite S1; lia) Hasize
              ltac:(rewrite S1; rewrite D in *; lia) (ok_asc _ _ _ H) Hfuel1
              ltac:(rewrite S1; exact Hrem))
    as [st2 [P [[C1 [C2 [C3 C4]]] [G1 [G2 [G4 [G5 [Hok2 [Hfr2 _]]]]]]]]].
  rewrite S1 in G4, G5, Hok2, Hfr2.
  set (r := bp + asize) in *. set (k := mm_find_list_idx (E - asize)) in *.
  set (ls2 := set_bucket ls k (insert_policy k r (ls k))) in *.
  assert (Hk : 0 <= k < LISTS).
  { pose proof (mm_find_list_idx_range (E - asize)). unfold k, LISTS. lia. }
  assert (Sr : is_size (E - asize)).
  { destruct HE as [HE ME], Hasize as [Has Ma]. split; [lia|].
    rewrite Zminus_mod, ME, Ma. reflexivity. }
  assert (Hfar : forall j a, 0 <= j < LISTS -> In a (ls j) -> far r a).
  { intros j a Hj Ha. destruct (Hbelow j a Hj Ha).
    unfold far, r; rewrite W, D in *; lia. }
  assert (Hnl : forall q, bp - WSIZE <= q -> ~ in_links (ls k) q).
  { intros q Hq [a [Ha Haq]]. destruct (Hbelow k a Hk Ha). rewrite W, D in *. lia. }
  set (B' := [(asize, true); (E - asize, false)]).
  assert (EB : span B' = E) by (simpl; lia).
  assert (Hframe' : forall q,
             ~ (first + span bl - WSIZE <= q < first + span bl + span B' - WSIZE) ->
             (span B' <> span [] -> q < first + span bl - WSIZE) ->
             ~ in_links (frees first bl ++ frees (first + span bl + span []) []) q ->
             mem st2 q = mem st q).
  { intros q _ Hlow Hl. rewrite EB, Ebrk in Hlow. simpl in Hlow.
    specialize (Hlow ltac:(rewrite D in *; lia)).
    rewrite Hfr2; [apply Hout; exact Hlow| |lia].
    intros [a [Ha Haq]]. apply Hl. exists a. split; [|exact Haq].
    apply in_or_app. left. apply (Hbelow k a Hk Ha). }
  assert (Hspan : span B' = span [] \/ @nil (Z * bool) = []) by (right; reflexivity).
  exists st1, st2, ls2. split; [exact X|]. split; [exact P|]. split; [|split].
  - rewrite <- (app_nil_r (bl ++ B')), <- app_assoc.
    apply (heap_rebuild st st2 ls ls2 bl [] B' [] H').
    + congruence.
    + congruence.
    + rewrite EB. simpl. lia.
    + lia.
    + exact Hspan.
    + intros _. fold first. rewrite Ebrk, EB.
      rewrite <- G3. apply GET_keep. intros q Hq.
      apply Hfr2; [apply Hnl|]; rewrite W, D in *; lia.
    + exact Hframe'.
    + fold first. rewrite Ebrk. simpl. fold r.
      replace (r + (E - asize) - DSIZE) with (bp + E - DSIZE) by (unfold r; lia).
      repeat split; first [assumption | rewrite D in *; lia | apply Hasize | apply Sr].
    + exact Hok2.
    + apply sep_buckets_insert; [apply (ok_sep _ _ _ H)|exact Hk|exact Hfar].
    + intros j Hj. unfold ls2, set_bucket.
      destruct (Z.eqb_spec j k) as [->|_]; [|apply (ok_asc _ _ _ H); exact Hj].
      apply ascending_insert_policy;
        [intros _; apply (ok_asc _ _ _ H); exact Hj| |exact Hj].
      intro Hin. apply (far_neq r r); [|reflexivity]. apply (Hfar k); assumption.
    + intro x. fold first. rewrite Ebrk. simpl frees. fold r. split.
      * intros [j [Hj Hx]]. apply inserted_listed in Hx.
        destruct Hx as [[_ ->]|Hx]; [right; left; simpl; auto|].
        left. apply (Hbelow j x Hj Hx).
      * intros [Hx|[[<-|[]]|[]]].
        -- apply (ok_listed _ _ _ H) in Hx. destruct Hx as [j [Hj Hin]].
           exists j. split; [exact Hj|]. apply inserted_listed. auto.
        -- exists k. split; [exact Hk|]. apply inserted_listed. auto.
    + intros j c Hj Hc. fold first. rewrite Ebrk. simpl frees. fold r.
      apply inserted_listed in Hc. destruct Hc as [[-> ->]|Hc].
      * left. split; [simpl; auto|].
        unfold GET_SIZE. rewrite G4, size_of_PACK by auto. reflexivity.
      * right. split; [|exact Hc].
        intros [Er|[]]. apply (far_neq r c); [|exact Er].
        apply (Hfar j); assumption.
    + apply grow_pairs; [reflexivity|].
      simpl. repeat split; auto; discriminate.
  - intros q Hq.
    apply (rebuild_live st st2 ls bl [] B' [] H' Hspan Hframe').
    left. exact Hq.  - intros q Hq.
    apply (rebuild_held st st2 ls bl [] B' [] H' Hspan Hframe').
    left. exact Hq.
Qed.

Lemma grow_whole :
  bp + E <= mem_max_addr st -> E - asize < 4 * WSIZE ->
  exists st1 st2,
    extend_heap st (E / WSIZE) = (bp, st1)
    /\ place fuel st1 bp asize = Some st2
    /\ heap_ok st2 ls (bl ++ [(E, true)])
    /\ (forall q, live first bl q -> mem st2 q = mem st q)
    /\ (forall q, held first bl q -> mem st2 q = mem st q).
Proof.
  intros Hroom Hrem.
  assert (W : WSIZE = 8) by reflexivity.
  assert (D : DSIZE = 16) by reflexivity.
  destruct grow_size as [HE [HaE _]].
  destruct (grow_extended Hroom) as [st1 [X [Hok1 [S1 [G3 [B1 [B3 [B4 Hout]]]]]]]].
  pose proof (ok_base _ _ _ H) as Hbase. pose proof (ok_max _ _ _ H) as Hm.
  pose proof (tiles_span _ _ _ (ok_tiles _ _ _ H)) as Hsp.
  assert (Hc1 : clear_of (bp - WSIZE) (bp + E - WSIZE) ls).
  { intros j a Hj Ha. destruct (Hbelow j a Hj Ha). rewrite W, D in *. lia. }
  destruct (place_whole fuel st1 ls bp asize Hok1
              ltac:(rewrite S1; exact Hc1) Hasize
              ltac:(rewrite S1; rewrite D in *; lia)
              ltac:(rewrite S1; exact Hrem))
    as [st2 [P [[C1 [C2 [C3 C4]]] [G1 [G2 [Hok2 [_ Hfr2]]]]]]].
  rewrite S1 in G1, G2, Hfr2.
  set (B' := [(E, true)]).
  assert (EB : span B' = E) by (simpl; lia).
  assert (Hframe' : forall q,
             ~ (first + span bl - WSIZE <= q < first + span bl + span B' - WSIZE) ->
             (span B' <> span [] -> q < first + span bl - WSIZE) ->
             ~ in_links (frees first bl ++ frees (first + span bl + span []) []) q ->
             mem st2 q = mem st q).
  { intros q _ Hlow Hl. rewrite EB, Ebrk in Hlow. simpl in Hlow.
    specialize (Hlow ltac:(rewrite D in *; lia)).
    rewrite Hfr2; [apply Hout; exact Hlow| |]; rewrite W, D in *; lia. }
  assert (Hspan : span B' = span [] \/ @nil (Z * bool) = []) by (right; reflexivity).
  exists st1, st2. split; [exact X|]. split; [exact P|]. split; [|split].
  - rewrite <- (app_nil_r (bl ++ B')), <- app_assoc.
    apply (heap_rebuild st st2 ls ls bl [] B' [] H').
    + congruence.
    + congruence.
    + rewrite EB. simpl. lia.
    + lia.
    + exact Hspan.
    + intros _. fold first. rewrite Ebrk, EB.
      rewrite <- G3. apply GET_keep. intros q Hq.
      apply Hfr2; rewrite W, D in *; lia.
    + exact Hframe'.
    + fold first. rewrite Ebrk. simpl.
      repeat split; first [assumption | rewrite D in *; lia | apply HE].
    + exact Hok2.
    + apply (ok_sep _ _ _ H).
    + apply (ok_asc _ _ _ H).
    + intro x. fold first. rewrite Ebrk. simpl frees. split.
      * intros [j [Hj Hx]]. left. apply (Hbelow j x Hj Hx).
      * intros [Hx|[[]|[]]]. apply (ok_listed _ _ _ H). exact Hx.
    + intros j c Hj Hc. fold first. rewrite Ebrk. simpl frees.
      right. split; [intros []|exact Hc].
    + apply grow_pairs; [reflexivity|].
      simpl. repeat split; auto; discriminate.
  - intros q Hq.
    apply (rebuild_live st st2 ls bl [] B' [] H' Hspan Hframe').
    left. exact Hq.  - intros q Hq.
    apply (rebuild_held st st2 ls bl [] B' [] H' Hspan Hframe').
    left. exact Hq.
Qed.

End Grow.

Section Malloc.

Lemma all_free_allocs R : forall bp,
  forallb (fun blk => negb (snd blk)) R = true -> allocs bp R = [].
Proof.
  induction R as [|[s a] R IH]; simpl; intros bp HR; [reflexivity|].
  apply andb_true_iff in HR. destruct HR as [Ha HR]. destruct a; [discriminate|].
  apply IH. exact HR.
Qed.

Lemma all_free_live R q : forall bp,
  forallb (fun blk => negb (snd blk)) R = true -> ~ live bp R q.
Proof.
  induction R as [|[s a] R IH]; simpl; intros bp HR; [tauto|].
  apply andb_true_iff in HR. destruct HR as [Ha HR]. destruct a; [discriminate|].
  intros [[Hf _]|Hl]; [discriminate|]. exact (IH _ HR Hl).
Qed.

(** The allocated blocks after a free part [B] of the heap has been
    replaced by an allocated block followed by a free part [R]. *)
Lemma allocs_replaced first l1 B s R l2 :
  forallb (fun blk => negb (snd blk)) B = true ->
  forallb (fun blk => negb (snd blk)) R = true ->
  span ((s, true) :: R) = span B \/ l2 = [] ->
  forall q,
    In q (allocs first (l1 ++ ((s, true) :: R) ++ l2))
    <-> q = first + span l1 \/ In q (allocs first (l1 ++ B ++ l2)).
Proof.
  intros HB HR Hs q. rewrite !allocs_app. simpl allocs.
  rewrite (all_free_allocs B _ HB), (all_free_allocs R _ HR). simpl.
  rewrite !in_app_iff. simpl.
  destruct Hs as [Es| ->]; [|simpl; intuition congruence].
  simpl in Es. rewrite Es. intuition congruence.
Qed.

Lemma live_replaced first l1 B s R l2 q :
  forallb (fun blk => negb (snd blk)) B = true ->
  span ((s, true) :: R) = span B \/ l2 = [] ->
  live first (l1 ++ B ++ l2) q -> live first (l1 ++ ((s, true) :: R) ++ l2) q.
Proof.
  intros HB Hs Hq. apply live_app in Hq. apply live_app.
  destruct Hq as [Hq|Hq]; [left; exact Hq|right].
  apply live_app in Hq. destruct Hq as [Hq|Hq];
    [destruct (all_free_live B q _ HB Hq)|].
  apply (live_app ((s, true) :: R) l2). right.
  destruct Hs as [Es|El2]; [rewrite Es; exact Hq|].
  rewrite El2 in Hq. destruct Hq.
Qed.

Lemma find_fit_result fuel st ls asize :
  lists_ok st ls -> sep_buckets ls ->
  (forall i, 0 <= i < LISTS -> (length (ls i) <= fuel)%nat) ->
  (exists i b,
      0 <= i < LISTS /\ In b (ls i)
      /\ asize <= GET_SIZE (mem st) (HDRP b)
      /\ find_fit fuel st asize = Some (b, mm_remove_fblock st b i)
      /\ b <> NULL)
  \/ ((forall j c, mm_find_list_idx asize <= j < LISTS -> In c (ls j) ->
         GET_SIZE (mem st) (HDRP c) < asize)
      /\ find_fit fuel st asize = Some (NULL, st)).
Proof.
  intros Hok Hsep Hfuel. unfold find_fit.
  set (k := mm_find_list_idx asize).
  pose proof (mm_find_list_idx_range asize) as Hk. fold k in Hk.
  assert (En : Z.to_nat LISTS = (Z.to_nat (LISTS - k) + Z.to_nat k)%nat)
    by (unfold LISTS in *; lia).
  rewrite En.
  destruct (find_fit_loop_spec fuel st ls asize (Z.to_nat (LISTS - k)) k
              Hok Hsep Hfuel ltac:(lia) ltac:(unfold LISTS in *; lia))
    as [[i [b [l1 [l2 [st' [H1 [H2 [H3 [_ [_ [H6 [H7 [H8 _]]]]]]]]]]]]]|[H1 H2]].
  - left. exists i, b. split; [lia|]. split; [rewrite H2; apply in_or_app; simpl; auto|].
    split; [exact H3|]. split; [|exact H7].
    rewrite <- H8. apply find_fit_loop_more. exact H6.
  - right. split; [|apply find_fit_loop_more; exact H2].
    intros j c Hj Hc. specialize (H1 j Hj). rewrite Forall_forall in H1. auto.
Qed.

End Malloc.

Lemma mm_malloc_heap fuel st ls bl size :
  heap_ok st ls bl ->
  0 < size <= 2 ^ 64 - 32 ->
  (length bl <= fuel)%nat ->
  let first := heap_listp st + DSIZE in
  let asize := adjust_size size in
  exists p st',
    mm_malloc fuel st size = Some (p, st')
    /\ ((p = NULL /\ st' = st
         /\ mem_max_addr st < mem_brk st + MAX asize CHUNKSIZE
         /\ (forall j c, mm_find_list_idx asize <= j < LISTS -> In c (ls j) ->
               GET_SIZE (mem st) (HDRP c) < asize))
        \/ exists ls' l1 s l2,
             heap_ok st' ls' (l1 ++ (s, true) :: l2)
             /\ p = first + span l1
             /\ p mod DSIZE = 0
             /\ size <= s - DSIZE
             /\ ~ In p (allocs first bl)
             /\ (forall q, In q (allocs first (l1 ++ (s, true) :: l2))
                           <-> q = p \/ In q (allocs first bl))
             /\ (forall b, live first bl b ->
                   live first (l1 ++ (s, true) :: l2) b
                   /\ mem st' b = mem st b)
             /\ (forall b, held first bl b -> mem st' b = mem st b)
             /\ (length (l1 ++ (s, true) :: l2) <= length bl + 2)%nat).
Proof.
  intros H Hsize Hfuel first asize.
  destruct (adjust_size_spec size Hsize) as [Ma [H32 [Hlo Hhi]]].
  fold asize in Ma, H32, Hlo, Hhi.
  assert (D : DSIZE = 16) by reflexivity.
  assert (W : WSIZE = 8) by reflexivity.
  assert (Sa : is_size asize).
  { split; [|exact Ma]. change (2 ^ 64) with 18446744073709551616 in *.
    rewrite D in *. lia. }
  assert (Hlen : forall j, 0 <= j < LISTS -> (length (ls j) <= fuel)%nat).
  { intros j Hj. pose proof (heap_bucket_length _ _ _ H j Hj). lia. }
  unfold mm_malloc. fold asize.
  destruct (Z.eqb_spec size 0) as [|_]; [lia|].
  destruct (find_fit_result fuel st ls asize (ok_lists _ _ _ H)
              (ok_sep _ _ _ H) Hlen)
    as [[i [b [Hi [Hb [Hfit [Ef Hnn]]]]]]|[Hnone Ef]]; rewrite Ef.
  - (* a listed block fits *)
    replace (negb (b =? NULL)) with true
      by (symmetry; apply negb_true_iff, Z.eqb_neq; exact Hnn).
    pose proof (heap_listed _ _ _ H i b Hi Hb) as Hf. fold first in Hf.
    destruct (frees_In_split _ _ _ Hf) as [l1 [s [l2 [Ebl Eb]]]].
    destruct (heap_listed_size _ _ _ H i b l1 s l2 Hi Hb Ebl Eb) as [Es _].
    rewrite Es in Hfit.
    assert (H' : heap_ok st ls (l1 ++ [(s, false)] ++ l2))
      by (simpl; rewrite <- Ebl; exact H).
    assert (Hfuel' : (length (l1 ++ [(s, false)] ++ l2) <= fuel)%nat)
      by (simpl; rewrite <- Ebl; exact Hfuel).
    pose proof (ok_tiles _ _ _ H') as Ht. fold first in Ht.
    apply tiles_app in Ht. destruct Ht as [T1 Ht]. rewrite <- Eb in Ht.
    simpl in Ht. destruct Ht as [Ss [S32 [_ [_ T2]]]].
    assert (Hnew : ~ In b (allocs first bl)).
    { rewrite Ebl, allocs_app, <- Eb. simpl. intro Hin.
      apply in_app_or in Hin. destruct Hin as [Hin|Hin].
      - destruct (allocs_bounds _ _ _ _ T1 Hin). rewrite D in *. lia.
      - destruct (allocs_bounds _ _ _ _ T2 Hin). rewrite D in *. lia. }
    rewrite Eb in Hb.
    destruct (Z_le_gt_dec (4 * WSIZE) (s - asize)) as [Hrem|Hrem].
    + destruct (fit_split fuel st ls l1 l2 s i asize H' Hi Hb Sa
                  ltac:(lia) Hfuel' Hrem) as [st2 [ls2 [P [HR [Hlive Hheld]]]]].
      fold first in P, HR, Hlive, Hheld. rewrite <- Eb in P, Hlive, Hheld. rewrite P.
      exists b, st2. split; [reflexivity|]. right.
      exists ls2, l1, asize, ((s - asize, false) :: l2).
      split; [exact HR|]. split; [exact Eb|].
      split; [rewrite Eb; apply (heap_block_aligned _ _ _ H _ _ Ebl)|].
      split; [lia|].
      split; [exact Hnew|]. split; [|split; [|split]].
      * intro q. rewrite Ebl, Eb.
        apply (allocs_replaced first l1 [(s, false)] asize [(s - asize, false)] l2);
          [reflexivity|reflexivity|left; simpl; lia].
      * intros q Hq. split.
        -- rewrite Ebl in Hq.
           apply (live_replaced first l1 [(s, false)] asize [(s - asize, false)] l2);
             [reflexivity|left; simpl; lia|exact Hq].
        -- apply Hlive. rewrite Ebl in Hq. apply live_app in Hq.
           rewrite <- Eb in Hq. simpl in Hq.
           destruct Hq as [Hq|[[Hq _]|Hq]]; [auto|discriminate|auto].
      * intros q Hq. apply Hheld. rewrite Ebl in Hq. apply held_app in Hq.
        rewrite <- Eb in Hq. simpl in Hq.
        destruct Hq as [Hq|[[Hq _]|Hq]]; [auto|discriminate|auto].
      * rewrite Ebl, !length_app. simpl. lia.
    + destruct (fit_whole fuel st ls l1 l2 s i asize H' Hi Hb Sa
                  ltac:(lia) Hfuel' ltac:(lia)) as [st2 [P [HR [Hlive Hheld]]]].
      fold first in P, HR, Hlive, Hheld. rewrite <- Eb in P, Hlive, Hheld. rewrite P.
      exists b, st2. split; [reflexivity|]. right.
      exists (set_bucket ls i (remove_block (first + span l1) (ls i))), l1, s, l2.
      split; [exact HR|]. split; [exact Eb|].
      split; [rewrite Eb; apply (heap_block_aligned _ _ _ H _ _ Ebl)|].
      split; [lia|].
      split; [exact Hnew|]. split; [|split; [|split]].
      * intro q. rewrite Ebl, Eb.
        apply (allocs_replaced first l1 [(s, false)] s [] l2);
          [reflexivity|reflexivity|left; simpl; lia].
      * intros q Hq. split.
        -- rewrite Ebl in Hq.
           apply (live_replaced first l1 [(s, false)] s [] l2);
             [reflexivity|left; simpl; lia|exact Hq].
        -- apply Hlive. rewrite Ebl in Hq. apply live_app in Hq.
           rewrite <- Eb in Hq. simpl in Hq.
           destruct Hq as [Hq|[[Hq _]|Hq]]; [auto|discriminate|auto].
      * intros q Hq. apply Hheld. rewrite Ebl in Hq. apply held_app in Hq.
        rewrite <- Eb in Hq. simpl in Hq.
        destruct Hq as [Hq|[[Hq _]|Hq]]; [auto|discriminate|auto].
      * rewrite Ebl, !length_app. simpl. lia.
  - (* no fit: the arena grows *)
    rewrite Z.eqb_refl. cbn [negb].
    set (E := MAX asize CHUNKSIZE).
    pose proof (ok_base _ _ _ H) as Hbase.
    pose proof (tiles_span _ _ _ (ok_tiles _ _ _ H)) as Hsp.
    pose proof (ok_brk _ _ _ H) as Hbrk. fold first in Hbrk.
    assert (Hnn : (mem_brk st =? NULL) = false).
    { apply Z.eqb_neq. unfold NULL, first in *. rewrite D in *. lia. }
    assert (Hnew : ~ In (mem_brk st) (allocs first bl)).
    { intro Hin. destruct (allocs_bounds _ _ _ _ (ok_tiles _ _ _ H) Hin).
      unfold first in *. rewrite D in *. lia. }
    destruct (Z_le_gt_dec (mem_brk st + E) (mem_max_addr st)) as [Hroom|Hfull].
    + destruct (grow_size fuel st bl asize Sa Hfuel) as [_ [HaE _]]. fold E in HaE.
      destruct (Z_le_gt_dec (4 * WSIZE) (E - asize)) as [Hrem|Hrem].
      * destruct (grow_split fuel st ls bl asize H Sa H32 Hfuel Hroom Hrem)
          as [st1 [st2 [ls2 [X [P [HR [Hlive Hheld]]]]]]].
        fold E in X. rewrite X, Hnn, P.
        exists (mem_brk st), st2. split; [reflexivity|]. right.
        exists ls2, bl, asize, [(E - asize, false)].
        split; [exact HR|]. split; [fold first; lia|].
        split; [rewrite <- Hbrk;
                apply (heap_block_aligned _ _ _ H bl [] (eq_sym (app_nil_r bl)))|].
        split; [lia|].
        split; [exact Hnew|]. split; [|split; [|split]].
        -- intro q. rewrite allocs_app, in_app_iff. simpl. rewrite Hbrk.
           intuition congruence.
        -- intros q Hq. split; [|apply Hlive; exact Hq].
           apply live_app. left. exact Hq.
        -- intros q Hq. apply Hheld. exact Hq.
        -- rewrite length_app. simpl. lia.
      * destruct (grow_whole fuel st ls bl asize H Sa H32 Hfuel Hroom ltac:(lia))
          as [st1 [st2 [X [P [HR [Hlive Hheld]]]]]].
        fold E in X, HR. rewrite X, Hnn, P.
        exists (mem_brk st), st2. split; [reflexivity|]. right.
        exists ls, bl, E, [].
        split; [exact HR|]. split; [fold first; lia|].
        split; [rewrite <- Hbrk;
                apply (heap_block_aligned _ _ _ H bl [] (eq_sym (app_nil_r bl)))|].
        split; [lia|].
        split; [exact Hnew|]. split; [|split; [|split]].
        -- intro q. rewrite allocs_app, in_app_iff. simpl. rewrite Hbrk.
           intuition congruence.
        -- intros q Hq. split; [|apply Hlive; exact Hq].
           apply live_app. left. exact Hq.
        -- intros q Hq. apply Hheld. exact Hq.
        -- rewrite length_app. simpl. lia.
    + pose proof (grow_full fuel st bl asize Sa Hfuel ltac:(fold E; lia)) as X.
      fold E in X. rewrite X, Z.eqb_refl.
      exists NULL, st. split; [reflexivity|]. left.
      split; [reflexivity|]. split; [reflexivity|]. split; [lia|exact Hnone].
Qed.

(** ** The audit on a well-formed heap *)

Section AuditComplete.

Lemma tag_size m q s a : is_size s -> GET m q = PACK s (Z.b2z a) -> GET_SIZE m q = s.
Proof.
  intros Hs E. unfold GET_SIZE. rewrite E. apply size_of_PACK; [exact Hs|].
  destruct a; auto.
Qed.

Lemma tag_alloc m q s a :
  is_size s -> GET m q = PACK s (Z.b2z a) -> GET_ALLOC m q = Z.b2z a.
Proof.
  intros Hs E. unfold GET_ALLOC. rewrite E. apply alloc_of_PACK; [exact Hs|].
  destruct a; auto.
Qed.

Lemma zero_size : is_size 0.
Proof. split; [change (2 ^ 64) with 18446744073709551616; lia|reflexivity]. Qed.

Lemma check_contiguous_tiles m : forall l fuel bp ps pa,
  tiles m bp l -> GET m (HDRP (bp + span l)) = PACK 0 1 ->
  GET_SIZE m (bp - DSIZE) = ps -> GET_ALLOC m (HDRP (bp - ps)) = Z.b2z pa ->
  no_free_pair l -> (pa = false -> first_alloc l = true) ->
  (length l <= fuel)%nat ->
  check_contiguous fuel m bp = Some true.
Proof.
  induction l as [|[s a] l IH]; intros fuel bp ps pa Ht He Hps Hpa Hp Hfa Hfuel.
  - simpl in He. rewrite Z.add_0_r in He.
    assert (E0 : GET_SIZE m (HDRP bp) = 0)
      by (apply (tag_size m _ 0 true zero_size); exact He).
    destruct fuel; simpl; rewrite E0; reflexivity.
  - simpl in Ht. destruct Ht as [Hs [H32 [Hh [Hf Ht]]]].
    simpl in He. replace (bp + (s + span l)) with (bp + s + span l) in He by lia.
    destruct fuel as [|fuel]; [simpl in Hfuel; lia|].
    assert (Es : GET_SIZE m (HDRP bp) = s) by (apply (tag_size m _ s a); assumption).
    assert (Ea : GET_ALLOC m (HDRP bp) = Z.b2z a) by (apply (tag_alloc m _ s a); assumption).
    assert (En : NEXT_BLKP m bp = bp + s).
    { unfold NEXT_BLKP. fold (HDRP bp). rewrite Es. reflexivity. }
    assert (Ep : PREV_BLKP m bp = bp - ps) by (unfold PREV_BLKP; rewrite Hps; reflexivity).
    cbn [check_contiguous]. rewrite Es, Ea, En, Ep, Hpa.
    replace (s >? 0) with true
      by (symmetry; rewrite Z.gtb_ltb; apply Z.ltb_lt; unfold DSIZE, WSIZE in *; lia).
    simpl in Hp. destruct Hp as [Hp1 Hp2].
    assert (Hcond : (Z.b2z a =? 0) && (Z.b2z pa =? 0)
                    || (Z.b2z a =? 0) && (GET_ALLOC m (HDRP (bp + s)) =? 0) = false).
    { destruct a; [reflexivity|]. simpl in Hfa.
      destruct pa; [|specialize (Hfa eq_refl); discriminate]. simpl.
      specialize (Hp1 eq_refl).
      destruct l as [|[s' a'] l'].
      - simpl in He. rewrite Z.add_0_r in He.
        rewrite (tag_alloc m _ 0 true zero_size He). reflexivity.
      - destruct a'; [|contradiction]. simpl in Ht.
        destruct Ht as [Hs' [_ [Hh' _]]].
        rewrite (tag_alloc m _ s' true Hs' Hh'). reflexivity. }
    rewrite Hcond.
    apply (IH fuel (bp + s) s a); try assumption.
    + replace (bp + s - DSIZE) with (bp + s - DSIZE) by lia.
      apply (tag_size m _ s a); assumption.
    + replace (bp + s - s) with bp by lia. exact Ea.
    + intros ->. specialize (Hp1 eq_refl).
      destruct l as [|[s' [|]] l']; simpl; auto.
    + simpl in Hfuel. lia.
Qed.

Lemma check_bounds_tiles m : forall l fuel bp,
  tiles m bp l -> GET m (HDRP (bp + span l)) = PACK 0 1 ->
  (length l <= fuel)%nat ->
  check_bounds fuel m bp = Some true.
Proof.
  induction l as [|[s a] l IH]; intros fuel bp Ht He Hfuel.
  - simpl in He. rewrite Z.add_0_r in He.
    assert (E0 : GET_SIZE m (HDRP bp) = 0)
      by (apply (tag_size m _ 0 true zero_size); exact He).
    destruct fuel; simpl; rewrite E0; reflexivity.
  - simpl in Ht. destruct Ht as [Hs [H32 [Hh [Hf Ht]]]].
    simpl in He. replace (bp + (s + span l)) with (bp + s + span l) in He by lia.
    destruct fuel as [|fuel]; [simpl in Hfuel; lia|].
    assert (Es : GET_SIZE m (HDRP bp) = s) by (apply (tag_size m _ s a); assumption).
    assert (En : NEXT_BLKP m bp = bp + s).
    { unfold NEXT_BLKP. fold (HDRP bp). rewrite Es. reflexivity. }
    cbn [check_bounds]. rewrite Es, En.
    replace (s =? 0) with false
      by (symmetry; apply Z.eqb_neq; unfold DSIZE, WSIZE in *; lia).
    simpl. apply IH; try assumption. simpl in Hfuel. lia.
Qed.

Lemma check_listed_tiles st ls K : forall l fuel bp found,
  tiles (mem st) bp l -> GET (mem st) (HDRP (bp + span l)) = PACK 0 1 ->
  lists_ok st ls ->
  (forall x, In x (frees bp l) ->
     let i := mm_find_list_idx (GET_SIZE (mem st) (HDRP x)) in
     In x (ls i) /\ (length (ls i) <= K)%nat) ->
  (length l + K <= fuel)%nat ->
  check_listed fuel st bp found = Some true.
Proof.
  induction l as [|[s a] l IH]; intros fuel bp found Ht He Hok Hl Hfuel.
  - simpl in He. rewrite Z.add_0_r in He.
    assert (E0 : GET_SIZE (mem st) (HDRP bp) = 0)
      by (apply (tag_size _ _ 0 true zero_size); exact He).
    destruct fuel; simpl; rewrite E0; reflexivity.
  - simpl in Ht. destruct Ht as [Hs [H32 [Hh [Hf Ht]]]].
    simpl in He. replace (bp + (s + span l)) with (bp + s + span l) in He by lia.
    destruct fuel as [|fuel]; [simpl in Hfuel; lia|].
    assert (Es : GET_SIZE (mem st) (HDRP bp) = s)
      by (apply (tag_size _ _ s a); assumption).
    assert (Ea : GET_ALLOC (mem st) (HDRP bp) = Z.b2z a)
      by (apply (tag_alloc _ _ s a); assumption).
    assert (En : NEXT_BLKP (mem st) bp = bp + s).
    { unfold NEXT_BLKP. fold (HDRP bp). rewrite Es. reflexivity. }
    assert (Hl' : forall x, In x (frees (bp + s) l) ->
              let i := mm_find_list_idx (GET_SIZE (mem st) (HDRP x)) in
              In x (ls i) /\ (length (ls i) <= K)%nat).
    { intros x Hx. apply Hl. simpl. destruct a; simpl; auto. }
    cbn [check_listed]. rewrite Es, Ea, En.
    replace (s >? 0) with true
      by (symmetry; rewrite Z.gtb_ltb; apply Z.ltb_lt; unfold DSIZE, WSIZE in *; lia).
    destruct a; simpl Z.b2z; cbn [Z.eqb].
    + apply IH; try assumption. simpl in Hfuel. lia.
    + destruct (Hl bp ltac:(simpl; auto)) as [Hin Hlen]. rewrite Es in Hin, Hlen.
      pose proof (mm_find_list_idx_range s) as Hr.
      assert (Hs1 : search_list (S fuel) (mem st) bp
                      (free_lists st (mm_find_list_idx s)) found = Some true).
      { destruct found.
        - simpl. rewrite andb_false_r. reflexivity.
        - assert (Hr' : 0 <= mm_find_list_idx s < LISTS) by (unfold LISTS; lia).
          apply (search_list_found _ _ _ NULL _ _ (Hok _ Hr') Hin).
          simpl in Hfuel. lia. }
      rewrite Hs1. simpl. apply IH; try assumption. simpl in Hfuel. lia.
Qed.

Lemma check_valid_free m l : forall p h fuel,
  dll m p h l -> Forall (fun x => GET_ALLOC m (HDRP x) = 0) l ->
  (length l <= fuel)%nat ->
  check_valid fuel m h = Some true.
Proof.
  induction l as [|x l IH]; intros p h fuel H Hf Hfuel; simpl in H.
  - subst h. destruct fuel; reflexivity.
  - destruct H as [-> [Hx [_ Hrest]]].
    assert (Ex : (x =? NULL) = false)
      by (apply Z.eqb_neq; unfold is_ptr, NULL in *; lia).
    inversion Hf as [|? ? Hxa Hla]; subst.
    destruct fuel as [|fuel]; [simpl in Hfuel; lia|].
    cbn [check_valid]. rewrite Ex, Hxa. simpl negb. cbv iota.
    replace (NEXT_BLKP m x <? x + GET_SIZE m (HDRP x)) with false
      by (symmetry; apply Z.ltb_ge; unfold NEXT_BLKP, HDRP; lia).
    rewrite andb_false_r.
    apply (IH x); [exact Hrest|exact Hla|simpl in Hfuel; lia].
Qed.

Lemma count_list_chain m l : forall p h fuel,
  dll m p h l -> (length l <= fuel)%nat -> count_list fuel m h = Some true.
Proof.
  induction l as [|x l IH]; intros p h fuel H Hfuel; simpl in H.
  - subst h. destruct fuel; reflexivity.
  - destruct H as [-> [Hx [_ Hrest]]].
    assert (Ex : (x =? NULL) = false)
      by (apply Z.eqb_neq; unfold is_ptr, NULL in *; lia).
    destruct fuel as [|fuel]; [simpl in Hfuel; lia|].
    cbn [count_list]. rewrite Ex.
    apply (IH x); [exact Hrest|simpl in Hfuel; lia].
Qed.

Variables (st : state) (ls : buckets) (bl : list (Z * bool)).
Hypothesis H : heap_ok st ls bl.

Lemma mm_check_heap fuel :
  (2 * length bl + 1 <= fuel)%nat -> mm_check fuel st = Some 1.
Proof.
  intro Hfuel.
  assert (D : DSIZE = 16) by reflexivity.
  assert (W : WSIZE = 8) by reflexivity.
  set (hl := heap_listp st). set (m := mem st).
  pose proof (ok_prologue_hdr _ _ _ H) as Ph. fold hl m in Ph.
  pose proof (ok_prologue_ftr _ _ _ H) as Pf. fold hl m in Pf.
  pose proof (ok_tiles _ _ _ H) as Ht. fold hl m in Ht.
  pose proof (ok_epilogue _ _ _ H) as He. fold m in He.
  pose proof (ok_brk _ _ _ H) as Hb. fold hl in Hb.
  pose proof (ok_lists _ _ _ H) as Hok.
  assert (S16 : is_size 16) by (split; [change (2 ^ 64) with 18446744073709551616; lia|reflexivity]).
  assert (He' : GET m (HDRP (hl + DSIZE + span bl)) = PACK 0 1).
  { rewrite Hb. exact He. }
  assert (Es : GET_SIZE m (HDRP hl) = 16) by (apply (tag_size m _ 16 true S16); exact Ph).
  assert (Ea : GET_ALLOC m (HDRP hl) = 1) by (apply (tag_alloc m _ 16 true S16); exact Ph).
  assert (En : NEXT_BLKP m hl = hl + DSIZE).
  { unfold NEXT_BLKP. fold (HDRP hl). rewrite Es. reflexivity. }
  assert (Hlen : forall i, 0 <= i < LISTS -> (length (ls i) <= length bl)%nat)
    by (intros i Hi; apply (heap_bucket_length _ _ _ H i Hi)).
  destruct fuel as [|fuel]; [lia|].
  assert (C2 : check_contiguous (S fuel) m hl = Some true).
  { cbn [check_contiguous]. rewrite Es, Ea, En. simpl.
    apply (check_contiguous_tiles m bl fuel (hl + DSIZE) 16 true); auto.
    - replace (hl + DSIZE - DSIZE) with hl by lia.
      apply (tag_size m _ 16 true S16); exact Pf.
    - replace (hl + DSIZE - 16) with hl by lia. exact Ea.
    - apply (ok_pairs _ _ _ H).
    - discriminate.
    - lia. }
  assert (C3 : check_listed (S fuel) st hl false = Some true).
  { cbn [check_listed]. fold m. fold hl. rewrite Es, Ea, En. simpl.
    apply (check_listed_tiles st ls (length bl) bl fuel (hl + DSIZE)); auto.
    - intros x Hx i.
      pose proof Hx as Hx'. apply (ok_listed _ _ _ H) in Hx'.
      destruct Hx' as [j [Hj Hin]].
      assert (Ei : i = j) by (apply (ok_sizes _ _ _ H); assumption).
      rewrite Ei. split; [exact Hin|apply Hlen; exact Hj].
    - lia. }
  assert (C5 : check_bounds (S fuel) m hl = Some true).
  { cbn [check_bounds]. rewrite Es, En. simpl.
    apply (check_bounds_tiles m bl fuel (hl + DSIZE)); auto. lia. }
  assert (L : forall f,
             (forall i, 0 <= i < LISTS -> f (free_lists st i) = Some true) ->
             for_each_list (Z.to_nat LISTS) 0 (fun i => f (free_lists st i))
             = Some true).
  { intros f Hf. apply for_each_list_all. intros j Hj. apply Hf.
    unfold LISTS in *. simpl in Hj. lia. }
  unfold mm_check. fold m. fold hl.
  rewrite (L (check_marked (S fuel) m)).
  2:{ intros i Hi. apply (check_marked_even m (ls i) NULL); [apply Hok; exact Hi| |].
      - apply Forall_forall. intros x Hx.
        pose proof (heap_listed _ _ _ H i x Hi Hx) as Hf.
        destruct (frees_In_split _ _ _ Hf) as [l1 [s [l2 [E Ex]]]].
        pose proof (heap_block_aligned _ _ _ H l1 _ E) as Hal.
        rewrite <- Ex in Hal. rewrite D in Hal.
        pose proof (Z.div_mod x 16 ltac:(lia)) as Hd. rewrite Hal in Hd.
        replace x with (x / 16 * 8 * 2) by lia. apply Z.mod_mul. lia.
      - specialize (Hlen i Hi). lia. }
  rewrite C2, C3.
  rewrite (L (check_valid (S fuel) m)).
  2:{ intros i Hi. apply (check_valid_free m (ls i) NULL); [apply Hok; exact Hi| |].
      - apply Forall_forall. intros x Hx.
        pose proof (heap_listed _ _ _ H i x Hi Hx) as Hf.
        destruct (frees_In_split _ _ _ Hf) as [l1 [s [l2 [E Ex]]]].
        pose proof Ht as Ht'. rewrite E in Ht'. apply tiles_app in Ht'.
        destruct Ht' as [_ Ht']. simpl in Ht'. destruct Ht' as [Hs [_ [Hh _]]].
        unfold hl in Hh. rewrite <- Ex in Hh.
        apply (tag_alloc m _ s false Hs Hh).
      - specialize (Hlen i Hi). lia. }
  rewrite C5.
  rewrite (L (count_list (S fuel) m)).
  2:{ intros i Hi. apply (count_list_chain m (ls i) NULL); [apply Hok; exact Hi|].
      specialize (Hlen i Hi). lia. }
  reflexivity.
Qed.

End AuditComplete.

Lemma mm_init_heap st :
  0 <= mem_brk st -> mem_brk st mod DSIZE = 0 ->
  mem_brk st + 4 * WSIZE <= mem_max_addr st -> mem_max_addr st < 2 ^ 64 ->
  fst (mm_init st) = 0 /\ heap_ok (snd (mm_init st)) (fun _ => []) [].
Proof.
  intros H0 Hal Hroom Hmax.
  destruct (mm_init_success st Hroom)
    as [s [E [Eh [_ [Eb [Em [Ef [G0 [G1 [G2 [G3 Hout]]]]]]]]]]].
  rewrite E. split; [reflexivity|]. simpl snd.
  set (p := mem_brk st) in *.
  assert (D : DSIZE = 16) by reflexivity.
  assert (W : WSIZE = 8) by reflexivity.
  constructor.
  - rewrite Eh. lia.
  - rewrite Eh, D in *.
    pose proof (Z.div_mod p 16 ltac:(lia)) as Hd. rewrite Hal in Hd.
    replace (p + 16) with ((p / 16 + 1) * 16) by lia. apply Z.mod_mul. lia.
  - rewrite Eb, Em. lia.
  - rewrite Eh. replace (HDRP (p + DSIZE)) with (p + WSIZE)
      by (unfold HDRP; rewrite D, W; lia). exact G1.
  - rewrite Eh. exact G2.
  - exact I.
  - rewrite Eh, Eb, D, W. simpl. lia.
  - rewrite Eb. replace (p + 4 * WSIZE - WSIZE) with (p + 3 * WSIZE) by lia.
    exact G3.
  - intros i Hi. simpl. apply Ef. exact Hi.
  - split; [intros; exact I|]. intros i j a b _ _ _ [].
  - intros i c _ [].
  - intros j _. exact I.
  - intro x. simpl. split; [intros []|intros [i [_ []]]].
  - exact I.
Qed.

(** ** mm_free on a well-formed heap *)

Section Free.

Variables (fuel : nat) (st0 : state) (ls : buckets).
Variables (l1 l2 : list (Z * bool)) (s : Z).
Hypothesis H : heap_ok st0 ls (l1 ++ [(s, true)] ++ l2).
Hypothesis Hfuel : (length (l1 ++ [(s, true)] ++ l2) <= fuel)%nat.

Let first := heap_listp st0 + DSIZE.
Let p := first + span l1.
Let st := mark_free st0 p.
Let blm := l1 ++ [(s, false)] ++ l2.

Let W : WSIZE = 8 := eq_refl.
Let D : DSIZE = 16 := eq_refl.

Let T1 : tiles (mem st0) first l1.
Proof.
  pose proof (ok_tiles _ _ _ H) as Ht. apply tiles_app in Ht. tauto.
Qed.

Let Tp : is_size s /\ 2 * DSIZE <= s
         /\ GET (mem st0) (HDRP p) = PACK s 1
         /\ GET (mem st0) (p + s - DSIZE) = PACK s 1
         /\ tiles (mem st0) (p + s) l2.
Proof.
  pose proof (ok_tiles _ _ _ H) as Ht. apply tiles_app in Ht.
  destruct Ht as [_ Ht]. simpl in Ht. exact Ht.
Qed.

Lemma free_frees_blm x :
  In x (frees first blm)
  <-> x = p \/ In x (frees first (l1 ++ [(s, true)] ++ l2)).
Proof.
  unfold blm. rewrite !frees_app. fold p. simpl. rewrite !in_app_iff. simpl.
  intuition congruence.
Qed.

Lemma free_listed j x :
  0 <= j < LISTS -> In x (ls j) ->
  In x (frees first blm) /\ x <> p
  /\ (x + 2 * DSIZE <= p \/ p + s <= x).
Proof.
  intros Hj Hx. destruct Tp as [_ [H32 [_ [_ T2]]]].
  pose proof (heap_listed _ _ _ H j x Hj Hx) as Hf. fold first in Hf.
  assert (Hd : x + 2 * DSIZE <= p \/ p + s <= x).
  { rewrite frees_app in Hf. fold p in Hf. simpl in Hf.
    apply in_app_or in Hf. destruct Hf as [Hf|Hf].
    - destruct (frees_bounds _ _ _ _ T1 Hf). left. unfold p. lia.
    - destruct (frees_bounds _ _ _ _ T2 Hf). right. lia. }
  split; [apply free_frees_blm; auto|]. split; [|exact Hd].
  rewrite D in *. lia.
Qed.

Lemma free_mem_st :
  mem st = PUT (PUT (mem st0) (HDRP p) (PACK s 0)) (p + s - DSIZE) (PACK s 0).
Proof.
  destruct Tp as [Hs [H32 [Hh _]]].
  assert (Es : GET_SIZE (mem st0) (HDRP p) = s)
    by (apply (tag_size _ _ s true Hs); exact Hh).
  unfold st, mark_free. rewrite Es.
  cbn [mem put set_mem].
  assert (E1 : FTRP (PUT (mem st0) (HDRP p) (PACK s 0)) p = p + s - DSIZE).
  { unfold FTRP. rewrite GET_SIZE_PUT by auto. reflexivity. }
  rewrite E1. reflexivity.
Qed.

Lemma free_marked : coalescing fuel st ls first blm st ls.
Proof.
  destruct Tp as [Hs [H32 [Hh [Hf T2]]]].
  pose proof free_mem_st as Em.
  assert (P0 : 0 <= PACK s 0 < 2 ^ 64) by (apply PACK_word; auto).
  assert (Hout : forall b, ~ (p - WSIZE <= b < p) ->
                           ~ (p + s - DSIZE <= b < p + s - WSIZE) ->
                           mem st b = mem st0 b).
  { intros b H1 H2. rewrite Em.
    rewrite !PUT_outside by (unfold HDRP; rewrite W, D in *; lia). reflexivity. }
  constructor.
  - unfold blm. apply tiles_app. split.
    + apply (tiles_frame (mem st0)); [exact T1|].
      intros b Hb _. apply Hout; unfold p in *; rewrite W, D in *; lia.
    + fold p. cbn [tiles app Z.b2z]. split; [exact Hs|]. split; [exact H32|].
      split; [|split].
      * rewrite Em. rewrite GET_PUT_far by (unfold HDRP; rewrite W, D in *; lia).
        apply GET_PUT_ptr. exact P0.
      * rewrite Em. apply GET_PUT_ptr. exact P0.
      * apply (tiles_frame (mem st0)); [exact T2|].
        intros b Hb _. pose proof (tiles_span _ _ _ T2).
        apply Hout; rewrite W, D in *; lia.
  - apply (lists_ok_frame (p - WSIZE) (p + s - WSIZE) st0);
      [apply (ok_lists _ _ _ H)| | |reflexivity].
    + intros j a Hj Ha. destruct (free_listed j a Hj Ha) as [_ [_ Hd]].
      rewrite W, D in *. lia.
    + intros b Hb. apply Hout; rewrite W, D in *; lia.
  - apply (ok_sep _ _ _ H).
  - apply (ok_asc _ _ _ H).
  - intros j Hj. pose proof (heap_bucket_length _ _ _ H j Hj). lia.
  - auto.
  - auto.
  - repeat split.
Qed.

(** The size class recorded for a listed block. *)
Lemma free_listed_idx sK lsK j x :
  coalescing fuel st ls first blm sK lsK ->
  0 <= j < LISTS -> In x (lsK j) ->
  resolve_idx (mem sK) x (-1) = j.
Proof.
  intros HK Hj Hx.
  pose proof (co_sub _ _ _ _ _ _ _ HK j x Hj Hx) as Hx0.
  destruct (free_listed j x Hj Hx0) as [Hf [Hne Hd]].
  rewrite <- (ok_sizes _ _ _ H j x Hj Hx0).
  unfold resolve_idx. simpl. f_equal.
  apply GET_SIZE_keep. intros b Hb.
  destruct (frees_In_split _ _ _ Hf) as [la [sx [lb [E Ex]]]].
  assert (Hnl : ~ in_links (frees first blm) b).
  { apply (free_tags_not_links (mem st) blm first la sx false lb b
             (co_tiles _ _ _ _ _ _ _ free_marked) E).
    left. rewrite <- Ex. unfold HDRP in Hb. rewrite W in *. lia. }
  rewrite (co_frame _ _ _ _ _ _ _ HK b Hnl).
  destruct Tp as [_ [H32 _]].
  rewrite free_mem_st.
  rewrite !PUT_outside by (unfold HDRP in *; rewrite W, D in *; lia).
  reflexivity.
Qed.

(** Removing a listed block keeps the state coalescing. *)
Lemma free_remove sK lsK j x :
  coalescing fuel st ls first blm sK lsK ->
  0 <= j < LISTS -> In x (lsK j) ->
  coalescing fuel st ls first blm (mm_remove_fblock sK x (-1))
             (set_bucket lsK j (remove_block x (lsK j))).
Proof.
  intros HK Hj Hx.
  pose proof (free_listed_idx sK lsK j x HK Hj Hx) as Hidx.
  destruct (remove_spec sK lsK j x (-1) (co_lists _ _ _ _ _ _ _ HK)
              (co_sep _ _ _ _ _ _ _ HK) Hj Hx Hidx) as [Hok1 Hout1].
  assert (Hsub : forall i a, 0 <= i < LISTS ->
            In a (set_bucket lsK j (remove_block x (lsK j)) i) -> In a (lsK i)).
  { intros i a Hi Ha.
    apply (removed_listed lsK j x (co_sep _ _ _ _ _ _ _ HK) Hj Hx i a Hi) in Ha.
    tauto. }
  assert (Hfr : forall b, ~ in_links (frees first blm) b ->
                          mem (mm_remove_fblock sK x (-1)) b = mem sK b).
  { intros b Hb. apply Hout1. intros [a [Ha Hab]]. apply Hb. exists a.
    split; [|exact Hab].
    assert (Ha' : In a (lsK j)) by (eapply In_remove_block; eassumption).
    apply (free_listed j a Hj (co_sub _ _ _ _ _ _ _ HK j a Hj Ha')). }
  constructor.
  - apply (tiles_frame (mem sK)); [apply (co_tiles _ _ _ _ _ _ _ HK)|].
    intros b _ Hb. apply Hfr. exact Hb.
  - exact Hok1.
  - apply sep_buckets_remove. apply (co_sep _ _ _ _ _ _ _ HK).
  - intros i Hi. unfold set_bucket.
    destruct (Z.eqb_spec i j) as [->|_]; [|apply (co_asc _ _ _ _ _ _ _ HK); exact Hi].
    apply ascending_remove_block. apply (co_asc _ _ _ _ _ _ _ HK). exact Hi.
  - intros i Hi. pose proof (co_fuel _ _ _ _ _ _ _ HK i Hi) as Hl.
    unfold set_bucket. destruct (Z.eqb_spec i j) as [->|_]; [|exact Hl].
    pose proof (length_remove_block x (lsK j)). lia.
  - intros i a Hi Ha. apply (co_sub _ _ _ _ _ _ _ HK i a Hi). apply Hsub; assumption.
  - intros b Hb. rewrite Hfr by exact Hb. apply (co_frame _ _ _ _ _ _ _ HK). exact Hb.
  - destruct (co_arena _ _ _ _ _ _ _ HK) as [A1 [A2 [A3 A4]]].
    destruct (mm_remove_fblock_arena sK x (-1)) as [B1 [B2 [B3 B4]]].
    repeat split; congruence.
Qed.

(** The end of every case of [coalesce]: the free neighbours have been
    removed from their buckets, the boundary tags of the merged block
    [r] are written, and [r] is inserted.  [Bold] is the part of the
    heap that is merged, [B] the same part with the freed block marked
    free. *)
Lemma free_rebuild s2 ls2 s3 la Bold B lb total :
  coalescing fuel st ls first blm s2 ls2 ->
  l1 ++ [(s, true)] ++ l2 = la ++ Bold ++ lb ->
  blm = la ++ B ++ lb ->
  span B = total -> span Bold = total -> 2 * DSIZE <= total ->
  let r := first + span la in
  r <= p /\ p + s <= r + total ->
  (forall j x, 0 <= j < LISTS ->
     (In x (ls2 j) <-> In x (ls j) /\ ~ In x (frees r Bold))) ->
  GET (mem s3) (HDRP r) = PACK total 0 ->
  GET (mem s3) (r + total - DSIZE) = PACK total 0 ->
  (forall b, ~ (r - WSIZE <= b < r) ->
             ~ (r + total - DSIZE <= b < r + total - WSIZE) ->
             mem s3 b = mem s2 b) ->
  (forall i, free_lists s3 i = free_lists s2 i) ->
  same_arena s2 s3 ->
  last_alloc la = true -> first_alloc lb = true ->
  exists st' ls',
    mm_insert_fblock fuel s3 r (-1) = Some st'
    /\ heap_ok st' ls' (la ++ [(total, false)] ++ lb)
    /\ (forall b, live first la b \/ live (r + total) lb b ->
                  mem st' b = mem st0 b)
    /\ same_arena st0 st'.
Proof.
  intros HK Ebl Eblm EB EBold H32 r Hp Hls2 G1 G2 F3 L3 A3 Hla Hlb.
  pose proof (co_tiles _ _ _ _ _ _ _ HK) as Ht. rewrite Eblm in Ht.
  apply tiles_app in Ht. destruct Ht as [Ta Ht]. fold r in Ht.
  apply tiles_app in Ht. destruct Ht as [TB Tb]. rewrite EB in Tb.
  pose proof (tiles_span _ _ _ Ta) as Hsa.
  pose proof (tiles_span _ _ _ Tb) as Hsb.
  pose proof (ok_base _ _ _ H) as Hbase. pose proof (ok_max _ _ _ H) as Hmx.
  pose proof (ok_brk _ _ _ H) as Hbrk. fold first in Hbrk.
  rewrite Ebl, !span_app, EBold in Hbrk. fold r in Hbrk.
  assert (St : is_size total).
  { split; [change (2 ^ 64) with 18446744073709551616 in *;
            unfold r, first in *; rewrite D in *; lia|].
    rewrite <- EB. apply (tiles_span_mod _ _ _ TB). }
  assert (Pr : is_ptr r) by (unfold is_ptr, r, first in *; rewrite D in *; lia).
  (* the listed blocks lie outside the merged block *)
  assert (Hin2 : forall j a, 0 <= j < LISTS -> In a (ls2 j) ->
            In a (frees first la ++ frees (r + total) lb)
            /\ (a + 2 * DSIZE <= r \/ r + total <= a)).
  { intros j a Hj Ha. apply Hls2 in Ha; [|exact Hj]. destruct Ha as [Ha Hn].
    pose proof (heap_listed _ _ _ H j a Hj Ha) as Hf. fold first in Hf.
    rewrite Ebl, !frees_app in Hf. fold r in Hf. rewrite EBold in Hf.
    apply in_app_or in Hf. destruct Hf as [Hf|Hf].
    - split; [apply in_or_app; auto|].
      destruct (frees_bounds _ _ _ _ Ta Hf). left. unfold r. lia.
    - apply in_app_or in Hf. destruct Hf as [Hf|Hf]; [contradiction|].
      split; [apply in_or_app; auto|].
      destruct (frees_bounds _ _ _ _ Tb Hf). right. lia. }
  assert (Hc : clear_of (r - WSIZE) (r + total - WSIZE) ls2).
  { intros j a Hj Ha. destruct (Hin2 j a Hj Ha) as [_ Hd]. rewrite W, D in *. lia. }
  assert (Hok3 : lists_ok s3 ls2).
  { apply (lists_ok_frame (r - WSIZE) (r + total - WSIZE) s2);
      [apply (co_lists _ _ _ _ _ _ _ HK)|exact Hc| |exact L3].
    intros b Hb. apply F3; rewrite W, D in *; lia. }
  destruct (insert_tagged fuel s3 ls2 r total Hok3 (co_sep _ _ _ _ _ _ _ HK) Hc Pr H32
              (tag_size _ _ total false St G1)
              (co_asc _ _ _ _ _ _ _ HK) (co_fuel _ _ _ _ _ _ _ HK))
    as [st' [E [Hok' [Hout [B1 [B2 [B3 B4]]]]]]].
  set (k := mm_find_list_idx total) in *.
  set (ls' := set_bucket ls2 k (insert_policy k r (ls2 k))) in *.
  assert (Hk : 0 <= k < LISTS).
  { pose proof (mm_find_list_idx_range total). unfold k, LISTS. lia. }
  assert (Hfar : forall j a, 0 <= j < LISTS -> In a (ls2 j) -> far r a).
  { intros j a Hj Ha. destruct (Hin2 j a Hj Ha) as [_ Hd].
    unfold far. rewrite D in *. lia. }
  (* what the insertion leaves untouched *)
  assert (Hst' : forall b, ~ (r <= b < r + DSIZE) ->
             ~ in_links (frees first la ++ frees (r + total) lb) b ->
             mem st' b = mem s3 b).
  { intros b Hb Hl. apply Hout. intros [a [[<-|Ha] Hab]]; [tauto|].
    apply Hl. exists a. split; [apply (Hin2 k a Hk Ha)|exact Hab]. }
  assert (Hframe : forall b, ~ (r - WSIZE <= b < r + total - WSIZE) ->
             ~ in_links (frees first la ++ frees (r + total) lb) b ->
             mem st' b = mem st0 b).
  { intros b Hb Hl.
    rewrite Hst' by (rewrite ?W, ?D in *; auto; lia).
    rewrite F3 by (rewrite W, D in *; lia).
    rewrite (co_frame _ _ _ _ _ _ _ HK).
    - rewrite free_mem_st.
      destruct Tp as [_ [Hs32 _]].
      rewrite !PUT_outside by (unfold HDRP; rewrite W, D in *; lia). reflexivity.
    - rewrite Eblm, !frees_app. fold r. rewrite EB.
      intros [a [Ha Hab]]. apply in_app_or in Ha. destruct Ha as [Ha|Ha].
      + apply Hl. exists a. split; [apply in_or_app; auto|exact Hab].
      + apply in_app_or in Ha. destruct Ha as [Ha|Ha].
        * destruct (frees_bounds _ _ _ _ TB Ha). rewrite W, D in *. lia.
        * apply Hl. exists a. split; [apply in_or_app; auto|exact Hab]. }
  assert (H' : heap_ok st0 ls (la ++ Bold ++ lb)) by (rewrite <- Ebl; exact H).
  pose proof (ok_tiles _ _ _ H') as Ht0. fold first in Ht0.
  apply tiles_app in Ht0. destruct Ht0 as [_ Ht0]. fold r in Ht0.
  apply tiles_app in Ht0. destruct Ht0 as [TBold _].
  destruct (co_arena _ _ _ _ _ _ _ HK) as [C1 [C2 [C3 C4]]].
  destruct A3 as [A1 [A2 [A3 A4]]].
  assert (Z1 : heap_listp st = heap_listp st0) by reflexivity.
  assert (Z3 : mem_brk st = mem_brk st0) by reflexivity.
  assert (Z4 : mem_max_addr st = mem_max_addr st0) by reflexivity.
  assert (Espan : span [(total, false)] = span Bold) by (simpl; lia).
  assert (Hframe' : forall b,
             ~ (first + span la - WSIZE <= b
                < first + span la + span [(total, false)] - WSIZE) ->
             (span [(total, false)] <> span Bold -> b < first + span la - WSIZE) ->
             ~ in_links (frees first la
                         ++ frees (first + span la + span Bold) lb) b ->
             mem st' b = mem st0 b).
  { intros b Hb _ Hl. apply Hframe.
    - fold r in Hb. simpl in Hb. lia.
    - fold r in Hl. rewrite EBold in Hl. exact Hl. }
  assert (Htag : forall q, r - WSIZE <= q -> q + WSIZE <= r + total - WSIZE ->
                   q + WSIZE <= r \/ r + DSIZE <= q ->
                   GET (mem st') q = GET (mem s3) q).
  { intros q Q1 Q2 Q3. apply GET_keep. intros b Hb. apply Hst'.
    - rewrite W, D in *. lia.
    - intros [a [Ha Hab]]. apply in_app_or in Ha. destruct Ha as [Ha|Ha].
      + destruct (frees_bounds _ _ _ _ Ta Ha). unfold r in *. rewrite W, D in *. lia.
      + destruct (frees_bounds _ _ _ _ Tb Ha). rewrite W, D in *. lia. }
  assert (G1' : GET (mem st') (HDRP r) = PACK total 0).
  { rewrite Htag; [exact G1| | |]; unfold HDRP; rewrite W, D in *; lia. }
  assert (G2' : GET (mem st') (r + total - DSIZE) = PACK total 0).
  { rewrite Htag; [exact G2| | |]; rewrite W, D in *; lia. }
  exists st', ls'. split; [exact E|]. split; [|split].
  - apply (heap_rebuild st0 st' ls ls' la Bold [(total, false)] lb H').
    + congruence.
    + congruence.
    + rewrite Espan. lia.
    + lia.
    + left. exact Espan.
    + intro Hne. contradiction.
    + exact Hframe'.
    + fold first. fold r. simpl. auto.
    + exact Hok'.
    + apply sep_buckets_insert; [apply (co_sep _ _ _ _ _ _ _ HK)|exact Hk|exact Hfar].
    + intros j Hj. unfold ls', set_bucket.
      destruct (Z.eqb_spec j k) as [->|_];
        [|apply (co_asc _ _ _ _ _ _ _ HK); exact Hj].
      apply ascending_insert_policy;
        [intros _; apply (co_asc _ _ _ _ _ _ _ HK); exact Hj| |exact Hj].
      intro Hin. apply (far_neq r r); [|reflexivity]. apply (Hfar k); assumption.
    + intro x. fold first. fold r. simpl frees. rewrite EBold. split.
      * intros [j [Hj Hx]]. apply inserted_listed in Hx.
        destruct Hx as [[_ ->]|Hx]; [right; left; simpl; auto|].
        destruct (Hin2 j x Hj Hx) as [Hin _]. apply in_app_or in Hin. tauto.
      * assert (Hback : In x (frees first la) \/ In x (frees (r + total) lb) ->
                  exists j, 0 <= j < LISTS /\ In x (ls' j)).
        { intro Hx.
          assert (Hf : In x (frees first (la ++ Bold ++ lb))).
          { rewrite !frees_app. fold r. rewrite EBold. rewrite !in_app_iff. tauto. }
          apply (ok_listed _ _ _ H') in Hf. destruct Hf as [j [Hj Hin]].
          exists j. split; [exact Hj|]. apply inserted_listed. right.
          apply Hls2; [exact Hj|]. split; [exact Hin|].
          intro HB. destruct (frees_bounds _ _ _ _ TBold HB) as [Hlo Hhi].
          rewrite EBold in Hhi. destruct Hx as [Hx|Hx].
          - destruct (frees_bounds _ _ _ _ Ta Hx). unfold r in *. rewrite D in *. lia.
          - destruct (frees_bounds _ _ _ _ Tb Hx). rewrite D in *. lia. }
        intros [Hx|[[<-|[]]|Hx]]; [auto| |auto].
        exists k. split; [exact Hk|]. apply inserted_listed. auto.
    + intros j c Hj Hcj. fold first. fold r. simpl frees.
      apply inserted_listed in Hcj. destruct Hcj as [[-> ->]|Hcj].
      * left. split; [simpl; auto|].
        rewrite (tag_size _ _ total false St G1'). reflexivity.
      * right. split.
        -- intros [Er|[]]. apply (far_neq r c); [|exact Er].
           apply (Hfar j); assumption.
        -- apply Hls2 in Hcj; tauto.
    + pose proof (ok_pairs _ _ _ H') as Hp0.
      destruct (no_free_pair_app _ _ Hp0) as [Pa Pr0].
      destruct (no_free_pair_app _ _ Pr0) as [_ Pb].
      apply no_free_pair_join; [exact Pa| |left; exact Hla].
      simpl. split; [|exact Pb]. intros _.
      destruct lb as [|[sb [|]] lb']; auto. discriminate.
  - intros q Hq.
    apply (rebuild_live st0 st' ls la Bold [(total, false)] lb H'
             (or_introl Espan) Hframe').
    fold first. fold r. rewrite EBold. exact Hq.
  - assert (Z2 : mem_start_brk st = mem_start_brk st0) by reflexivity.
    repeat split; congruence.
Qed.

(** What [coalesce] reads about the block itself. *)
Lemma free_read_block sK lsK :
  coalescing fuel st ls first blm sK lsK ->
  GET (mem sK) (HDRP p) = PACK s 0
  /\ GET (mem sK) (p + s - DSIZE) = PACK s 0
  /\ GET_SIZE (mem sK) (HDRP p) = s
  /\ NEXT_BLKP (mem sK) p = p + s
  /\ FTRP (mem sK) p = p + s - DSIZE.
Proof.
  intro HK. pose proof (co_tiles _ _ _ _ _ _ _ HK) as Ht.
  destruct (tiles_at _ _ _ _ _ _ Ht) as [Hs [_ [Hh Hf]]]. fold p in Hh, Hf.
  assert (Es : GET_SIZE (mem sK) (HDRP p) = s) by (apply (tag_size _ _ s false Hs Hh)).
  split; [exact Hh|]. split; [exact Hf|]. split; [exact Es|].
  split; [unfold NEXT_BLKP; fold (HDRP p); rewrite Es; reflexivity|].
  unfold FTRP. rewrite Es. reflexivity.
Qed.

(** The left neighbour: allocated (or the prologue), or free. *)
Lemma free_prev_alloc :
  last_alloc l1 = true ->
  GET_ALLOC (mem st) (FTRP (mem st) (PREV_BLKP (mem st) p)) = 1.
Proof.
  intro Hl. pose proof (co_tiles _ _ _ _ _ _ _ free_marked) as Ht.
  destruct Tp as [_ [H32 _]].
  destruct (last_block l1) as [E|[l1' [ps [pa E]]]].
  - assert (Ep : p = heap_listp st0 + DSIZE).
    { unfold p, first. rewrite E. simpl. lia. }
    assert (S16 : is_size 16)
      by (split; [change (2 ^ 64) with 18446744073709551616; lia|reflexivity]).
    assert (Hkeep : forall q, q + WSIZE <= p - WSIZE ->
                      GET (mem st) q = GET (mem st0) q).
    { intros q Hq. rewrite free_mem_st. rewrite !GET_PUT_far; [reflexivity| |];
        unfold HDRP; rewrite W, D in *; lia. }
    assert (F : GET (mem st) (heap_listp st0) = PACK 16 1).
    { rewrite Hkeep by (rewrite W, D in *; lia). apply (ok_prologue_ftr _ _ _ H). }
    assert (Hh : GET (mem st) (HDRP (heap_listp st0)) = PACK 16 1).
    { rewrite Hkeep by (unfold HDRP; rewrite W, D in *; lia).
      apply (ok_prologue_hdr _ _ _ H). }
    assert (P : PREV_BLKP (mem st) p = heap_listp st0).
    { unfold PREV_BLKP. replace (p - DSIZE) with (heap_listp st0) by lia.
      rewrite (tag_size _ _ 16 true S16 F). lia. }
    rewrite P. unfold FTRP. rewrite (tag_size _ _ 16 true S16 Hh).
    replace (heap_listp st0 + 16 - DSIZE) with (heap_listp st0) by (rewrite D; lia).
    apply (tag_alloc _ _ 16 true S16 F).
  - rewrite E, last_alloc_app in Hl. subst pa.
    unfold blm in Ht. rewrite E, <- app_assoc in Ht.
    destruct (tiles_at _ _ _ _ _ _ Ht) as [Hs [Hps [Hh Hf]]].
    assert (Eq : first + span l1' = p - ps).
    { unfold p. rewrite E, span_app. simpl. lia. }
    rewrite Eq in Hh, Hf. replace (p - ps + ps - DSIZE) with (p - DSIZE) in Hf by lia.
    assert (P : PREV_BLKP (mem st) p = p - ps).
    { unfold PREV_BLKP. rewrite (tag_size _ _ ps true Hs Hf). reflexivity. }
    rewrite P. unfold FTRP. rewrite (tag_size _ _ ps true Hs Hh).
    replace (p - ps + ps - DSIZE) with (p - DSIZE) by lia.
    apply (tag_alloc _ _ ps true Hs Hf).
Qed.

Lemma free_prev_free l1' ps sK lsK :
  l1 = l1' ++ [(ps, false)] ->
  coalescing fuel st ls first blm sK lsK ->
  let q := first + span l1' in
  q = p - ps /\ is_size ps /\ 2 * DSIZE <= ps
  /\ GET (mem sK) (HDRP q) = PACK ps 0
  /\ GET (mem sK) (p - DSIZE) = PACK ps 0
  /\ PREV_BLKP (mem sK) p = q
  /\ GET_SIZE (mem sK) (HDRP q) = ps
  /\ FTRP (mem sK) q = p - DSIZE.
Proof.
  intros E HK q. pose proof (co_tiles _ _ _ _ _ _ _ HK) as Ht.
  unfold blm in Ht. rewrite E, <- app_assoc in Ht.
  destruct (tiles_at _ _ _ _ _ _ Ht) as [Hs [Hps [Hh Hf]]]. fold q in Hh, Hf.
  assert (Eq : q = p - ps).
  { unfold q, p. rewrite E, span_app. simpl. lia. }
  replace (q + ps - DSIZE) with (p - DSIZE) in Hf by lia.
  assert (Es : GET_SIZE (mem sK) (HDRP q) = ps) by apply (tag_size _ _ ps false Hs Hh).
  split; [exact Eq|]. split; [exact Hs|]. split; [exact Hps|].
  split; [exact Hh|]. split; [exact Hf|]. split; [|split; [exact Es|]].
  - unfold PREV_BLKP. rewrite (tag_size _ _ ps false Hs Hf). lia.
  - unfold FTRP. rewrite Es. lia.
Qed.

Lemma free_next_alloc :
  first_alloc l2 = true ->
  GET_ALLOC (mem st) (HDRP (NEXT_BLKP (mem st) p)) = 1.
Proof.
  intro Hl. destruct (free_read_block st ls free_marked) as [_ [_ [_ [En _]]]].
  rewrite En. pose proof (co_tiles _ _ _ _ _ _ _ free_marked) as Ht.
  destruct Tp as [_ [H32 _]].
  destruct (first_block l2) as [E2|[ns [na [l2' E2]]]].
  - pose proof (ok_brk _ _ _ H) as Hb. fold first in Hb.
    rewrite E2, !span_app in Hb. simpl in Hb.
    assert (Eb : HDRP (p + s) = mem_brk st0 - WSIZE) by (unfold HDRP, p; lia).
    assert (G : GET (mem st) (mem_brk st0 - WSIZE) = PACK 0 1).
    { rewrite <- (ok_epilogue _ _ _ H). rewrite free_mem_st.
      rewrite !GET_PUT_far; [reflexivity| |]; unfold HDRP, p; rewrite W, D in *; lia. }
    rewrite Eb. apply (tag_alloc _ _ 0 true zero_size G).
  - rewrite E2 in Hl. simpl in Hl. subst na.
    unfold blm in Ht. rewrite E2 in Ht.
    change (l1 ++ [(s, false)] ++ (ns, true) :: l2')
      with (l1 ++ [(s, false)] ++ [(ns, true)] ++ l2') in Ht.
    rewrite (app_assoc l1) in Ht.
    destruct (tiles_at _ _ _ _ _ _ Ht) as [Hs [_ [Hh _]]].
    rewrite span_app in Hh. simpl in Hh.
    replace (first + (span l1 + (s + 0))) with (p + s) in Hh by (unfold p; lia).
    apply (tag_alloc _ _ ns true Hs Hh).
Qed.

Lemma free_next_free ns l2' sK lsK :
  l2 = (ns, false) :: l2' ->
  coalescing fuel st ls first blm sK lsK ->
  let n := p + s in
  is_size ns /\ 2 * DSIZE <= ns
  /\ GET (mem sK) (HDRP n) = PACK ns 0
  /\ GET (mem sK) (n + ns - DSIZE) = PACK ns 0
  /\ GET_SIZE (mem sK) (HDRP n) = ns
  /\ FTRP (mem sK) n = n + ns - DSIZE.
Proof.
  intros E2 HK n. pose proof (co_tiles _ _ _ _ _ _ _ HK) as Ht.
  unfold blm in Ht. rewrite E2 in Ht.
  change (l1 ++ [(s, false)] ++ (ns, false) :: l2')
    with (l1 ++ [(s, false)] ++ [(ns, false)] ++ l2') in Ht.
  rewrite (app_assoc l1) in Ht.
  destruct (tiles_at _ _ _ _ _ _ Ht) as [Hs [Hns [Hh Hf]]].
  rewrite span_app in Hh, Hf. simpl in Hh, Hf.
  replace (first + (span l1 + (s + 0))) with n in Hh, Hf by (unfold n, p; lia).
  assert (Es : GET_SIZE (mem sK) (HDRP n) = ns) by apply (tag_size _ _ ns false Hs Hh).
  split; [exact Hs|]. split; [exact Hns|]. split; [exact Hh|]. split; [exact Hf|].
  split; [exact Es|]. unfold FTRP. rewrite Es. reflexivity.
Qed.

Lemma free_not_null : (p =? NULL) = false.
Proof.
  pose proof (ok_base _ _ _ H) as Hb.
  pose proof (tiles_span _ _ _ T1) as Hs.
  apply Z.eqb_neq. unfold p, first, NULL. rewrite D in *. lia.
Qed.

Lemma free_sizes_small : 0 <= span l1 /\ 0 <= span l2
  /\ first + span l1 + s + span l2 < 2 ^ 64.
Proof.
  destruct Tp as [_ [_ [_ [_ T2]]]].
  pose proof (tiles_span _ _ _ T1). pose proof (tiles_span _ _ _ T2).
  pose proof (ok_brk _ _ _ H) as Hb. fold first in Hb.
  rewrite !span_app in Hb. simpl in Hb.
  pose proof (ok_max _ _ _ H). lia.
Qed.

(** Case 1: both neighbours are allocated. *)
Lemma free_case1 :
  last_alloc l1 = true -> first_alloc l2 = true ->
  exists st' ls',
    mm_free fuel st0 p = Some st'
    /\ heap_ok st' ls' (l1 ++ [(s, false)] ++ l2)
    /\ (forall b, live first l1 b \/ live (p + s) l2 b -> mem st' b = mem st0 b)
    /\ same_arena st0 st'.
Proof.
  intros Hl1 Hl2. destruct Tp as [Hs [H32 _]].
  destruct (free_read_block st ls free_marked) as [Gh [Gf _]].
  destruct (free_rebuild st ls st l1 [(s, true)] [(s, false)] l2 s
              free_marked eq_refl eq_refl) as [st' [ls' [E [Hok [Hlive Har]]]]];
    try assumption; try reflexivity.
  - simpl. lia.
  - simpl. lia.
  - fold p. lia.
  - intros j x Hj. simpl. tauto.
  - repeat split.
  - exists st', ls'. fold p in E.
    split; [|split; [exact Hok|split; [exact Hlive|exact Har]]].
    unfold mm_free. rewrite free_not_null. fold st. unfold coalesce. cbv zeta.
    rewrite (free_prev_alloc Hl1), (free_next_alloc Hl2).
    change (negb (1 =? 0) && negb (1 =? 0)) with true. cbv iota.
    rewrite E. reflexivity.
Qed.

(** The two boundary tags of a merged block, written in either order. *)
Lemma free_tags_written sK a b total :
  is_size total -> a + WSIZE <= b \/ b + WSIZE <= a ->
  let s3 := put (put sK a (PACK total 0)) b (PACK total 0) in
  GET (mem s3) a = PACK total 0 /\ GET (mem s3) b = PACK total 0
  /\ (forall c, ~ (a <= c < a + WSIZE) -> ~ (b <= c < b + WSIZE) ->
                mem s3 c = mem sK c)
  /\ (forall i, free_lists s3 i = free_lists sK i)
  /\ same_arena sK s3.
Proof.
  intros Ht Hab s3.
  assert (Hw : 0 <= PACK total 0 < 2 ^ 64) by (apply PACK_word; auto).
  unfold s3. cbn [mem free_lists put set_mem].
  split; [|split; [|split; [|split]]].
  - rewrite GET_PUT_far by lia. apply GET_PUT_ptr. exact Hw.
  - apply GET_PUT_ptr. exact Hw.
  - intros c Ha Hb. rewrite !PUT_outside by lia. reflexivity.
  - reflexivity.
  - repeat split.
Qed.

Lemma free_merged_size t : 0 <= t -> t mod 16 = 0 ->
  first + t <= mem_brk st0 -> is_size t.
Proof.
  intros H0 Hm Hb. pose proof (ok_max _ _ _ H). pose proof (ok_base _ _ _ H).
  split; [|exact Hm]. unfold first in Hb. rewrite D in *. lia.
Qed.

(** Case 2: the right neighbour is free. *)
Lemma free_case2 ns l2' :
  last_alloc l1 = true -> l2 = (ns, false) :: l2' ->
  exists st' ls',
    mm_free fuel st0 p = Some st'
    /\ heap_ok st' ls' (l1 ++ [(s + ns, false)] ++ l2')
    /\ (forall b, live first l1 b \/ live (p + (s + ns)) l2' b ->
                  mem st' b = mem st0 b)
    /\ same_arena st0 st'.
Proof.
  intros Hl1 E2. destruct Tp as [Hs [H32 _]].
  destruct free_sizes_small as [Hp1 [Hp2 Hp3]].
  assert (Hn : In (p + s) (frees first (l1 ++ [(s, true)] ++ l2))).
  { rewrite E2, frees_app. apply in_or_app. right. fold p. simpl. left.
    reflexivity. }
  apply (ok_listed _ _ _ H) in Hn. destruct Hn as [j [Hj Hn]].
  pose proof (free_remove st ls j (p + s) free_marked Hj Hn) as HK1.
  destruct (free_read_block st ls free_marked) as [_ [_ [Es [En _]]]].
  destruct (free_next_free ns l2' st ls E2 free_marked)
    as [Hns [Hns32 [Gn _]]].
  destruct (free_read_block _ _ HK1) as [_ [_ [_ [En1 _]]]].
  destruct (free_next_free ns l2' _ _ E2 HK1) as [_ [_ [_ [_ [Es1 Ef1]]]]].
  pose proof (ok_pairs _ _ _ H) as Hpairs. rewrite E2 in Hpairs.
  change (l1 ++ [(s, true)] ++ (ns, false) :: l2')
    with (l1 ++ [(s, true)] ++ (ns, false) :: l2') in Hpairs.
  rewrite app_assoc in Hpairs.
  destruct (no_free_pair_split _ _ _ _ Hpairs eq_refl) as [_ Hl2'].
  assert (Hsp : span l2 = ns + span l2') by (rewrite E2; reflexivity).
  assert (Hl2s : 0 <= span l2').
  { pose proof (co_tiles _ _ _ _ _ _ _ free_marked) as Ht.
    unfold blm in Ht. rewrite E2 in Ht.
    apply tiles_app in Ht. destruct Ht as [_ Ht].
    apply tiles_app in Ht. destruct Ht as [_ Ht].
    simpl in Ht. destruct Ht as [_ [_ [_ [_ Ht]]]].
    apply (tiles_span _ _ _ Ht). }
  assert (Ht : is_size (s + ns)).
  { destruct Hs as [Hs0 Hsm]. destruct Hns as [Hn0 Hnm].
    pose proof (ok_base _ _ _ H) as Hbase. unfold first in Hp3.
    split; [rewrite D in *; lia|]. rewrite Z.add_mod, Hsm, Hnm by lia. reflexivity. }
  destruct (free_tags_written (mm_remove_fblock st (p + s) (-1))
              (p + s + ns - DSIZE) (HDRP p) (s + ns) Ht)
    as [G2 [G1 [F3 [L3 A3]]]].
  { unfold HDRP. rewrite W, D in *. lia. }
  destruct (free_rebuild _ _
              (put (put (mm_remove_fblock st (p + s) (-1))
                        (p + s + ns - DSIZE) (PACK (s + ns) 0))
                   (HDRP p) (PACK (s + ns) 0))
              l1 [(s, true); (ns, false)]
              [(s, false); (ns, false)] l2' (s + ns) HK1)
    as [st' [ls' [E [Hok [Hlive Har]]]]]; try assumption.
  - rewrite E2. reflexivity.
  - unfold blm. rewrite E2. reflexivity.
  - simpl. lia.
  - simpl. lia.
  - rewrite D in *. lia.
  - fold p. lia.
  - intros i x Hi. fold p. simpl.
    rewrite (removed_listed ls j (p + s) (ok_sep _ _ _ H) Hj Hn i x Hi).
    intuition congruence.
  - fold p. replace (p + (s + ns) - DSIZE) with (p + s + ns - DSIZE) by lia.
    exact G2.
  - fold p. intros b Hb1 Hb2. apply F3; unfold HDRP; rewrite W, D in *; lia.
  - exists st', ls'. fold p in E, Hlive.
    split; [|split; [exact Hok|split; [exact Hlive|exact Har]]].
    unfold mm_free. rewrite free_not_null. fold st. unfold coalesce. cbv zeta.
    rewrite (free_prev_alloc Hl1). rewrite En.
    rewrite (tag_alloc _ _ ns false Hns Gn).
    change (negb (1 =? 0) && negb (Z.b2z false =? 0)) with false.
    change (negb (1 =? 0) && (Z.b2z false =? 0)) with true. cbv iota.
    rewrite En1, Es1, Es, Ef1.
    rewrite (wrap64_small (s + ns)) by (destruct Ht; assumption).
    rewrite E. reflexivity.
Qed.

(** Case 3: the left neighbour is free. *)
Lemma free_case3 l1' ps :
  l1 = l1' ++ [(ps, false)] -> first_alloc l2 = true ->
  exists st' ls',
    mm_free fuel st0 p = Some st'
    /\ heap_ok st' ls' (l1' ++ [(ps + s, false)] ++ l2)
    /\ (forall b, live first l1' b \/ live (first + span l1' + (ps + s)) l2 b ->
                  mem st' b = mem st0 b)
    /\ same_arena st0 st'.
Proof.
  intros E1 Hl2. destruct Tp as [Hs [H32 _]].
  destruct free_sizes_small as [Hp1 [Hp2 Hp3]].
  set (q := first + span l1').
  assert (Hq : In q (frees first (l1 ++ [(s, true)] ++ l2))).
  { rewrite E1, <- app_assoc, frees_app. apply in_or_app. right. simpl. left.
    reflexivity. }
  apply (ok_listed _ _ _ H) in Hq. destruct Hq as [j [Hj Hq]].
  pose proof (free_remove st ls j q free_marked Hj Hq) as HK1.
  destruct (free_read_block st ls free_marked) as [_ [_ [Es _]]].
  destruct (free_prev_free l1' ps st ls E1 free_marked)
    as [Eq [Hps [Hps32 [_ [Gp [Pq [_ Fq]]]]]]].
  fold q in Eq, Pq, Fq.
  destruct (free_read_block _ _ HK1) as [_ [_ [_ [_ Ef1]]]].
  destruct (free_prev_free l1' ps _ _ E1 HK1) as [_ [_ [_ [_ [Gp1 [Pq1 [Es1 _]]]]]]].
  fold q in Pq1, Es1.
  pose proof (ok_pairs _ _ _ H) as Hpairs. rewrite E1, <- app_assoc in Hpairs.
  destruct (no_free_pair_split _ _ _ _ Hpairs eq_refl) as [Hl1' _].
  assert (Hsp : span l1 = span l1' + ps).
  { rewrite E1, span_app. simpl. lia. }
  assert (Hl1s : 0 <= span l1').
  { pose proof T1 as Ht. rewrite E1 in Ht. apply tiles_app in Ht.
    apply (tiles_span _ _ _ (proj1 Ht)). }
  assert (Ht : is_size (ps + s)).
  { destruct Hs as [Hs0 Hsm]. destruct Hps as [Hn0 Hnm].
    pose proof (ok_base _ _ _ H) as Hbase. unfold first in Hp3.
    split; [rewrite D in *; lia|].
    rewrite Z.add_mod, Hsm, Hnm by lia. reflexivity. }
  set (S1 := mm_remove_fblock st q (-1)) in *.
  destruct (free_tags_written S1 (p + s - DSIZE) (HDRP q) (ps + s) Ht)
    as [G2 [G1 [F3 [L3 A3]]]].
  { unfold HDRP. rewrite W, D in *. lia. }
  assert (P2 : PREV_BLKP (mem (put S1 (p + s - DSIZE) (PACK (ps + s) 0))) p = q).
  { unfold PREV_BLKP in *. cbn [mem put set_mem].
    rewrite GET_SIZE_PUT_far by (rewrite W, D in *; lia). exact Pq1. }
  assert (P3 : PREV_BLKP
                 (mem (put (put S1 (p + s - DSIZE) (PACK (ps + s) 0))
                           (HDRP q) (PACK (ps + s) 0))) p = q).
  { unfold PREV_BLKP in *. cbn [mem put set_mem].
    rewrite !GET_SIZE_PUT_far by (unfold HDRP; rewrite W, D in *; lia).
    exact Pq1. }
  destruct (free_rebuild S1 _
              (put (put S1 (p + s - DSIZE) (PACK (ps + s) 0))
                   (HDRP q) (PACK (ps + s) 0))
              l1' [(ps, false); (s, true)]
              [(ps, false); (s, false)] l2 (ps + s) HK1)
    as [st' [ls' [E [Hok [Hlive Har]]]]]; try assumption.
  - rewrite E1, <- app_assoc. reflexivity.
  - unfold blm. rewrite E1, <- app_assoc. reflexivity.
  - simpl. lia.
  - simpl. lia.
  - rewrite D in *. lia.
  - fold q. lia.
  - intros i x Hi. fold q. simpl.
    rewrite (removed_listed ls j q (ok_sep _ _ _ H) Hj Hq i x Hi).
    intuition congruence.
  - fold q. replace (q + (ps + s) - DSIZE) with (p + s - DSIZE) by lia.
    exact G2.
  - fold q. intros b Hb1 Hb2. apply F3; unfold HDRP; rewrite W, D in *; lia.
  - exists st', ls'. fold q in E, Hlive.
    split; [|split; [exact Hok|split; [exact Hlive|exact Har]]].
    unfold mm_free. rewrite free_not_null. fold st. unfold coalesce. cbv zeta.
    rewrite (free_next_alloc Hl2). rewrite Pq, Fq.
    rewrite (tag_alloc _ _ ps false Hps Gp).
    change (negb (Z.b2z false =? 0) && negb (1 =? 0)) with false.
    change (negb (Z.b2z false =? 0) && (1 =? 0)) with false.
    change ((Z.b2z false =? 0) && negb (1 =? 0)) with true. cbv iota.
    fold S1. rewrite Pq1, Es1, Es, Ef1.
    rewrite (wrap64_small (s + ps)) by (destruct Ht; lia).
    replace (s + ps) with (ps + s) by lia.
    rewrite P2, P3, E. reflexivity.
Qed.

(** Case 4: both neighbours are free. *)
Lemma free_case4 l1' ps ns l2' :
  l1 = l1' ++ [(ps, false)] -> l2 = (ns, false) :: l2' ->
  exists st' ls',
    mm_free fuel st0 p = Some st'
    /\ heap_ok st' ls' (l1' ++ [(ps + s + ns, false)] ++ l2')
    /\ (forall b, live first l1' b
                  \/ live (first + span l1' + (ps + s + ns)) l2' b ->
                  mem st' b = mem st0 b)
    /\ same_arena st0 st'.
Proof.
  intros E1 E2. destruct Tp as [Hs [H32 _]].
  destruct free_sizes_small as [Hp1 [Hp2 Hp3]].
  set (q := first + span l1').
  assert (Hq : In q (frees first (l1 ++ [(s, true)] ++ l2))).
  { rewrite E1, <- app_assoc, frees_app. apply in_or_app. right. simpl. left.
    reflexivity. }
  apply (ok_listed _ _ _ H) in Hq. destruct Hq as [jq [Hjq Hq]].
  assert (Hn : In (p + s) (frees first (l1 ++ [(s, true)] ++ l2))).
  { rewrite E2, frees_app. apply in_or_app. right. fold p. simpl. left.
    reflexivity. }
  apply (ok_listed _ _ _ H) in Hn. destruct Hn as [j [Hj Hn]].
  pose proof (free_remove st ls j (p + s) free_marked Hj Hn) as HKa.
  destruct (free_read_block st ls free_marked) as [_ [_ [Es [En _]]]].
  destruct (free_next_free ns l2' st ls E2 free_marked)
    as [Hns [Hns32 [Gn _]]].
  destruct (free_prev_free l1' ps st ls E1 free_marked)
    as [Eq [Hps [Hps32 [_ [Gp [Pq [_ Fq]]]]]]].
  fold q in Eq, Pq, Fq.
  set (Sa := mm_remove_fblock st (p + s) (-1)) in *.
  set (lsa := set_bucket ls j (remove_block (p + s) (ls j))) in *.
  destruct (free_prev_free l1' ps _ _ E1 HKa) as [_ [_ [_ [_ [_ [Pqa _]]]]]].
  fold q in Pqa.
  assert (Hqa : In q (lsa jq)).
  { apply (removed_listed ls j (p + s) (ok_sep _ _ _ H) Hj Hn jq q Hjq).
    split; [exact Hq|]. rewrite D in *. lia. }
  pose proof (free_remove Sa lsa jq q HKa Hjq Hqa) as HKb.
  set (Sb := mm_remove_fblock Sa q (-1)) in *.
  set (lsb := set_bucket lsa jq (remove_block q (lsa jq))) in *.
  destruct (free_read_block _ _ HKb) as [Ghb [_ [Esb [Enb _]]]].
  destruct (free_prev_free l1' ps _ _ E1 HKb) as [_ [_ [_ [_ [_ [Pqb [Eqb _]]]]]]].
  fold q in Pqb, Eqb.
  destruct (free_next_free ns l2' _ _ E2 HKb) as [_ [_ [Gnb [Gfb [_ Efb]]]]].
  pose proof (ok_pairs _ _ _ H) as Hpairs.
  pose proof Hpairs as Hpairs2.
  rewrite E1, <- app_assoc in Hpairs.
  destruct (no_free_pair_split _ _ _ _ Hpairs eq_refl) as [Hl1' _].
  rewrite E2, app_assoc in Hpairs2.
  destruct (no_free_pair_split _ _ _ _ Hpairs2 eq_refl) as [_ Hl2'].
  assert (Hsp1 : span l1 = span l1' + ps).
  { rewrite E1, span_app. simpl. lia. }
  assert (Hsp2 : span l2 = ns + span l2') by (rewrite E2; reflexivity).
  assert (Hl1s : 0 <= span l1').
  { pose proof T1 as Ht. rewrite E1 in Ht. apply tiles_app in Ht.
    apply (tiles_span _ _ _ (proj1 Ht)). }
  assert (Hl2s : 0 <= span l2').
  { destruct Tp as [_ [_ [_ [_ Ht]]]]. rewrite E2 in Ht. simpl in Ht.
    apply (tiles_span _ _ _ (proj2 (proj2 (proj2 (proj2 Ht))))). }
  assert (Hpn : is_size (ps + ns)).
  { destruct Hns as [Hn0 Hnm]. destruct Hps as [Hq0 Hqm].
    pose proof (ok_base _ _ _ H) as Hbase. unfold first in Hp3.
    split; [rewrite D in *; lia|].
    rewrite Z.add_mod, Hqm, Hnm by lia. reflexivity. }
  assert (Ht : is_size (ps + s + ns)).
  { destruct Hs as [Hs0 Hsm]. destruct Hpn as [Hn0 Hnm].
    pose proof (ok_base _ _ _ H) as Hbase. unfold first in Hp3.
    split; [rewrite D in *; lia|].
    replace (ps + s + ns) with (s + (ps + ns)) by lia.
    rewrite Z.add_mod, Hsm, Hnm by lia. reflexivity. }
  destruct (free_tags_written Sb (HDRP q) (p + s + ns - DSIZE) (ps + s + ns) Ht)
    as [G1 [G2 [F3 [L3 A3]]]].
  { unfold HDRP. rewrite W, D in *. lia. }
  assert (N2 : NEXT_BLKP (mem (put Sb (HDRP q) (PACK (ps + s + ns) 0))) p = p + s).
  { unfold NEXT_BLKP in *. cbn [mem put set_mem].
    rewrite GET_SIZE_PUT_far by (unfold HDRP; rewrite W, D in *; lia).
    exact Enb. }
  assert (F2 : FTRP (mem (put Sb (HDRP q) (PACK (ps + s + ns) 0))) (p + s)
               = p + s + ns - DSIZE).
  { unfold FTRP in *. cbn [mem put set_mem].
    rewrite GET_SIZE_PUT_far by (unfold HDRP; rewrite W, D in *; lia).
    exact Efb. }
  assert (P3 : PREV_BLKP
                 (mem (put (put Sb (HDRP q) (PACK (ps + s + ns) 0))
                           (p + s + ns - DSIZE) (PACK (ps + s + ns) 0))) p = q).
  { unfold PREV_BLKP in *. cbn [mem put set_mem].
    rewrite !GET_SIZE_PUT_far by (unfold HDRP; rewrite W, D in *; lia).
    exact Pqb. }
  destruct (free_rebuild Sb lsb
              (put (put Sb (HDRP q) (PACK (ps + s + ns) 0))
                   (p + s + ns - DSIZE) (PACK (ps + s + ns) 0))
              l1' [(ps, false); (s, true); (ns, false)]
              [(ps, false); (s, false); (ns, false)] l2' (ps + s + ns) HKb)
    as [st' [ls' [E [Hok [Hlive Har]]]]]; try assumption.
  - rewrite E1, E2, <- app_assoc. reflexivity.
  - unfold blm. rewrite E1, E2, <- app_assoc. reflexivity.
  - simpl. lia.
  - simpl. lia.
  - rewrite D in *. lia.
  - fold q. lia.
  - intros i x Hi. fold q. simpl.
    replace (q + ps + s) with (p + s) by lia.
    unfold lsb.
    rewrite (removed_listed lsa jq q (co_sep _ _ _ _ _ _ _ HKa) Hjq Hqa i x Hi).
    unfold lsa.
    rewrite (removed_listed ls j (p + s) (ok_sep _ _ _ H) Hj Hn i x Hi).
    intuition congruence.
  - fold q. replace (q + (ps + s + ns) - DSIZE) with (p + s + ns - DSIZE) by lia.
    exact G2.
  - fold q. intros b Hb1 Hb2. apply F3; unfold HDRP; rewrite W, D in *; lia.
  - exists st', ls'. fold q in E, Hlive.
    split; [|split; [exact Hok|split; [exact Hlive|exact Har]]].
    unfold mm_free. rewrite free_not_null. fold st. unfold coalesce. cbv zeta.
    rewrite En, Pq, Fq.
    rewrite (tag_alloc _ _ ps false Hps Gp), (tag_alloc _ _ ns false Hns Gn).
    change (negb (Z.b2z false =? 0) && negb (Z.b2z false =? 0)) with false.
    change (negb (Z.b2z false =? 0) && (Z.b2z false =? 0)) with false.
    change ((Z.b2z false =? 0) && negb (Z.b2z false =? 0)) with false.
    cbv iota.
    fold Sa. rewrite Pqa. fold Sb. rewrite Pqb, Enb, Efb, Eqb, Es.
    rewrite (tag_size _ _ ns false Hns Gfb).
    rewrite (wrap64_small (ps + ns)) by (destruct Hpn; assumption).
    rewrite (wrap64_small (s + (ps + ns))) by (destruct Ht; lia).
    replace (s + (ps + ns)) with (ps + s + ns) by lia.
    rewrite N2, F2, P3, E. reflexivity.
Qed.

(** The four cases together: the freed block ends up inside the free
    block [(t, false)] between [la] and [lb]. *)
Lemma free_all :
  exists st' ls' la t lb,
    mm_free fuel st0 p = Some st'
    /\ heap_ok st' ls' (la ++ [(t, false)] ++ lb)
    /\ same_arena st0 st'
    /\ first + span la <= p /\ p + s <= first + span la + t
    /\ allocs first (la ++ [(t, false)] ++ lb)
       = allocs first l1 ++ allocs (p + s) l2
    /\ (forall b, live first l1 b \/ live (p + s) l2 b ->
          live first (la ++ [(t, false)] ++ lb) b /\ mem st' b = mem st0 b).
Proof.
  destruct Tp as [Hs [H32 _]].
  destruct (last_alloc l1) eqn:L1; destruct (first_alloc l2) eqn:L2.
  - destruct (free_case1 L1 L2) as [st' [ls' [E [Hok [Hlive Har]]]]].
    exists st', ls', l1, s, l2. fold p.
    split; [exact E|]. split; [exact Hok|]. split; [exact Har|].
    split; [lia|]. split; [lia|]. split.
    + rewrite allocs_app. fold p. reflexivity.
    + intros b Hb. split; [|apply Hlive; exact Hb].
      rewrite live_app. fold p. simpl. tauto.
  - destruct (first_alloc_false _ L2) as [ns [l2' E2]].
    destruct (free_case2 ns l2' L1 E2) as [st' [ls' [E [Hok [Hlive Har]]]]].
    destruct (free_next_free ns l2' st ls E2 free_marked) as [_ [Hns _]].
    assert (Hl : forall b, live (p + s) l2 b <-> live (p + (s + ns)) l2' b).
    { intro b. rewrite E2. simpl.
      replace (p + s + ns) with (p + (s + ns)) by lia.
      split; [intros [[Hf _]|Hb]; [discriminate|exact Hb]|auto]. }
    exists st', ls', l1, (s + ns), l2'. fold p.
    split; [exact E|]. split; [exact Hok|]. split; [exact Har|].
    split; [lia|]. split; [rewrite D in *; lia|]. split.
    + rewrite allocs_app. fold p. rewrite E2. simpl.
      replace (p + s + ns) with (p + (s + ns)) by lia. reflexivity.
    + intros b Hb. rewrite Hl in Hb. split; [|apply Hlive; exact Hb].
      rewrite live_app. fold p. simpl. tauto.
  - destruct (last_alloc_false _ L1) as [l1' [ps E1]].
    destruct (free_case3 l1' ps E1 L2) as [st' [ls' [E [Hok [Hlive Har]]]]].
    destruct (free_prev_free l1' ps st ls E1 free_marked) as [Eq [_ [Hps _]]].
    assert (Hl : forall b, live first l1 b <-> live first l1' b).
    { intro b. rewrite E1, live_app. simpl.
      split; [intros [Hb|[[Hf _]|[]]]; [exact Hb|discriminate]|auto]. }
    exists st', ls', l1', (ps + s), l2.
    split; [exact E|]. split; [exact Hok|]. split; [exact Har|].
    split; [rewrite D in *; lia|]. split; [lia|]. split.
    + rewrite allocs_app. simpl. rewrite E1, allocs_app. simpl.
      rewrite app_nil_r.
      replace (first + span l1' + (ps + s)) with (p + s) by lia. reflexivity.
    + intros b Hb. rewrite Hl in Hb.
      replace (p + s) with (first + span l1' + (ps + s)) in Hb by lia.
      split; [|apply Hlive; exact Hb].
      rewrite live_app. simpl. tauto.
  - destruct (last_alloc_false _ L1) as [l1' [ps E1]].
    destruct (first_alloc_false _ L2) as [ns [l2' E2]].
    destruct (free_case4 l1' ps ns l2' E1 E2)
      as [st' [ls' [E [Hok [Hlive Har]]]]].
    destruct (free_prev_free l1' ps st ls E1 free_marked) as [Eq [_ [Hps _]]].
    destruct (free_next_free ns l2' st ls E2 free_marked) as [_ [Hns _]].
    assert (Hl : forall b, live first l1 b <-> live first l1' b).
    { intro b. rewrite E1, live_app. simpl.
      split; [intros [Hb|[[Hf _]|[]]]; [exact Hb|discriminate]|auto]. }
    assert (Hr : forall b, live (p + s) l2 b
                           <-> live (first + span l1' + (ps + s + ns)) l2' b).
    { intro b. rewrite E2. simpl.
      replace (p + s + ns) with (first + span l1' + (ps + s + ns)) by lia.
      split; [intros [[Hf _]|Hb]; [discriminate|exact Hb]|auto]. }
    exists st', ls', l1', (ps + s + ns), l2'.
    split; [exact E|]. split; [exact Hok|]. split; [exact Har|].
    split; [rewrite D in *; lia|]. split; [rewrite D in *; lia|]. split.
    + rewrite allocs_app. simpl. rewrite E1, allocs_app. simpl.
      rewrite app_nil_r. rewrite E2. simpl.
      replace (p + s + ns) with (first + span l1' + (ps + s + ns)) by lia.
      reflexivity.
    + intros b Hb. rewrite Hl, Hr in Hb.
      split; [|apply Hlive; exact Hb].
      rewrite live_app. simpl. tauto.
Qed.

End Free.

Lemma mm_free_heap fuel st ls bl p :
  heap_ok st ls bl ->
  In p (allocs (heap_listp st + DSIZE) bl) ->
  (length bl <= fuel)%nat ->
  let first := heap_listp st + DSIZE in
  let size := GET_SIZE (mem st) (HDRP p) in
  exists st' ls' bl',
    mm_free fuel st p = Some st'
    /\ heap_ok st' ls' bl'
    /\ same_arena st st'
    /\ (forall q, In q (allocs first bl') <-> In q (allocs first bl) /\ q <> p)
    /\ (exists la t lb, bl' = la ++ (t, false) :: lb
          /\ first + span la <= p /\ p + size <= first + span la + t)
    /\ (forall b, live first bl b -> ~ (p <= b < p + size - DSIZE) ->
          live first bl' b /\ mem st' b = mem st b).
Proof.
  intros H Hp Hfuel first size.
  assert (D : DSIZE = 16) by reflexivity.
  destruct (allocs_In_split _ _ _ Hp) as [l1 [s [l2 [E Ep]]]].
  fold first in Ep.
  change (l1 ++ (s, true) :: l2) with (l1 ++ [(s, true)] ++ l2) in E.
  subst bl.
  pose proof (ok_tiles _ _ _ H) as Ht. fold first in Ht.
  apply tiles_app in Ht. destruct Ht as [T1 Ht]. rewrite <- Ep in Ht.
  simpl in Ht. destruct Ht as [Hs [H32 [Gh [_ T2]]]].
  assert (Es : size = s) by (apply (tag_size _ _ s true Hs Gh)).
  destruct (free_all fuel st ls l1 l2 s H Hfuel)
    as [st' [ls' [la [t [lb [E [Hok [Har [Hlo [Hhi [Ea Hlive]]]]]]]]]]].
  fold first in E, Hlo, Hhi, Ea, Hlive. rewrite <- Ep in E, Hlo, Hhi, Ea, Hlive.
  exists st', ls', (la ++ [(t, false)] ++ lb).
  split; [exact E|]. split; [exact Hok|]. split; [exact Har|].
  split; [|split].
  - intro q. rewrite Ea, allocs_app. rewrite <- Ep. simpl.
    rewrite !in_app_iff. simpl. split.
    + intros [Hq|Hq].
      * split; [auto|]. destruct (allocs_bounds _ _ _ _ T1 Hq).
        rewrite D in *. lia.
      * split; [auto|]. destruct (allocs_bounds _ _ _ _ T2 Hq).
        rewrite D in *. lia.
    + intros [[Hq|[Hq|Hq]] Hne]; [auto|congruence|auto].
  - exists la, t, lb. rewrite Es. auto.
  - intros b Hb Hn. apply Hlive. rewrite live_app in Hb. rewrite <- Ep in Hb.
    simpl in Hb. rewrite Es in Hn. tauto.
Qed.

(** X11. [mm_free] of an allocated block of a well-formed heap returns,
    leaves the heap well formed and the arena bounds unchanged; the
    allocated blocks are the former ones without the freed one, which
    now lies inside a free block (merged with its free neighbours); the
    other allocated blocks keep every byte of their payloads. *)
Theorem mm_free_keeps_the_heap fuel st ls bl p :
  heap_ok st ls bl ->
  In p (allocs (heap_listp st + DSIZE) bl) ->
  (length bl <= fuel)%nat ->
  let first := heap_listp st + DSIZE in
  let size := GET_SIZE (mem st) (HDRP p) in
  exists st' ls' bl',
    mm_free fuel st p = Some st'
    /\ heap_ok st' ls' bl'
    /\ same_arena st st'
    /\ (forall q, In q (allocs first bl') <-> In q (allocs first bl) /\ q <> p)
    /\ (exists la t lb, bl' = la ++ (t, false) :: lb
          /\ first + span la <= p /\ p + size <= first + span la + t)
    /\ (forall b, live first bl b -> ~ (p <= b < p + size - DSIZE) ->
          live first bl' b /\ mem st' b = mem st b).
Proof. exact (mm_free_heap fuel st ls bl p). Qed.

(** ** The arena bounds under the list and block operations *)

Lemma same_arena_refl st : same_arena st st.
Proof. repeat split. Qed.

Lemma same_arena_trans a b c : same_arena a b -> same_arena b c -> same_arena a c.
Proof.
  intros [A1 [A2 [A3 A4]]] [B1 [B2 [B3 B4]]]. repeat split; congruence.
Qed.

Lemma same_arena_put st a v : same_arena st (put st a v).
Proof. repeat split. Qed.

Ltac split_matches E :=
  repeat match type of E with
         | context [match ?x with _ => _ end] =>
             lazymatch x with
             | context [match _ with _ => _ end] => fail
             | _ => destruct x
             end
         end.

Lemma mm_insert_fblock_arena fuel st bp idx st' :
  mm_insert_fblock fuel st bp idx = Some st' -> same_arena st st'.
Proof.
  unfold mm_insert_fblock. cbv zeta. intro E.
  split_matches E; try discriminate E;
    injection E as <-; repeat split.
Qed.

Lemma place_arena fuel st bp asize st' :
  place fuel st bp asize = Some st' -> same_arena st st'.
Proof.
  unfold place. cbv zeta. destruct (_ >=? _).
  - intro E. apply mm_insert_fblock_arena in E.
    destruct E as [E1 [E2 [E3 E4]]]. repeat split; assumption.
  - intro E. injection E as <-. repeat split.
Qed.

Lemma find_fit_loop_arena fuel asize : forall n st idx bp st',
  find_fit_loop n fuel st asize idx = Some (bp, st') -> same_arena st st'.
Proof.
  induction n as [|n IH]; intros st idx bp st'; simpl.
  - destruct (idx <? LISTS); [discriminate|].
    intro E. injection E as _ <-. apply same_arena_refl.
  - destruct (idx <? LISTS).
    + destruct (find_in_list _ _ _ _) as [b|]; [|discriminate].
      destruct (b =? NULL); [apply IH|].
      intro E. injection E as _ <-. apply mm_remove_fblock_arena.
    + intro E. injection E as _ <-. apply same_arena_refl.
Qed.

(** [mm_malloc] moves the end of the heap only. *)
Lemma mm_malloc_bounds fuel st size p st' :
  mm_malloc fuel st size = Some (p, st') ->
  heap_listp st' = heap_listp st /\ mem_max_addr st' = mem_max_addr st.
Proof.
  unfold mm_malloc. destruct (size =? 0).
  - intro E. injection E as _ <-. auto.
  - cbv zeta. unfold find_fit.
    destruct (find_fit_loop _ _ _ _ _) as [[b st1]|] eqn:F; [|discriminate].
    apply find_fit_loop_arena in F. destruct F as [F1 [_ [_ F4]]].
    destruct (negb (b =? NULL)).
    + destruct (place _ _ _ _) as [st2|] eqn:P; [|discriminate].
      apply place_arena in P. destruct P as [P1 [_ [_ P4]]].
      intro E. injection E as _ <-. split; congruence.
    + unfold extend_heap. cbv zeta. unfold mem_sbrk.
      destruct (_ || _).
      * simpl. intro E. injection E as _ <-. split; congruence.
      * match goal with
        | |- context [place ?f ?s ?b ?a] => destruct (place f s b a) eqn:P
        end.
        -- apply place_arena in P. destruct P as [P1 [_ [_ P4]]].
           simpl in P1, P4.
           destruct (_ =? NULL); intro E; injection E as _ <-;
             simpl; split; congruence.
        -- destruct (_ =? NULL); [|discriminate].
           intro E. injection E as _ <-. simpl. split; congruence.
Qed.

(** Every block takes at least thirty-two bytes. *)
Lemma tiles_length m bl : forall bp,
  tiles m bp bl -> 32 * Z.of_nat (length bl) <= span bl.
Proof.
  induction bl as [|[s a] bl IH]; intros bp Ht; [simpl; lia|].
  simpl in Ht. destruct Ht as [_ [H32 [_ [_ Ht]]]]. specialize (IH _ Ht).
  cbn [length span]. unfold DSIZE, WSIZE in *. lia.
Qed.

(** Allocated blocks of a tiling do not overlap. *)
Lemma allocs_apart m bl : forall bp p q,
  tiles m bp bl -> In p (allocs bp bl) -> In q (allocs bp bl) -> p < q ->
  p + GET_SIZE m (HDRP p) <= q.
Proof.
  induction bl as [|[s a] bl IH]; intros bp p q Ht Hp Hq Hlt; [destruct Hp|].
  simpl in Ht. destruct Ht as [Hs [H32 [Hh [_ Ht]]]].
  pose proof (tiles_span _ _ _ Ht) as Hsp.
  assert (Hrest : forall x, In x (allocs (bp + s) bl) -> bp + s <= x).
  { intros x Hx. apply (allocs_bounds _ _ _ _ Ht Hx). }
  simpl in Hp, Hq. destruct a.
  - destruct Hp as [<-|Hp]; destruct Hq as [<-|Hq].
    + lia.
    + rewrite (tag_size _ _ s true Hs Hh). apply Hrest. exact Hq.
    + specialize (Hrest _ Hp). unfold DSIZE, WSIZE in *. lia.
    + apply (IH (bp + s)); assumption.
  - apply (IH (bp + s)); assumption.
Qed.

(** ** Sequences of mm_malloc and mm_free calls *)

Section Traces.

Variables (fuel : nat) (hl mx : Z).
Hypothesis Hfuel : mx - hl <= 32 * Z.of_nat fuel.

(** The heap is well formed, and the pointers returned and not freed
    since are allocated blocks, two by two distinct. *)
Let tracked (st : state) (ptrs : list Z) (freed : list nat) : Prop :=
  exists ls bl,
    heap_ok st ls bl /\ heap_listp st = hl /\ mem_max_addr st = mx
    /\ (forall k, (k < length ptrs)%nat -> ~ In k freed ->
          nth k ptrs NULL = NULL
          \/ In (nth k ptrs NULL) (allocs (hl + DSIZE) bl))
    /\ (forall k k', (k < k' < length ptrs)%nat ->
          ~ In k freed -> ~ In k' freed -> nth k ptrs NULL <> NULL ->
          nth k ptrs NULL <> nth k' ptrs NULL).

Lemma tracked_length st ls bl :
  heap_ok st ls bl -> heap_listp st = hl -> mem_max_addr st = mx ->
  (length bl <= fuel)%nat.
Proof.
  intros H Ehl Emx.
  pose proof (tiles_length _ _ _ (ok_tiles _ _ _ H)) as Hl.
  pose proof (ok_brk _ _ _ H) as Hb. pose proof (ok_max _ _ _ H) as Hm.
  unfold DSIZE, WSIZE in *. lia.
Qed.

Lemma tracked_malloc st ptrs freed size :
  tracked st ptrs freed -> 0 <= size <= 2 ^ 64 - 32 ->
  exists p st', mm_malloc fuel st size = Some (p, st')
                /\ tracked st' (ptrs ++ [p]) freed.
Proof.
  intros [ls [bl [H [Ehl [Emx [Hin Hdis]]]]]] Hsize.
  assert (Hnew : forall p st' ls' bl',
            heap_ok st' ls' bl' -> heap_listp st' = hl -> mem_max_addr st' = mx ->
            (forall q, In q (allocs (hl + DSIZE) bl) -> In q (allocs (hl + DSIZE) bl')) ->
            (p = NULL \/ (In p (allocs (hl + DSIZE) bl')
                          /\ ~ In p (allocs (hl + DSIZE) bl))) ->
            tracked st' (ptrs ++ [p]) freed).
  { intros p st' ls' bl' H' Ehl' Emx' Hold Hp. exists ls', bl'.
    split; [exact H'|]. split; [exact Ehl'|]. split; [exact Emx'|].
    rewrite length_app. simpl. split.
    - intros k Hk Hf. destruct (Nat.eq_dec k (length ptrs)) as [->|Hne].
      + rewrite nth_middle. tauto.
      + rewrite app_nth1 by lia.
        destruct (Hin k ltac:(lia) Hf) as [E|E]; [left; exact E|right; auto].
    - intros k k' Hk Hf Hf' Hnn.
      rewrite app_nth1 in Hnn |- * by lia.
      destruct (Nat.eq_dec k' (length ptrs)) as [->|Hne].
      + rewrite nth_middle. destruct Hp as [->|[_ Hp]]; [exact Hnn|].
        intro E. apply Hp. rewrite <- E.
        destruct (Hin k ltac:(lia) Hf) as [E'|E']; [contradiction|exact E'].
      + rewrite app_nth1 by lia. apply Hdis; [lia|assumption..]. }
  destruct (Z.eq_dec size 0) as [->|Hnz].
  - exists NULL, st. split; [reflexivity|].
    apply (Hnew NULL st ls bl); auto.
  - destruct (mm_malloc_heap fuel st ls bl size H ltac:(lia)
                (tracked_length st ls bl H Ehl Emx))
      as [p [st' [E [[-> [-> _]]|[ls' [l1 [s [l2 R]]]]]]]].
    + exists NULL, st. split; [exact E|]. apply (Hnew NULL st ls bl); auto.
    + destruct R as [H' [_ [_ [_ [Hfresh [Hall _]]]]]].
      rewrite Ehl in Hfresh, Hall.
      destruct (mm_malloc_bounds _ _ _ _ _ E) as [B1 B2].
      exists p, st'. split; [exact E|].
      apply (Hnew p st' ls' (l1 ++ (s, true) :: l2)); try congruence; auto.
      * intros q Hq. apply Hall. auto.
      * right. split; [apply Hall; auto|exact Hfresh].
Qed.

Lemma tracked_free st ptrs freed k :
  tracked st ptrs freed -> ~ In k freed ->
  exists st', mm_free fuel st (nth k ptrs NULL) = Some st'
              /\ tracked st' ptrs (k :: freed).
Proof.
  intros [ls [bl [H [Ehl [Emx [Hin Hdis]]]]]] Hk.
  assert (Hsame : mm_free fuel st NULL = Some st) by reflexivity.
  assert (Hweak : tracked st ptrs (k :: freed)).
  { exists ls, bl. split; [exact H|]. split; [exact Ehl|]. split; [exact Emx|].
    split.
    - intros i Hi Hf. apply Hin; [exact Hi|]. intro. apply Hf. right. assumption.
    - intros i i' Hi Hf Hf'. apply Hdis; [exact Hi| |];
        intro; [apply Hf|apply Hf']; right; assumption. }
  destruct (Nat.lt_ge_cases k (length ptrs)) as [Hlt|Hge];
    [|rewrite nth_overflow by exact Hge; exists st; auto].
  destruct (Hin k Hlt Hk) as [E|Hp]; [rewrite E; exists st; auto|].
  set (p := nth k ptrs NULL) in *.
  assert (Hpn : p <> NULL).
  { rewrite <- Ehl in Hp.
    destruct (allocs_bounds _ _ _ _ (ok_tiles _ _ _ H) Hp) as [Hlo _].
    pose proof (ok_base _ _ _ H). unfold NULL, DSIZE, WSIZE in *. lia. }
  rewrite <- Ehl in Hp.
  destruct (mm_free_heap fuel st ls bl p H Hp (tracked_length st ls bl H Ehl Emx))
    as [st' [ls' [bl' [E [H' [[A1 [_ [_ A4]]] [Hall _]]]]]]].
  rewrite Ehl in Hall.
  exists st'. split; [exact E|]. exists ls', bl'.
  split; [exact H'|]. split; [congruence|]. split; [congruence|]. split.
  - intros i Hi Hf.
    assert (Hik : i <> k) by (intros ->; apply Hf; left; reflexivity).
    assert (Hfi : ~ In i freed) by (intro; apply Hf; right; assumption).
    destruct (Hin i Hi Hfi) as [Ei|Hi']; [left; exact Ei|].
    destruct (Z.eq_dec (nth i ptrs NULL) NULL) as [Ei|Hnn]; [left; exact Ei|].
    right. apply Hall. split; [exact Hi'|].
    destruct (Nat.lt_ge_cases i k) as [Hl|Hl].
    + apply (Hdis i k); try assumption. lia.
    + intro Ex. apply (Hdis k i); try assumption; [lia|]. symmetry. exact Ex.
  - intros i i' Hi Hf Hf'. apply Hdis; [exact Hi| |];
      intro; [apply Hf|apply Hf']; right; assumption.
Qed.

Lemma run_tracked : forall calls st ptrs freed,
  tracked st ptrs freed -> Forall plain_call calls ->
  NoDup (freed_by calls) ->
  (forall k, In k (freed_by calls) -> ~ In k freed) ->
  exists st' ptrs',
    run fuel calls st ptrs = Some (st', ptrs')
    /\ tracked st' ptrs' (rev (freed_by calls) ++ freed).
Proof.
  induction calls as [|c calls IH]; intros st ptrs freed Ht Hc Hnd Hfr.
  - exists st, ptrs. split; [reflexivity|exact Ht].
  - inversion Hc as [|c' calls' Hc1 Hc2]; subst.
    destruct c as [size|k|k size]; [| |contradiction].
    + destruct (tracked_malloc st ptrs freed size Ht Hc1) as [p [st' [E Ht']]].
      destruct (IH st' (ptrs ++ [p]) freed Ht' Hc2 Hnd Hfr)
        as [st2 [ptrs2 [R Ht2]]].
      exists st2, ptrs2. split; [|exact Ht2].
      cbn [run]. rewrite E. exact R.
    + cbn [freed_by] in Hnd, Hfr. inversion Hnd as [|k' r Hk Hnd']; subst.
      assert (Hkf : ~ In k freed) by (apply Hfr; left; reflexivity).
      destruct (tracked_free st ptrs freed k Ht Hkf) as [st' [E Ht']].
      destruct (IH st' ptrs (k :: freed) Ht' Hc2 Hnd') as [st2 [ptrs2 [R Ht2]]].
      { intros i Hi [<-|Hif]; [contradiction|].
        apply (Hfr i); [right; exact Hi|exact Hif]. }
      exists st2, ptrs2. split; [cbn [run]; rewrite E; exact R|].
      cbn [freed_by rev]. rewrite <- app_assoc. exact Ht2.
Qed.

End Traces.

(** X12. [mm_malloc] on a well-formed heap, for a request of
    [0 < size <= 2^64 - 32] bytes.  It returns [NULL] and changes
    nothing only when no free block from the bucket of the adjusted
    size on is large enough and the arena cannot grow by
    [max(asize, CHUNKSIZE)] bytes.  Otherwise it returns the payload
    address of a block that was not allocated before, now is, and
    holds at least [size] bytes of payload, at an address that is a
    multiple of sixteen; the heap is well formed again, from the same
    prologue on; the other allocated blocks are the same as before, and
    no byte of their payloads has changed. *)
Theorem mm_malloc_keeps_the_heap fuel st ls bl size :
  heap_ok st ls bl ->
  0 < size <= 2 ^ 64 - 32 ->
  (length bl <= fuel)%nat ->
  let first := heap_listp st + DSIZE in
  let asize := adjust_size size in
  exists p st',
    mm_malloc fuel st size = Some (p, st')
    /\ ((p = NULL /\ st' = st
         /\ mem_max_addr st < mem_brk st + MAX asize CHUNKSIZE
         /\ (forall j c, mm_find_list_idx asize <= j < LISTS -> In c (ls j) ->
               GET_SIZE (mem st) (HDRP c) < asize))
        \/ exists ls' l1 s l2,
             heap_ok st' ls' (l1 ++ (s, true) :: l2)
             /\ heap_listp st' = heap_listp st
             /\ p = first + span l1
             /\ p mod DSIZE = 0
             /\ size <= s - DSIZE
             /\ ~ In p (allocs first bl)
             /\ (forall q, In q (allocs first (l1 ++ (s, true) :: l2))
                           <-> q = p \/ In q (allocs first bl))
             /\ (forall b, live first bl b ->
                   live first (l1 ++ (s, true) :: l2) b
                   /\ mem st' b = mem st b)).
Proof.
  intros H Hsize Hfuel first asize.
  destruct (mm_malloc_heap fuel st ls bl size H Hsize Hfuel)
    as [p [st' [E [Hn|[ls' [l1 [s [l2 [H' R]]]]]]]]];
    exists p, st'; (split; [exact E|]); [left; exact Hn|].
  right. exists ls', l1, s, l2. split; [exact H'|].
  split; [apply (mm_malloc_bounds _ _ _ _ _ E)|].
  destruct R as [R1 [R2 [R3 [R4 [R5 [R6 _]]]]]].
  repeat (split; [assumption|]). exact R6.
Qed.

Lemma mm_malloc_keeps_the_heap_witness :
  exists p st',
    mm_malloc 128 (snd (mm_init (fresh 4096 4096))) 100 = Some (p, st')
    /\ p <> NULL /\ p mod DSIZE = 0
    /\ exists ls bl, heap_ok st' ls bl.
Proof.
  assert (Hok : heap_ok (snd (mm_init (fresh 4096 4096))) (fun _ => []) []).
  { apply (mm_init_heap (fresh 4096 4096)); vm_compute;
      first [reflexivity | intro H; discriminate H]. }
  destruct (mm_malloc_keeps_the_heap 128 _ _ _ 100 Hok)
    as [p [st' [E [[_ [_ [Hn _]]]|[ls' [l1 [s [l2 R]]]]]]]].
  - vm_compute. split; [reflexivity|intro H; discriminate H].
  - simpl. lia.
  - vm_compute in Hn. discriminate Hn.
  - destruct R as [H' [_ [Ep [Hal _]]]]. exists p, st'.
    split; [exact E|]. split; [|split; [exact Hal|]].
    + pose proof (ok_tiles _ _ _ H') as Ht. apply tiles_app in Ht.
      pose proof (tiles_span _ _ _ (proj1 Ht)) as Hs.
      pose proof (mm_malloc_bounds _ _ _ _ _ E) as [Eh _].
      rewrite Ep. unfold NULL. vm_compute heap_listp. unfold DSIZE, WSIZE. lia.
    + exists ls', (l1 ++ (s, true) :: l2). exact H'.
Defined.

Lemma mm_free_keeps_the_heap_witness :
  exists p st1 st2,
    mm_malloc 128 (snd (mm_init (fresh 4096 4096))) 100 = Some (p, st1)
    /\ mm_free 128 st1 p = Some st2
    /\ exists ls bl, heap_ok st2 ls bl.
Proof.
  assert (Hok : heap_ok (snd (mm_init (fresh 4096 4096))) (fun _ => []) []).
  { apply (mm_init_heap (fresh 4096 4096)); vm_compute;
      first [reflexivity | intro H; discriminate H]. }
  destruct (mm_malloc_heap 128 _ _ _ 100 Hok)
    as [p [st1 [E [[_ [_ [Hn _]]]|[ls' [l1 [s [l2 R]]]]]]]].
  - vm_compute. split; [reflexivity|intro H; discriminate H].
  - simpl. lia.
  - vm_compute in Hn. discriminate Hn.
  - destruct R as [H' [Ep _]].
    pose proof (mm_malloc_bounds _ _ _ _ _ E) as [Eh Em].
    destruct (mm_free_keeps_the_heap 128 st1 ls' (l1 ++ (s, true) :: l2) p H')
      as [st2 [ls2 [bl2 [F [H2 _]]]]].
    + rewrite allocs_app. apply in_or_app. right. simpl. left.
      rewrite Ep, Eh. reflexivity.
    + pose proof (tiles_length _ _ _ (ok_tiles _ _ _ H')) as Hl.
      pose proof (ok_brk _ _ _ H') as Hb. pose proof (ok_max _ _ _ H') as Hm.
      rewrite Em in Hm. rewrite Eh in Hb.
      vm_compute mem_max_addr in Hm. vm_compute heap_listp in Hb.
      unfold DSIZE, WSIZE in *. lia.
    + exists p, st1, st2. split; [exact E|]. split; [exact F|].
      exists ls2, bl2. exact H2.
Defined.

(** X13. The audit accepts every well-formed heap: [mm_check] returns
    [1] as soon as its fuel covers the two walks over the blocks. *)
Theorem mm_check_accepts_a_well_formed_heap fuel st ls bl :
  heap_ok st ls bl -> (2 * length bl + 1 <= fuel)%nat ->
  mm_check fuel st = Some 1.
Proof. intros H Hfuel. exact (mm_check_heap st ls bl H fuel Hfuel). Qed.

Lemma mm_check_accepts_a_well_formed_heap_witness :
  mm_check 1 (snd (mm_init (fresh 4096 4096))) = Some 1.
Proof.
  apply (mm_check_accepts_a_well_formed_heap 1 _ (fun _ => []) []).
  - apply (mm_init_heap (fresh 4096 4096)); vm_compute;
      first [reflexivity | intro H; discriminate H].
  - simpl. lia.
Defined.

(** X14. From [mm_init] on an empty arena at a multiple of sixteen,
    every sequence of [mm_malloc] calls (of at most [2^64 - 32] bytes)
    and [mm_free] calls that frees no returned pointer twice runs to
    its end, given fuel for the blocks that fit the arena.  The heap is
    well formed after it, so that [mm_check] returns [1]; the pointers
    returned and not freed are null or allocated blocks of the heap,
    two of them that are not null differ, and their blocks do not
    overlap. *)
Theorem malloc_free_traces_keep_the_heap fuel calls st0 :
  0 <= mem_brk st0 -> mem_brk st0 mod DSIZE = 0 ->
  mem_brk st0 + 4 * WSIZE <= mem_max_addr st0 -> mem_max_addr st0 < 2 ^ 64 ->
  plain calls ->
  mem_max_addr st0 - mem_brk st0 <= 32 * Z.of_nat fuel ->
  exists st ptrs ls bl,
    run fuel calls (snd (mm_init st0)) [] = Some (st, ptrs)
    /\ heap_ok st ls bl
    /\ mm_check (2 * fuel + 1) st = Some 1
    /\ (forall k, (k < length ptrs)%nat -> ~ In k (freed_by calls) ->
          nth k ptrs NULL = NULL
          \/ In (nth k ptrs NULL) (allocs (heap_listp st + DSIZE) bl))
    /\ (forall k k', (k < k' < length ptrs)%nat ->
          ~ In k (freed_by calls) -> ~ In k' (freed_by calls) ->
          nth k ptrs NULL <> NULL ->
          nth k ptrs NULL <> nth k' ptrs NULL)
    /\ (forall k k', (k < k' < length ptrs)%nat ->
          ~ In k (freed_by calls) -> ~ In k' (freed_by calls) ->
          let a := nth k ptrs NULL in
          let b := nth k' ptrs NULL in
          a <> NULL -> b <> NULL ->
          a + GET_SIZE (mem st) (HDRP a) <= b
          \/ b + GET_SIZE (mem st) (HDRP b) <= a).
Proof.
  intros H0 Hal Hroom Hmax [Hc Hnd] Hfuel.
  destruct (mm_init_heap st0 H0 Hal Hroom Hmax) as [_ Hok].
  destruct (mm_init_success st0 Hroom) as [s1 [E [Eh [_ [Eb [Em _]]]]]].
  rewrite E in Hok |- *. simpl snd in *.
  assert (Hf : mem_max_addr s1 - heap_listp s1 <= 32 * Z.of_nat fuel).
  { rewrite Eh, Em. unfold DSIZE, WSIZE. lia. }
  destruct (run_tracked fuel (heap_listp s1) (mem_max_addr s1) Hf
              calls s1 [] []) as [st [ptrs [R T]]]; try assumption.
  - exists (fun _ => []), []. split; [exact Hok|]. split; [reflexivity|].
    split; [reflexivity|]. split; simpl; intros; lia.
  - intros k _ [].
  - destruct T as [ls [bl [H [Ehl [Emx [Hin Hdis]]]]]].
    exists st, ptrs, ls, bl.
    assert (Hin' : forall k, (k < length ptrs)%nat -> ~ In k (freed_by calls) ->
              nth k ptrs NULL = NULL
              \/ In (nth k ptrs NULL) (allocs (heap_listp st + DSIZE) bl)).
    { intros k Hk Hn. rewrite Ehl. apply Hin; [exact Hk|].
      rewrite app_nil_r, <- in_rev. exact Hn. }
    assert (Hdis' : forall k k', (k < k' < length ptrs)%nat ->
              ~ In k (freed_by calls) -> ~ In k' (freed_by calls) ->
              nth k ptrs NULL <> NULL ->
              nth k ptrs NULL <> nth k' ptrs NULL).
    { intros k k' Hk Hn Hn'. apply Hdis; [exact Hk| |];
        rewrite app_nil_r, <- in_rev; assumption. }
    split; [exact R|]. split; [exact H|]. split; [|split; [|split]].
    + apply (mm_check_heap st ls bl H).
      pose proof (tracked_length fuel _ _ Hf st ls bl H Ehl Emx). lia.
    + exact Hin'.
    + exact Hdis'.
    + intros k k' Hk Hn Hn' a b Ha Hb.
      destruct (Hin' k ltac:(lia) Hn) as [|Hia]; [contradiction|].
      destruct (Hin' k' ltac:(lia) Hn') as [|Hib]; [contradiction|].
      fold a in Hia. fold b in Hib.
      pose proof (Hdis' k k' Hk Hn Hn' Ha) as Hne. fold a b in Hne.
      destruct (Z.lt_total a b) as [Hlt|[Heq|Hgt]]; [left| contradiction |right].
      * apply (allocs_apart _ _ _ _ _ (ok_tiles _ _ _ H) Hia Hib Hlt).
      * apply (allocs_apart _ _ _ _ _ (ok_tiles _ _ _ H) Hib Hia Hgt).
Qed.

Lemma malloc_free_traces_keep_the_heap_witness :
  exists st ptrs,
    run 128 [Malloc 100; Malloc 200; Free 0; Malloc 50; Free 1]
        (snd (mm_init (fresh 4096 4096))) [] = Some (st, ptrs)
    /\ mm_check (2 * 128 + 1) st = Some 1.
Proof.
  destruct (malloc_free_traces_keep_the_heap 128
              [Malloc 100; Malloc 200; Free 0; Malloc 50; Free 1]
              (fresh 4096 4096))
    as [st [ptrs [ls [bl [R [_ [C _]]]]]]].
  - vm_compute. intro H. discriminate H.
  - reflexivity.
  - vm_compute. intro H. discriminate H.
  - reflexivity.
  - split.
    + repeat constructor; vm_compute; intro H; discriminate H.
    + simpl. repeat constructor; simpl; intuition discriminate.
  - vm_compute. intro H. discriminate H.
  - exists st, ptrs. split; [exact R|exact C].
Defined.

(** ** mm_realloc of the last block *)

Lemma to_int_small d : 0 <= d < 2 ^ 31 -> to_int d = d.
Proof.
  intro H. unfold to_int. rewrite Z.mod_small; [lia|].
  change (2 ^ 31) with 2147483648 in *. change (2 ^ 32) with 4294967296. lia.
Qed.

Section ReallocLast.

Variables (fuel : nat) (st : state) (ls : buckets).
Variables (l1 : list (Z * bool)) (s size : Z).
Hypothesis H : heap_ok st ls (l1 ++ [(s, true)] ++ []).
Hypothesis Hsize : 0 < size <= 2 ^ 64 - 32.

Let first := heap_listp st + DSIZE.
Let p := first + span l1.
Let asize := adjust_size size.
Let d := asize - s.
Let bp := mem_brk st.

Hypothesis Hgrow : s < asize.
Hypothesis Hint : d < 2 ^ 31.

Let W : WSIZE = 8 := eq_refl.
Let D : DSIZE = 16 := eq_refl.

Let T1 : tiles (mem st) first l1.
Proof.
  pose proof (ok_tiles _ _ _ H) as Ht. apply tiles_app in Ht. tauto.
Qed.

Let Tp : is_size s /\ 2 * DSIZE <= s
         /\ GET (mem st) (HDRP p) = PACK s 1
         /\ GET (mem st) (p + s - DSIZE) = PACK s 1.
Proof.
  pose proof (ok_tiles _ _ _ H) as Ht. apply tiles_app in Ht.
  destruct Ht as [_ Ht]. simpl in Ht. tauto.
Qed.

Let Ebrk : p + s = bp.
Proof.
  pose proof (ok_brk _ _ _ H) as Hb. rewrite span_app in Hb. simpl in Hb.
  unfold p, first, bp. lia.
Qed.

Lemma realloc_last_sizes :
  is_size asize /\ is_size d /\ DSIZE <= d /\ 0 < d / WSIZE
  /\ WSIZE * (d / WSIZE + (d / WSIZE) mod 2) = d.
Proof.
  destruct (adjust_size_spec size Hsize) as [Ma [A32 [Alo Ahi]]].
  fold asize in Ma, A32, Alo, Ahi.
  destruct Tp as [[Hs Ms] [S32 _]].
  assert (Sa : is_size asize).
  { split; [|exact Ma]. change (2 ^ 64) with 18446744073709551616 in *.
    rewrite D in *. lia. }
  assert (Md : d mod 16 = 0).
  { unfold d. rewrite Zminus_mod, Ma, Ms. reflexivity. }
  pose proof (Z.div_mod d 16 ltac:(lia)) as Hd. rewrite Md in Hd.
  assert (Hd0 : 0 < d) by (unfold d; lia).
  assert (Eq : d / 8 = d / 16 * 2).
  { replace d with (d / 16 * 2 * 8) at 1 by lia. apply Z.div_mul. lia. }
  split; [exact Sa|]. split; [|split; [rewrite D; lia|]].
  - split; [|exact Md]. destruct Sa as [Sa _]. unfold d. lia.
  - rewrite W, Eq, Z.mod_mul by lia. lia.
Qed.

(** The dispatch of [mm_realloc] reaches the extension of the heap. *)
Lemma realloc_last_dispatch :
  mm_realloc fuel st p size
  = let '(r, st1) := extend_heap st (d / WSIZE) in
    if r =? NULL then Some (NULL, st1)
    else
      let st2 := put st1 (FTRP (mem st1) (NEXT_BLKP (mem st1) p))
                     (PACK (wrap64 (GET_SIZE (mem st1) (HDRP p) + d)) 1) in
      Some (p, put st2 (HDRP p)
                   (PACK (wrap64 (GET_SIZE (mem st2) (HDRP p) + d)) 1)).
Proof.
  destruct realloc_last_sizes as [Sa [[Hd _] _]].
  destruct Tp as [Hs [S32 [Gh _]]].
  pose proof (ok_base _ _ _ H) as Hbase.
  pose proof (tiles_span _ _ _ T1) as Hsp.
  assert (Es : GET_SIZE (mem st) (HDRP p) = s) by apply (tag_size _ _ s true Hs Gh).
  assert (En : NEXT_BLKP (mem st) p = bp).
  { unfold NEXT_BLKP. fold (HDRP p). rewrite Es. exact Ebrk. }
  assert (Ge : GET (mem st) (HDRP bp) = PACK 0 (Z.b2z true))
    by apply (ok_epilogue _ _ _ H).
  unfold mm_realloc. cbv zeta. fold asize.
  destruct (Z.eqb_spec size 0) as [|_]; [lia|].
  destruct (Z.eqb_spec p NULL) as [Ep|_];
    [unfold p, first, NULL in *; rewrite D in *; lia|].
  rewrite Es, En.
  destruct (Z.ltb_spec asize s) as [|_]; [lia|].
  rewrite (tag_alloc _ _ 0 true zero_size Ge), (tag_size _ _ 0 true zero_size Ge).
  change (Z.b2z true =? 0) with false. cbn [andb].
  change (0 =? 0) with true. cbv iota. fold d.
  rewrite (wrap64_small d) by exact Hd.
  rewrite (to_int_small d) by lia.
  rewrite (wrap64_small d) by exact Hd.
  reflexivity.
Qed.

(** Without room the call returns [NULL] and changes nothing. *)
Lemma realloc_last_full :
  mem_max_addr st < bp + d -> mm_realloc fuel st p size = Some (NULL, st).
Proof.
  intro Hfull. destruct realloc_last_sizes as [_ [[Hd _] [_ [Hw Ew]]]].
  rewrite realloc_last_dispatch.
  rewrite (extend_heap_full st (d / WSIZE) Hw ltac:(rewrite Ew; lia)
             ltac:(rewrite Ew; exact Hfull)).
  reflexivity.
Qed.

(** With room the block grows in place. *)
Lemma realloc_last_grown :
  bp + d <= mem_max_addr st ->
  exists st',
    mm_realloc fuel st p size = Some (p, st')
    /\ heap_ok st' ls (l1 ++ [(asize, true)])
    /\ mem_brk st' = bp + d
    /\ (forall b, live first (l1 ++ [(s, true)]) b -> mem st' b = mem st b).
Proof.
  intro Hroom.
  destruct realloc_last_sizes as [Sa [Sd [Hd16 [Hw Ew]]]].
  destruct (adjust_size_spec size Hsize) as [_ [A32 _]]. fold asize in A32.
  destruct Tp as [Hs [S32 [Gh Gf]]].
  pose proof (ok_base _ _ _ H) as Hbase. pose proof (ok_max _ _ _ H) as Hm.
  pose proof (tiles_span _ _ _ T1) as Hsp.
  destruct (extend_heap_spec st (d / WSIZE) Hw
              ltac:(rewrite Ew; apply Sd) ltac:(rewrite Ew; exact Hroom))
    as [st1 [X [G1 [G2 [G3 [B1 [B2 [B3 [B4 [Fl Hout]]]]]]]]]].
  rewrite Ew in G1, G2, G3, B1, Hout. fold bp in X, G1, G2, G3, B1, Hout.
  assert (Es1 : GET_SIZE (mem st1) (HDRP p) = s).
  { rewrite <- (tag_size _ _ s true Hs Gh). apply GET_SIZE_keep.
    intros b Hb. apply Hout; unfold HDRP in *; rewrite W, D in *; lia. }
  assert (En1 : NEXT_BLKP (mem st1) p = bp).
  { unfold NEXT_BLKP. fold (HDRP p). rewrite Es1. exact Ebrk. }
  assert (Ef1 : FTRP (mem st1) bp = bp + d - DSIZE).
  { unfold FTRP. rewrite (tag_size _ _ d false Sd G1). reflexivity. }
  assert (Ead : wrap64 (s + d) = asize).
  { replace (s + d) with asize by (unfold d; lia). apply wrap64_small, Sa. }
  assert (Wa : 0 <= PACK asize 1 < 2 ^ 64) by (apply PACK_word; auto).
  set (st2 := put st1 (bp + d - DSIZE) (PACK asize 1)).
  assert (Es2 : GET_SIZE (mem st2) (HDRP p) = s).
  { unfold st2. cbn [mem put set_mem].
    rewrite GET_SIZE_PUT_far by (unfold HDRP; rewrite W, D in *; lia).
    exact Es1. }
  set (st3 := put st2 (HDRP p) (PACK asize 1)).
  assert (R : mm_realloc fuel st p size = Some (p, st3)).
  { rewrite realloc_last_dispatch, X.
    destruct (Z.eqb_spec bp NULL) as [Eb|_];
      [unfold bp, NULL in *; rewrite <- Ebrk in Eb; unfold p, first in Eb;
       rewrite D in *; lia|].
    cbv zeta. rewrite En1, Ef1, Es1, Ead. fold st2. rewrite Es2, Ead.
    reflexivity. }
  assert (G1' : GET (mem st3) (HDRP p) = PACK asize 1).
  { unfold st3. cbn [mem put set_mem]. apply GET_PUT_ptr. exact Wa. }
  assert (G2' : GET (mem st3) (p + asize - DSIZE) = PACK asize 1).
  { unfold st3, st2. cbn [mem put set_mem].
    rewrite GET_PUT_far by (unfold HDRP; rewrite W, D in *; lia).
    replace (p + asize - DSIZE) with (bp + d - DSIZE) by (unfold d; lia).
    apply GET_PUT_ptr. exact Wa. }
  assert (G3' : GET (mem st3) (p + asize - WSIZE) = PACK 0 1).
  { unfold st3, st2. cbn [mem put set_mem].
    rewrite !GET_PUT_far by (unfold HDRP, d; rewrite W, D in *; lia).
    replace (p + asize - WSIZE) with (bp + d - WSIZE) by (unfold d; lia).
    exact G3. }
  assert (F3 : forall b, b < p - WSIZE -> mem st3 b = mem st b).
  { intros b Hb. unfold st3, st2. cbn [mem put set_mem].
    rewrite !PUT_outside by (unfold HDRP, d; rewrite W, D in *; lia).
    apply Hout; rewrite W, D in *; lia. }
  assert (Fp : forall b, p <= b < p + s - WSIZE -> mem st3 b = mem st b).
  { intros b Hb. unfold st3, st2. cbn [mem put set_mem].
    rewrite !PUT_outside by (unfold HDRP, d; rewrite W, D in *; lia).
    apply Hout; rewrite W, D in *; lia. }
  assert (Hbelow : forall j a, 0 <= j < LISTS -> In a (ls j) ->
            In a (frees first l1) /\ a + 2 * DSIZE <= p).
  { intros j a Hj Ha. pose proof (heap_listed _ _ _ H j a Hj Ha) as Hf.
    fold first in Hf. rewrite frees_app in Hf. simpl in Hf.
    rewrite app_nil_r in Hf. split; [exact Hf|].
    destruct (frees_bounds _ _ _ _ T1 Hf) as [_ Hhi]. unfold p. lia. }
  set (B' := [(asize, true)]).
  assert (EB : span B' = asize) by (simpl; lia).
  assert (EB0 : span [(s, true)] = s) by (simpl; lia).
  assert (Hspan : span B' = span [(s, true)] \/ @nil (Z * bool) = [])
    by (right; reflexivity).
  assert (Hframe' : forall q,
             ~ (first + span l1 - WSIZE <= q < first + span l1 + span B' - WSIZE) ->
             (span B' <> span [(s, true)] -> q < first + span l1 - WSIZE) ->
             ~ in_links (frees first l1
                         ++ frees (first + span l1 + span [(s, true)]) []) q ->
             mem st3 q = mem st q).
  { intros q _ Hlow _. apply F3. apply Hlow. rewrite EB, EB0. lia. }
  exists st3. split; [exact R|]. split; [|split].
  - change (heap_ok st3 ls (l1 ++ B' ++ [])).
    apply (heap_rebuild st st3 ls ls l1 [(s, true)] B' [] H).
    + unfold st3, st2. cbn [heap_listp put set_mem]. exact B4.
    + unfold st3, st2. cbn [mem_max_addr put set_mem]. exact B3.
    + unfold st3, st2. cbn [mem_brk put set_mem]. rewrite B1, EB, EB0.
      unfold d, bp. lia.
    + unfold st3, st2. cbn [mem_brk mem_max_addr put set_mem].
      rewrite B1, B3. exact Hroom.
    + exact Hspan.
    + intros _. fold first. fold p. rewrite EB. exact G3'.
    + exact Hframe'.
    + fold first. fold p. simpl.
      repeat split; first [assumption | apply Sa].
    + apply (lists_ok_frame (p - WSIZE) (bp + d) st);
        [apply (ok_lists _ _ _ H)| | |].
      * intros j a Hj Ha. destruct (Hbelow j a Hj Ha). rewrite W, D in *. lia.
      * intros b Hb.
        destruct (Z.lt_ge_cases b (p - WSIZE)) as [Hlt|Hge]; [apply F3; exact Hlt|].
        unfold st3, st2. cbn [mem put set_mem].
        rewrite !PUT_outside by (unfold HDRP, d; rewrite W, D in *; lia).
        apply Hout; rewrite W, D in *; lia.
      * intro j. unfold st3, st2. cbn [free_lists put set_mem]. apply Fl.
    + apply (ok_sep _ _ _ H).
    + apply (ok_asc _ _ _ H).
    + intro x. fold first. fold p. simpl frees. split.
      * intros [j [Hj Hx]]. left. apply (Hbelow j x Hj Hx).
      * intros [Hx|[[]|[]]]. apply (ok_listed _ _ _ H).
        rewrite frees_app. simpl. rewrite app_nil_r. exact Hx.
    + intros j c Hj Hc. fold first. fold p. simpl frees.
      right. split; [intros []|exact Hc].
    + pose proof (ok_pairs _ _ _ H) as Hp0.
      destruct (no_free_pair_app _ _ Hp0) as [Pa _].
      apply no_free_pair_join; [exact Pa| |right; reflexivity].
      simpl. repeat split; auto; discriminate.
  - unfold st3, st2. cbn [mem_brk put set_mem]. exact B1.
  - intros b Hb. rewrite live_app in Hb. destruct Hb as [Hb|Hb].
    + apply (rebuild_live st st3 ls l1 [(s, true)] B' [] H Hspan Hframe').
      left. exact Hb.
    + fold p in Hb. simpl in Hb. destruct Hb as [[_ Hb]|[]].
      apply Fp. rewrite W, D in *. lia.
Qed.

End ReallocLast.

(** X15. [mm_realloc] of the last block of a well-formed heap to a
    larger size, the adjusted size [asize] exceeding the block's size
    [s] by less than [2^31].  With room in the arena the heap is
    extended by [asize - s] bytes and the block grows in place: the
    call returns the same pointer, the heap is well formed with the
    same free lists, and no payload byte of an allocated block has
    changed.  Without room the call returns [NULL] and changes
    nothing. *)
Theorem mm_realloc_extends_the_last_block fuel st ls l1 s size :
  heap_ok st ls (l1 ++ [(s, true)]) ->
  0 < size <= 2 ^ 64 - 32 ->
  let first := heap_listp st + DSIZE in
  let p := first + span l1 in
  let asize := adjust_size size in
  s < asize -> asize - s < 2 ^ 31 ->
  (mem_max_addr st < mem_brk st + (asize - s) ->
   mm_realloc fuel st p size = Some (NULL, st))
  /\ (mem_brk st + (asize - s) <= mem_max_addr st ->
      exists st',
        mm_realloc fuel st p size = Some (p, st')
        /\ heap_ok st' ls (l1 ++ [(asize, true)])
        /\ mem_brk st' = mem_brk st + (asize - s)
        /\ (forall b, live first (l1 ++ [(s, true)]) b ->
                      mem st' b = mem st b)).
Proof.
  intros H Hsize first p asize Hgrow Hint. split.
  - apply (realloc_last_full fuel st ls l1 s size H Hsize Hgrow Hint).
  - apply (realloc_last_grown fuel st ls l1 s size H Hsize Hgrow Hint).
Qed.

Lemma mm_realloc_extends_the_last_block_witness :
  exists st1 st2,
    extend_heap (snd (mm_init (fresh 4096 4096))) (128 / WSIZE) = (4128, st1)
    /\ place 1 st1 4128 128 = Some st2
    /\ let p := heap_listp st2 + DSIZE in
       mm_realloc 1 st2 p 200 = Some (NULL, st2)
       \/ exists st3, mm_realloc 1 st2 p 200 = Some (p, st3).
Proof.
  assert (Hok : heap_ok (snd (mm_init (fresh 4096 4096))) (fun _ => []) []).
  { apply (mm_init_heap (fresh 4096 4096)); vm_compute;
      first [reflexivity | intro H; discriminate H]. }
  assert (Sa : is_size 128) by (split; [vm_compute; split; [intro H; discriminate H|reflexivity]|reflexivity]).
  destruct (grow_whole 1 _ _ _ 128 Hok Sa) as [st1 [st2 [X [P [H2 _]]]]].
  - vm_compute. intro H. discriminate H.
  - simpl. lia.
  - vm_compute. intro H. discriminate H.
  - vm_compute. reflexivity.
  - exists st1, st2. split; [exact X|]. split; [exact P|].
    destruct (mm_realloc_extends_the_last_block 1 st2 _ [] 128 200 H2)
      as [Hfull Hgrown].
    + vm_compute. split; [reflexivity|intro H; discriminate H].
    + vm_compute. reflexivity.
    + vm_compute. reflexivity.
    + cbv zeta. simpl span in Hfull, Hgrown. rewrite Z.add_0_r in Hfull, Hgrown.
      destruct (Z.lt_ge_cases (mem_max_addr st2)
                  (mem_brk st2 + (adjust_size 200 - 128))) as [Hlt|Hge].
      * left. apply Hfull. exact Hlt.
      * right. destruct (Hgrown Hge) as [st3 [R _]]. exists st3. exact R.
Defined.

(** ** Inserting and removing the same block *)

Lemma remove_block_insert_sorted x l :
  ~ In x l -> remove_block x (insert_sorted x l) = l.
Proof.
  induction l as [|y l IH]; simpl; intro Hx.
  - rewrite Z.eqb_refl. reflexivity.
  - destruct (x <? y); simpl.
    + rewrite Z.eqb_refl. reflexivity.
    + destruct (Z.eqb_spec y x) as [->|_]; [tauto|].
      rewrite IH by tauto. reflexivity.
Qed.

Lemma remove_block_insert_policy i x l :
  ~ In x l -> remove_block x (insert_policy i x l) = l.
Proof.
  intro Hx. unfold insert_policy. destruct (i >? _).
  - apply remove_block_insert_sorted. exact Hx.
  - simpl. rewrite Z.eqb_refl. reflexivity.
Qed.

(** X16. Insertion and removal are inverse on the lists: when block
    [bp] is inserted into well-formed free lists whose blocks lie clear
    of its header and link words, and then removed again, every bucket
    holds the blocks it held before, in the same order; in between,
    [bp] is in the bucket of its size, and the two calls write link
    words of [bp] and of the blocks of that bucket only. *)
Theorem insert_then_remove_restores_the_lists fuel st ls bp :
  lists_ok st ls -> sep_buckets ls -> is_ptr bp ->
  clear_of (bp - WSIZE) (bp + DSIZE) ls ->
  (forall j, 7 < j -> ascending (ls j)) ->
  (forall j, 0 <= j < LISTS -> (length (ls j) <= fuel)%nat) ->
  let i := mm_find_list_idx (GET_SIZE (mem st) (HDRP bp)) in
  exists st1,
    mm_insert_fblock fuel st bp (-1) = Some st1
    /\ lists_ok st1 (set_bucket ls i (insert_policy i bp (ls i)))
    /\ lists_ok (mm_remove_fblock st1 bp (-1)) ls
    /\ same_outside (in_links (bp :: ls i)) (mem st)
                    (mem (mm_remove_fblock st1 bp (-1))).
Proof.
  intros Hok Hsep Hp Hc Hasc Hfuel i.
  assert (W : WSIZE = 8) by reflexivity.
  assert (D : DSIZE = 16) by reflexivity.
  assert (Hi : 0 <= i < LISTS).
  { pose proof (mm_find_list_idx_range (GET_SIZE (mem st) (HDRP bp))).
    unfold i, LISTS. lia. }
  assert (Hfar : forall j a, 0 <= j < LISTS -> In a (ls j) -> far bp a).
  { intros j a Hj Ha. destruct (Hc j a Hj Ha); unfold far; rewrite W, D in *; lia. }
  assert (Hnew : ~ In bp (ls i)).
  { intro Hin. apply (far_neq bp bp); [apply (Hfar i); assumption|reflexivity]. }
  assert (Hres : forall m, GET_SIZE m (HDRP bp) = GET_SIZE (mem st) (HDRP bp) ->
                    resolve_idx m bp (-1) = i).
  { intros m Em. unfold resolve_idx. change (-1 =? -1) with true. cbv iota.
    rewrite Em. reflexivity. }
  clearbody i.
  destruct (insert_spec fuel st ls i bp (-1) Hok Hsep Hi (Hres _ eq_refl) Hp Hfar)
    as [st1 [E [Hok1 [Hout1 _]]]].
  { intro Hgt. apply Hasc. change (Z.quot (LISTS - 1) 2) with 7 in Hgt. lia. }
  { apply Hfuel. exact Hi. }
  set (ls1 := set_bucket ls i (insert_policy i bp (ls i))) in *.
  assert (Hin1 : In bp (ls1 i)).
  { apply inserted_listed. left. split; reflexivity. }
  assert (Hidx : resolve_idx (mem st1) bp (-1) = i).
  { apply Hres. apply GET_SIZE_keep.
    intros b Hb. apply Hout1. intros [a [[<-|Ha] Hab]].
    - unfold HDRP in Hb. rewrite W, D in *. lia.
    - destruct (Hc i a Hi Ha); unfold HDRP in Hb; rewrite W, D in *; lia. }
  destruct (remove_spec st1 ls1 i bp (-1) Hok1
              (sep_buckets_insert ls i bp Hsep Hi Hfar) Hi Hin1 Hidx)
    as [Hok2 Hout2].
  assert (El : remove_block bp (ls1 i) = ls i).
  { unfold ls1, set_bucket. rewrite Z.eqb_refl.
    apply remove_block_insert_policy. exact Hnew. }
  exists st1. split; [exact E|]. split; [exact Hok1|]. split.
  - intros j Hj. specialize (Hok2 j Hj). unfold set_bucket in Hok2.
    destruct (Z.eqb_spec j i) as [Eji|Hne].
    + subst j. rewrite El in Hok2. exact Hok2.
    + unfold ls1, set_bucket in Hok2.
      destruct (Z.eqb_spec j i) as [|_]; [contradiction|]. exact Hok2.
  - intros b Hb. rewrite Hout2.
    + apply Hout1. exact Hb.
    + rewrite El. intros [a [Ha Hab]]. apply Hb. exists a.
      split; [right; exact Ha|exact Hab].
Qed.

Lemma insert_then_remove_restores_the_lists_witness :
  exists st1,
    mm_insert_fblock 20 left_free_heap 4192 (-1) = Some st1
    /\ lists_ok (mm_remove_fblock st1 4192 (-1)) left_free_buckets.
Proof.
  destruct (insert_then_remove_restores_the_lists
              20 left_free_heap left_free_buckets 4192)
    as [st1 [E [_ [Hok _]]]].
  - apply lists_okb_sound. vm_compute. reflexivity.
  - apply separatedb_all_blocks. vm_compute. reflexivity.
  - vm_compute. split; reflexivity.
  - apply clear_ofb_sound. vm_compute. reflexivity.
  - intros j Hj. unfold left_free_buckets.
    destruct (Z.eqb_spec j 1) as [->|_]; [lia|exact I].
  - intros j Hj. unfold left_free_buckets. destruct (j =? 1); simpl; lia.
  - exists st1. split; [exact E|exact Hok].
Defined.

(** ** The copy fallback of mm_realloc on a well-formed heap *)







